(* ===== verification/_CoqProject ===== *)
-Q . S2P
Prelude.v
Endian.v
StringPiece.v
Buffer.v
Lines.v
Format.v
Timestamp.v
OrdSet.v
TimerQueue.v
Channel.v
Poller.v
EPollPoller.v
PollPoller.v
EventLoop.v
TcpConnection.v
ConnFrame.v
ConnStream.v
ConnPoller.v
Framing.v
LengthCodec.v
Chat.v
Hub.v
HubSim.v
HubClient.v
IdleWheel.v
Connector.v
Http.v
HttpTypes.v
HttpServer.v
EventLoopThreadPool.v
InetAddress.v
Acceptor.v
TcpServer.v
Date.v
Calendar.v
TimeZone.v
Threading.v
Sockets.v
TcpClient.v
TcpClientLife.v
FileUtil.v
ProcessInfo.v
Sync.v
Monitor.v
MemStore.v
Memcached.v
MemSession.v
FastCgi.v
LoopLife.v
ServerLife.v
ServerPoller.v
HttpExchange.v
HttpSystem.v
