(* ===== verification/Prelude.v ===== *)
(** * EventLoop: a verification development

    The program is a C++ network library in the reactor style: a loop per
    thread waits for events of descriptors, timers and functors queued by other
    threads, and runs callbacks; TCP connections, a connector, a server and an
    HTTP server are built on it.  The sources are src/src/, and for the five
    example systems src/tests/; every file below names the ones it models.

    ** The parts and their models

    - Prelude: the vocabulary.  [outcome] is the result of code that can abort:
      the library is built with assertions on, so a failed assert is a value
      ([AssertFailed]), as are the exceptions and the undefined accesses the
      code could make.  Machine integers, bytes, list slices with integer
      indices, loops over lists ([for_each]), partial correctness up to a named
      failure ([unless]) and histories whose every step is permitted
      ([guarded]).
    - Endian, StringPiece, Format: byte order, the string view with its strlen
      constructors, snprintf and IEEE doubles.
    - Lines: finding characters and line ends, as the text protocols do.
    - Buffer (Buffer.h/.cpp): a vector of bytes with two indices.  [repr b s]
      says that the readable bytes are [s]; every operation is shown to act on
      [s] as on a byte string.
    - Timestamp, OrdSet, TimerQueue (Timer, TimerId, TimerQueue): two ordered
      sets over a heap of timers; the heap makes a use of a freed timer visible.
    - Channel, Poller, EPollPoller, PollPoller: a channel is an object in a store
      shared with the poller and the loop.  [PollerOps] has the virtual
      functions and [PollerSpec] the contract, an abstract registry from
      descriptors to channels and masks; the two pollers are its instances
      (the epoll system calls are the class [Epoll]).
    - EventLoop: module [Threads] is the loop against other threads as a step
      relation at the granularity of the mutex and of the wakeup descriptor;
      section [Iteration] is one turn of the loop over any [PollerSpec].
    - TcpConnection: the state machine of a connection with its buffers, its
      channel, the functors queued for it and the callbacks it has run.  The
      kernel (write, readv) and the user's callbacks are parameters.  A ghost
      log has the calls it makes on its channel.  ConnFrame (what each operation
      leaves alone), ConnStream (the bytes sent and to be sent) and ConnPoller
      (the log run on any [PollerSpec]) are its libraries for the clients below.
    - Framing, LengthCodec, Chat (tests/chat): the class [Framing] of protocols
      that cut a stream into messages, whose laws give independence of
      segments; the length-prefixed codec as its instance; the chat server and
      client over it.
    - Hub, HubSim, HubClient (tests/hub): the publish-subscribe server and the
      messages of its client; the abstract room of subscriptions and the
      simulation; the message handler of the client.
    - IdleWheel (tests/idleconnection): the echo server that shuts idle
      connections down with a timing wheel of shared entries.
    - MemStore, Memcached, MemSession (tests/memcached/server): the items and the
      sharded store of the memcached server; its sessions, with tokens that are
      slices of the input buffer; the protocol, as requests and the replies of one
      map, and the session against it.  malloc, hash_range and the tokenizer
      (class [Tokenizer]) are parameters.
    - FastCgi (tests/fastcgi): the record codec, the test server, and the function
      on byte strings they implement.
    - Connector: outgoing connections with back-off, and who owns each socket.
    - Http, HttpTypes, HttpServer: the incremental request parser on a [Buffer]
      and the response printer; the typing invariant of requests and contexts;
      the handlers of the server on a [TcpConnection].
    - InetAddress, Acceptor: addresses as 28 bytes of memory, the socket calls
      over a kernel interface with [errno], and the accepting channel.
    - EventLoopThreadPool, TcpServer: the pool of loops and the server, which
      owns connections that take the steps of TcpConnection in any order.
    - Date, Calendar, TimeZone: day numbers, the class Date and its order, UTC
      time, transition tables, zone files and local time.
    - Threading (CountDownLatch, Thread, EventLoopThread): the start handshakes,
      joining and the destructors as step relations.
    - Sockets: the socket wrappers that read errors, addresses and TCP_INFO.
    - TcpClient, TcpClientLife: the client with its connector, the slot of its
      connection and the functors and timers that outlive it; the second file
      has the invariant of its histories.
    - LoopLife, ServerLife: construction and destruction of a loop over any
      [PollerSpec], the thread-local loop pointer (module [Registry]), and the
      destructor of a server over its connections.
    - HttpExchange: the class HttpServer over [TcpServer], and the handler of
      readable events with the HTTP callbacks, run over whole exchanges.
    - ServerPoller, HttpSystem: compositions.  The connections of a server on the
      pollers of its loops; the whole HTTP server, with a context per connection
      and steps of all connections in any order.
    - FileUtil, ProcessInfo: appending to and reading files, directory scans and
      the parsing of /proc, over the answers of the system calls.
    - Sync (MutexLock, Condition, Atomic, CurrentThread, WeakCallback,
      Exception): the mutex with its recorded holder as a step relation, atomic
      integers, thread-local data, weak callbacks, the stack trace.
    - Monitor: the condition with its wait set, and monitors with every pthread
      call as a step of its own; [CountDownLatch] and the handshake of
      [startLoop] are instances that refine the atomic ones of Threading.

    A definition carries the name of the C++ function where that is possible;
    where a function runs on the thread of the loop or on another one, the
    second case has the suffix [_foreign].  A system call or a function outside
    src/ is a parameter or a class, with what the code relies on as hypotheses,
    and an instance or a witness shows that they can hold.

    ** What the theorems show

    - Safety of histories: the timer queue, a connection, the connector, a loop
      turn, an HTTP session, a client, a server and a whole HTTP server never fail an assertion or
      use a dead object, in any sequence of permitted steps
      ([timerqueue_reachable_safe], [connection_lifecycle],
      [connector_owns_sockets], [loop_turn_safe], [http_session_safe],
      [client_life], [server_registry], [http_server_safe]).
    - Ends: destroying a loop gives back exactly its descriptors ([loop_life]),
      destroying a client and a server deals with every connection
      ([client_life], [server_destruction]).
    - Threads: functors run once and in order, no wakeup is lost, every turn
      ends ([functors_fifo_once], [no_lost_wakeup], [iteration_runs_pending]);
      the handshakes that start a thread and a loop ([thread_start_handshake],
      [startLoop_handshake]), also at the level of pthreads, without deadlock
      ([latch_at_pthreads], [startLoop_at_pthreads]); mutual exclusion and the
      recorded holder ([mutex_exclusion]); one loop per thread ([one_loop_per_thread]).
    - Types: the contexts an HTTP session can reach are well formed
      ([context_types]).
    - Refinement: buffers refine byte strings ([buffer_history_refinement]), the
      two pollers refine the registry ([epoll_simulates_registry],
      [poll_simulates_registry]), the parser on a buffer refines a parser of
      byte strings, so that segmentation does not matter
      ([parse_segmentation]); the channel calls of a server's connections keep
      every poller in step with them ([server_on_pollers]); the hub refines a
      room of subscriptions ([hub_simulation]); the sharded store and the sessions
      of the memcached server refine one map from keys to entries
      ([store_history], [memcached_session]).
    - Functional behaviour: expiration and cancellation of timers, the bytes of a
      connection in order, the answers of the HTTP server to requests that
      arrive in any segments ([http_exchange]), the delivery of chat messages
      ([chat_delivery]) and of posts ([subscriber_hears]), the exact idle time ([idle_wheel_exact]), round robin, zone
      lookup, back-off, bounds of the timer descriptor, the contents of files,
      the order of dates.
    - Round trips: requests, integers, addresses, dates, zone files, the records
      of a FastCGI request and its answer ([fastcgi_exchange]).
    - Defects: where the code does not do what it means to, a theorem says what
      it does ([handleWrite_never_drains], [earlier_timer_does_not_rearm],
      [bad_request_then_abort], [accept_failure_ignored],
      [forceCloseWithDelay_does_not_close], [poll_keeps_channels],
      [utc_time], [startLoop_handshake], [reconnect_aborts],
      [client_names_collide], [readFile_stale_error], [wait_leaves_holder],
      [second_loop_clears_pointer], [server_destruction],
      [startLoop_sleeps_for_ever], [client_cannot_subscribe],
      [chat_client_write_lost], [memcached_aborts], [asks_noreply_never],
      [long_name_lost], [pipelined_requests_merge]).

    ** Bounds and fuel

    Nine loops have fuel.  [Http.parseRequest] has states without exit.  One
    pass consumes at least one byte of the input in the other states, so one
    pass per readable byte and one more is enough
    ([parseRequest_termination]); [run_parse] gives that much.  The loops of
    [FileUtil.append] and [read_loop] call the kernel until all is done: one call
    per byte, and one more, is enough ([append_complete], [readFile_contents]).
    The message loops [codec_loop], [hub_loop] and [ps_loop] consume at least one byte per
    pass and get one pass per readable byte and one more; so do [session_loop] on an ASCII session
    (on a binary one the code loops for ever), [parse_records] and, on a stream of less than
    2 GB, [parseAllParams].
    Everything else is total.  Lengths are bounded by the maximal size of a
    vector: an operation that would exceed it ends in [LengthError], the one
    failure the theorems on byte streams leave open ([too_long]); those on timers leave open
    [BadAlloc] ([oom]).

    ** What is not modelled

    The plain wrappers of connect, read, write, readv, getpid, getuid and sysconf
    (they are the parameters of their callers), flushing a stream, the cast
    templates, printing, and the example programs under src/tests/ other than the
    chat, the hub, the timing wheel, the memcached server and the FastCGI server: they
    echo, count or print, or stand on libraries that are not in src/ (c-ares, gd). *)

From stdpp Require Export base list strings gmap sorting relations.
From Stdlib Require Export ZArith Lia Ascii.
From Stdlib Require String.

Declare Scope ev_scope.
Delimit Scope ev_scope with ev.
Global Open Scope Z_scope.

(** ** Outcomes

    The program is built without [NDEBUG], so a failed [assert] aborts the
    process.  An operation that can abort, throw or touch memory outside its
    vector returns an [outcome]. *)

Inductive failure : Type :=
| AssertFailed      (** a C [assert] whose condition is false *)
| LengthError       (** [std::length_error] thrown by a container *)
| OutOfBounds       (** an access outside the storage of a vector *)
| UseAfterFree      (** a dereference of an object that is not alive *)
| BadAlloc          (** [std::bad_alloc] thrown by [operator new] *)
| Uncaught          (** an exception nobody catches *)
| NoReturn.         (** a loop that does not end *)

Inductive outcome (A : Type) : Type :=
| Ok (a : A)
| Err (f : failure).
Arguments Ok {A} a.
Arguments Err {A} f.

#[export] Instance failure_eq_dec : EqDecision failure.
Proof. solve_decision. Defined.

#[export] Instance outcome_eq_dec {A} `{EqDecision A} : EqDecision (outcome A).
Proof. solve_decision. Defined.

#[export] Instance outcome_ret : MRet outcome := fun A a => Ok a.

#[export] Instance outcome_bind : MBind outcome := fun A B f m =>
  match m with
  | Ok a => f a
  | Err e => Err e
  end.

#[export] Instance outcome_fmap : FMap outcome := fun A B f m =>
  match m with
  | Ok a => Ok (f a)
  | Err e => Err e
  end.

(** The C [assert] macro. *)
Definition assert_ (b : bool) : outcome unit :=
  if b then Ok tt else Err AssertFailed.

Definition is_ok {A} (o : outcome A) : bool :=
  match o with Ok _ => true | Err _ => false end.

Lemma bind_Ok {A B} (f : A -> outcome B) (m : outcome A) b :
  (m ≫= f) = Ok b <-> exists a, m = Ok a /\ f a = Ok b.
Proof.
  destruct m; simpl; split.
  - eauto.
  - intros (a' & [= ->] & H); done.
  - discriminate.
  - intros (a' & [=] & _).
Qed.

Lemma assert_Ok b u : assert_ b = Ok u <-> b = true.
Proof. destruct b, u; simpl; split; done. Qed.

(** Running a list of operations left to right, stopping at the first
    failure: the body of a C++ [for] loop over a container. *)
Fixpoint for_each {S A} (f : S -> A -> outcome S) (s : S) (l : list A) : outcome S :=
  match l with
  | [] => Ok s
  | a :: l' => s' ← f s a; for_each f s' l'
  end.

Lemma for_each_app {S A} (f : S -> A -> outcome S) s l1 l2 :
  for_each f s (l1 ++ l2) = (s' ← for_each f s l1; for_each f s' l2).
Proof.
  revert s; induction l1 as [|a l1 IH]; intros s; simpl; [done|].
  destruct (f s a); simpl; [apply IH|done].
Qed.

(** An invariant every iteration preserves holds at the end of the loop. *)
Lemma for_each_inv {S A} (f : S -> A -> outcome S) (I : S -> Prop) l :
  (forall s a, a ∈ l -> I s -> exists s', f s a = Ok s' /\ I s') ->
  forall s, I s -> exists s', for_each f s l = Ok s' /\ I s'.
Proof.
  induction l as [|a l IH]; intros Hstep s Hs; simpl; [eauto|].
  destruct (Hstep s a) as (s1 & -> & Hs1); [set_solver|done|]; simpl.
  apply IH; [|done]. intros; apply Hstep; [set_solver|done].
Qed.

(** A measure every iteration keeps is kept by the loop. *)
Lemma for_each_keeps {S A B} (f : S -> A -> outcome S) (m : S -> B) l :
  (forall s a s', f s a = Ok s' -> m s' = m s) ->
  forall s s', for_each f s l = Ok s' -> m s' = m s.
Proof.
  intros Hf. induction l as [|a l IH]; intros s s'; simpl; [by intros [= ->]|].
  destruct (f s a) as [s1|] eqn:E; [|done]. intros H. rewrite (IH s1 s' H). eauto.
Qed.

Definition is_Ok {A} (m : outcome A) : bool := match m with Ok _ => true | Err _ => false end.

(** What holds of a computation that may fail with [F] but in no other way. *)
Definition unless {A} (F : failure -> Prop) (m : outcome A) (P : A -> Prop) : Prop :=
  match m with Ok a => P a | Err f => F f end.

(** Exhausted memory; a container that would exceed its maximal size. *)
Definition oom (f : failure) : Prop := f = BadAlloc.
Definition too_long (f : failure) : Prop := f = LengthError.

Lemma unless_bind {A B} F (m : outcome A) (k : A -> outcome B) P Q :
  unless F m P -> (forall a, m = Ok a -> P a -> unless F (k a) Q) -> unless F (m ≫= k) Q.
Proof. destruct m as [a|f]; simpl; auto. Qed.

Lemma unless_mono {A} F (m : outcome A) (P Q : A -> Prop) :
  unless F m P -> (forall a, m = Ok a -> P a -> Q a) -> unless F m Q.
Proof. destruct m; simpl; auto. Qed.

Lemma unless_for_each {S A} F (f : S -> A -> outcome S) (I : S -> Prop) l :
  (forall s a, a ∈ l -> I s -> unless F (f s a) I) ->
  forall s, I s -> unless F (for_each f s l) I.
Proof.
  induction l as [|a l IH]; intros Hstep s Hs; simpl; [done|].
  eapply unless_bind; [apply Hstep; [set_solver|done]|].
  intros s' _ Hs'. apply IH; [|done]. intros; apply Hstep; [set_solver|done].
Qed.

(** Every element is acceptable in the state in which the loop meets it. *)
Fixpoint guarded {S A} (f : S -> A -> outcome S) (ok : S -> A -> Prop) (s : S) (l : list A) : Prop :=
  match l with
  | [] => True
  | a :: l' => ok s a /\ forall s', f s a = Ok s' -> guarded f ok s' l'
  end.

Lemma guarded_step {S A} (f : S -> A -> outcome S) (ok : S -> A -> Prop) s s' a l :
  ok s a -> f s a = Ok s' -> guarded f ok s' l -> guarded f ok s (a :: l).
Proof. intros Ha E Hg. split; [done|]. intros s1 E1. congruence. Qed.

Lemma unless_guarded {S A} F (f : S -> A -> outcome S) (ok : S -> A -> Prop) (I : S -> Prop) l :
  (forall s a, I s -> ok s a -> unless F (f s a) I) ->
  forall s, I s -> guarded f ok s l -> unless F (for_each f s l) I.
Proof.
  intros Hstep. induction l as [|a l IH]; intros s Hs Hg; simpl; [done|]. destruct Hg as [Ha Hg].
  eapply unless_bind; [by apply Hstep|]. intros s' E Hs'. apply IH; auto.
Qed.

(** The result of a call whose loop may not end. *)
Definition ended {A} (r : option (outcome A)) : outcome A :=
  match r with Some r => r | None => Err NoReturn end.

(** ** Objects in a table *)

(** [f] on the object at position [j]. *)
Definition at_index {X} (f : nat -> X -> outcome X) (xs : list X) (j : nat) : outcome (list X) :=
  match xs !! j with
  | None => Err UseAfterFree
  | Some x => x' ← f j x; Ok (<[j := x']> xs)
  end.

Lemma list_insert_alter {X} (f : X -> X) i x (xs : list X) : <[i := x]> (alter f i xs) = <[i := x]> xs.
Proof.
  apply list_eq. intros j. destruct (decide (j = i)) as [->|Hne]; [|by rewrite !list_lookup_insert_ne, list_lookup_alter_ne].
  destruct (decide (i < length xs)%nat) as [Hlt|Hge].
  - rewrite !list_lookup_insert_eq by (rewrite ?length_alter; done). done.
  - rewrite !list_insert_ge by (rewrite ?length_alter; lia). rewrite list_lookup_alter_eq.
    by rewrite lookup_ge_None_2 by lia.
Qed.

Lemma at_each_index {X} F (f : nat -> X -> outcome X) (R : nat -> X -> X -> Prop) l : forall xs, NoDup l ->
  (forall j, j ∈ l -> exists x, xs !! j = Some x /\ unless F (f j x) (R j x)) ->
  unless F (for_each (at_index f) xs l) (fun xs' => length xs' = length xs /\
    forall j x x', xs !! j = Some x -> xs' !! j = Some x' -> if bool_decide (j ∈ l) then R j x x' else x' = x).
Proof.
  induction l as [|a l IH]; intros xs Hnd Hl; cbn [for_each unless].
  { split; [done|]. intros j x x' H1 H2. rewrite bool_decide_false by set_solver. congruence. }
  apply NoDup_cons in Hnd as [Ha Hnd]. destruct (Hl a ltac:(left)) as (x & Hx & Hf).
  assert (E : at_index f xs a = x' ← f a x; Ok (<[a := x']> xs)) by (unfold at_index; by rewrite Hx). rewrite E. clear E.
  destruct (f a x) as [y|e]; [|done]. cbn [mbind outcome_bind]. simpl in Hf. pose proof (lookup_lt_Some _ _ _ Hx) as Hlt.
  eapply unless_mono; [apply IH; [done|]|].
  - intros j Hj. assert (j <> a) by (by intros ->). rewrite list_lookup_insert_ne by done. apply Hl. by right.
  - intros xs' _ (H2 & H3). rewrite length_insert in H2. split; [done|].
    intros j z z' Hj Hj'. destruct (decide (j = a)) as [->|Hne].
    + rewrite bool_decide_true by left. specialize (H3 a y z'). rewrite bool_decide_false in H3 by done.
      rewrite H3; [|by rewrite list_lookup_insert_eq|done]. congruence.
    + specialize (H3 j z z'). rewrite list_lookup_insert_ne in H3 by done. specialize (H3 Hj Hj').
      by rewrite (bool_decide_ext (j ∈ a :: l) (j ∈ l)) by set_solver.
Qed.

(** A [std::string], or the bytes a [const char*] and a length describe. *)
Abbreviation text := (list ascii).

(** ** Machine integers *)

(** [uwrap w x] and [swrap w x] are the values of [x] stored in an unsigned,
    respectively two's complement signed, [w]-bit integer. *)
Definition uwrap (w x : Z) : Z := x mod 2 ^ w.
Definition swrap (w x : Z) : Z :=
  let y := x mod 2 ^ w in if y <? 2 ^ (w - 1) then y else y - 2 ^ w.

Definition u16 : Z -> Z := uwrap 16.
Definition u32 : Z -> Z := uwrap 32.
Definition u64 : Z -> Z := uwrap 64.
Definition i8 : Z -> Z := swrap 8.
Definition i16 : Z -> Z := swrap 16.
Definition i32 : Z -> Z := swrap 32.
Definition i64 : Z -> Z := swrap 64.

Definition in_u (w x : Z) : Prop := 0 <= x < 2 ^ w.
Definition in_s (w x : Z) : Prop := - 2 ^ (w - 1) <= x < 2 ^ (w - 1).

Lemma uwrap_small w x : in_u w x -> uwrap w x = x.
Proof. intros H. by apply Z.mod_small. Qed.

Lemma uwrap_range w x : 0 <= w -> in_u w (uwrap w x).
Proof. intros H. apply Z.mod_pos_bound. lia. Qed.

Lemma pow2_half w : 0 < w -> 2 ^ w = 2 * 2 ^ (w - 1).
Proof. intros H. rewrite <- Z.pow_succ_r by lia. f_equal; lia. Qed.

Lemma swrap_small w x : 0 < w -> in_s w x -> swrap w x = x.
Proof.
  intros Hw [Hlo Hhi]. unfold swrap. pose proof (pow2_half w Hw).
  destruct (Z.leb_spec 0 x).
  - rewrite Z.mod_small by lia. destruct (Z.ltb_spec x (2 ^ (w - 1))); lia.
  - rewrite <- (Z.mod_add x 1 (2 ^ w)) by lia.
    rewrite Z.mod_small by lia.
    destruct (Z.ltb_spec (x + 1 * 2 ^ w) (2 ^ (w - 1))); lia.
Qed.

Lemma swrap_range w x : 0 < w -> in_s w (swrap w x).
Proof.
  intros Hw. unfold swrap, in_s. pose proof (pow2_half w Hw).
  pose proof (Z.mod_pos_bound x (2 ^ w)).
  destruct (Z.ltb_spec (x mod 2 ^ w) (2 ^ (w - 1))); lia.
Qed.

(** Reading an unsigned pattern as signed and storing it back is lossless. *)
Lemma uwrap_swrap w x : 0 < w -> uwrap w (swrap w x) = uwrap w x.
Proof.
  intros Hw. unfold uwrap, swrap. pose proof (pow2_half w Hw).
  destruct (Z.ltb_spec (x mod 2 ^ w) (2 ^ (w - 1))).
  - apply Z.mod_mod. lia.
  - replace (x mod 2 ^ w - 2 ^ w) with (x mod 2 ^ w + (-1) * 2 ^ w) by lia.
    rewrite Z.mod_add by lia. apply Z.mod_mod. lia.
Qed.

Lemma swrap_uwrap w x : 0 < w -> swrap w (uwrap w x) = swrap w x.
Proof. intros Hw. unfold swrap, uwrap. by rewrite Z.mod_mod by lia. Qed.

(** ** Bytes *)

Abbreviation byte := ascii (only parsing).

Definition Z_of_byte (c : ascii) : Z := Z.of_N (N_of_ascii c).
Definition byte_of_Z (z : Z) : ascii := ascii_of_N (Z.to_N (uwrap 8 z)).

Lemma Z_of_byte_range c : 0 <= Z_of_byte c < 256.
Proof. unfold Z_of_byte. pose proof (N_ascii_bounded c). lia. Qed.

Lemma Z_of_byte_of_Z z : Z_of_byte (byte_of_Z z) = uwrap 8 z.
Proof.
  unfold Z_of_byte, byte_of_Z. pose proof (uwrap_range 8 z) as H.
  unfold in_u in H. change (2 ^ 8) with 256 in H.
  rewrite N_ascii_embedding by lia. lia.
Qed.

Lemma byte_of_Z_of_byte c : byte_of_Z (Z_of_byte c) = c.
Proof.
  unfold byte_of_Z. rewrite uwrap_small.
  - unfold Z_of_byte. rewrite N2Z.id. apply ascii_N_embedding.
  - apply Z_of_byte_range.
Qed.

(** The bytes of a string literal. *)
Definition bytes (s : string) : list ascii := String.list_ascii_of_string s.

(** ** Vectors addressed by [size_t] *)

Section Vectors.
Context {A : Type}.
Implicit Types (l d : list A) (n i j : Z).

Definition zlen l : Z := Z.of_nat (length l).
Definition ztake n l : list A := take (Z.to_nat n) l.
Definition zdrop n l : list A := drop (Z.to_nat n) l.

(** The elements at positions [i .. j-1]. *)
Definition zslice i j l : list A := ztake (j - i) (zdrop i l).

(** [std::copy] of [d] to position [i]: the cells from [i] on are
    overwritten; a copy that would leave the vector is out of bounds. *)
Definition splice i d l : outcome (list A) :=
  if (0 <=? i) && (i + zlen d <=? zlen l)
  then Ok (ztake i l ++ d ++ zdrop (i + zlen d) l)
  else Err OutOfBounds.

Lemma zlen_nonneg l : 0 <= zlen l.
Proof. unfold zlen. lia. Qed.

Lemma zlen_zero l : zlen l = 0 -> l = [].
Proof. destruct l; [done|]. unfold zlen. simpl. lia. Qed.

Lemma zlen_nil : zlen [] = 0.
Proof. done. Qed.

Lemma zlen_cons x l : zlen (x :: l) = 1 + zlen l.
Proof. unfold zlen. simpl. lia. Qed.

Lemma zlen_app l d : zlen (l ++ d) = zlen l + zlen d.
Proof. unfold zlen. rewrite length_app. lia. Qed.

Lemma zlen_ztake n l : 0 <= n <= zlen l -> zlen (ztake n l) = n.
Proof. unfold zlen, ztake. intros. rewrite length_take. lia. Qed.

Lemma zlen_zdrop n l : 0 <= n <= zlen l -> zlen (zdrop n l) = zlen l - n.
Proof. unfold zlen, zdrop. intros. rewrite length_drop. lia. Qed.

Lemma zlen_zslice i j l : 0 <= i <= j -> j <= zlen l -> zlen (zslice i j l) = j - i.
Proof. intros. unfold zslice. rewrite zlen_ztake; [done|]. rewrite zlen_zdrop; lia. Qed.

Lemma zlen_replicate n (x : A) : 0 <= n -> zlen (replicate (Z.to_nat n) x) = n.
Proof. intros. unfold zlen. rewrite length_replicate. lia. Qed.

Lemma ztake_zdrop n l : ztake n l ++ zdrop n l = l.
Proof. apply take_drop. Qed.

Lemma ztake_0 l : ztake 0 l = [].
Proof. done. Qed.

Lemma zdrop_0 l : zdrop 0 l = l.
Proof. done. Qed.

Lemma ztake_all n l : zlen l <= n -> ztake n l = l.
Proof. intros. apply take_ge. unfold zlen in *. lia. Qed.

Lemma zdrop_all n l : zlen l <= n -> zdrop n l = [].
Proof. intros. apply drop_ge. unfold zlen in *. lia. Qed.

Lemma ztake_app_le n l d : n <= zlen l -> ztake n (l ++ d) = ztake n l.
Proof. intros. apply take_app_le. unfold zlen in *. lia. Qed.

Lemma ztake_app_exact n l d : n = zlen l -> ztake n (l ++ d) = l.
Proof. intros ->. rewrite ztake_app_le by lia. by apply ztake_all. Qed.

Lemma zdrop_app_exact n l d : n = zlen l -> zdrop n (l ++ d) = d.
Proof. intros ->. unfold zdrop. rewrite drop_app_length'; [done|]. unfold zlen; lia. Qed.

Lemma zdrop_app_ge n l d : 0 <= zlen l <= n -> zdrop n (l ++ d) = zdrop (n - zlen l) d.
Proof.
  intros. unfold zdrop. rewrite drop_app_ge by (unfold zlen in *; lia).
  f_equal. unfold zlen. lia.
Qed.

Lemma zdrop_app_le n l d : n <= zlen l -> zdrop n (l ++ d) = zdrop n l ++ d.
Proof. intros. unfold zdrop. apply drop_app_le. unfold zlen in *. lia. Qed.

Lemma zdrop_zdrop n m l : 0 <= n -> 0 <= m -> zdrop n (zdrop m l) = zdrop (m + n) l.
Proof. intros. unfold zdrop. rewrite drop_drop. f_equal. lia. Qed.

(** A vector seen as three consecutive parts, and back. *)
Lemma zslice_split i j l :
  0 <= i <= j -> j <= zlen l -> ztake i l ++ zslice i j l ++ zdrop j l = l.
Proof.
  intros Hi Hj. unfold zslice.
  replace (zdrop j l) with (zdrop (j - i) (zdrop i l)).
  - by rewrite !ztake_zdrop.
  - rewrite zdrop_zdrop by lia. f_equal. lia.
Qed.

Lemma zslice_mid i j p m q :
  i = zlen p -> j = zlen p + zlen m -> zslice i j (p ++ m ++ q) = m.
Proof.
  intros -> ->. unfold zslice. rewrite zdrop_app_exact by done.
  apply ztake_app_exact. lia.
Qed.

Lemma zsplit n l :
  0 <= n <= zlen l -> exists a b, l = a ++ b /\ zlen a = n /\ zlen b = zlen l - n.
Proof.
  intros H. exists (ztake n l), (zdrop n l).
  by rewrite ztake_zdrop, zlen_ztake, zlen_zdrop by lia.
Qed.

Lemma zslice_decomp i j l :
  0 <= i <= j -> j <= zlen l ->
  exists p q, l = p ++ zslice i j l ++ q /\ zlen p = i /\ zlen q = zlen l - j.
Proof.
  intros Hi Hj. exists (ztake i l), (zdrop j l).
  rewrite zslice_split by done. split; [done|].
  rewrite zlen_ztake, zlen_zdrop; lia.
Qed.

Lemma splice_mid p m d q :
  zlen d = zlen m -> splice (zlen p) d (p ++ m ++ q) = Ok (p ++ d ++ q).
Proof.
  intros Hd. pose proof (zlen_nonneg p). pose proof (zlen_nonneg q). unfold splice.
  rewrite !zlen_app. rewrite (proj2 (Z.leb_le _ _)) by done.
  rewrite (proj2 (Z.leb_le _ _)) by lia. simpl. do 3 f_equal.
  - by apply ztake_app_exact.
  - rewrite app_assoc. apply zdrop_app_exact. rewrite zlen_app. lia.
Qed.

Lemma splice_length i d l l' : splice i d l = Ok l' -> zlen l' = zlen l.
Proof.
  unfold splice. destruct (_ && _) eqn:E; [|done]. intros [= <-].
  apply andb_true_iff in E as [E1 E2].
  apply Z.leb_le in E1, E2. pose proof (zlen_nonneg d).
  rewrite !zlen_app, zlen_ztake, zlen_zdrop; lia.
Qed.

Lemma zslice_empty i l : zslice i i l = [].
Proof. unfold zslice. by rewrite Z.sub_diag. Qed.

Lemma zslice_full l : zslice 0 (zlen l) l = l.
Proof. unfold zslice. rewrite zdrop_0. apply ztake_all. lia. Qed.
End Vectors.

Create Rewrite HintDb zlen.
#[export] Hint Rewrite @zlen_app @zlen_cons @zlen_nil : zlen.

(** ** Tactics *)

(** Turn the boolean integer tests of the code into their meaning. *)
Ltac zprop :=
  repeat match goal with
  | H : (_ && _) = true |- _ => apply andb_true_iff in H as [? ?]
  | H : (_ || _) = false |- _ => apply orb_false_iff in H as [? ?]
  | H : negb _ = true |- _ => apply negb_true_iff in H
  | H : negb _ = false |- _ => apply negb_false_iff in H
  | H : (_ <? _) = true |- _ => apply Z.ltb_lt in H
  | H : (_ <? _) = false |- _ => apply Z.ltb_ge in H
  | H : (_ <=? _) = true |- _ => apply Z.leb_le in H
  | H : (_ <=? _) = false |- _ => apply Z.leb_gt in H
  | H : (_ =? _) = true |- _ => apply Z.eqb_eq in H
  | H : (_ =? _) = false |- _ => apply Z.eqb_neq in H
  end.

(** Decide the integer test of the first conditional of the goal. *)
Ltac zcase :=
  match goal with
  | |- context [?a <? ?b] => destruct (Z.ltb_spec a b)
  | |- context [?a <=? ?b] => destruct (Z.leb_spec a b)
  | |- context [?a =? ?b] => destruct (Z.eqb_spec a b)
  end; simpl; try lia.

(** Discharge a guard whose truth follows by linear arithmetic. *)
Ltac zguard :=
  repeat match goal with
  | |- context [?a <? ?b] =>
      first [rewrite (proj2 (Z.ltb_lt a b)) by lia | rewrite (proj2 (Z.ltb_ge a b)) by lia]
  | |- context [?a <=? ?b] =>
      first [rewrite (proj2 (Z.leb_le a b)) by lia | rewrite (proj2 (Z.leb_gt a b)) by lia]
  | |- context [?a =? ?b] =>
      first [rewrite (proj2 (Z.eqb_eq a b)) by lia | rewrite (proj2 (Z.eqb_neq a b)) by lia]
  end; cbn [andb orb negb assert_ mbind outcome_bind].

(** Split a successful chain of binds into its steps. *)
Ltac obind :=
  repeat match goal with
  | H : _ ≫= _ = Ok _ |- _ =>
      let x := fresh "r" in let Hx := fresh "Hr" in
      apply bind_Ok in H as (x & Hx & H); cbv beta in H
  | H : assert_ _ = Ok _ |- _ => apply assert_Ok in H
  | H : Ok _ = Ok _ |- _ => injection H as H; try subst
  | H : Err _ = Ok _ |- _ => discriminate H
  end.

Create HintDb evloop.
#[export] Hint Resolve zlen_nonneg uwrap_range : evloop.
