(* ===== verification/Endian.v ===== *)
(** * Byte order (src/src/Endian.h)

    The object representation of an [n]-byte integer on the little-endian
    x86-64 host, the [htobeNN]/[beNNtoh] macros of [<endian.h>] and the six
    wrappers of Endian.h.  The lemmas relate both to big-endian byte strings. *)

From S2P Require Import Prelude.
Local Open Scope Z_scope.

(** The [n] bytes in memory of an integer with bit pattern [z], lowest address
    first, and the value of a byte string read back. *)
Fixpoint le_bytes (n : nat) (z : Z) : list ascii :=
  match n with
  | O => []
  | S n' => byte_of_Z z :: le_bytes n' (z / 256)
  end.

Fixpoint le_value (bs : list ascii) : Z :=
  match bs with
  | [] => 0
  | b :: bs' => Z_of_byte b + 256 * le_value bs'
  end.

Definition be_bytes (n : nat) (z : Z) : list ascii := rev (le_bytes n z).
Definition be_value (bs : list ascii) : Z := le_value (rev bs).

(** [htobeNN] and [beNNtoh] of a little-endian host: exchange the bytes. *)
Definition bswap (n : nat) (z : Z) : Z := le_value (rev (le_bytes n z)).

Definition hostToNetwork64 (host64 : Z) : Z := bswap 8 host64.
Definition hostToNetwork32 (host32 : Z) : Z := bswap 4 host32.
Definition hostToNetwork16 (host16 : Z) : Z := bswap 2 host16.
Definition networkToHost64 (net64 : Z) : Z := bswap 8 net64.
Definition networkToHost32 (net32 : Z) : Z := bswap 4 net32.
Definition networkToHost16 (net16 : Z) : Z := bswap 2 net16.

(** ** Lemmas *)

Definition width (n : nat) : Z := 8 * Z.of_nat n.

Lemma pow_width_S n : 2 ^ width (S n) = 256 * 2 ^ width n.
Proof.
  unfold width. replace (8 * Z.of_nat (S n)) with (8 + 8 * Z.of_nat n) by lia.
  rewrite Z.pow_add_r by lia. done.
Qed.

Lemma length_le_bytes n z : length (le_bytes n z) = n.
Proof. revert z; induction n as [|n IH]; intros z; simpl; [done|]. by rewrite IH. Qed.

Lemma zlen_le_bytes n z : zlen (le_bytes n z) = Z.of_nat n.
Proof. unfold zlen. by rewrite length_le_bytes. Qed.

Lemma length_be_bytes n z : length (be_bytes n z) = n.
Proof. unfold be_bytes. by rewrite length_rev, length_le_bytes. Qed.

Lemma zlen_be_bytes n z : zlen (be_bytes n z) = Z.of_nat n.
Proof. unfold zlen. by rewrite length_be_bytes. Qed.

Lemma le_value_range bs : 0 <= le_value bs < 2 ^ width (length bs).
Proof.
  induction bs as [|b bs IH].
  - done.
  - cbn [length le_value]. rewrite pow_width_S. pose proof (Z_of_byte_range b). lia.
Qed.

Lemma le_value_bytes n z : le_value (le_bytes n z) = uwrap (width n) z.
Proof.
  revert z; induction n as [|n IH]; intros z.
  - simpl. unfold uwrap. by rewrite Z.mod_1_r.
  - cbn [le_bytes le_value]. rewrite Z_of_byte_of_Z, IH.
    unfold uwrap. rewrite pow_width_S. change (2 ^ 8) with 256.
    rewrite (Z.rem_mul_r z 256) by (unfold width; lia). lia.
Qed.

Lemma le_bytes_value bs : le_bytes (length bs) (le_value bs) = bs.
Proof.
  induction bs as [|b bs IH]; cbn [length le_bytes le_value]; [done|].
  pose proof (Z_of_byte_range b) as Hb. f_equal.
  - rewrite <- (byte_of_Z_of_byte b) at 2. unfold byte_of_Z, uwrap.
    change (2 ^ 8) with 256. rewrite (Z.mul_comm 256), Z.mod_add by lia. done.
  - rewrite (Z.mul_comm 256), Z.div_add by lia.
    rewrite Z.div_small by lia. done.
Qed.

Lemma be_value_bytes n z : be_value (be_bytes n z) = uwrap (width n) z.
Proof. unfold be_value, be_bytes. rewrite rev_involutive. apply le_value_bytes. Qed.

(** The memory image of a swapped integer is the big-endian byte string of
    the integer itself. *)
Lemma le_bytes_bswap n z : le_bytes n (bswap n z) = be_bytes n z.
Proof.
  unfold bswap, be_bytes.
  rewrite <- (length_le_bytes n z) at 1. rewrite <- length_rev. apply le_bytes_value.
Qed.

(** Reading swapped memory gives the big-endian value. *)
Lemma bswap_le_value bs n : length bs = n -> bswap n (le_value bs) = be_value bs.
Proof. intros <-. unfold bswap, be_value. by rewrite le_bytes_value. Qed.

Lemma bswap_involutive n z : bswap n (bswap n z) = uwrap (width n) z.
Proof. unfold bswap at 1. by rewrite le_bytes_bswap, <- be_value_bytes. Qed.

Lemma bswap_range n z : in_u (width n) (bswap n z).
Proof.
  unfold bswap, in_u. pose proof (le_value_range (rev (le_bytes n z))) as H.
  by rewrite length_rev, length_le_bytes in H.
Qed.
