(* ===== verification/StringPiece.v ===== *)
(** * String slices (src/src/StringPiece.h)

    A [StringPiece] is a pointer and an [int] length.  The pointer is modelled
    by the bytes that are readable from it, so that every access past them is
    visible.  The lemmas show which constructor keeps which bytes and that the
    comparison operators agree with lexicographic order. *)

From S2P Require Import Prelude.
Local Open Scope Z_scope.

Module StringPiece.

Definition NUL : ascii := Ascii.zero.

(** C library functions the class uses. *)
Fixpoint strlen (mem : list ascii) : outcome Z :=
  match mem with
  | [] => Err OutOfBounds
  | c :: mem' => if decide (c = NUL) then Ok 0 else n ← strlen mem'; Ok (1 + n)
  end.

(** The sign of [memcmp (a, b, n)]: bytes are compared as [unsigned char]. *)
Fixpoint memcmp (a b : list ascii) (n : nat) : outcome Z :=
  match n with
  | O => Ok 0
  | S n' =>
      match a, b with
      | x :: a', y :: b' =>
          if Z_of_byte x <? Z_of_byte y then Ok (-1)
          else if Z_of_byte y <? Z_of_byte x then Ok 1
          else memcmp a' b' n'
      | _, _ => Err OutOfBounds
      end
  end.

(** [std::string] [data()]: the characters and, since C++11, a final NUL. *)
Definition c_str (s : list ascii) : list ascii := s ++ [NUL].

Record StringPiece : Type := mkPiece {
  ptr_ : list ascii;
  length_ : Z
}.

Definition piece_empty : StringPiece := mkPiece [] 0.

(** The constructor from a C string. *)
Definition of_cstr (str : list ascii) : outcome StringPiece :=
  n ← strlen str; Ok (mkPiece str (i32 n)).

(** [StringPiece(const string&)]: the length is again [strlen], not [size()]. *)
Definition of_string (str : list ascii) : outcome StringPiece :=
  n ← strlen (c_str str); Ok (mkPiece (c_str str) (i32 n)).

(** The constructor from an address and a length. *)
Definition of_range (offset : list ascii) (len : Z) : StringPiece := mkPiece offset len.

Definition data (p : StringPiece) : list ascii := ptr_ p.
Definition size (p : StringPiece) : Z := length_ p.
Definition empty (p : StringPiece) : bool := length_ p =? 0.
Definition clear (p : StringPiece) : StringPiece := mkPiece [] 0.
Definition set (buffer : list ascii) (len : Z) : StringPiece := mkPiece buffer len.

Definition at_ (p : StringPiece) (i : Z) : outcome ascii :=
  if i <? 0 then Err OutOfBounds
  else match ptr_ p !! Z.to_nat i with Some c => Ok c | None => Err OutOfBounds end.

Definition remove_prefix (p : StringPiece) (n : Z) : StringPiece :=
  mkPiece (zdrop n (ptr_ p)) (i32 (length_ p - n)).
Definition remove_suffix (p : StringPiece) (n : Z) : StringPiece :=
  mkPiece (ptr_ p) (i32 (length_ p - n)).

(** [string(data(), size())]: a negative [int] length becomes a huge [size_t]. *)
Definition as_string (p : StringPiece) : outcome (list ascii) :=
  let n := u64 (length_ p) in
  if n <=? zlen (ptr_ p) then Ok (ztake n (ptr_ p)) else Err OutOfBounds.

Definition CopyToString (p : StringPiece) : outcome (list ascii) := as_string p.

Definition eq_op (p x : StringPiece) : outcome bool :=
  if length_ p =? length_ x
  then r ← memcmp (ptr_ p) (ptr_ x) (Z.to_nat (u64 (length_ p))); Ok (r =? 0)
  else Ok false.

Definition ne_op (p x : StringPiece) : outcome bool := negb <$> eq_op p x.

Definition min_len (p x : StringPiece) : nat :=
  Z.to_nat (u64 (if length_ p <? length_ x then length_ p else length_ x)).

(** The four operators of [STRINGPIECE_BINARY_PREDICATE(cmp, auxcmp)]. *)
Definition binary_predicate (cmp auxcmp : Z -> Z -> bool) (p x : StringPiece) : outcome bool :=
  r ← memcmp (ptr_ p) (ptr_ x) (min_len p x);
  Ok (auxcmp r 0 || ((r =? 0) && cmp (length_ p) (length_ x))).

Definition lt_op : StringPiece -> StringPiece -> outcome bool := binary_predicate Z.ltb Z.ltb.
Definition le_op : StringPiece -> StringPiece -> outcome bool := binary_predicate Z.leb Z.ltb.
Definition ge_op : StringPiece -> StringPiece -> outcome bool := binary_predicate Z.geb Z.gtb.
Definition gt_op : StringPiece -> StringPiece -> outcome bool := binary_predicate Z.gtb Z.gtb.

Definition compare (p x : StringPiece) : outcome Z :=
  r ← memcmp (ptr_ p) (ptr_ x) (min_len p x);
  Ok (if r =? 0
      then if length_ p <? length_ x then -1
           else if length_ x <? length_ p then 1 else r
      else r).

Definition starts_with (p x : StringPiece) : outcome bool :=
  if length_ x <=? length_ p
  then r ← memcmp (ptr_ p) (ptr_ x) (Z.to_nat (u64 (length_ x))); Ok (r =? 0)
  else Ok false.

(** ** Well-formed slices *)

(** The length is a non-negative [int] and does not pass the memory. *)
Definition wf (p : StringPiece) : Prop :=
  0 <= length_ p < 2 ^ 31 /\ length_ p <= zlen (ptr_ p).

(** The characters a well-formed slice denotes. *)
Definition chars (p : StringPiece) : list ascii := ztake (length_ p) (ptr_ p).

(** The part of a string before its first NUL. *)
Fixpoint until_nul (s : list ascii) : list ascii :=
  match s with
  | [] => []
  | c :: s' => if decide (c = NUL) then [] else c :: until_nul s'
  end.

Lemma strlen_c_str s : strlen (c_str s) = Ok (zlen (until_nul s)).
Proof.
  unfold c_str. induction s as [|c s IH]; [done|].
  simpl. case_decide; [done|]. rewrite IH. simpl. by rewrite zlen_cons.
Qed.

Lemma until_nul_prefix s : exists t, s = until_nul s ++ t.
Proof.
  induction s as [|c s [t IH]]; simpl; [by exists []|].
  case_decide; [by exists (c :: s)|]. exists t. simpl. by rewrite <- IH.
Qed.

Lemma until_nul_no_nul s : NUL ∉ until_nul s.
Proof. induction s as [|c s IH]; simpl; [by apply not_elem_of_nil|]. destruct (decide (c = NUL)); set_solver. Qed.

Lemma until_nul_id s : NUL ∉ s -> until_nul s = s.
Proof.
  induction s as [|c s IH]; intros Hn; simpl; [done|].
  rewrite decide_False by set_solver. by rewrite IH by set_solver.
Qed.

(** ** StringArg

    A C string passed on to a system call: the memory from [str_] on. *)
Record StringArg : Type := mkStringArg { str_ : list ascii }.

Definition arg_of_cstr (str : list ascii) : StringArg := mkStringArg str.
Definition arg_of_string (str : list ascii) : StringArg := mkStringArg (c_str str).
Definition arg_c_str (a : StringArg) : list ascii := str_ a.

(** The callee reads up to the first NUL: for a string, what is before its own
    first NUL, so that a name with a NUL names another file. *)
Lemma arg_of_string_length s : strlen (arg_c_str (arg_of_string s)) = Ok (zlen (until_nul s)).
Proof. apply strlen_c_str. Qed.

Lemma u64_nonneg_i32 n : 0 <= n < 2 ^ 31 -> u64 n = n.
Proof. intros H. apply uwrap_small. unfold in_u. lia. Qed.

Lemma of_string_spec s :
  zlen s < 2 ^ 31 ->
  exists p, of_string s = Ok p /\ wf p /\ chars p = until_nul s.
Proof.
  intros Hs. unfold of_string. rewrite strlen_c_str. simpl.
  destruct (until_nul_prefix s) as [t Ht].
  assert (Hle : zlen (until_nul s) <= zlen s).
  { rewrite Ht at 2. rewrite zlen_app. pose proof (zlen_nonneg t). lia. }
  pose proof (zlen_nonneg (until_nul s)).
  eexists; split; [done|]. unfold wf, chars; simpl.
  assert (Hi : i32 (zlen (until_nul s)) = zlen (until_nul s)).
  { apply swrap_small; unfold in_s; lia. }
  rewrite Hi. unfold c_str. rewrite zlen_app. change (zlen [NUL]) with 1.
  split; [lia|]. rewrite ztake_app_le by done.
  rewrite Ht at 2. by apply ztake_app_exact.
Qed.

Lemma as_string_wf p : wf p -> as_string p = Ok (chars p).
Proof.
  intros [H1 H2]. unfold as_string. rewrite u64_nonneg_i32 by lia. by zguard.
Qed.

(** Lexicographic comparison of byte strings. *)
Fixpoint lex (a b : list ascii) : comparison :=
  match a, b with
  | [], [] => Eq
  | [], _ :: _ => Lt
  | _ :: _, [] => Gt
  | x :: a', y :: b' =>
      match Z.compare (Z_of_byte x) (Z_of_byte y) with
      | Eq => lex a' b'
      | c => c
      end
  end.

Definition sign (c : comparison) : Z :=
  match c with Lt => -1 | Eq => 0 | Gt => 1 end.

(** [memcmp] on the common length, completed by the lengths, is [lex]. *)
Lemma memcmp_lex a b (n m : nat) :
  (n <= length a)%nat -> (m <= length b)%nat ->
  exists r, memcmp a b (n `min` m) = Ok r /\
    sign (lex (take n a) (take m b)) =
      if r =? 0 then sign (Nat.compare n m) else r.
Proof.
  revert b n m; induction a as [|x a IH]; intros b n m Hn Hm.
  - destruct n; [|simpl in Hn; lia]. exists 0. simpl. split; [done|].
    destruct m, b; simpl in *; done || lia.
  - destruct n as [|n].
    { exists 0. simpl. split; [done|]. destruct m, b; simpl in *; done || lia. }
    destruct b as [|y b]; destruct m as [|m]; simpl in Hn, Hm; try lia.
    { exists 0. done. }
    { exists 0. simpl. done. }
    destruct (IH b n m) as (r & Hr & Hs); [lia..|].
    cbn [Nat.min memcmp take lex Nat.compare].
    destruct (Z.compare_spec (Z_of_byte x) (Z_of_byte y)).
    + exists r. zguard. done.
    + exists (-1). zguard. done.
    + exists 1. zguard. done.
Qed.

Lemma min_len_wf p x :
  wf p -> wf x -> min_len p x = (Z.to_nat (length_ p) `min` Z.to_nat (length_ x))%nat.
Proof.
  intros [Hp _] [Hx _]. unfold min_len. zcase; rewrite u64_nonneg_i32 by lia; lia.
Qed.

Lemma compare_lex p x :
  wf p -> wf x -> compare p x = Ok (sign (lex (chars p) (chars x))).
Proof.
  intros Hp Hx. unfold compare. rewrite min_len_wf by done.
  destruct Hp as [Hp1 Hp2], Hx as [Hx1 Hx2]. unfold zlen in *.
  destruct (memcmp_lex (ptr_ p) (ptr_ x) (Z.to_nat (length_ p)) (Z.to_nat (length_ x)))
    as (r & -> & Hs); [lia..|].
  unfold chars, ztake. rewrite Hs. cbn [mbind outcome_bind]. apply (f_equal Ok). clear Hs.
  destruct (Z.eqb_spec r 0) as [Hr|Hr]; [subst r|done].
  destruct (Nat.compare_spec (Z.to_nat (length_ p)) (Z.to_nat (length_ x))); simpl;
    zguard; done.
Qed.

(** Every [cmp] operator answers what [compare] orders. *)
Lemma lt_op_compare p x :
  wf p -> wf x -> lt_op p x = Ok (bool_decide (lex (chars p) (chars x) = Lt)).
Proof.
  intros Hp Hx. pose proof (compare_lex p x Hp Hx) as Hc. unfold compare in Hc.
  unfold lt_op, binary_predicate. destruct (memcmp _ _ _) as [r|] eqn:E; [|done].
  cbn [mbind outcome_bind] in *. injection Hc as Hc. apply (f_equal Ok).
  destruct (Z.eqb_spec r 0) as [Hr|Hr]; [subst r|]; simpl.
  - destruct (Z.ltb_spec (length_ p) (length_ x)), (lex _ _); simpl in *;
      try (zguard); try done; try lia; destruct (length_ x <? length_ p); done.
  - rewrite orb_false_r. destruct (lex _ _); simpl in *; subst; done.
Qed.

End StringPiece.
