(* ===== verification/Buffer.v ===== *)
(** * The I/O buffer (src/src/Buffer.h, src/src/Buffer.cpp)

    [Buffer] is a vector of bytes with a reader and a writer index.  All index
    arithmetic is [size_t] arithmetic modulo [2^64]; [const char *] results
    are offsets from [begin()].  The abstract content of a buffer is the byte
    string between its two indices; the lemmas show that every operation is
    the corresponding byte-string operation, keeps the index invariant and
    never accesses memory outside the vector. *)

From S2P Require Import Prelude Endian StringPiece.
Local Open Scope Z_scope.

Definition kCRLF : list ascii := ["013"; "010"]%char.
Definition kCheapPrepend : Z := 8.
Definition kInitialSize : Z := 1024.

Record Buffer : Type := mkBuffer {
  buffer_ : list ascii;
  readerIndex_ : Z;
  writerIndex_ : Z
}.

#[export] Instance Buffer_eq_dec : EqDecision Buffer.
Proof. solve_decision. Defined.

(** [std::vector<char>::max_size()]. *)
Definition max_size : Z := 2 ^ 63 - 1.

Definition vector_resize (v : list ascii) (n : Z) : outcome (list ascii) :=
  if max_size <? n then Err LengthError
  else Ok (ztake n v ++ replicate (Z.to_nat (n - zlen v)) Ascii.zero).

(** ** Observers *)

Definition readableBytes (b : Buffer) : Z := u64 (writerIndex_ b - readerIndex_ b).
Definition writableBytes (b : Buffer) : Z := u64 (zlen (buffer_ b) - writerIndex_ b).
Definition prependableBytes (b : Buffer) : Z := readerIndex_ b.

Definition peek (b : Buffer) : Z := readerIndex_ b.
Definition beginWrite (b : Buffer) : Z := writerIndex_ b.

(** The bytes in [ [first, last) ]. *)
Definition range (b : Buffer) (first last : Z) : list ascii := zslice first last (buffer_ b).

(** [std::search] of a pattern, over the bytes [l] that start at offset
    [first]; the end of the range when there is no match. *)
Fixpoint std_search (pat l : list ascii) (first : Z) : Z :=
  match l with
  | [] => first
  | _ :: l' => if decide (pat `prefix_of` l) then first else std_search pat l' (first + 1)
  end.

Definition memchr (c : ascii) (l : list ascii) (first : Z) : option Z :=
  match list_find (eq c) l with
  | Some (i, _) => Some (first + Z.of_nat i)
  | None => None
  end.

Definition findCRLF (b : Buffer) : option Z :=
  let crlf := std_search kCRLF (range b (peek b) (beginWrite b)) (peek b) in
  if crlf =? beginWrite b then None else Some crlf.

Definition findCRLF_from (b : Buffer) (start : Z) : outcome (option Z) :=
  assert_ (peek b <=? start);;
  assert_ (start <=? beginWrite b);;
  let crlf := std_search kCRLF (range b start (beginWrite b)) start in
  Ok (if crlf =? beginWrite b then None else Some crlf).

Definition findEOL (b : Buffer) : option Z :=
  memchr "010"%char (range b (peek b) (peek b + readableBytes b)) (peek b).

Definition findEOL_from (b : Buffer) (start : Z) : outcome (option Z) :=
  assert_ (peek b <=? start);;
  assert_ (start <=? beginWrite b);;
  Ok (memchr "010"%char (range b start (beginWrite b)) start).

(** ** Construction and swapping *)

Definition new_Buffer (initialSize : Z) : outcome Buffer :=
  let b := mkBuffer (replicate (Z.to_nat (kCheapPrepend + kInitialSize)) Ascii.zero)
             kCheapPrepend kCheapPrepend in
  assert_ (readableBytes b =? 0);;
  assert_ (writableBytes b =? initialSize);;
  assert_ (prependableBytes b =? kCheapPrepend);;
  Ok b.

(** [a.swap(rhs)]: the pair of buffers afterwards. *)
Definition swap (a rhs : Buffer) : Buffer * Buffer := (rhs, a).

(** ** Reading *)

Definition retrieveAll (b : Buffer) : Buffer :=
  mkBuffer (buffer_ b) kCheapPrepend kCheapPrepend.

Definition retrieve (b : Buffer) (len : Z) : outcome Buffer :=
  assert_ (len <=? readableBytes b);;
  if len <? readableBytes b
  then Ok (mkBuffer (buffer_ b) (u64 (readerIndex_ b + len)) (writerIndex_ b))
  else Ok (retrieveAll b).

Definition retrieveUntil (b : Buffer) (end_ : Z) : outcome Buffer :=
  assert_ (peek b <=? end_);;
  assert_ (end_ <=? beginWrite b);;
  retrieve b (u64 (end_ - peek b)).

Definition retrieveInt64 (b : Buffer) : outcome Buffer := retrieve b 8.
Definition retrieveInt32 (b : Buffer) : outcome Buffer := retrieve b 4.
Definition retrieveInt16 (b : Buffer) : outcome Buffer := retrieve b 2.
Definition retrieveInt8 (b : Buffer) : outcome Buffer := retrieve b 1.

Definition retrieveAsString (b : Buffer) (len : Z) : outcome (list ascii * Buffer) :=
  assert_ (len <=? readableBytes b);;
  let result := range b (peek b) (peek b + len) in
  b' ← retrieve b len;
  Ok (result, b').

Definition retrieveAllAsString (b : Buffer) : outcome (list ascii * Buffer) :=
  retrieveAsString b (readableBytes b).

(** The slice starts at [peek()]; the memory behind it runs to the end of the
    vector. *)
Definition toStringPiece (b : Buffer) : StringPiece.StringPiece :=
  StringPiece.of_range (zdrop (peek b) (buffer_ b)) (i32 (readableBytes b)).

(** ** Writing *)

Definition makeSpace (b : Buffer) (len : Z) : outcome Buffer :=
  if u64 (writableBytes b + prependableBytes b) <? u64 (len + kCheapPrepend) then
    v ← vector_resize (buffer_ b) (u64 (writerIndex_ b + len));
    Ok (mkBuffer v (readerIndex_ b) (writerIndex_ b))
  else
    assert_ (kCheapPrepend <? readerIndex_ b);;
    let readable := readableBytes b in
    v ← splice kCheapPrepend (range b (readerIndex_ b) (writerIndex_ b)) (buffer_ b);
    let b' := mkBuffer v kCheapPrepend (u64 (kCheapPrepend + readable)) in
    assert_ (readable =? readableBytes b');;
    Ok b'.

Definition ensureWritableBytes (b : Buffer) (len : Z) : outcome Buffer :=
  b' ← (if writableBytes b <? len then makeSpace b len else Ok b);
  assert_ (len <=? writableBytes b');;
  Ok b'.

Definition hasWritten (b : Buffer) (len : Z) : outcome Buffer :=
  assert_ (len <=? writableBytes b);;
  Ok (mkBuffer (buffer_ b) (readerIndex_ b) (u64 (writerIndex_ b + len))).

Definition unwrite (b : Buffer) (len : Z) : outcome Buffer :=
  assert_ (len <=? readableBytes b);;
  Ok (mkBuffer (buffer_ b) (readerIndex_ b) (u64 (writerIndex_ b - len))).

(** [append(data, len)]; [data] is the memory readable from the pointer. *)
Definition append (b : Buffer) (data : list ascii) (len : Z) : outcome Buffer :=
  b1 ← ensureWritableBytes b len;
  if zlen data <? len then Err OutOfBounds
  else
    v ← splice (beginWrite b1) (ztake len data) (buffer_ b1);
    hasWritten (mkBuffer v (readerIndex_ b1) (writerIndex_ b1)) len.

(** [append] of a whole object: the memory is exactly the [len] bytes. *)
Definition append_bytes (b : Buffer) (data : list ascii) : outcome Buffer :=
  append b data (zlen data).

Definition append_piece (b : Buffer) (str : StringPiece.StringPiece) : outcome Buffer :=
  append b (StringPiece.data str) (u64 (StringPiece.size str)).

Definition prepend (b : Buffer) (data : list ascii) (len : Z) : outcome Buffer :=
  assert_ (len <=? prependableBytes b);;
  let r := u64 (readerIndex_ b - len) in
  if zlen data <? len then Err OutOfBounds
  else
    v ← splice r (ztake len data) (buffer_ b);
    Ok (mkBuffer v r (writerIndex_ b)).

Definition shrink (b : Buffer) (reserve : Z) : outcome Buffer :=
  other ← new_Buffer kInitialSize;
  other ← ensureWritableBytes other (u64 (readableBytes b + reserve));
  other ← append_piece other (toStringPiece b);
  Ok (fst (swap b other)).

(** ** Integers in network byte order *)

Definition appendInt64 (b : Buffer) (x : Z) : outcome Buffer :=
  append b (le_bytes 8 (hostToNetwork64 (u64 x))) 8.
Definition appendInt32 (b : Buffer) (x : Z) : outcome Buffer :=
  append b (le_bytes 4 (hostToNetwork32 (u32 x))) 4.
Definition appendInt16 (b : Buffer) (x : Z) : outcome Buffer :=
  append b (le_bytes 2 (hostToNetwork16 (u16 x))) 2.
Definition appendInt8 (b : Buffer) (x : Z) : outcome Buffer :=
  append b (le_bytes 1 x) 1.

Definition peekInt64 (b : Buffer) : outcome Z :=
  assert_ (8 <=? readableBytes b);;
  Ok (i64 (networkToHost64 (u64 (le_value (range b (peek b) (peek b + 8)))))).
Definition peekInt32 (b : Buffer) : outcome Z :=
  assert_ (4 <=? readableBytes b);;
  Ok (i32 (networkToHost32 (u32 (le_value (range b (peek b) (peek b + 4)))))).
Definition peekInt16 (b : Buffer) : outcome Z :=
  assert_ (2 <=? readableBytes b);;
  Ok (i16 (networkToHost16 (u16 (le_value (range b (peek b) (peek b + 2)))))).
Definition peekInt8 (b : Buffer) : outcome Z :=
  assert_ (1 <=? readableBytes b);;
  Ok (i8 (le_value (range b (peek b) (peek b + 1)))).

Definition readInt32 (b : Buffer) : outcome (Z * Buffer) :=
  result ← peekInt32 b; b' ← retrieveInt32 b; Ok (result, b').
Definition readInt16 (b : Buffer) : outcome (Z * Buffer) :=
  result ← peekInt16 b; b' ← retrieveInt16 b; Ok (result, b').
Definition readInt8 (b : Buffer) : outcome (Z * Buffer) :=
  result ← peekInt8 b; b' ← retrieveInt8 b; Ok (result, b').

Definition prependInt64 (b : Buffer) (x : Z) : outcome Buffer :=
  prepend b (le_bytes 8 (hostToNetwork64 (u64 x))) 8.
Definition prependInt32 (b : Buffer) (x : Z) : outcome Buffer :=
  prepend b (le_bytes 4 (hostToNetwork32 (u32 x))) 4.
Definition prependInt16 (b : Buffer) (x : Z) : outcome Buffer :=
  prepend b (le_bytes 2 (hostToNetwork16 (u16 x))) 2.
Definition prependInt8 (b : Buffer) (x : Z) : outcome Buffer :=
  prepend b (le_bytes 1 x) 1.

(** ** Reading from a descriptor *)

(** The answer of [readv(2)]: an [errno], or the bytes it scattered. *)
Inductive readv_result : Type :=
| ReadError (errno : Z)
| ReadData (bs : list ascii).

Definition sizeof_extrabuf : Z := 65536.

(** The lengths of the [iovec]s [readFd] passes, in order. *)
Definition readFd_iov (b : Buffer) : list Z :=
  if writableBytes b <? sizeof_extrabuf
  then [writableBytes b; sizeof_extrabuf]
  else [writableBytes b].

(** [readFd(fd, saveErrno)]: the return value, the stored [errno] if one was
    stored, and the buffer.  [readv] is the kernel: it maps the [iovec]
    lengths to its answer, and fills the blocks in order. *)
Definition readFd (readv : list Z -> readv_result) (b : Buffer)
  : outcome (Z * option Z * Buffer) :=
  let writable := writableBytes b in
  match readv (readFd_iov b) with
  | ReadError e => Ok (-1, Some e, b)
  | ReadData bs =>
      let n := zlen bs in
      v ← splice (writerIndex_ b) (ztake writable bs) (buffer_ b);
      if n <=? writable then
        Ok (n, None, mkBuffer v (readerIndex_ b) (u64 (writerIndex_ b + n)))
      else
        b2 ← append (mkBuffer v (readerIndex_ b) (zlen v)) (zdrop writable bs) (n - writable);
        Ok (n, None, b2)
  end.

(** ** Representation

    [repr b s]: the indices of [b] are ordered and inside the vector, the
    vector never shrank below its initial size, and the readable bytes of [b]
    are [s]. *)

Definition wf (b : Buffer) : Prop :=
  0 <= readerIndex_ b <= writerIndex_ b /\
  writerIndex_ b <= zlen (buffer_ b) <= max_size /\
  kCheapPrepend + kInitialSize <= zlen (buffer_ b).

Definition content (b : Buffer) : list ascii :=
  zslice (readerIndex_ b) (writerIndex_ b) (buffer_ b).

Definition repr (b : Buffer) (s : list ascii) : Prop := wf b /\ content b = s.

(** A buffer built from its three regions. *)
Definition layout (p m q : list ascii) : Buffer :=
  mkBuffer (p ++ m ++ q) (zlen p) (zlen p + zlen m).

Definition layout_ok (p m q : list ascii) : Prop :=
  kCheapPrepend + kInitialSize <= zlen p + zlen m + zlen q <= max_size.

Lemma content_layout p m q : content (layout p m q) = m.
Proof. by apply zslice_mid. Qed.

Lemma wf_layout p m q : layout_ok p m q -> wf (layout p m q).
Proof.
  unfold layout_ok, wf, layout; simpl. rewrite !zlen_app.
  pose proof (zlen_nonneg p). pose proof (zlen_nonneg m). pose proof (zlen_nonneg q). lia.
Qed.

Lemma repr_layout p m q : layout_ok p m q -> repr (layout p m q) m.
Proof. intros. split; [by apply wf_layout|apply content_layout]. Qed.

Lemma repr_inv b s :
  repr b s -> exists p q, b = layout p s q /\ layout_ok p s q.
Proof.
  intros [(H1 & H2 & H3) Hc]. unfold content in Hc.
  destruct (zslice_decomp (readerIndex_ b) (writerIndex_ b) (buffer_ b))
    as (p & q & Hb & Hp & Hq); [lia..|].
  rewrite Hc in Hb. exists p, q.
  assert (Hs : zlen s = writerIndex_ b - readerIndex_ b).
  { rewrite <- Hc. apply zlen_zslice; lia. }
  split; [|unfold layout_ok; lia].
  destruct b as [v r w]; unfold layout; simpl in *. rewrite <- Hb. f_equal; lia.
Qed.

(** Work on the regions of a represented buffer. *)
Ltac regions H :=
  let p := fresh "p" in let q := fresh "q" in let Hok := fresh "Hok" in
  apply repr_inv in H as (p & q & -> & Hok);
  pose proof (zlen_nonneg p); pose proof (zlen_nonneg q);
  unfold layout_ok, max_size, kCheapPrepend, kInitialSize in Hok.

Lemma u64_id x : 0 <= x <= max_size -> u64 x = x.
Proof. intros H. apply uwrap_small. unfold in_u. unfold max_size in H. lia. Qed.

Lemma readable_repr b s : repr b s -> readableBytes b = zlen s.
Proof.
  intros H. regions H. pose proof (zlen_nonneg s). unfold readableBytes; simpl.
  rewrite u64_id; unfold max_size; lia.
Qed.

Lemma writable_layout p m q : layout_ok p m q -> writableBytes (layout p m q) = zlen q.
Proof.
  intros Hok. unfold layout_ok in Hok. unfold writableBytes; simpl.
  pose proof (zlen_nonneg p). pose proof (zlen_nonneg m). pose proof (zlen_nonneg q).
  rewrite !zlen_app, u64_id; lia.
Qed.

Lemma repr_bound b s :
  repr b s -> zlen s <= writerIndex_ b /\ 0 <= readerIndex_ b /\ writerIndex_ b <= max_size.
Proof. intros H. regions H. simpl. pose proof (zlen_nonneg s). unfold max_size. lia. Qed.

(** ** Reading *)

Lemma retrieveAll_repr b s : repr b s -> repr (retrieveAll b) [].
Proof.
  intros [(H1 & H2 & H3) _]. unfold kCheapPrepend, kInitialSize in *. split.
  - unfold wf, retrieveAll, kCheapPrepend, kInitialSize; simpl. lia.
  - apply zslice_empty.
Qed.

(** [retrieve] drops the first [len] bytes, and aborts exactly when there are
    fewer. *)
Lemma retrieve_repr b s len :
  repr b s -> 0 <= len <= zlen s -> exists b', retrieve b len = Ok b' /\ repr b' (zdrop len s) /\
    writerIndex_ b' <= Z.max kCheapPrepend (writerIndex_ b).
Proof.
  intros H Hlen. unfold retrieve. rewrite (readable_repr b s H). zguard. zcase.
  - regions H. eexists; split; [done|].
    assert (E : mkBuffer (buffer_ (layout p s q)) (u64 (readerIndex_ (layout p s q) + len))
              (writerIndex_ (layout p s q)) = layout (p ++ ztake len s) (zdrop len s) q).
    { unfold layout; simpl. rewrite u64_id by (unfold max_size; lia).
      rewrite zlen_app, zlen_ztake, zlen_zdrop by lia. f_equal; [|lia].
      rewrite <- app_assoc. f_equal. by rewrite app_assoc, ztake_zdrop. }
    rewrite E. split; [apply repr_layout|].
    + unfold layout_ok, max_size, kCheapPrepend, kInitialSize.
      rewrite zlen_app, zlen_ztake, zlen_zdrop; lia.
    + simpl. rewrite zlen_app, zlen_ztake, zlen_zdrop; lia.
  - eexists; split; [done|]. rewrite zdrop_all by lia. split; [by eapply retrieveAll_repr|].
    simpl. lia.
Qed.

Lemma retrieve_fail b s len : repr b s -> zlen s < len -> retrieve b len = Err AssertFailed.
Proof. intros H Hlen. unfold retrieve. rewrite (readable_repr b s H). by zguard. Qed.

Lemma retrieveUntil_repr b s len :
  repr b s -> 0 <= len <= zlen s ->
  exists b', retrieveUntil b (peek b + len) = Ok b' /\ repr b' (zdrop len s) /\
    writerIndex_ b' <= Z.max kCheapPrepend (writerIndex_ b).
Proof.
  intros H Hlen. unfold retrieveUntil.
  assert (Hw : beginWrite b = peek b + zlen s) by (regions H; done).
  pose proof (repr_bound b s H) as (_ & Hr & Hm). unfold peek, beginWrite in *. zguard.
  rewrite u64_id by lia. replace (readerIndex_ b + len - readerIndex_ b) with len by lia.
  by apply retrieve_repr.
Qed.

Lemma range_peek b s len : repr b s -> 0 <= len <= zlen s -> range b (peek b) (peek b + len) = ztake len s.
Proof.
  intros H Hlen. regions H. unfold range, peek; simpl.
  rewrite <- (ztake_zdrop len s) at 1. rewrite <- app_assoc.
  apply zslice_mid; [done|]. rewrite zlen_ztake; lia.
Qed.

Lemma retrieveAsString_repr b s len :
  repr b s -> 0 <= len <= zlen s ->
  exists b', retrieveAsString b len = Ok (ztake len s, b') /\ repr b' (zdrop len s).
Proof.
  intros H Hlen. unfold retrieveAsString. rewrite (readable_repr b s H). zguard.
  rewrite (range_peek b s len) by done.
  destruct (retrieve_repr b s len) as (b' & -> & Hb' & _); [done..|]. eauto.
Qed.

Lemma retrieveAllAsString_repr b s :
  repr b s -> exists b', retrieveAllAsString b = Ok (s, b') /\ repr b' [].
Proof.
  intros H. unfold retrieveAllAsString. rewrite (readable_repr b s H).
  destruct (retrieveAsString_repr b s (zlen s)) as (b' & -> & Hb'); [done|split; auto with evloop; lia|].
  rewrite ztake_all by lia. rewrite zdrop_all in Hb' by lia. eauto.
Qed.

(** ** Writing *)

Lemma layout_grow p m q n :
  0 <= n -> vector_resize (p ++ m ++ q) (zlen p + zlen m + (zlen q + n)) =
    (if max_size <? zlen p + zlen m + (zlen q + n) then Err LengthError
     else Ok (p ++ m ++ q ++ replicate (Z.to_nat n) Ascii.zero)).
Proof.
  intros Hn. unfold vector_resize. zcase; [done|].
  rewrite ztake_all by (rewrite !zlen_app; lia).
  rewrite <- !app_assoc. do 6 f_equal. rewrite !zlen_app. lia.
Qed.

Lemma makeSpace_throw p m q len :
  layout_ok p m q -> 0 <= len <= max_size -> max_size < zlen p + zlen m + len ->
  zlen q + zlen p < len + kCheapPrepend ->
  makeSpace (layout p m q) len = Err LengthError.
Proof.
  intros Hok Hlen Hmax Hlt. pose proof (zlen_nonneg p). pose proof (zlen_nonneg m).
  pose proof (zlen_nonneg q). unfold makeSpace. rewrite writable_layout by done.
  unfold prependableBytes; simpl. unfold layout_ok, max_size, kCheapPrepend in *.
  rewrite (u64_id (zlen q + zlen p)) by (unfold max_size; lia).
  assert (E : u64 (len + 8) = len + 8) by (apply uwrap_small; unfold in_u; lia).
  assert (E' : u64 (zlen p + zlen m + len) = zlen p + zlen m + len)
    by (apply uwrap_small; unfold in_u; lia).
  rewrite E, E'. zguard. unfold vector_resize, max_size. by zguard.
Qed.

Lemma makeSpace_grow p m q len :
  layout_ok p m q -> zlen q < len -> zlen p + zlen m + len <= max_size ->
  zlen q + zlen p < len + kCheapPrepend ->
  makeSpace (layout p m q) len =
    Ok (layout p m (q ++ replicate (Z.to_nat (len - zlen q)) Ascii.zero)).
Proof.
  intros Hok Hlen Hmax Hlt. pose proof (zlen_nonneg p). pose proof (zlen_nonneg m).
  pose proof (zlen_nonneg q). unfold makeSpace. rewrite writable_layout by done.
  unfold prependableBytes; simpl. unfold layout_ok, max_size, kCheapPrepend in *.
  rewrite (u64_id (zlen q + zlen p)), (u64_id (_ + len)) by (unfold max_size; lia).
  assert (E : u64 (len + 8) = len + 8) by (apply uwrap_small; unfold in_u; lia).
  rewrite E. zguard.
  replace (zlen p + zlen m + len) with (zlen p + zlen m + (zlen q + (len - zlen q))) by lia.
  rewrite layout_grow by lia. unfold max_size. zguard. done.
Qed.

Lemma makeSpace_compact p m q len :
  layout_ok p m q -> zlen q < len -> len + kCheapPrepend <= zlen q + zlen p ->
  exists p' q', makeSpace (layout p m q) len = Ok (layout p' m q') /\
    zlen p' = kCheapPrepend /\ zlen q' = zlen p + zlen q - kCheapPrepend.
Proof.
  intros Hok Hlen Hge. pose proof (zlen_nonneg p). pose proof (zlen_nonneg m).
  pose proof (zlen_nonneg q). unfold makeSpace. rewrite writable_layout by done.
  rewrite (readable_repr (layout p m q) m) by (by apply repr_layout).
  unfold prependableBytes, range; simpl. rewrite zslice_mid by done.
  unfold layout_ok, max_size, kCheapPrepend, kInitialSize in *.
  rewrite !u64_id by (unfold max_size; lia). zguard.
  unfold splice. rewrite !zlen_app. zguard.
  exists (ztake 8 (p ++ m ++ q)), (zdrop (8 + zlen m) (p ++ m ++ q)).
  assert (H8 : zlen (ztake 8 (p ++ m ++ q)) = 8)
    by (apply zlen_ztake; rewrite !zlen_app; lia).
  assert (E : mkBuffer (ztake 8 (p ++ m ++ q) ++ m ++ zdrop (8 + zlen m) (p ++ m ++ q))
                8 (8 + zlen m) =
          layout (ztake 8 (p ++ m ++ q)) m (zdrop (8 + zlen m) (p ++ m ++ q))).
  { unfold layout. by rewrite H8. }
  rewrite (u64_id (8 + zlen m)) by (unfold max_size; lia). rewrite E.
  rewrite (readable_repr _ m)
    by (apply repr_layout; unfold layout_ok, max_size, kCheapPrepend, kInitialSize;
        rewrite H8, zlen_zdrop; rewrite !zlen_app; lia).
  zguard. split; [done|]. split; [done|]. rewrite zlen_zdrop; rewrite !zlen_app; lia.
Qed.

(** Making room either throws because the vector cannot grow, or yields the
    same content with at least [len] writable bytes behind it. *)
Lemma ensureWritableBytes_cases b s len :
  repr b s -> 0 <= len <= max_size ->
  (ensureWritableBytes b len = Err LengthError /\ max_size < writerIndex_ b + len) \/
  exists p q, ensureWritableBytes b len = Ok (layout p s q) /\ layout_ok p s q /\
    len <= zlen q /\ zlen p + zlen s <= writerIndex_ b.
Proof.
  intros H Hlen. regions H. pose proof (zlen_nonneg s).
  assert (Hok' : layout_ok p s q) by (unfold layout_ok, max_size, kCheapPrepend, kInitialSize; lia).
  unfold ensureWritableBytes. rewrite writable_layout by done. zcase.
  - destruct (Z.ltb_spec (zlen q + zlen p) (len + kCheapPrepend)).
    + destruct (Z.ltb_spec max_size (zlen p + zlen s + len)).
      { left. by rewrite makeSpace_throw. }
      right. rewrite makeSpace_grow by done. simpl.
      set (q' := q ++ _). assert (Hq' : zlen q' = len).
      { unfold q'. rewrite zlen_app, zlen_replicate; lia. }
      assert (Hl : layout_ok p s q').
      { unfold layout_ok, kCheapPrepend, kInitialSize in *. lia. }
      rewrite writable_layout by done. rewrite Hq'. zguard.
      exists p, q'. simpl. rewrite Hq'. split; [done|]. split; [done|]. lia.
    + right. destruct (makeSpace_compact p s q len) as (p' & q' & -> & Hp' & Hq'); [done|lia..|].
      assert (Hl : layout_ok p' s q') by (unfold layout_ok in *; lia).
      simpl. rewrite writable_layout by done. unfold kCheapPrepend in *. zguard.
      exists p', q'. simpl. split; [done|]. split; [done|]. lia.
  - right. rewrite writable_layout by done. zguard. exists p, q. simpl.
    split; [done|]. split; [done|]. lia.
Qed.

Lemma ensureWritableBytes_repr b s len :
  repr b s -> 0 <= len -> writerIndex_ b + len <= max_size ->
  exists p q, ensureWritableBytes b len = Ok (layout p s q) /\ layout_ok p s q /\
    len <= zlen q /\ zlen p + zlen s <= writerIndex_ b.
Proof.
  intros H Hlen Hmax. pose proof (repr_bound b s H). pose proof (zlen_nonneg s).
  destruct (ensureWritableBytes_cases b s len) as [[_ Hc]|Hc]; [done|lia|lia|done].
Qed.

(** The copy and the index update of [append], once there is room. *)
Lemma write_layout p s q d len :
  layout_ok p s q -> 0 <= len <= zlen d -> len <= zlen q ->
  (v ← splice (beginWrite (layout p s q)) (ztake len d) (buffer_ (layout p s q));
   hasWritten (mkBuffer v (zlen p) (zlen p + zlen s)) len) =
  Ok (layout p (s ++ ztake len d) (zdrop len q)) /\
  layout_ok p (s ++ ztake len d) (zdrop len q).
Proof.
  intros Hok Hlen Hq. pose proof (zlen_nonneg p). pose proof (zlen_nonneg s).
  destruct (zsplit len q) as (q1 & q2 & -> & Hq1 & Hq2); [lia|].
  unfold layout_ok, max_size in *. rewrite zlen_app in *. pose proof (zlen_nonneg q2).
  rewrite zdrop_app_exact by lia. unfold layout, beginWrite; simpl.
  assert (Hld : zlen (ztake len d) = len) by (apply zlen_ztake; lia).
  rewrite app_assoc, <- (zlen_app p s), splice_mid by congruence. simpl.
  unfold hasWritten, writableBytes; simpl.
  rewrite !zlen_app, Hld. rewrite !u64_id by (unfold max_size; lia). zguard.
  split; [|lia]. apply (f_equal Ok). f_equal; [|lia]. by rewrite <- !app_assoc.
Qed.

Lemma append_cases b s d len :
  repr b s -> 0 <= len <= zlen d -> len <= max_size ->
  (append b d len = Err LengthError /\ max_size < writerIndex_ b + len) \/
  exists b', append b d len = Ok b' /\ repr b' (s ++ ztake len d) /\
    writerIndex_ b' <= writerIndex_ b + len.
Proof.
  intros H Hlen Hmax. unfold append.
  destruct (ensureWritableBytes_cases b s len) as [[-> Hc]|(p & q & -> & Hok & Hq & Hw)];
    [done|lia|by left|right].
  cbn [mbind outcome_bind]. zguard.
  destruct (write_layout p s q d len Hok Hlen Hq) as [E Hok'].
  eexists; split; [exact E|]. split; [by apply repr_layout|].
  simpl. rewrite zlen_app, zlen_ztake; lia.
Qed.

Lemma append_repr b s d len :
  repr b s -> 0 <= len <= zlen d -> writerIndex_ b + len <= max_size ->
  exists b', append b d len = Ok b' /\ repr b' (s ++ ztake len d) /\
    writerIndex_ b' <= writerIndex_ b + len.
Proof.
  intros H Hlen Hmax. pose proof (repr_bound b s H). pose proof (zlen_nonneg s).
  destruct (append_cases b s d len) as [[_ Hc]|Hc]; [done|lia..|done].
Qed.

Lemma append_bytes_repr b s d :
  repr b s -> writerIndex_ b + zlen d <= max_size ->
  exists b', append_bytes b d = Ok b' /\ repr b' (s ++ d) /\
    writerIndex_ b' <= writerIndex_ b + zlen d.
Proof.
  intros H Hmax. pose proof (zlen_nonneg d).
  destruct (append_repr b s d (zlen d)) as (b' & Hb' & Hr & Hw); [done|lia..|].
  rewrite ztake_all in Hr by lia. eauto.
Qed.

Lemma append_piece_repr b s str :
  repr b s -> StringPiece.wf str -> writerIndex_ b + StringPiece.size str <= max_size ->
  exists b', append_piece b str = Ok b' /\ repr b' (s ++ StringPiece.chars str) /\
    writerIndex_ b' <= writerIndex_ b + StringPiece.size str.
Proof.
  intros H [H1 H2] Hmax. unfold append_piece, StringPiece.size, StringPiece.data in *.
  rewrite StringPiece.u64_nonneg_i32 by lia. apply append_repr; [done|lia..].
Qed.

Lemma prepend_repr b s d len :
  repr b s -> 0 <= len <= zlen d -> len <= readerIndex_ b ->
  exists b', prepend b d len = Ok b' /\ repr b' (ztake len d ++ s) /\
    writerIndex_ b' = writerIndex_ b.
Proof.
  intros H Hlen Hr. regions H. simpl in Hr. unfold prepend, prependableBytes; simpl. zguard.
  pose proof (zlen_nonneg s).
  rewrite u64_id by (unfold max_size; lia). zguard.
  destruct (zsplit (zlen p - len) p) as (p1 & p2 & -> & Hp1 & Hp2); [lia|].
  rewrite zlen_app in *. assert (Hld : zlen (ztake len d) = len) by (apply zlen_ztake; lia).
  replace (zlen p1 + zlen p2 - len) with (zlen p1) by lia.
  rewrite <- app_assoc, splice_mid by lia. simpl.
  eexists; split; [done|]. simpl. split; [|lia].
  replace (mkBuffer _ _ _) with (layout p1 (ztake len d ++ s) q).
  - apply repr_layout. unfold layout_ok, max_size, kCheapPrepend, kInitialSize.
    rewrite zlen_app, Hld. lia.
  - unfold layout. rewrite zlen_app, Hld. f_equal; [|lia]. by rewrite <- !app_assoc.
Qed.

Lemma unwrite_repr b s len :
  repr b s -> 0 <= len <= zlen s ->
  exists b', unwrite b len = Ok b' /\ repr b' (ztake (zlen s - len) s) /\
    writerIndex_ b' <= writerIndex_ b.
Proof.
  intros H Hlen. unfold unwrite. rewrite (readable_repr b s H). zguard.
  regions H. eexists; split; [done|]. simpl.
  rewrite u64_id by (unfold max_size; lia). split; [|lia].
  replace (mkBuffer _ _ _)
    with (layout p (ztake (zlen s - len) s) (zdrop (zlen s - len) s ++ q)).
  - apply repr_layout. unfold layout_ok, max_size, kCheapPrepend, kInitialSize.
    rewrite zlen_app, zlen_ztake, zlen_zdrop; lia.
  - unfold layout. rewrite zlen_ztake by lia. f_equal; [|lia].
    f_equal. by rewrite app_assoc, ztake_zdrop.
Qed.

Lemma new_Buffer_repr : exists b, new_Buffer kInitialSize = Ok b /\ repr b [] /\
  writerIndex_ b = kCheapPrepend.
Proof.
  eexists; split; [vm_compute; reflexivity|]. split; [|done].
  split; [|done]. unfold wf, max_size, kCheapPrepend, kInitialSize, zlen. simpl. lia.
Qed.

Lemma toStringPiece_wf b s :
  repr b s -> zlen s < 2 ^ 31 ->
  StringPiece.wf (toStringPiece b) /\ StringPiece.chars (toStringPiece b) = s /\
  StringPiece.size (toStringPiece b) = zlen s.
Proof.
  intros H Hs. unfold toStringPiece, StringPiece.of_range, StringPiece.wf, StringPiece.chars,
    StringPiece.size; simpl.
  rewrite (readable_repr b s H). pose proof (zlen_nonneg s).
  assert (E : i32 (zlen s) = zlen s) by (apply swrap_small; unfold in_s; lia).
  rewrite !E. regions H. unfold peek; simpl.
  rewrite zdrop_app_exact by done. rewrite zlen_app.
  split; [lia|]. split; [by apply ztake_app_exact|done].
Qed.

Lemma shrink_repr b s reserve :
  repr b s -> zlen s < 2 ^ 31 -> 0 <= reserve < 2 ^ 62 ->
  exists b', shrink b reserve = Ok b' /\ repr b' s.
Proof.
  intros H Hs Hres. unfold shrink. destruct new_Buffer_repr as (b0 & -> & H0 & Hw0).
  rewrite (readable_repr b s H). pose proof (zlen_nonneg s). cbn [mbind outcome_bind].
  rewrite u64_id by (unfold max_size; lia).
  destruct (ensureWritableBytes_repr b0 [] (zlen s + reserve)) as (p & q & -> & Hok & Hq & Hw);
    [done|lia|rewrite Hw0; unfold max_size, kCheapPrepend; lia|]. cbn [mbind outcome_bind].
  destruct (toStringPiece_wf b s) as (Hp1 & Hp2 & Hp3); [done..|].
  destruct (append_piece_repr (layout p [] q) [] (toStringPiece b)) as (b' & -> & Hb' & _);
    [by apply repr_layout|done|..].
  - rewrite Hp3. simpl. unfold max_size, kCheapPrepend in *. rewrite zlen_nil in *. lia.
  - rewrite Hp2 in Hb'. simpl. eauto.
Qed.

(** ** Integers *)

Lemma be_bytes_uwrap n x : be_bytes n (uwrap (width n) x) = be_bytes n x.
Proof.
  unfold be_bytes. f_equal.
  rewrite <- (le_value_bytes n x). rewrite <- (length_le_bytes n x) at 1.
  apply le_bytes_value.
Qed.

(** Appending the swapped image of an [n]-byte integer appends its big-endian
    bytes; so does prepending. *)
Lemma append_be b s n x :
  repr b s -> writerIndex_ b + Z.of_nat n <= max_size ->
  exists b', append b (le_bytes n (bswap n (uwrap (width n) x))) (Z.of_nat n) = Ok b' /\
    repr b' (s ++ be_bytes n x) /\ writerIndex_ b' <= writerIndex_ b + Z.of_nat n.
Proof.
  intros H Hmax. rewrite le_bytes_bswap, be_bytes_uwrap.
  destruct (append_repr b s (be_bytes n x) (Z.of_nat n)) as (b' & Hb' & Hr & Hw);
    [done|rewrite zlen_be_bytes; lia|lia|].
  rewrite ztake_all in Hr by (rewrite zlen_be_bytes; lia). eauto.
Qed.

Lemma prepend_be b s n x :
  repr b s -> Z.of_nat n <= readerIndex_ b ->
  exists b', prepend b (le_bytes n (bswap n (uwrap (width n) x))) (Z.of_nat n) = Ok b' /\
    repr b' (be_bytes n x ++ s) /\ writerIndex_ b' = writerIndex_ b.
Proof.
  intros H Hr. rewrite le_bytes_bswap, be_bytes_uwrap.
  destruct (prepend_repr b s (be_bytes n x) (Z.of_nat n)) as (b' & Hb' & Hc & Hw);
    [done|rewrite zlen_be_bytes; lia|lia|].
  rewrite ztake_all in Hc by (rewrite zlen_be_bytes; lia). eauto.
Qed.

(** What [peekIntNN] decodes from a buffer that starts with a big-endian
    integer. *)
Lemma peek_be b n x t :
  repr b (be_bytes n x ++ t) ->
  swrap (width n) (bswap n (uwrap (width n)
    (le_value (range b (peek b) (peek b + Z.of_nat n))))) = swrap (width n) x \/ n = 0%nat.
Proof.
  intros H. destruct n as [|n]; [by right|left].
  rewrite (range_peek b _ (Z.of_nat (S n)) H)
    by (rewrite zlen_app, zlen_be_bytes; pose proof (zlen_nonneg t); lia).
  rewrite ztake_app_exact by (by rewrite zlen_be_bytes).
  rewrite uwrap_small.
  - rewrite bswap_le_value, be_value_bytes by apply length_be_bytes.
    apply swrap_uwrap. unfold width. lia.
  - pose proof (le_value_range (be_bytes (S n) x)) as Hv.
    by rewrite length_be_bytes in Hv.
Qed.

Lemma readable_be b n x t :
  repr b (be_bytes n x ++ t) -> (Z.of_nat n <=? readableBytes b) = true.
Proof.
  intros H. rewrite (readable_repr b _ H), zlen_app, zlen_be_bytes.
  pose proof (zlen_nonneg t). apply Z.leb_le. lia.
Qed.

Lemma retrieve_be b n x t :
  repr b (be_bytes n x ++ t) ->
  exists b', retrieve b (Z.of_nat n) = Ok b' /\ repr b' t.
Proof.
  intros H. pose proof (zlen_nonneg t).
  destruct (retrieve_repr b _ (Z.of_nat n) H) as (b' & Hb' & Hr & _);
    [rewrite zlen_app, zlen_be_bytes; lia|].
  rewrite zdrop_app_exact in Hr by (by rewrite zlen_be_bytes). eauto.
Qed.

Lemma peekInt64_be b x t : repr b (be_bytes 8 x ++ t) -> peekInt64 b = Ok (i64 x).
Proof.
  intros H. unfold peekInt64. rewrite (readable_be b 8 x t H : (8 <=? _) = true). simpl.
  apply (f_equal Ok). by destruct (peek_be b 8 x t H).
Qed.

Lemma peekInt32_be b x t : repr b (be_bytes 4 x ++ t) -> peekInt32 b = Ok (i32 x).
Proof.
  intros H. unfold peekInt32. rewrite (readable_be b 4 x t H : (4 <=? _) = true). simpl.
  apply (f_equal Ok). by destruct (peek_be b 4 x t H).
Qed.

Lemma peekInt16_be b x t : repr b (be_bytes 2 x ++ t) -> peekInt16 b = Ok (i16 x).
Proof.
  intros H. unfold peekInt16. rewrite (readable_be b 2 x t H : (2 <=? _) = true). simpl.
  apply (f_equal Ok). by destruct (peek_be b 2 x t H).
Qed.

Lemma readInt32_be b x t :
  repr b (be_bytes 4 x ++ t) -> exists b', readInt32 b = Ok (i32 x, b') /\ repr b' t.
Proof.
  intros H. unfold readInt32. rewrite (peekInt32_be b x t H). simpl.
  destruct (retrieve_be b 4 x t H) as (b' & Hb' & Hr). unfold retrieveInt32.
  change (Z.of_nat 4) with 4 in Hb'. rewrite Hb'. simpl. eauto.
Qed.

Lemma readInt16_be b x t :
  repr b (be_bytes 2 x ++ t) -> exists b', readInt16 b = Ok (i16 x, b') /\ repr b' t.
Proof.
  intros H. unfold readInt16. rewrite (peekInt16_be b x t H). simpl.
  destruct (retrieve_be b 2 x t H) as (b' & Hb' & Hr). unfold retrieveInt16.
  change (Z.of_nat 2) with 2 in Hb'. rewrite Hb'. simpl. eauto.
Qed.

(** ** Searching *)

(** The line before the first CRLF, and what follows it. *)
Fixpoint break_crlf (s : list ascii) : option (list ascii * list ascii) :=
  match s with
  | [] => None
  | c :: s' =>
      if decide (kCRLF `prefix_of` s) then Some ([], zdrop 2 s)
      else match break_crlf s' with
           | Some (line, rest) => Some (c :: line, rest)
           | None => None
           end
  end.

Lemma break_crlf_Some s line rest :
  break_crlf s = Some (line, rest) -> s = line ++ kCRLF ++ rest.
Proof.
  revert line; induction s as [|c s IH]; intros line; cbn [break_crlf]; [done|].
  case_decide as Hp.
  - intros [= <- <-]. destruct Hp as [k Hk]. rewrite Hk. done.
  - destruct (break_crlf s) as [[l r]|] eqn:E; [|done]. intros [= <- <-].
    simpl. f_equal. by apply IH.
Qed.

Lemma std_search_spec s first :
  std_search kCRLF s first =
    first + match break_crlf s with Some (line, _) => zlen line | None => zlen s end.
Proof.
  revert first; induction s as [|c s IH]; intros first; cbn [std_search break_crlf].
  - rewrite zlen_nil. lia.
  - case_decide; [rewrite zlen_nil; lia|]. rewrite IH.
    destruct (break_crlf s) as [[l r]|]; rewrite zlen_cons; lia.
Qed.

Lemma break_crlf_len s line rest :
  break_crlf s = Some (line, rest) -> zlen s = zlen line + 2 + zlen rest.
Proof.
  intros H. apply break_crlf_Some in H. rewrite H, !zlen_app.
  change (zlen kCRLF) with 2. lia.
Qed.

Lemma range_content b s : repr b s -> range b (peek b) (beginWrite b) = s.
Proof. intros [_ H]. exact H. Qed.

Lemma findCRLF_repr b s :
  repr b s ->
  findCRLF b = match break_crlf s with
               | Some (line, _) => Some (peek b + zlen line)
               | None => None
               end.
Proof.
  intros H. unfold findCRLF. rewrite (range_content b s H), std_search_spec.
  assert (Hw : beginWrite b = peek b + zlen s) by (regions H; done). rewrite Hw.
  destruct (break_crlf s) as [[line rest]|] eqn:E; [|by rewrite Z.eqb_refl].
  apply break_crlf_len in E. pose proof (zlen_nonneg rest). by zguard.
Qed.

Lemma range_mid b s k n : repr b s -> 0 <= k -> 0 <= n -> k + n <= zlen s ->
  range b (peek b + k) (peek b + k + n) = ztake n (zdrop k s).
Proof.
  intros H Hk Hn Hkn. regions H. unfold range, peek; simpl.
  rewrite <- (ztake_zdrop k s) at 1. rewrite <- (ztake_zdrop n (zdrop k s)) at 1. rewrite <- !app_assoc, (app_assoc p).
  assert (Hz : zlen (zdrop k s) = zlen s - k) by (apply zlen_zdrop; lia).
  apply zslice_mid; rewrite ?zlen_app, !zlen_ztake; lia.
Qed.

(** The same from a position inside the readable bytes. *)
Lemma findCRLF_from_repr b s k : repr b s -> 0 <= k <= zlen s ->
  findCRLF_from b (peek b + k) = Ok match break_crlf (zdrop k s) with
                                     | Some (line, _) => Some (peek b + k + zlen line)
                                     | None => None
                                     end.
Proof.
  intros H Hk. assert (Hw : beginWrite b = peek b + k + (zlen s - k)) by (regions H; simpl; unfold peek, beginWrite; simpl; lia).
  unfold findCRLF_from. rewrite Hw. zguard. rewrite (range_mid b s k (zlen s - k) H), std_search_spec by lia.
  rewrite ztake_all by (rewrite zlen_zdrop; lia). f_equal.
  destruct (break_crlf (zdrop k s)) as [[line rest]|] eqn:E.
  - apply break_crlf_len in E. rewrite zlen_zdrop in E by lia. pose proof (zlen_nonneg rest). by zguard.
  - rewrite zlen_zdrop by lia. by rewrite Z.eqb_refl.
Qed.

(** ** Reading from a descriptor *)

Definition iov_total (iov : list Z) : Z := foldr Z.add 0 iov.

(** The data of one read is appended, unless the vector would become too long. *)
Lemma readFd_cases b s readv bs :
  repr b s -> readv (readFd_iov b) = ReadData bs -> zlen bs <= iov_total (readFd_iov b) ->
  (readFd readv b = Err LengthError /\ max_size < zlen (buffer_ b) + sizeof_extrabuf) \/
  exists b', readFd readv b = Ok (zlen bs, None, b') /\ repr b' (s ++ bs).
Proof.
  intros H Hread Hlen. unfold readFd. rewrite Hread. unfold readFd_iov in Hlen.
  regions H. assert (Hok' : layout_ok p s q)
    by (unfold layout_ok, max_size, kCheapPrepend, kInitialSize; lia).
  rewrite writable_layout in * by done. cbn [buffer_ layout]. rewrite !zlen_app.
  pose proof (zlen_nonneg s). pose proof (zlen_nonneg bs). unfold max_size, sizeof_extrabuf in *.
  destruct (Z.leb_spec (zlen bs) (zlen q)).
  - rewrite (ztake_all (zlen q)) by done.
    destruct (zsplit (zlen bs) q) as (q1 & q2 & -> & Hq1 & Hq2); [lia|].
    rewrite zlen_app in *. simpl. rewrite app_assoc, <- zlen_app, splice_mid by lia. simpl.
    rewrite u64_id by (unfold max_size; rewrite zlen_app; lia).
    right. eexists; split; [done|].
    replace (mkBuffer _ _ _) with (layout p (s ++ bs) q2).
    + apply repr_layout. unfold layout_ok, max_size, kCheapPrepend, kInitialSize.
      rewrite zlen_app. lia.
    + unfold layout. rewrite !zlen_app. f_equal; [|lia]. by rewrite <- !app_assoc.
  - assert (Hle : zlen bs <= zlen q + 65536).
    { destruct (Z.ltb_spec (zlen q) 65536); simpl in Hlen; lia. }
    destruct (zsplit (zlen q) bs) as (d1 & d2 & -> & Hd1 & Hd2); [lia|].
    rewrite zlen_app in *. rewrite (ztake_app_exact _ d1), (zdrop_app_exact _ d1) by lia.
    simpl. replace (p ++ s ++ q) with ((p ++ s) ++ q ++ []) by (by rewrite app_nil_r, <- app_assoc).
    rewrite <- (zlen_app p s), splice_mid by lia. simpl. rewrite app_nil_r.
    assert (Emk : mkBuffer ((p ++ s) ++ d1) (zlen p) (zlen ((p ++ s) ++ d1)) = layout p (s ++ d1) []).
    { unfold layout. rewrite app_nil_r, !zlen_app, <- app_assoc. f_equal. lia. }
    rewrite Emk.
    destruct (append_cases (layout p (s ++ d1) []) (s ++ d1) d2 (zlen d1 + zlen d2 - zlen q))
      as [[Hb' Hw]|(b' & Hb' & Hr & _)].
    + apply repr_layout. unfold layout_ok, max_size, kCheapPrepend, kInitialSize.
      rewrite zlen_app, zlen_nil. lia.
    + lia.
    + unfold max_size. lia.
    + left. rewrite Hb'. split; [done|]. simpl in Hw. rewrite zlen_app in Hw. unfold max_size in *. lia.
    + right. rewrite Hb'. simpl. eexists; split; [done|].
      rewrite ztake_all in Hr by lia. by rewrite <- app_assoc in Hr.
Qed.

Lemma iov_room b s : repr b s -> sizeof_extrabuf <= iov_total (readFd_iov b).
Proof.
  intros Hb. destruct (repr_inv b s Hb) as (p & q & -> & Hok). unfold readFd_iov.
  rewrite writable_layout by done. pose proof (zlen_nonneg q).
  destruct (Z.ltb_spec (zlen q) sizeof_extrabuf); unfold iov_total; simpl; lia.
Qed.

Lemma readFd_data b s readv bs :
  repr b s -> zlen (buffer_ b) + sizeof_extrabuf <= max_size ->
  readv (readFd_iov b) = ReadData bs -> zlen bs <= iov_total (readFd_iov b) ->
  exists b', readFd readv b = Ok (zlen bs, None, b') /\ repr b' (s ++ bs).
Proof.
  intros H Hmax Hread Hlen. destruct (readFd_cases b s readv bs H Hread Hlen) as [[_ Hc]|Hc]; [lia|done].
Qed.

(** A buffer that holds given bytes. *)
Definition buffer_of (s : text) : Buffer := layout (replicate 8 StringPiece.NUL) s (replicate 1024 StringPiece.NUL).

Lemma buffer_of_repr s : zlen s <= 1000000 -> repr (buffer_of s) s.
Proof.
  intros H. apply repr_layout. unfold layout_ok, kCheapPrepend, kInitialSize, max_size.
  change (zlen (replicate 1024 StringPiece.NUL)) with 1024.
  change (zlen (replicate 8 StringPiece.NUL)) with 8. pose proof (zlen_nonneg s). lia.
Qed.

(** ** Histories

    The operations a client can perform on a buffer, run one after the other,
    and the byte-string operation each stands for. *)

Inductive op : Type :=
| OAppend (d : list ascii)
| OPrepend (d : list ascii)
| OAppendInt32 (x : Z)
| OPrependInt32 (x : Z)
| ORetrieve (len : Z)
| ORetrieveAll
| OUnwrite (len : Z)
| OEnsureWritable (len : Z).

Definition run_op (b : Buffer) (o : op) : outcome Buffer :=
  match o with
  | OAppend d => append_bytes b d
  | OPrepend d => prepend b d (zlen d)
  | OAppendInt32 x => appendInt32 b x
  | OPrependInt32 x => prependInt32 b x
  | ORetrieve len => retrieve b len
  | ORetrieveAll => Ok (retrieveAll b)
  | OUnwrite len => unwrite b len
  | OEnsureWritable len => ensureWritableBytes b len
  end.

Definition spec_op (s : list ascii) (o : op) : list ascii :=
  match o with
  | OAppend d => s ++ d
  | OPrepend d => d ++ s
  | OAppendInt32 x => s ++ be_bytes 4 x
  | OPrependInt32 x => be_bytes 4 x ++ s
  | ORetrieve len => zdrop len s
  | ORetrieveAll => []
  | OUnwrite len => ztake (zlen s - len) s
  | OEnsureWritable _ => s
  end.

(** Arguments that exist in an address space: non-negative lengths and objects
    no larger than the largest vector. *)
Definition op_arg (o : op) : Prop :=
  match o with
  | OAppend d | OPrepend d => zlen d <= max_size
  | ORetrieve len | OUnwrite len | OEnsureWritable len => 0 <= len <= max_size
  | _ => True
  end.

(** Memory safety: whatever the arguments, an operation fails only by a failed
    assertion or by [std::length_error]. *)
Definition safe_failure (f : failure) : Prop := f = AssertFailed \/ f = LengthError.

Lemma assert_false_case {A} (c : bool) (k : outcome A) (P : outcome A -> Prop) :
  (c = true -> P k) -> P (Err AssertFailed) -> P (assert_ c ;; k).
Proof. destruct c; simpl; auto. Qed.

Definition refines (r : outcome Buffer) (s : list ascii) : Prop :=
  match r with
  | Ok b => repr b s
  | Err f => safe_failure f
  end.

Lemma append_refines b s d len :
  repr b s -> 0 <= len <= zlen d -> len <= max_size -> refines (append b d len) (s ++ ztake len d).
Proof.
  intros H Hlen Hmax. destruct (append_cases b s d len) as [[-> _]|(b' & -> & Hr & _)];
    [done..|by right|done].
Qed.

Lemma prepend_refines b s d len :
  repr b s -> 0 <= len <= zlen d -> refines (prepend b d len) (ztake len d ++ s).
Proof.
  intros H Hlen. destruct (Z.leb_spec len (readerIndex_ b)).
  - by destruct (prepend_repr b s d len) as (b' & -> & Hr & _).
  - unfold prepend, prependableBytes. zguard. by left.
Qed.

Lemma run_op_refines b s o : repr b s -> op_arg o -> refines (run_op b o) (spec_op s o).
Proof.
  intros H Ho. destruct o as [d|d|x|x|len| |len|len]; simpl in *.
  - pose proof (append_refines b s d (zlen d) H) as E. pose proof (zlen_nonneg d).
    rewrite ztake_all in E by done. apply E; lia.
  - pose proof (prepend_refines b s d (zlen d) H) as E. pose proof (zlen_nonneg d).
    rewrite ztake_all in E by done. apply E; lia.
  - unfold appendInt32, hostToNetwork32. change (u32 x) with (uwrap (width 4) x).
    rewrite le_bytes_bswap, be_bytes_uwrap.
    pose proof (append_refines b s (be_bytes 4 x) 4 H) as E.
    rewrite ztake_all in E by done. apply E; unfold max_size; rewrite ?zlen_be_bytes; lia.
  - unfold prependInt32, hostToNetwork32. change (u32 x) with (uwrap (width 4) x).
    rewrite le_bytes_bswap, be_bytes_uwrap.
    pose proof (prepend_refines b s (be_bytes 4 x) 4 H) as E.
    rewrite ztake_all in E by done. apply E; rewrite ?zlen_be_bytes; lia.
  - destruct (Z.leb_spec len (zlen s)).
    + by destruct (retrieve_repr b s len) as (b' & -> & Hr & _); [|lia|].
    + rewrite (retrieve_fail b s) by done. by left.
  - by eapply retrieveAll_repr.
  - unfold unwrite. destruct (Z.leb_spec len (zlen s)).
    + destruct (unwrite_repr b s len) as (b' & E & Hr & _); [done|lia|].
      unfold unwrite in E. by rewrite E.
    + rewrite (readable_repr b s H). zguard. by left.
  - destruct (ensureWritableBytes_cases b s len) as [[-> _]|(p & q & -> & Hok & _)];
      [done..|by right|by apply repr_layout].
Qed.

Lemma run_ops_refines b s ops :
  repr b s -> Forall op_arg ops ->
  refines (for_each run_op b ops) (fold_left spec_op ops s).
Proof.
  revert b s; induction ops as [|o ops IH]; intros b s H Hops; [done|].
  inversion Hops; subst. simpl. pose proof (run_op_refines b s o H ltac:(done)) as E.
  destruct (run_op b o) as [b'|f]; simpl in *; [by apply IH|done].
Qed.

(** ** Properties *)


Definition sample_ops : list op :=
  [OAppend (bytes "hello world"); ORetrieve 6; OPrependInt32 5; OAppend (bytes "!");
   OEnsureWritable 2000; OUnwrite 1].


(** Round trip: appending never fails while the vector can grow, and
    reading everything back returns the old content followed by the new
    bytes, in order, leaving the buffer empty. *)
Theorem append_retrieveAll_roundtrip (b : Buffer) (s d : list ascii)
    (Hb : repr b s) (Hroom : writerIndex_ b + zlen d <= max_size) :
  exists b1 b2, append_bytes b d = Ok b1 /\ readableBytes b1 = zlen s + zlen d /\
    retrieveAllAsString b1 = Ok (s ++ d, b2) /\ repr b2 [].
Proof.
  destruct (append_bytes_repr b s d Hb Hroom) as (b1 & Ha & Hb1 & _).
  destruct (retrieveAllAsString_repr b1 _ Hb1) as (b2 & Hr & Hb2).
  exists b1, b2. rewrite (readable_repr b1 _ Hb1), zlen_app. done.
Qed.

Definition empty_buffer : Buffer :=
  layout (replicate 8 Ascii.zero) [] (replicate 1024 Ascii.zero).

Lemma empty_buffer_repr : repr empty_buffer [].
Proof. apply repr_layout. split; vm_compute; discriminate. Qed.

Lemma append_retrieveAll_roundtrip_witness :
  exists b1 b2, append_bytes empty_buffer (bytes "ping") = Ok b1 /\
    readableBytes b1 = zlen (@nil ascii) + zlen (bytes "ping") /\
    retrieveAllAsString b1 = Ok (bytes "ping", b2) /\ repr b2 [].
Proof.
  apply (append_retrieveAll_roundtrip empty_buffer [] (bytes "ping") empty_buffer_repr).
  vm_compute. discriminate.
Defined.

(** Round trip of integers: an [int32_t] appended in network byte order is
    read back unchanged by [readInt32] once the bytes before it are retrieved,
    and one prepended where there is room is read back first. *)
Theorem int32_network_roundtrip (b : Buffer) (s : list ascii) (x y : Z)
    (Hb : repr b s) (Hroom : writerIndex_ b + 4 <= max_size)
    (Hhead : 4 <= readerIndex_ b) (Hx : in_s 32 x) (Hy : in_s 32 y) :
  (exists b1 b2 b3, appendInt32 b x = Ok b1 /\ retrieve b1 (zlen s) = Ok b2 /\
     readInt32 b2 = Ok (x, b3) /\ repr b3 []) /\
  (exists b1 b2, prependInt32 b y = Ok b1 /\ readInt32 b1 = Ok (y, b2) /\ repr b2 s).
Proof.
  split.
  - destruct (append_be b s 4 x Hb Hroom) as (b1 & H1 & Hb1 & _).
    destruct (retrieve_repr b1 _ (zlen s) Hb1) as (b2 & H2 & Hb2 & _);
      [rewrite zlen_app, zlen_be_bytes; pose proof (zlen_nonneg s); lia|].
    rewrite zdrop_app_exact in Hb2 by done. rewrite <- (app_nil_r (be_bytes 4 x)) in Hb2.
    destruct (readInt32_be b2 x [] Hb2) as (b3 & H3 & Hb3).
    unfold i32 in H3. rewrite swrap_small in H3 by done. exists b1, b2, b3. done.
  - destruct (prepend_be b s 4 y Hb Hhead) as (b1 & H1 & Hb1 & _).
    destruct (readInt32_be b1 y s Hb1) as (b2 & H2 & Hb2).
    unfold i32 in H2. rewrite swrap_small in H2 by done. exists b1, b2. done.
Qed.

Lemma int32_network_roundtrip_witness :
  (exists b1 b2 b3, appendInt32 empty_buffer (-3) = Ok b1 /\ retrieve b1 0 = Ok b2 /\
     readInt32 b2 = Ok (-3, b3) /\ repr b3 []) /\
  (exists b1 b2, prependInt32 empty_buffer 65537 = Ok b1 /\ readInt32 b1 = Ok (65537, b2) /\
     repr b2 []).
Proof.
  apply (int32_network_roundtrip empty_buffer [] (-3) 65537 empty_buffer_repr);
    unfold in_s; vm_compute; (discriminate || reflexivity || (split; discriminate || reflexivity)).
Defined.

(** [findCRLF] answers the position of the first CRLF of the readable
    bytes, and NULL exactly when there is none. *)
Theorem findCRLF_first (b : Buffer) (s : list ascii) (Hb : repr b s) :
  match findCRLF b with
  | Some i => exists line rest, s = line ++ kCRLF ++ rest /\ i = peek b + zlen line /\
      forall line' rest', s = line' ++ kCRLF ++ rest' -> zlen line <= zlen line'
  | None => forall line rest, s <> line ++ kCRLF ++ rest
  end.
Proof.
  rewrite (findCRLF_repr b s Hb). clear Hb.
  assert (Hmin : forall line' rest', s = line' ++ kCRLF ++ rest' ->
    exists line rest, break_crlf s = Some (line, rest) /\ zlen line <= zlen line').
  { clear b. induction s as [|c s IH]; intros line' rest' E; [by destruct line'|].
    cbn [break_crlf]. case_decide as Hp.
    - eexists _, _; split; [done|]. rewrite zlen_nil. apply zlen_nonneg.
    - destruct line' as [|c' line'].
      { exfalso. apply Hp. rewrite E. by exists rest'. }
      injection E as -> E. destruct (IH _ _ E) as (l & r & -> & Hl).
      eexists _, _; split; [done|]. rewrite !zlen_cons. lia. }
  destruct (break_crlf s) as [[line rest]|] eqn:E.
  - exists line, rest. split; [by apply break_crlf_Some|]. split; [done|].
    intros line' rest' E'. destruct (Hmin _ _ E') as (l & r & [= <- <-] & Hl). done.
  - intros line rest E'. destruct (Hmin _ _ E') as (l & r & [=] & _).
Qed.

Lemma findCRLF_first_witness :
  let b := layout (replicate 8 Ascii.zero) (bytes "GET /" ++ kCRLF ++ kCRLF)
             (replicate 1024 Ascii.zero) in
  findCRLF b = Some 13 /\
  match findCRLF b with
  | Some i => exists line rest, bytes "GET /" ++ kCRLF ++ kCRLF = line ++ kCRLF ++ rest /\
      i = peek b + zlen line /\
      forall line' rest', bytes "GET /" ++ kCRLF ++ kCRLF = line' ++ kCRLF ++ rest' ->
        zlen line <= zlen line'
  | None => forall line rest, bytes "GET /" ++ kCRLF ++ kCRLF <> line ++ kCRLF ++ rest
  end.
Proof.
  intros b. split; [vm_compute; reflexivity|].
  apply (findCRLF_first b (bytes "GET /" ++ kCRLF ++ kCRLF)).
  apply repr_layout. split; vm_compute; discriminate.
Defined.

(** [readFd] appends exactly the bytes [readv] delivered, whether they fit
    the writable space or overflow into the stack buffer, and returns their
    number; an error leaves the buffer alone and stores [errno]. *)
Theorem readFd_appends (b : Buffer) (s : list ascii) (readv : list Z -> readv_result)
    (Hb : repr b s) (Hmax : zlen (buffer_ b) + sizeof_extrabuf <= max_size)
    (Hreadv : forall bs, readv (readFd_iov b) = ReadData bs ->
       zlen bs <= iov_total (readFd_iov b)) :
  match readv (readFd_iov b) with
  | ReadData bs => exists b', readFd readv b = Ok (zlen bs, None, b') /\ repr b' (s ++ bs)
  | ReadError e => readFd readv b = Ok (-1, Some e, b)
  end.
Proof.
  destruct (readv (readFd_iov b)) as [e|bs] eqn:E.
  - unfold readFd. by rewrite E.
  - apply readFd_data; auto.
Qed.

(** The kernel delivers as many bytes as the blocks hold, at most 1500. *)
Definition sample_readv (iov : list Z) : readv_result :=
  ReadData (ztake (iov_total iov) (replicate 1500 "x"%char)).

Lemma readFd_appends_witness :
  exists b', readFd sample_readv empty_buffer = Ok (1500, None, b') /\
    repr b' (replicate 1500 "x"%char).
Proof.
  change 1500 with (zlen (replicate 1500 "x"%char)).
  apply (readFd_appends empty_buffer [] sample_readv empty_buffer_repr).
  - vm_compute. discriminate.
  - intros bs [= <-]. vm_compute. discriminate.
Defined.

(** The constructor ignores its argument for the size of the vector but
    asserts that the writable space equals it: a [Buffer] can be built with
    [initialSize = 1024] only, and aborts for every other argument. *)
Theorem new_Buffer_only_initial_size (initialSize : Z) :
  new_Buffer initialSize =
    (if initialSize =? kInitialSize then Ok empty_buffer else Err AssertFailed).
Proof.
  unfold new_Buffer. cbv zeta.
  replace (writableBytes _) with kInitialSize by (vm_compute; reflexivity).
  rewrite (Z.eqb_sym kInitialSize).
  destruct (initialSize =? kInitialSize); vm_compute; reflexivity.
Qed.
