(* ===== verification/Lines.v ===== *)
(** * Lines and words

    The text protocols split what they read at line ends and at characters
    ([std::search], [std::find]): the splits and how they behave on text that is
    still arriving. *)

From S2P Require Import Prelude Endian StringPiece Buffer.
Local Open Scope Z_scope.

Definition CR : ascii := "013".
Definition SP : ascii := " ".

(** [std::find] of a character: what is before and after its first occurrence. *)
Fixpoint find_char (c : ascii) (s : text) : option (text * text) :=
  match s with
  | [] => None
  | x :: s' => if decide (x = c) then Some ([], s')
               else match find_char c s' with Some (a, b) => Some (x :: a, b) | None => None end
  end.

Lemma find_char_app c a b : c ∉ a -> find_char c (a ++ c :: b) = Some (a, b).
Proof.
  induction a as [|x a IH]; simpl; intros H; [by rewrite decide_True|].
  rewrite decide_False by (intros ->; apply H; left).
  rewrite IH; [done|]. intros Hin. apply H. by right.
Qed.

Lemma find_char_None c a : c ∉ a -> find_char c a = None.
Proof.
  induction a as [|x a IH]; simpl; intros H; [done|].
  rewrite decide_False by (intros ->; apply H; left).
  rewrite IH; [done|]. intros Hin. apply H. by right.
Qed.

Lemma find_char_spec c s a b : find_char c s = Some (a, b) -> s = a ++ c :: b /\ c ∉ a.
Proof.
  revert a. induction s as [|x s IH]; simpl; intros a H; [done|]. case_decide; simplify_eq.
  - split; [done|]. set_solver.
  - destruct (find_char c s) as [[a' b']|]; simplify_eq. destruct (IH a' eq_refl) as [-> Hn].
    split; [done|]. set_solver.
Qed.

Lemma find_char_absent c s : find_char c s = None -> c ∉ s.
Proof.
  induction s as [|x s IH]; simpl; intros H; [set_solver|]. case_decide; [done|].
  destruct (find_char c s) as [[a b]|]; [done|]. specialize (IH eq_refl). set_solver.
Qed.

(** A line end that was found stays where it is when more text arrives. *)
Lemma break_crlf_app s line rest t :
  break_crlf s = Some (line, rest) -> break_crlf (s ++ t) = Some (line, rest ++ t).
Proof.
  revert line; induction s as [|c s IH]; intros line; [done|].
  change ((c :: s) ++ t) with (c :: s ++ t). cbn [break_crlf]. case_decide as Hp.
  - intros [= <- <-]. destruct Hp as [k Hk]. rewrite decide_True.
    + unfold kCRLF in Hk. simpl in Hk. by simplify_eq.
    + exists (k ++ t). change (c :: s ++ t) with ((c :: s) ++ t). rewrite Hk. by rewrite <- app_assoc.
  - destruct (break_crlf s) as [[l r]|] eqn:E; [|done]. intros [= <- <-].
    rewrite decide_False; [by rewrite (IH l)|].
    intros [k Hk]. apply Hp. apply break_crlf_Some in E. destruct s as [|d s]; [by destruct l|].
    simpl in Hk. unfold kCRLF in *. simpl in Hk. injection Hk as -> -> Hk. by exists s.
Qed.

Lemma break_crlf_line line rest : CR ∉ line -> break_crlf (line ++ kCRLF ++ rest) = Some (line, rest).
Proof.
  induction line as [|x line IH]; intros H; [done|].
  change ((x :: line) ++ kCRLF ++ rest) with (x :: line ++ kCRLF ++ rest). cbn [break_crlf].
  rewrite decide_False.
  - rewrite IH; [done|]. intros Hin. apply H. by right.
  - intros [k Hk]. injection Hk as -> _. apply H. left.
Qed.

(** A decidable fact about closed terms. *)
Ltac by_compute := apply (bool_decide_unpack _); vm_compute; exact I.
