(* ===== verification/Format.v ===== *)
(** * C formatted output and floating point

    What the sources use of [snprintf] and of [double]: the integer
    conversions with a minimum width, the truncation to the caller's array,
    and IEEE-754 binary64 arithmetic (the Standard Library's [SpecFloat]). *)

From S2P Require Import Prelude.
From stdpp Require Import pretty.
From Stdlib Require Import SpecFloat.
Local Open Scope Z_scope.

(** [%d], [%u], [%zd], [PRId64]: the decimal digits of an integer. *)
Definition fmt_d (z : Z) : list ascii := bytes (pretty z).

(** Pad to a minimum width: with zeros after the sign ([%0Nd]), or with
    blanks ([%Nd]). *)
Definition fmt_0d (w : Z) (z : Z) : list ascii :=
  let digits := fmt_d (Z.abs z) in
  let sign := if z <? 0 then ["-"%char] else [] in
  sign ++ replicate (Z.to_nat (w - zlen sign - zlen digits)) "0"%char ++ digits.

Definition fmt_sd (w : Z) (z : Z) : list ascii :=
  let body := fmt_d z in
  replicate (Z.to_nat (w - zlen body)) " "%char ++ body.

(** [snprintf(buf, size, ...)] followed by a read of [buf] as a C string: at
    most [size - 1] characters are kept. *)
Definition snprintf (size : Z) (text : list ascii) : list ascii := ztake (size - 1) text.

Lemma snprintf_fits size text : zlen text < size -> snprintf size text = text.
Proof. intros H. apply ztake_all. lia. Qed.

Lemma fmt_d_inj a b : fmt_d a = fmt_d b -> a = b.
Proof.
  unfold fmt_d, bytes. intros H. apply (f_equal String.string_of_list_ascii) in H.
  rewrite !String.string_of_list_ascii_of_string in H. by apply (inj pretty).
Qed.

Lemma length_pretty_N_go (k : nat) : forall x s, (x < 10 ^ N.of_nat k)%N ->
  (String.length (pretty_N_go x s) <= k + String.length s)%nat.
Proof.
  induction k as [|k IH]; intros x s Hx.
  - replace x with 0%N by (simpl in Hx; lia). by rewrite pretty_N_go_0.
  - destruct (decide (x = 0%N)) as [->|Hn]; [rewrite pretty_N_go_0; lia|].
    rewrite pretty_N_go_step by lia.
    etrans; [apply IH|simpl; lia].
    apply N.Div0.div_lt_upper_bound. rewrite Nat2N.inj_succ, N.pow_succ_r' in Hx. lia.
Qed.

Lemma length_bytes s : length (bytes s) = String.length s.
Proof. unfold bytes. induction s; simpl; auto. Qed.

(** A number below [10 ^ k] has at most [k] digits. *)
Lemma zlen_fmt_d (k : nat) z : (0 < k)%nat -> 0 <= z < 10 ^ Z.of_nat k -> zlen (fmt_d z) <= Z.of_nat k.
Proof.
  intros Hk Hz. unfold fmt_d, zlen. rewrite length_bytes. apply inj_le.
  destruct z as [|p|p]; [change (1 <= k)%nat; lia| |lia].
  change (pretty (Z.pos p)) with (pretty_N_go (N.pos p) "").
  etrans; [apply (length_pretty_N_go k)|simpl; lia].
  apply N2Z.inj_lt. rewrite N2Z.inj_pow, nat_N_Z. simpl. lia.
Qed.

(** Its characters are digits and perhaps a sign. *)
Definition digit_or_sign (c : ascii) : bool :=
  let n := Z_of_byte c in ((48 <=? n) && (n <=? 57)) || (n =? 45).

Lemma pretty_N_go_digits x : forall s, forallb digit_or_sign (bytes s) = true ->
  forallb digit_or_sign (bytes (pretty_N_go x s)) = true.
Proof.
  induction (N.lt_wf_0 x) as [x _ IH]. intros s Hs.
  destruct (decide (x = 0%N)) as [->|Hn]; [by rewrite pretty_N_go_0|].
  rewrite pretty_N_go_step by lia. apply IH; [apply N.div_lt; lia|].
  simpl. fold (bytes s). rewrite Hs. unfold pretty_N_char. by repeat case_match.
Qed.

Lemma fmt_d_digits z c : c ∈ fmt_d z -> digit_or_sign c = true.
Proof.
  assert (H : forallb digit_or_sign (fmt_d z) = true).
  { unfold fmt_d. destruct z as [|p|p]; [done|by apply (pretty_N_go_digits (N.pos p) "")|].
    apply (pretty_N_go_digits (N.pos p) ""). done. }
  rewrite forallb_forall in H. rewrite list_elem_of_In. auto.
Qed.

(** ** Characters *)

(** [isspace] and [isdigit] in the C locale. *)
Definition isspace (c : ascii) : bool := (Z_of_byte c =? 32) || ((9 <=? Z_of_byte c) && (Z_of_byte c <=? 13)).
Definition isdigit (c : ascii) : bool := (48 <=? Z_of_byte c) && (Z_of_byte c <=? 57).

Lemma digit_plain c : isdigit c = true -> isspace c = false /\ c <> "-"%char /\ c <> "+"%char.
Proof.
  unfold isdigit, isspace. intros H. split_and!; [|by intros -> ..]. apply andb_prop in H as [H1%Z.leb_le H2%Z.leb_le]. by zguard.
Qed.

Lemma pretty_N_char_digit d : (d < 10)%N -> isdigit (pretty_N_char d) = true /\ Z_of_byte (pretty_N_char d) - 48 = Z.of_N d.
Proof. intros Hd. destruct d as [|p]; [done|]. do 4 (destruct p as [p|p|]; try done; try lia). Qed.

Lemma fmt_d_head z : 0 <= z -> exists c s, fmt_d z = c :: s /\ isdigit c = true.
Proof.
  assert (Hgo : forall x s, x <> 0%N -> exists c t, bytes (pretty_N_go x s) = c :: t /\ isdigit c = true).
  { intros x. induction (N.lt_wf_0 x) as [x _ IH]. intros s Hn. rewrite pretty_N_go_step by lia.
    destruct (decide (x / 10 = 0)%N) as [->|Hd]; [|apply IH; [apply N.div_lt; lia|done]].
    rewrite pretty_N_go_0. eexists _, _. split; [reflexivity|]. apply pretty_N_char_digit, N.mod_lt. lia. }
  intros Hz. destruct z as [|p|p]; [by eexists _, _| |lia]. by apply (Hgo (N.pos p)).
Qed.

(** ** [double] *)

Abbreviation double := spec_float.

Definition double_of_Z (z : Z) : double := binary_normalize 53 1024 z 0 false.
Definition dmul : double -> double -> double := SFmul 53 1024.
Definition ddiv : double -> double -> double := SFdiv 53 1024.
Definition dlt : double -> double -> bool := SFltb.
Definition dzero : double := S754_zero false.

(** [static_cast<int64_t>]: truncation towards zero; out of range and NaN give
    the value the x86-64 conversion instruction produces. *)
Definition int64_min : Z := - 2 ^ 63.

Definition double_to_int64 (d : double) : Z :=
  match d with
  | S754_zero _ => 0
  | S754_finite s m e =>
      let a := if 0 <=? e then Z.pos m * 2 ^ e else Z.pos m / 2 ^ (- e) in
      let z := if s then - a else a in
      if (- 2 ^ 63 <=? z) && (z <? 2 ^ 63) then z else int64_min
  | _ => int64_min
  end.
