(* ===== verification/Timestamp.v ===== *)
(** * Time points (src/src/Timestamp.h, src/src/Timestamp.cpp)

    A [Timestamp] is an [int64_t] count of microseconds since the epoch. *)

From S2P Require Import Prelude Format.
Local Open Scope Z_scope.

Record Timestamp : Type := mkTimestamp { microSecondsSinceEpoch : Z }.

#[export] Instance Timestamp_eq_dec : EqDecision Timestamp.
Proof. solve_decision. Defined.

Definition kMicroSecondsPerSecond : Z := 1000 * 1000.

Definition invalid : Timestamp := mkTimestamp 0.

Definition valid (t : Timestamp) : bool := 0 <? microSecondsSinceEpoch t.

Definition Timestamp_swap (a that : Timestamp) : Timestamp * Timestamp := (that, a).

Definition secondsSinceEpoch (t : Timestamp) : Z :=
  Z.quot (microSecondsSinceEpoch t) kMicroSecondsPerSecond.

Definition fromUnixTime (t microseconds : Z) : Timestamp :=
  mkTimestamp (i64 (t * kMicroSecondsPerSecond + microseconds)).

(** [gettimeofday(2)] fills a [struct timeval]. *)
Record timeval : Type := mkTimeval { tv_sec : Z; tv_usec : Z }.

Definition now (tv : timeval) : Timestamp :=
  mkTimestamp (i64 (tv_sec tv * kMicroSecondsPerSecond + tv_usec tv)).

Definition Timestamp_lt (lhs rhs : Timestamp) : bool :=
  microSecondsSinceEpoch lhs <? microSecondsSinceEpoch rhs.

Definition Timestamp_eq (lhs rhs : Timestamp) : bool :=
  microSecondsSinceEpoch lhs =? microSecondsSinceEpoch rhs.

Definition timeDifference (high low : Timestamp) : double :=
  let diff := i64 (microSecondsSinceEpoch high - microSecondsSinceEpoch low) in
  ddiv (double_of_Z diff) (double_of_Z kMicroSecondsPerSecond).

Definition addTime (timestamp : Timestamp) (seconds : double) : Timestamp :=
  let delta := double_to_int64 (dmul seconds (double_of_Z kMicroSecondsPerSecond)) in
  mkTimestamp (i64 (microSecondsSinceEpoch timestamp + delta)).

(** ["%ld.%06ld"] into [char buf[32]]. *)
Definition toString (t : Timestamp) : list ascii :=
  let seconds := Z.quot (microSecondsSinceEpoch t) kMicroSecondsPerSecond in
  let microseconds := Z.rem (microSecondsSinceEpoch t) kMicroSecondsPerSecond in
  snprintf 32 (fmt_d seconds ++ ["."%char] ++ fmt_0d 6 microseconds).

(** The calendar fields [localtime_r] stores. *)
Record tm_fields : Type := mkTm {
  tm_year : Z; tm_mon : Z; tm_mday : Z; tm_hour : Z; tm_min : Z; tm_sec : Z
}.

(** [toFormattedString]: [localtime_r] depends on the zone of the process and
    is a parameter. *)
Definition toFormattedString (localtime_r : Z -> tm_fields) (showMicroseconds : bool)
    (t : Timestamp) : list ascii :=
  let seconds := Z.quot (microSecondsSinceEpoch t) kMicroSecondsPerSecond in
  let tm := localtime_r seconds in
  let date :=
    fmt_sd 4 (tm_year tm + 1900) ++ fmt_0d 2 (tm_mon tm + 1) ++ fmt_0d 2 (tm_mday tm) ++
    [" "%char] ++ fmt_0d 2 (tm_hour tm) ++ [":"%char] ++ fmt_0d 2 (tm_min tm) ++
    [":"%char] ++ fmt_0d 2 (tm_sec tm) in
  if showMicroseconds then
    let microseconds := Z.rem (microSecondsSinceEpoch t) kMicroSecondsPerSecond in
    snprintf 64 (date ++ ["."%char] ++ fmt_0d 6 microseconds)
  else snprintf 64 date.

(** ** Lemmas *)

Lemma Timestamp_lt_spec a b :
  Timestamp_lt a b = true <-> microSecondsSinceEpoch a < microSecondsSinceEpoch b.
Proof. apply Z.ltb_lt. Qed.

(** The time points of an exact number of seconds survive the conversion. *)
Lemma fromUnixTime_seconds t us :
  0 <= t < 2 ^ 40 -> 0 <= us < kMicroSecondsPerSecond ->
  secondsSinceEpoch (fromUnixTime t us) = t.
Proof.
  unfold kMicroSecondsPerSecond. intros Ht Hu. unfold secondsSinceEpoch, fromUnixTime; simpl.
  unfold i64. rewrite swrap_small by (unfold in_s, kMicroSecondsPerSecond; lia).
  unfold kMicroSecondsPerSecond. rewrite Z.quot_div_nonneg by lia.
  rewrite Z.add_comm, Z.mul_comm, Z.mul_comm, Z.div_add by lia. rewrite Z.div_small by lia. lia.
Qed.
