(* ===== verification/OrdSet.v ===== *)
(** * [std::set] of pairs

    The timer queue keeps its timers in [std::set<std::pair<..>>].  Such a set
    is modelled by the strictly increasing list of its elements, in the order
    an iterator visits them; pairs of integers are compared
    lexicographically, as [std::pair]'s [operator<] does. *)

From S2P Require Import Prelude.
Local Open Scope Z_scope.

Abbreviation key := (Z * Z)%type.

Definition pair_ltb (a b : key) : bool :=
  (fst a <? fst b) || ((fst a =? fst b) && (snd a <? snd b)).

Definition pair_lt (a b : key) : Prop := pair_ltb a b = true.

(** [insert]: the new set, and whether the element was absent. *)
Fixpoint set_insert (x : key) (s : list key) : list key * bool :=
  match s with
  | [] => ([x], true)
  | y :: s' =>
      if pair_ltb x y then (x :: y :: s', true)
      else if pair_ltb y x then let '(r, b) := set_insert x s' in (y :: r, b)
      else (y :: s', false)
  end.

(** [erase(key)]: the new set, and the number of elements erased. *)
Definition set_erase (x : key) (s : list key) : list key * Z :=
  (filter (fun y => y <> x) s, if decide (x ∈ s) then 1 else 0).

(** [find(key) != end()]. *)
Definition set_mem (x : key) (s : list key) : bool := bool_decide (x ∈ s).

(** [lower_bound(key)]: the elements before it, and from it on. *)
Fixpoint set_split (x : key) (s : list key) : list key * list key :=
  match s with
  | [] => ([], [])
  | y :: s' =>
      if pair_ltb y x then let '(a, b) := set_split x s' in (y :: a, b)
      else ([], y :: s')
  end.

Definition ordered (s : list key) : Prop := StronglySorted pair_lt s.

(** ** The order *)

Lemma pair_lt_spec a b :
  pair_lt a b <-> fst a < fst b \/ (fst a = fst b /\ snd a < snd b).
Proof.
  unfold pair_lt, pair_ltb. destruct a as [a1 a2], b as [b1 b2]; simpl.
  destruct (Z.ltb_spec a1 b1), (Z.eqb_spec a1 b1), (Z.ltb_spec a2 b2); simpl;
    split; intros; try lia; done.
Qed.

Lemma pair_ltb_false a b : pair_ltb a b = false <-> ~ pair_lt a b.
Proof. unfold pair_lt. destruct (pair_ltb a b); split; done. Qed.

Lemma pair_lt_irrefl a : ~ pair_lt a a.
Proof. rewrite pair_lt_spec. lia. Qed.

Lemma pair_lt_trans a b c : pair_lt a b -> pair_lt b c -> pair_lt a c.
Proof. rewrite !pair_lt_spec. lia. Qed.

Lemma pair_lt_total a b : ~ pair_lt a b -> ~ pair_lt b a -> a = b.
Proof.
  rewrite !pair_lt_spec. destruct a, b; simpl. intros. f_equal; lia.
Qed.

(** ** Membership and order of the operations *)

Lemma set_insert_elem x y s : y ∈ (set_insert x s).1 <-> y = x \/ y ∈ s.
Proof.
  induction s as [|z s IH]; simpl; [set_solver|].
  destruct (pair_ltb x z) eqn:E1; [set_solver|].
  destruct (pair_ltb z x) eqn:E2.
  - destruct (set_insert x s) as [r b]; simpl in *. set_solver.
  - apply pair_ltb_false in E1, E2. rewrite (pair_lt_total x z) by done. set_solver.
Qed.

Lemma set_insert_flag x s :
  ordered s -> (set_insert x s).2 = negb (bool_decide (x ∈ s)).
Proof.
  induction s as [|z s IH]; intros Hs; simpl; [done|].
  inversion Hs as [|? ? Hs' Hz]; subst.
  destruct (pair_ltb x z) eqn:E1; simpl.
  - rewrite bool_decide_false; [done|]. rewrite elem_of_cons. intros [->|Hx].
    + by apply (pair_lt_irrefl z).
    + rewrite Forall_forall in Hz. apply (pair_lt_irrefl x).
      eapply pair_lt_trans; [exact E1|]. by apply Hz.
  - destruct (pair_ltb z x) eqn:E2.
    + specialize (IH Hs'). destruct (set_insert x s) as [r b]; simpl in *. rewrite IH.
      f_equal. apply bool_decide_ext. rewrite elem_of_cons. split; [auto|].
      intros [->|]; [|done]. by apply pair_lt_irrefl in E2.
    + apply pair_ltb_false in E1, E2. rewrite (pair_lt_total x z) by done.
      by rewrite bool_decide_true by set_solver.
Qed.

Lemma set_insert_ordered x s : ordered s -> ordered (set_insert x s).1.
Proof.
  induction s as [|z s IH]; intros Hs; simpl; [by repeat constructor|].
  inversion Hs as [|? ? Hs' Hz]; subst.
  destruct (pair_ltb x z) eqn:E1; simpl.
  - constructor; [done|]. constructor; [done|].
    rewrite Forall_forall in *. intros y Hy. eapply pair_lt_trans; [exact E1|auto].
  - destruct (pair_ltb z x) eqn:E2; [|done].
    pose proof (set_insert_elem x) as He. specialize (IH Hs').
    destruct (set_insert x s) as [r b] eqn:E; simpl in *. constructor; [done|].
    rewrite Forall_forall in *. intros y Hy.
    specialize (He y s). rewrite E in He. simpl in He. apply He in Hy as [->|]; auto.
Qed.

Lemma set_insert_length x s :
  ordered s -> x ∉ s -> length (set_insert x s).1 = S (length s).
Proof.
  induction s as [|z s IH]; intros Hs Hx; simpl; [done|].
  inversion Hs; subst. destruct (pair_ltb x z) eqn:E1; [done|].
  destruct (pair_ltb z x) eqn:E2.
  - specialize (IH ltac:(done) ltac:(set_solver)).
    destruct (set_insert x s); simpl in *. by rewrite IH.
  - apply pair_ltb_false in E1, E2. exfalso. apply Hx.
    rewrite (pair_lt_total x z) by done. set_solver.
Qed.

Lemma ordered_nodup s : ordered s -> NoDup s.
Proof.
  induction 1 as [|z s Hs IH Hz]; constructor; [|done].
  intros Hin. rewrite Forall_forall in Hz. by apply (pair_lt_irrefl z), Hz.
Qed.

Lemma ordered_filter (P : key -> Prop) `{!forall x, Decision (P x)} s :
  ordered s -> ordered (filter P s).
Proof.
  induction 1 as [|z s Hs IH Hz]; [constructor|].
  rewrite filter_cons. case_decide; [|done]. constructor; [done|].
  rewrite Forall_forall in *. intros y Hy. apply list_elem_of_filter in Hy as [_ Hy]. auto.
Qed.

Lemma set_erase_ordered x s : ordered s -> ordered (set_erase x s).1.
Proof. apply ordered_filter. Qed.

Lemma set_erase_elem x y s : y ∈ (set_erase x s).1 <-> y <> x /\ y ∈ s.
Proof. apply (list_elem_of_filter (fun y => y <> x)). Qed.

Lemma filter_all (P : key -> Prop) `{!forall x, Decision (P x)} s :
  Forall P s -> filter P s = s.
Proof.
  induction 1 as [|z s Hz Hs IH]; [done|]. rewrite filter_cons, decide_True by done. by rewrite IH.
Qed.

Lemma filter_neq_length (x : key) s :
  NoDup s -> x ∈ s -> length s = S (length (filter (fun y => y <> x) s)).
Proof.
  induction 1 as [|z s Hz Hs IH]; intros Hx; [set_solver|].
  rewrite filter_cons. destruct (decide (z = x)) as [->|Hne].
  - rewrite decide_False by (intros []; done). simpl. f_equal.
    rewrite (filter_all (fun y => y <> x) s); [done|].
    rewrite Forall_forall. intros y Hy ->. done.
  - rewrite decide_True by done. simpl. f_equal. apply IH. set_solver.
Qed.

Lemma set_erase_length x s :
  ordered s -> x ∈ s -> length s = S (length (set_erase x s).1).
Proof. intros Hs Hx. apply filter_neq_length; [by apply ordered_nodup|done]. Qed.

Lemma set_split_app x s : (set_split x s).1 ++ (set_split x s).2 = s.
Proof.
  induction s as [|y s IH]; simpl; [done|].
  destruct (pair_ltb y x); [|done]. destruct (set_split x s); simpl in *. by rewrite IH.
Qed.

(** [lower_bound] cuts an ordered set exactly at the key. *)
Lemma set_split_spec x s :
  ordered s ->
  Forall (fun y => pair_lt y x) (set_split x s).1 /\
  Forall (fun y => ~ pair_lt y x) (set_split x s).2.
Proof.
  induction 1 as [|z s Hs IH Hz]; simpl; [done|].
  destruct (pair_ltb z x) eqn:E.
  - destruct (set_split x s) as [a b]; simpl in *. destruct IH. split; [by constructor|done].
  - apply pair_ltb_false in E. split; [constructor|]. constructor; [done|].
    rewrite Forall_forall in *. intros y Hy Hyx. apply E.
    eapply pair_lt_trans; [by apply Hz|done].
Qed.

Lemma ordered_app s1 s2 : ordered (s1 ++ s2) -> ordered s1 /\ ordered s2.
Proof.
  induction s1 as [|z s1 IH]; simpl; intros H; [split; [constructor|done]|].
  inversion H as [|? ? Hs Hz]; subst. apply Forall_app in Hz as [Hz1 Hz2].
  destruct (IH Hs). split; [by constructor|done].
Qed.

Lemma ordered_app_disjoint s1 s2 x : ordered (s1 ++ s2) -> x ∈ s1 -> x ∉ s2.
Proof.
  intros H Hx Hx2. apply ordered_nodup, NoDup_app in H as (_ & H & _). by apply (H x).
Qed.
