(* ===== verification/TimerQueue.v ===== *)
(** * Timers (src/src/Timer.h, Timer.cpp, TimerId.h, TimerQueue.h, TimerQueue.cpp)

    The queue keeps the timers of one loop in two ordered sets, one by
    expiration and one by address, over heap-allocated [Timer] objects.  The
    model makes the heap explicit: a pointer is an address, [new] takes an
    unused address, [delete] frees it, and a dereference of a freed address is
    a failure.  Expired callbacks run arbitrary user code, modelled by the
    list of timer operations it performs on the queue.

    The invariant [Inv] relates both sets and the heap; every operation keeps
    it and no assertion fails, whatever the callbacks do. *)

From S2P Require Import Prelude Format Timestamp OrdSet.
Local Open Scope Z_scope.

(** ** Timers *)

Record Timer : Type := mkTimer {
  callback_ : nat;
  expiration_ : Timestamp;
  interval_ : double;
  repeat_ : bool;
  sequence_ : Z
}.

Record TimerId : Type := mkTimerId { timer_ : Z; id_sequence_ : Z }.

Definition TimerId_default : TimerId := mkTimerId 0 0.

(** The constructor; [seq] is the value of [s_numCreated_.incrementAndGet()]. *)
Definition Timer_init (cb : nat) (when : Timestamp) (interval : double) (seq : Z) : Timer :=
  mkTimer cb when interval (dlt dzero interval) seq.

Definition restart (t : Timer) (now : Timestamp) : Timer :=
  mkTimer (callback_ t)
    (if repeat_ t then addTime now (interval_ t) else invalid)
    (interval_ t) (repeat_ t) (sequence_ t).

(** [AtomicIntegerT<int64_t>::incrementAndGet]: [getAndAdd(1) + 1]. *)
Definition incrementAndGet64 (v : Z) : Z := i64 (v + 1).

(** ** The timer descriptor *)

Record timespec : Type := mkTimespec { ts_sec : Z; ts_nsec : Z }.

Definition howMuchTimeFromNow (when now : Timestamp) : timespec :=
  let microseconds := i64 (microSecondsSinceEpoch when - microSecondsSinceEpoch now) in
  let microseconds := if microseconds <? 100 then 100 else microseconds in
  mkTimespec (Z.quot microseconds kMicroSecondsPerSecond)
             (Z.rem microseconds kMicroSecondsPerSecond * 1000).

(** ** The queue *)

(** [timers_] holds pairs (expiration in microseconds, address), [activeTimers_]
    and [cancelingTimers_] pairs (address, sequence).  [heap] are the live
    [Timer] objects, [timerfd] the last value passed to [timerfd_settime], and
    [ticks] counts the readings of the clock. *)
Record TimerQueue : Type := mkTimerQueue {
  timers_ : list key;
  activeTimers_ : list key;
  callingExpiredTimers_ : bool;
  cancelingTimers_ : list key;
  heap : gmap Z Timer;
  s_numCreated_ : Z;
  timerfd : option timespec;
  ticks : nat
}.

Definition new_TimerQueue : TimerQueue := mkTimerQueue [] [] false [] ∅ 0 None 0.

Definition with_sets (q : TimerQueue) (t a : list key) : TimerQueue :=
  mkTimerQueue t a (callingExpiredTimers_ q) (cancelingTimers_ q) (heap q)
    (s_numCreated_ q) (timerfd q) (ticks q).
Definition with_heap (q : TimerQueue) (h : gmap Z Timer) : TimerQueue :=
  mkTimerQueue (timers_ q) (activeTimers_ q) (callingExpiredTimers_ q) (cancelingTimers_ q) h
    (s_numCreated_ q) (timerfd q) (ticks q).
Definition with_calling (q : TimerQueue) (c : bool) (l : list key) : TimerQueue :=
  mkTimerQueue (timers_ q) (activeTimers_ q) c l (heap q)
    (s_numCreated_ q) (timerfd q) (ticks q).

Definition deref (q : TimerQueue) (a : Z) : outcome Timer :=
  match heap q !! a with Some t => Ok t | None => Err UseAfterFree end.

Definition micros (t : Timestamp) : Z := microSecondsSinceEpoch t.

(** [reinterpret_cast<Timer*>(UINTPTR_MAX)]. *)
Definition UINTPTR_MAX : Z := 2 ^ 64 - 1.

Definition same_size (q : TimerQueue) : bool :=
  Nat.eqb (length (timers_ q)) (length (activeTimers_ q)).

Definition insert (q : TimerQueue) (timer : Z) : outcome (bool * TimerQueue) :=
  assert_ (same_size q);;
  t ← deref q timer;
  let when := expiration_ t in
  let earliestChanged :=
    match timers_ q with
    | [] => true
    | (first, _) :: _ => first <? micros when
    end in
  let r1 := set_insert (micros when, timer) (timers_ q) in
  assert_ r1.2;;
  let r2 := set_insert (timer, sequence_ t) (activeTimers_ q) in
  assert_ r2.2;;
  let q' := with_sets q r1.1 r2.1 in
  assert_ (same_size q');;
  Ok (earliestChanged, q').

Definition cancelInLoop (q : TimerQueue) (timerId : TimerId) : outcome TimerQueue :=
  assert_ (same_size q);;
  let timer := (timer_ timerId, id_sequence_ timerId) in
  q' ← (if set_mem timer (activeTimers_ q) then
          t ← deref q (timer_ timerId);
          let r := set_erase (micros (expiration_ t), timer_ timerId) (timers_ q) in
          assert_ (r.2 =? 1);;
          Ok (with_sets (with_heap q (delete (timer_ timerId) (heap q)))
                r.1 (set_erase timer (activeTimers_ q)).1)
        else if callingExpiredTimers_ q then
          Ok (with_calling q true (set_insert timer (cancelingTimers_ q)).1)
        else Ok q);
  assert_ (same_size q');;
  Ok q'.

(** One iteration of the loop of [getExpired] over the expired entries. *)
Definition erase_active (q : TimerQueue) (it : key) : outcome TimerQueue :=
  t ← deref q it.2;
  let r := set_erase (it.2, sequence_ t) (activeTimers_ q) in
  assert_ (r.2 =? 1);;
  Ok (with_sets q (timers_ q) r.1).

Definition getExpired (q : TimerQueue) (now : Timestamp) : outcome (list key * TimerQueue) :=
  assert_ (same_size q);;
  let '(expired, rest) := set_split (micros now, UINTPTR_MAX) (timers_ q) in
  assert_ (match rest with [] => true | (t, _) :: _ => micros now <? t end);;
  q' ← for_each erase_active (with_sets q rest (activeTimers_ q)) expired;
  assert_ (same_size q');;
  Ok (expired, q').

Section Queue.
(** The clock: the value of the [n]-th call of [Timestamp::now()].  The
    allocator: an address for a new object, given those in use.  The user's
    callbacks: what callback number [cb] does to the queue when it runs.  The
    allocator may have no memory left. *)
Context (clock : nat -> Timestamp).
Context (malloc : gset Z -> option Z).

Inductive action : Type :=
| AddTimer (cb : nat) (when : Timestamp) (interval : double)
| Cancel (timerId : TimerId).

Context (body : nat -> TimerQueue -> list action).

Definition resetTimerfd (q : TimerQueue) (expiration : Timestamp) : TimerQueue :=
  mkTimerQueue (timers_ q) (activeTimers_ q) (callingExpiredTimers_ q) (cancelingTimers_ q)
    (heap q) (s_numCreated_ q)
    (Some (howMuchTimeFromNow expiration (clock (ticks q)))) (S (ticks q)).

(** [new Timer(cb, when, interval)]. *)
Definition new_Timer (q : TimerQueue) (cb : nat) (when : Timestamp) (interval : double)
  : outcome (Z * TimerQueue) :=
  match malloc (dom (heap q)) with
  | None => Err BadAlloc
  | Some a =>
      let seq := incrementAndGet64 (s_numCreated_ q) in
      Ok (a, mkTimerQueue (timers_ q) (activeTimers_ q) (callingExpiredTimers_ q)
               (cancelingTimers_ q) (<[a := Timer_init cb when interval seq]> (heap q)) seq
               (timerfd q) (ticks q))
  end.

Definition addTimerInLoop (q : TimerQueue) (timer : Z) : outcome TimerQueue :=
  '(earliestChanged, q') ← insert q timer;
  if (earliestChanged : bool) then t ← deref q' timer; Ok (resetTimerfd q' (expiration_ t))
  else Ok q'.

(** [addTimer] on the thread of the loop, where [runInLoop] calls at once. *)
Definition addTimer (q : TimerQueue) (cb : nat) (when : Timestamp) (interval : double)
  : outcome (TimerId * TimerQueue) :=
  '(timer, q1) ← new_Timer q cb when interval;
  q2 ← addTimerInLoop q1 timer;
  t ← deref q2 timer;
  Ok (mkTimerId timer (sequence_ t), q2).

(** [cancel] on the thread of the loop. *)
Definition cancel (q : TimerQueue) (timerId : TimerId) : outcome TimerQueue :=
  cancelInLoop q timerId.

(** One reading of the clock. *)
Definition tick (q : TimerQueue) : TimerQueue :=
  mkTimerQueue (timers_ q) (activeTimers_ q) (callingExpiredTimers_ q)
    (cancelingTimers_ q) (heap q) (s_numCreated_ q) (timerfd q) (S (ticks q)).

(** [EventLoop::runAt], [runAfter] and [runEvery] (src/src/EventLoop.cpp). *)
Definition runAt (q : TimerQueue) (time : Timestamp) (cb : nat) : outcome (TimerId * TimerQueue) :=
  addTimer q cb time dzero.

Definition runAfter (q : TimerQueue) (delay : double) (cb : nat) : outcome (TimerId * TimerQueue) :=
  let time := addTime (clock (ticks q)) delay in
  runAt (tick q) time cb.

Definition runEvery (q : TimerQueue) (interval : double) (cb : nat) : outcome (TimerId * TimerQueue) :=
  let time := addTime (clock (ticks q)) interval in
  addTimer (tick q) cb time interval.

Definition run_action (q : TimerQueue) (a : action) : outcome TimerQueue :=
  match a with
  | AddTimer cb when interval => '(_, q') ← addTimer q cb when interval; Ok q'
  | Cancel timerId => cancel q timerId
  end.

(** [it.second->run()]. *)
Definition run_timer (q : TimerQueue) (it : key) : outcome TimerQueue :=
  t ← deref q it.2;
  for_each run_action q (body (callback_ t) q).

(** One iteration of the loop of [reset]. *)
Definition reset_one (now : Timestamp) (q : TimerQueue) (it : key) : outcome TimerQueue :=
  t ← deref q it.2;
  let timer := (it.2, sequence_ t) in
  if repeat_ t && negb (set_mem timer (cancelingTimers_ q)) then
    '(_, q') ← insert (with_heap q (<[it.2 := restart t now]> (heap q))) it.2;
    Ok q'
  else Ok (with_heap q (delete it.2 (heap q))).

Definition reset (q : TimerQueue) (expired : list key) (now : Timestamp) : outcome TimerQueue :=
  q ← for_each (reset_one now) q expired;
  nextExpire ← match timers_ q with
               | [] => Ok invalid
               | (_, a) :: _ => t ← deref q a; Ok (expiration_ t)
               end;
  Ok (if valid nextExpire then resetTimerfd q nextExpire else q).

(** [handleRead]; [readTimerfd] only drains the descriptor. *)
Definition handleRead (q : TimerQueue) : outcome TimerQueue :=
  let now := clock (ticks q) in
  let q := tick q in
  '(expired, q) ← getExpired q now;
  let q := with_calling q true [] in
  q ← for_each run_timer q expired;
  let q := with_calling q false (cancelingTimers_ q) in
  reset q expired now.

(** ** The invariant

    [Inv E q]: the two sets are ordered, have the same size and hold the same
    live timers; [E] are the entries of the batch being processed, which are
    alive and in neither set. *)

Record Inv (E : list key) (q : TimerQueue) : Prop := mkInv {
  inv_timers : ordered (timers_ q);
  inv_active : ordered (activeTimers_ q);
  inv_t2a : forall t a, (t, a) ∈ timers_ q -> exists tm,
    heap q !! a = Some tm /\ t = micros (expiration_ tm) /\ (a, sequence_ tm) ∈ activeTimers_ q;
  inv_a2t : forall a s, (a, s) ∈ activeTimers_ q -> exists tm,
    heap q !! a = Some tm /\ s = sequence_ tm /\ (micros (expiration_ tm), a) ∈ timers_ q;
  inv_len : length (timers_ q) = length (activeTimers_ q);
  inv_addr : forall a, is_Some (heap q !! a) -> 0 < a < UINTPTR_MAX;
  inv_E : forall t a, (t, a) ∈ E -> exists tm,
    heap q !! a = Some tm /\ t = micros (expiration_ tm) /\ forall s, (a, s) ∉ activeTimers_ q;
  inv_E_nodup : NoDup (map snd E)
}.

(** A live timer that is in neither set, nor in the batch. *)
Definition idle (E : list key) (q : TimerQueue) (a : Z) : Prop :=
  is_Some (heap q !! a) /\ (forall s, (a, s) ∉ activeTimers_ q) /\ a ∉ map snd E.

Lemma inv_same_size E q : Inv E q -> same_size q = true.
Proof. intros H. apply Nat.eqb_eq, (inv_len _ _ H). Qed.

Lemma idle_not_timer E q a : Inv E q -> (forall s, (a, s) ∉ activeTimers_ q) ->
  forall t, (t, a) ∉ timers_ q.
Proof.
  intros H Ha t Ht. destruct (inv_t2a _ _ H _ _ Ht) as (tm & _ & _ & Hin). by apply (Ha (sequence_ tm)).
Qed.

(** [insert] of an idle timer succeeds and keeps the invariant. *)
Lemma insert_inv E q a tm :
  Inv E q -> heap q !! a = Some tm -> (forall s, (a, s) ∉ activeTimers_ q) -> a ∉ map snd E ->
  let q' := with_sets q (set_insert (micros (expiration_ tm), a) (timers_ q)).1
              (set_insert (a, sequence_ tm) (activeTimers_ q)).1 in
  Inv E q' /\
  insert q a = Ok (match timers_ q with
                   | [] => true
                   | (first, _) :: _ => first <? micros (expiration_ tm)
                   end, q').
Proof.
  intros H Ha Hidle HE q'.
  assert (Ht : (micros (expiration_ tm), a) ∉ timers_ q) by by eapply idle_not_timer.
  assert (Hlen : length (timers_ q') = length (activeTimers_ q')).
  { simpl. rewrite !set_insert_length; [|apply H|auto|apply H|auto]. f_equal. apply H. }
  split; [constructor; simpl|].
  - apply set_insert_ordered, H.
  - apply set_insert_ordered, H.
  - intros t b Hb. apply set_insert_elem in Hb as [[= -> ->]|Hb].
    + exists tm. rewrite set_insert_elem. auto.
    + destruct (inv_t2a _ _ H _ _ Hb) as (tm' & ? & ? & ?). exists tm'.
      rewrite set_insert_elem. auto.
  - intros b s Hb. apply set_insert_elem in Hb as [[= -> ->]|Hb].
    + exists tm. rewrite set_insert_elem. auto.
    + destruct (inv_a2t _ _ H _ _ Hb) as (tm' & ? & ? & ?). exists tm'.
      rewrite set_insert_elem. auto.
  - exact Hlen.
  - apply H.
  - intros t b Hb. destruct (inv_E _ _ H _ _ Hb) as (tm' & ? & ? & Hn). exists tm'.
    do 2 (split; [done|]). intros s. rewrite set_insert_elem. intros [[= -> ->]|Hin]; [|by eapply Hn].
    apply HE. apply list_elem_of_In, in_map_iff. exists (t, a). split; [done|]. by apply list_elem_of_In.
  - apply H.
  - unfold insert. rewrite (inv_same_size E) by done. unfold deref. rewrite Ha.
    cbn [mbind outcome_bind assert_].
    rewrite !set_insert_flag by apply H. rewrite !bool_decide_false by auto.
    cbn [negb mbind outcome_bind assert_].
    fold q'. by rewrite (proj2 (Nat.eqb_eq _ _) Hlen : same_size q' = true).
Qed.

(** Changing the fields the invariant does not read. *)
Lemma inv_ext E q q' :
  timers_ q' = timers_ q -> activeTimers_ q' = activeTimers_ q -> heap q' = heap q ->
  Inv E q -> Inv E q'.
Proof.
  destruct q, q'; simpl; intros -> -> -> [? ? ? ? ? ? ? ?]; constructor; simpl in *; auto.
Qed.

Lemma addTimerInLoop_inv E q a :
  Inv E q -> idle E q a ->
  exists q', addTimerInLoop q a = Ok q' /\ Inv E q' /\ heap q' = heap q /\
    callingExpiredTimers_ q' = callingExpiredTimers_ q /\
    cancelingTimers_ q' = cancelingTimers_ q.
Proof.
  intros H ([tm Ha] & Hact & HE). destruct (insert_inv E q a tm H Ha Hact HE) as [Hi Hins].
  unfold addTimerInLoop. rewrite Hins. cbn [mbind outcome_bind].
  set (fl := match timers_ q with [] => true | _ => _ end). destruct fl.
  - unfold deref; simpl. rewrite Ha. simpl. eexists; split; [done|].
    split; [by eapply inv_ext; [..|exact Hi]|done].
  - eexists; split; [done|]. done.
Qed.

(** ** Cancellation *)

Lemma cancelInLoop_active E q a s :
  Inv E q -> (a, s) ∈ activeTimers_ q ->
  exists tm q', heap q !! a = Some tm /\ cancelInLoop q (mkTimerId a s) = Ok q' /\
    q' = with_sets (with_heap q (delete a (heap q)))
           (set_erase (micros (expiration_ tm), a) (timers_ q)).1
           (set_erase (a, s) (activeTimers_ q)).1 /\ Inv E q'.
Proof.
  intros H Has. destruct (inv_a2t _ _ H _ _ Has) as (tm & Htm & -> & Ht).
  set (q' := with_sets (with_heap q (delete a (heap q)))
    (set_erase (micros (expiration_ tm), a) (timers_ q)).1
    (set_erase (a, sequence_ tm) (activeTimers_ q)).1).
  assert (Hlen : length (timers_ q') = length (activeTimers_ q')).
  { unfold q'; cbn -[set_erase]. pose proof (set_erase_length _ _ (inv_timers _ _ H) Ht).
    pose proof (set_erase_length _ _ (inv_active _ _ H) Has).
    pose proof (inv_len _ _ H). lia. }
  exists tm, q'. split; [done|]. split; [|split; [done|]].
  - unfold cancelInLoop; simpl. rewrite (inv_same_size E) by done.
    unfold set_mem. rewrite bool_decide_true by done. unfold deref. rewrite Htm.
    cbn [mbind outcome_bind assert_ set_erase snd]. rewrite decide_True by done.
    change (1 =? 1) with true. cbn [mbind outcome_bind assert_].
    change (with_sets _ _ _) with q'.
    by rewrite (proj2 (Nat.eqb_eq _ _) Hlen : same_size q' = true).
  - constructor; unfold q'; cbn -[set_erase].
    + apply set_erase_ordered, H.
    + apply set_erase_ordered, H.
    + intros t b Hb. apply set_erase_elem in Hb as [Hne Hb].
      destruct (inv_t2a _ _ H _ _ Hb) as (tm' & Hb' & -> & Hs).
      assert (b <> a) by (intros ->; congruence).
      exists tm'. rewrite lookup_delete_ne by done. rewrite set_erase_elem.
      repeat split; [done|congruence|done].
    + intros b s Hb. apply set_erase_elem in Hb as [Hne Hb].
      destruct (inv_a2t _ _ H _ _ Hb) as (tm' & Hb' & -> & Hs).
      assert (b <> a) by (intros ->; congruence).
      exists tm'. rewrite lookup_delete_ne by done. rewrite set_erase_elem.
      repeat split; [done|congruence|done].
    + exact Hlen.
    + intros b [x Hx]. apply lookup_delete_Some in Hx as [_ Hx]. apply (inv_addr _ _ H). eauto.
    + intros t b Hb. destruct (inv_E _ _ H _ _ Hb) as (tm' & Hb' & -> & Hs).
      assert (b <> a) by (intros ->; by eapply Hs).
      exists tm'. rewrite lookup_delete_ne by done.
      repeat split; [done|]. intros s. rewrite set_erase_elem. intros [_ Hin]. by eapply Hs.
    + apply H.
Qed.

Lemma cancelInLoop_inactive E q a s :
  Inv E q -> (a, s) ∉ activeTimers_ q ->
  let q' := if callingExpiredTimers_ q
            then with_calling q true (set_insert (a, s) (cancelingTimers_ q)).1 else q in
  cancelInLoop q (mkTimerId a s) = Ok q' /\ Inv E q'.
Proof.
  intros H Has q'. assert (Hq' : Inv E q').
  { unfold q'. destruct (callingExpiredTimers_ q); [by apply (inv_ext E q)|done]. }
  split; [|done]. unfold cancelInLoop; simpl. rewrite (inv_same_size E) by done.
  unfold set_mem. rewrite bool_decide_false by done. cbn [mbind outcome_bind assert_].
  replace (if callingExpiredTimers_ q then _ else _) with (Ok q')
    by (unfold q'; by destruct (callingExpiredTimers_ q)).
  cbn [mbind outcome_bind assert_]. by rewrite (inv_same_size E q').
Qed.

Lemma cancelInLoop_inv E q id :
  Inv E q ->
  exists q', cancelInLoop q id = Ok q' /\ Inv E q' /\
    callingExpiredTimers_ q' = callingExpiredTimers_ q /\
    (callingExpiredTimers_ q = true -> cancelingTimers_ q ⊆ cancelingTimers_ q').
Proof.
  intros H. destruct id as [a s]. destruct (decide ((a, s) ∈ activeTimers_ q)) as [Has|Has].
  - destruct (cancelInLoop_active E q a s H Has) as (tm & q' & _ & -> & -> & Hi).
    eexists; split; [done|]. split; [done|]. split; [done|]. by intros _ x Hx.
  - destruct (cancelInLoop_inactive E q a s H Has) as [-> Hi].
    eexists; split; [done|]. split; [done|].
    destruct (callingExpiredTimers_ q) eqn:Ec; simpl; (split; [done|]).
    + intros _ x Hx. rewrite set_insert_elem. auto.
    + by intros _ x Hx.
Qed.

(** ** Expired timers *)

Lemma in_map_snd (l : list key) a : a ∈ map snd l <-> exists t, (t, a) ∈ l.
Proof.
  rewrite list_elem_of_In, in_map_iff. split.
  - intros ([t b] & Hb & Hin). simpl in Hb. subst b. exists t. by apply list_elem_of_In.
  - intros [t Hin]. exists (t, a). split; [done|]. by apply list_elem_of_In.
Qed.

Lemma timers_addr_inj E q t1 t2 a :
  Inv E q -> (t1, a) ∈ timers_ q -> (t2, a) ∈ timers_ q -> t1 = t2.
Proof.
  intros H H1 H2. destruct (inv_t2a _ _ H _ _ H1) as (tm1 & E1 & -> & _).
  destruct (inv_t2a _ _ H _ _ H2) as (tm2 & E2 & -> & _). congruence.
Qed.

Lemma nodup_snd (l : list key) :
  NoDup l -> (forall t1 t2 a, (t1, a) ∈ l -> (t2, a) ∈ l -> t1 = t2) -> NoDup (map snd l).
Proof.
  induction 1 as [|[t a] l Hx Hl IH]; intros Hinj; simpl; constructor.
  - rewrite in_map_snd. intros [t' Hin]. apply Hx.
    rewrite (Hinj t t' a); set_solver.
  - apply IH. intros t1 t2 b H1 H2. apply (Hinj t1 t2 b); set_solver.
Qed.

(** The erase loop removes exactly the batch from [activeTimers_]. *)
Lemma erase_active_all l q :
  ordered (activeTimers_ q) ->
  (forall a s, (a, s) ∈ activeTimers_ q -> exists tm, heap q !! a = Some tm /\ s = sequence_ tm) ->
  (forall t a, (t, a) ∈ l -> exists tm, heap q !! a = Some tm /\ (a, sequence_ tm) ∈ activeTimers_ q) ->
  NoDup (map snd l) ->
  exists act, for_each erase_active q l = Ok (with_sets q (timers_ q) act) /\ ordered act /\
    (forall a s, (a, s) ∈ act <-> (a, s) ∈ activeTimers_ q /\ a ∉ map snd l) /\
    length (activeTimers_ q) = (length l + length act)%nat.
Proof.
  revert q; induction l as [|[t a] l IH]; intros q Ho Hu Hl Hnd.
  - exists (activeTimers_ q). split; [by destruct q|]. split; [done|]. split; [set_solver|done].
  - inversion Hnd as [|? ? Ha Hnd']; subst.
    destruct (Hl t a) as (tm & Htm & Hin); [set_solver|].
    set (q1 := with_sets q (timers_ q) (set_erase (a, sequence_ tm) (activeTimers_ q)).1).
    assert (He : erase_active q (t, a) = Ok q1).
    { unfold erase_active, deref. simpl. rewrite Htm. simpl. by rewrite decide_True. }
    assert (Hmem : forall b s, (b, s) ∈ activeTimers_ q1 <-> (b, s) ∈ activeTimers_ q /\ b <> a).
    { intros b s. unfold q1; cbn -[set_erase]. rewrite set_erase_elem. split.
      - intros [Hne Hb]. split; [done|]. intros ->. destruct (Hu _ _ Hb) as (tm' & ? & ->). congruence.
      - intros [Hb Hne]. split; [congruence|done]. }
    destruct (IH q1) as (act & Hact & Hoa & Hma & Hlen).
    + by apply set_erase_ordered.
    + intros b s Hb. apply Hmem in Hb as [Hb _]. exact (Hu b s Hb).
    + intros t' b Hb. destruct (Hl t' b) as (tm' & ? & ?); [set_solver|]. exists tm'.
      split; [done|]. apply Hmem. split; [done|]. intros ->. apply Ha, in_map_snd. eauto.
    + done.
    + exists act. split; [|split; [done|split]].
      * cbn [for_each]. rewrite He. exact Hact.
      * intros b s. rewrite Hma, Hmem. cbn [map snd]. rewrite not_elem_of_cons. tauto.
      * pose proof (set_erase_length _ _ Ho Hin) as Hle. unfold q1 in Hlen; cbn -[set_erase] in Hlen.
        cbn [length]. lia.
Qed.

Definition due (now : Timestamp) (x : key) : Prop := x.1 <= micros now.
Definition later (now : Timestamp) (x : key) : Prop := micros now < x.1.

(** The upper bound of the sentry splits the set by expiration. *)
Lemma split_due E0 q now expired rest : Inv E0 q ->
  set_split (micros now, UINTPTR_MAX) (timers_ q) = (expired, rest) ->
  timers_ q = expired ++ rest /\ Forall (due now) expired /\ Forall (later now) rest.
Proof.
  intros H Es. pose proof (set_split_app (micros now, UINTPTR_MAX) (timers_ q)) as Happ.
  destruct (set_split_spec (micros now, UINTPTR_MAX) (timers_ q) (inv_timers _ _ H)) as [Hlt Hge].
  rewrite Es in *. cbn [fst snd] in *. split; [done|]. rewrite !Forall_forall in *. split.
  - intros x Hx. pose proof (Hlt x Hx) as Hlt'. apply pair_lt_spec in Hlt'. unfold due. simpl in Hlt'. lia.
  - intros [t a] Hx. pose proof (Hge _ Hx) as Hge'. rewrite pair_lt_spec in Hge'. simpl in Hge'. unfold later; simpl.
    destruct (inv_t2a _ _ H t a) as (tm & Htm & _); [rewrite <- Happ; set_solver|].
    pose proof (inv_addr _ _ H a (ex_intro _ _ Htm)). lia.
Qed.

(** A prefix of the timers leaves both sets and joins the batch. *)
Lemma split_inv E0 q expired rest act : Inv E0 q -> timers_ q = expired ++ rest -> ordered act ->
  (forall a s, (a, s) ∈ act <-> (a, s) ∈ activeTimers_ q /\ a ∉ map snd expired) ->
  length rest = length act -> NoDup (map snd expired) -> Inv (expired ++ E0) (with_sets q rest act).
Proof.
  intros H Happ Hoa Hma Hsz Hnd.
  assert (Hin : forall x, x ∈ timers_ q <-> x ∈ expired \/ x ∈ rest) by (intros x; rewrite Happ; set_solver).
  assert (Hord : ordered expired /\ ordered rest) by (apply ordered_app; rewrite <- Happ; apply H).
  assert (Hdisj : forall x, x ∈ expired -> x ∉ rest)
    by (intros x; apply ordered_app_disjoint; rewrite <- Happ; apply H).
  constructor; simpl; [apply Hord|done| | |exact Hsz|apply H| |].
  - intros t a Ha. destruct (inv_t2a _ _ H t a) as (tm & ? & ? & Hs); [apply Hin; by right|].
    exists tm. split; [done|]. split; [done|]. apply Hma. split; [done|].
    rewrite in_map_snd. intros [t' Ht']. apply (Hdisj (t, a)); [|done].
    replace t with t'; [done|]. apply (timers_addr_inj E0 q t' t a); [done|apply Hin; auto..].
  - intros a s Hs. apply Hma in Hs as [Hs Hn]. destruct (inv_a2t _ _ H _ _ Hs) as (tm & ? & ? & Ht).
    exists tm. split; [done|]. split; [done|]. apply Hin in Ht as [Ht|]; [|done].
    exfalso. apply Hn, in_map_snd. eauto.
  - intros t a Ha. apply elem_of_app in Ha as [Ha|Ha].
    + destruct (inv_t2a _ _ H t a) as (tm & ? & ? & _); [apply Hin; by left|].
      exists tm. split; [done|]. split; [done|]. intros s Hs. apply Hma in Hs as [_ Hn].
      apply Hn, in_map_snd. eauto.
    + destruct (inv_E _ _ H t a Ha) as (tm & ? & ? & Hn). exists tm.
      split; [done|]. split; [done|]. intros s Hs. apply Hma in Hs as [Hs _]. by eapply Hn.
  - rewrite map_app. apply NoDup_app. split; [done|]. split; [|apply H].
    intros a Ha Ha0. apply in_map_snd in Ha as [t Ht]. apply in_map_snd in Ha0 as [t0 Ht0].
    destruct (inv_t2a _ _ H t a) as (tm & _ & _ & Hs); [apply Hin; by left|].
    destruct (inv_E _ _ H t0 a Ht0) as (_ & _ & _ & Hn). by eapply Hn.
Qed.

Lemma getExpired_inv E0 q now :
  Inv E0 q ->
  exists expired q', getExpired q now = Ok (expired, q') /\ Inv (expired ++ E0) q' /\
    timers_ q = expired ++ timers_ q' /\ Forall (due now) expired /\ Forall (later now) (timers_ q') /\
    heap q' = heap q /\ s_numCreated_ q' = s_numCreated_ q /\ timerfd q' = timerfd q /\
    ticks q' = ticks q.
Proof.
  intros H. unfold getExpired. rewrite (inv_same_size E0) by done. cbn [assert_ mbind outcome_bind].
  destruct (set_split _ (timers_ q)) as [expired rest] eqn:Es. cbn [fst snd].
  destruct (split_due E0 q now expired rest H Es) as (Happ & Hdue & Hlater).
  replace (match rest with [] => true | _ => _ end) with true; cycle 1.
  { destruct rest as [|[t a] rest]; [done|]. inversion Hlater; subst. symmetry. by apply Z.ltb_lt. }
  cbn [assert_ mbind outcome_bind].
  assert (Hin : forall x, x ∈ expired -> x ∈ timers_ q) by (intros x; rewrite Happ; set_solver).
  assert (Hnd : NoDup (map snd expired)).
  { apply nodup_snd.
    - pose proof (ordered_nodup _ (inv_timers _ _ H)) as Hd. rewrite Happ in Hd. by apply NoDup_app in Hd as (? & _).
    - intros t1 t2 a H1 H2. apply (timers_addr_inj E0 q t1 t2 a); auto. }
  destruct (erase_active_all expired (with_sets q rest (activeTimers_ q)))
    as (act & -> & Hoa & Hma & Hlen); [apply H| | |done|].
  { intros a s Hs. destruct (inv_a2t _ _ H _ _ Hs) as (tm & ? & ? & _). eauto. }
  { intros t a Ha. destruct (inv_t2a _ _ H t a) as (tm & ? & _ & ?); [auto|]. eauto. }
  cbn [mbind outcome_bind with_sets timers_ activeTimers_] in *.
  assert (Hsz : length rest = length act).
  { pose proof (inv_len _ _ H) as Hl. rewrite Happ, length_app in Hl. lia. }
  set (q' := with_sets _ _ _). exists expired, q'.
  rewrite (proj2 (Nat.eqb_eq _ _) Hsz : same_size q' = true). split; [done|].
  split; [|done]. by apply (split_inv E0 q expired rest act).
Qed.

(** ** Restarting *)

(** Whether [reset] keeps an expired timer. *)
Definition again (q : TimerQueue) (a : Z) (tm : Timer) : bool :=
  repeat_ tm && negb (set_mem (a, sequence_ tm) (cancelingTimers_ q)).

Lemma inv_forget t a E q h :
  Inv ((t, a) :: E) q -> (forall b, b <> a -> h !! b = heap q !! b) ->
  (is_Some (h !! a) -> 0 < a < UINTPTR_MAX) -> Inv E (with_heap q h).
Proof.
  intros H Hh Ha. pose proof (inv_E _ _ H t a ltac:(set_solver)) as (tm & Htm & _ & Hn).
  constructor; simpl; try apply H.
  - intros t' b Hb. destruct (inv_t2a _ _ H _ _ Hb) as (tm' & ? & ? & ?).
    exists tm'. rewrite Hh; [done|]. intros ->. by eapply Hn.
  - intros b s Hb. destruct (inv_a2t _ _ H _ _ Hb) as (tm' & ? & ? & ?).
    exists tm'. rewrite Hh; [done|]. intros ->. by eapply Hn.
  - intros b Hb. destruct (decide (b = a)) as [->|Hne]; [auto|].
    rewrite Hh in Hb by done. by apply (inv_addr _ _ H).
  - intros t' b Hb. destruct (inv_E _ _ H t' b) as (tm' & ? & ? & ?); [set_solver|].
    exists tm'. rewrite Hh; [done|]. intros ->.
    pose proof (inv_E_nodup _ _ H) as Hnd. cbn [map snd] in Hnd.
    apply NoDup_cons in Hnd as [Hnd _]. apply Hnd, in_map_snd. eauto.
  - pose proof (inv_E_nodup _ _ H) as Hnd. cbn [map snd] in Hnd. by apply NoDup_cons in Hnd as [_ Hnd].
Qed.

(** The effect of one iteration of [reset] on an expired timer. *)
Lemma reset_one_inv now t a E q tm :
  Inv ((t, a) :: E) q -> heap q !! a = Some tm ->
  exists q', reset_one now q (t, a) = Ok q' /\ Inv E q' /\
    callingExpiredTimers_ q' = callingExpiredTimers_ q /\ cancelingTimers_ q' = cancelingTimers_ q /\
    heap q' = (if again q a tm then <[a := restart tm now]> (heap q) else delete a (heap q)) /\
    (forall b s, (b, s) ∈ activeTimers_ q' <->
       (b, s) ∈ activeTimers_ q \/ (again q a tm = true /\ b = a /\ s = sequence_ tm)).
Proof.
  intros H Htm. pose proof (inv_E _ _ H t a ltac:(set_solver)) as (tm' & Htm' & _ & Hn).
  assert (tm' = tm) as -> by congruence. clear Htm'.
  pose proof (inv_addr _ _ H a (ex_intro _ _ Htm)) as Haddr.
  assert (HnE : a ∉ map snd E).
  { pose proof (inv_E_nodup _ _ H) as Hnd. cbn [map snd] in Hnd. by apply NoDup_cons in Hnd as [Hnd _]. }
  unfold reset_one, deref. simpl. rewrite Htm. simpl. fold (again q a tm).
  destruct (again q a tm) eqn:Eag.
  - set (q1 := with_heap q _).
    assert (H1 : Inv E q1).
    { apply (inv_forget t a); [done| |done]. intros b Hb. by rewrite lookup_insert_ne. }
    destruct (insert_inv E q1 a (restart tm now) H1) as [H2 Hins]; [|done|done|].
    { unfold q1; simpl. apply lookup_insert_eq. }
    rewrite Hins. simpl. eexists; split; [done|]. split; [exact H2|]. simpl.
    do 3 (split; [done|]). intros b s. rewrite set_insert_elem. split.
    + intros [[= -> ->]|]; auto.
    + intros [|(_ & -> & ->)]; auto.
  - eexists; split; [done|]. split.
    { apply (inv_forget t a); [done| |done]. intros b Hb. by rewrite lookup_delete_ne. }
    simpl. do 3 (split; [done|]). intros b s. split; [auto|]. by intros [|[[=] _]].
Qed.

Lemma reset_all_inv now E E0 q :
  Inv (E ++ E0) q ->
  exists q', for_each (reset_one now) q E = Ok q' /\ Inv E0 q' /\
    callingExpiredTimers_ q' = callingExpiredTimers_ q /\ cancelingTimers_ q' = cancelingTimers_ q /\
    (forall b, b ∉ map snd E -> heap q' !! b = heap q !! b) /\
    (forall t a tm, (t, a) ∈ E -> heap q !! a = Some tm ->
       heap q' !! a = if again q a tm then Some (restart tm now) else None) /\
    (forall b s, (b, s) ∈ activeTimers_ q' <-> (b, s) ∈ activeTimers_ q \/
       exists t tm, (t, b) ∈ E /\ heap q !! b = Some tm /\ again q b tm = true /\ s = sequence_ tm).
Proof.
  revert q; induction E as [|[t a] E IH]; intros q H.
  - exists q. split; [done|]. split; [done|]. do 3 (split; [done|]). split; [set_solver|].
    intros b s. split; [auto|]. intros [|(? & ? & Hin & _)]; [done|set_solver].
  - pose proof (inv_E _ _ H t a ltac:(set_solver)) as (tm & Htm & _ & Hn).
    assert (HnE : a ∉ map snd E).
    { pose proof (inv_E_nodup _ _ H) as Hnd. simpl in Hnd. apply NoDup_cons in Hnd as [HnE _].
      rewrite map_app in HnE. set_solver. }
    destruct (reset_one_inv now t a (E ++ E0) q tm H Htm) as (q1 & Hq1 & H1 & Hc1 & Hk1 & Hh1 & Ha1).
    destruct (IH q1 H1) as (q2 & Hq2 & H2 & Hc2 & Hk2 & Hh2 & Hr2 & Ha2).
    assert (Hother : forall b, b <> a -> heap q1 !! b = heap q !! b).
    { intros b Hb. rewrite Hh1. destruct (again q a tm); [by rewrite lookup_insert_ne|by rewrite lookup_delete_ne]. }
    assert (Hag : forall b x, again q1 b x = again q b x) by (intros; unfold again; by rewrite Hk1).
    assert (Hne : forall t' b, (t', b) ∈ E -> b <> a) by (intros t' b Hb ->; apply HnE, in_map_snd; eauto).
    exists q2. cbn [for_each]. rewrite Hq1. split; [done|]. split; [done|].
    split; [congruence|]. split; [congruence|]. split; [|split].
    + intros b Hb. cbn [map snd] in Hb. apply not_elem_of_cons in Hb as [? ?].
      rewrite Hh2 by done. by apply Hother.
    + intros t' b x Hin Hx. apply elem_of_cons in Hin as [[= -> ->]|Hin].
      * rewrite Hh2 by done. rewrite Hh1. assert (x = tm) as -> by congruence.
        destruct (again q a tm); [apply lookup_insert_eq|apply lookup_delete_eq].
      * rewrite <- Hag. apply (Hr2 t'); [done|]. rewrite Hother by eauto. done.
    + intros b s. rewrite Ha2, Ha1. split.
      * intros [[|(Hb & -> & ->)]|(t' & x & Hin & Hx & Hb & ->)]; [auto|right; set_solver|].
        right. exists t', x. rewrite Hother in Hx by eauto. rewrite Hag in Hb. set_solver.
      * intros [|(t' & x & Hin & Hx & Hb & ->)]; [auto|].
        apply elem_of_cons in Hin as [[= -> ->]|Hin].
        -- assert (x = tm) as -> by congruence. auto.
        -- right. exists t', x. rewrite Hother, Hag by eauto. done.
Qed.

Lemma reset_inv now E E0 q :
  Inv (E ++ E0) q ->
  exists q1 q2, for_each (reset_one now) q E = Ok q1 /\ reset q E now = Ok q2 /\ Inv E0 q2 /\
    timers_ q2 = timers_ q1 /\ activeTimers_ q2 = activeTimers_ q1 /\ heap q2 = heap q1 /\
    callingExpiredTimers_ q2 = callingExpiredTimers_ q1 /\
    match timers_ q1 with
    | (t, _) :: _ => 0 < t -> timerfd q2 = Some (howMuchTimeFromNow (mkTimestamp t) (clock (ticks q1)))
    | [] => timerfd q2 = timerfd q1
    end.
Proof.
  intros H. destruct (reset_all_inv now E E0 q H) as (q1 & Hq1 & H1 & _).
  exists q1. unfold reset. rewrite Hq1. cbn [mbind outcome_bind].
  destruct (timers_ q1) as [|[t a] ts] eqn:Et.
  - exists q1. simpl. rewrite Et. done.
  - destruct (inv_t2a _ _ H1 t a) as (tm & Htm & -> & _); [rewrite Et; set_solver|].
    unfold deref. rewrite Htm. simpl. destruct (valid (expiration_ tm)) eqn:Ev.
    + eexists; split; [done|]. split; [done|]. split; [by apply (inv_ext E0 q1)|].
      simpl. do 4 (split; [done|]). intros _. by destruct (expiration_ tm).
    + exists q1. split; [done|]. split; [done|]. split; [done|]. do 4 (split; [done|]).
      intros Hp. unfold valid in Ev. apply Z.ltb_ge in Ev. unfold micros in Hp. lia.
Qed.

(** ** Allocation *)

(** [operator new] returns storage disjoint from every live object, and no
    object sits at address zero or at the last address. *)
Hypothesis malloc_fresh : forall live a, malloc live = Some a -> a ∉ live.
Hypothesis malloc_range : forall live a, malloc live = Some a -> 0 < a < UINTPTR_MAX.

Lemma new_Timer_inv E q cb when interval a q1 :
  Inv E q -> new_Timer q cb when interval = Ok (a, q1) ->
  Inv E q1 /\ idle E q1 a /\ heap q !! a = None /\
  callingExpiredTimers_ q1 = callingExpiredTimers_ q /\ cancelingTimers_ q1 = cancelingTimers_ q.
Proof.
  intros H Hnew. unfold new_Timer in Hnew.
  destruct (malloc (dom (heap q))) as [a'|] eqn:Ha; [|done]. injection Hnew as -> <-.
  assert (Hnone : heap q !! a = None) by (apply not_elem_of_dom; by apply malloc_fresh).
  assert (Hk : forall b, is_Some (heap q !! b) -> b <> a) by (intros b [x Hx] ->; congruence).
  assert (Hl : forall (b : Z) (tm x : Timer), heap q !! b = Some tm -> <[a:=x]> (heap q) !! b = Some tm).
  { intros b tm x Hb. rewrite lookup_insert_ne; [done|]. intros ->. congruence. }
  split; [constructor; simpl; try apply H|].
  - intros t b Hb. destruct (inv_t2a _ _ H _ _ Hb) as (tm & ? & ? & ?). eauto.
  - intros b s Hb. destruct (inv_a2t _ _ H _ _ Hb) as (tm & ? & ? & ?). eauto.
  - intros b [x Hx]. destruct (decide (b = a)) as [->|Hne]; [by apply (malloc_range _ _ Ha)|].
    rewrite lookup_insert_ne in Hx by done. apply (inv_addr _ _ H). eauto.
  - intros t b Hb. destruct (inv_E _ _ H _ _ Hb) as (tm & ? & ? & ?). eauto 6.
  - split; [|done]. split; simpl; [rewrite lookup_insert_eq; eauto|]. split.
    + intros s Hs. destruct (inv_a2t _ _ H _ _ Hs) as (tm & ? & _). congruence.
    + intros Hin. apply list_elem_of_In, in_map_iff in Hin as ([t b] & Hb & Hin). simpl in Hb. subst b.
      apply list_elem_of_In in Hin. destruct (inv_E _ _ H _ _ Hin) as (tm & ? & _). congruence.
Qed.

Lemma addTimer_inv E q cb when interval :
  Inv E q ->
  unless oom (addTimer q cb when interval) (fun '(id, q') => Inv E q' /\
    callingExpiredTimers_ q' = callingExpiredTimers_ q /\ cancelingTimers_ q' = cancelingTimers_ q).
Proof.
  intros H. unfold addTimer. destruct (new_Timer q cb when interval) as [[a q1]|f] eqn:Hn; cycle 1.
  { unfold new_Timer in Hn. destruct (malloc _); simplify_eq. done. }
  cbn [mbind outcome_bind]. destruct (new_Timer_inv E q cb when interval a q1 H Hn) as (H1 & Hidle & _ & Hc1 & Hc2).
  destruct (addTimerInLoop_inv E q1 a H1 Hidle) as (q2 & -> & H2 & Hh & Hc3 & Hc4).
  cbn [mbind outcome_bind]. destruct Hidle as [[tm Htm] _].
  unfold deref. rewrite Hh, Htm. simpl. split; [done|]. split; congruence.
Qed.

(** ** User callbacks *)

(** While callbacks run: the batch [E] stays alive and the cancelled
    identifiers accumulate. *)
Definition Calling (E : list key) (q q' : TimerQueue) : Prop :=
  Inv E q' /\ callingExpiredTimers_ q' = true /\ cancelingTimers_ q ⊆ cancelingTimers_ q'.

Lemma run_action_inv E q a :
  Inv E q -> callingExpiredTimers_ q = true -> unless oom (run_action q a) (Calling E q).
Proof.
  intros H Hc. destruct a as [cb when interval|id]; simpl.
  - eapply unless_bind; [by apply addTimer_inv|].
    intros [id q'] _ (Hi & Hc' & Hcan). simpl. split; [done|]. split; [congruence|].
    intros x Hx. by rewrite Hcan.
  - unfold cancel. destruct (cancelInLoop_inv E q id H) as (q' & -> & Hi & Hc' & Hcan).
    split; [done|]. split; [congruence|]. auto.
Qed.

Lemma Calling_refl E q : Inv E q -> callingExpiredTimers_ q = true -> Calling E q q.
Proof. intros H Hc. split; [done|]. split; [done|]. by intros x Hx. Qed.

Lemma Calling_trans E q q1 q2 : Calling E q q1 -> Calling E q1 q2 -> Calling E q q2.
Proof. intros (_ & _ & Hs1) (H2 & Hc2 & Hs2). split; [done|]. split; [done|]. set_solver. Qed.

Lemma run_actions_inv E q l :
  Inv E q -> callingExpiredTimers_ q = true ->
  unless oom (for_each run_action q l) (Calling E q).
Proof.
  intros H Hc. apply unless_for_each; [|by apply Calling_refl].
  intros q1 a _ HC. eapply unless_mono; [apply (run_action_inv E); apply HC|].
  intros q2 _. by apply Calling_trans.
Qed.

Lemma run_timers_inv E q l :
  l ⊆ E -> Inv E q -> callingExpiredTimers_ q = true ->
  unless oom (for_each run_timer q l) (Calling E q).
Proof.
  intros Hl H Hc. apply unless_for_each; [|by apply Calling_refl].
  intros q1 [t a] Ha HC. unfold run_timer, deref; simpl.
  destruct (inv_E _ _ (proj1 HC) t a) as (tm & -> & _); [by apply Hl|]. cbn [mbind outcome_bind].
  eapply unless_mono; [apply (run_actions_inv E); apply HC|].
  intros q2 _. by apply Calling_trans.
Qed.

(** ** A whole expiration *)

(** What [handleRead] leaves behind: the batch is exactly the due timers; each
    of them is restarted if it repeats and no callback cancelled it, and freed
    otherwise; the descriptor is armed for the first timer of the queue. *)
Definition read_post (E0 : list key) (q q' : TimerQueue) : Prop :=
  let now := clock (ticks q) in
  exists expired q1 q2,
    getExpired (tick q) now = Ok (expired, q1) /\
    for_each run_timer (with_calling q1 true []) expired = Ok q2 /\
    Inv E0 q' /\ callingExpiredTimers_ q' = false /\
    (forall t a, (t, a) ∈ expired -> exists tm, heap q2 !! a = Some tm /\
       if again q2 a tm
       then heap q' !! a = Some (restart tm now) /\ (a, sequence_ tm) ∈ activeTimers_ q'
       else heap q' !! a = None) /\
    match timers_ q' with
    | (t, _) :: _ => 0 < t ->
        exists clk, timerfd q' = Some (howMuchTimeFromNow (mkTimestamp t) clk)
    | [] => True
    end.

Lemma handleRead_spec E0 q :
  Inv E0 q -> unless oom (handleRead q) (read_post E0 q).
Proof.
  intros H. set (now := clock (ticks q)).
  assert (Ht : Inv E0 (tick q)) by by apply (inv_ext E0 q).
  destruct (getExpired_inv E0 (tick q) now Ht) as (expired & q1 & Hg & H1 & _).
  unfold handleRead. fold now. rewrite Hg. cbn [mbind outcome_bind].
  eapply unless_bind.
  { apply (run_timers_inv (expired ++ E0)); [set_solver|by apply (inv_ext (expired ++ E0) q1)|done]. }
  intros q2 Hr (H2 & Hc2 & _).
  set (q3 := with_calling q2 false (cancelingTimers_ q2)).
  assert (H3 : Inv (expired ++ E0) q3) by by apply (inv_ext (expired ++ E0) q2).
  destruct (reset_inv now expired E0 q3 H3) as (q4 & q5 & Hq4 & -> & H5 & Et & Ea & Eh & Ec & Efd).
  destruct (reset_all_inv now expired E0 q3 H3) as (q4' & Hq4' & H4 & Hc4 & _ & _ & Hres & Hact).
  assert (q4' = q4) as -> by congruence. clear Hq4'.
  exists expired, q1, q2. do 3 (split; [done|]). split; [by rewrite Ec, Hc4|]. split.
  - intros t a Hin. destruct (inv_E _ _ H3 t a) as (tm & Htm & _ & _); [set_solver|].
    exists tm. split; [done|]. change (again q2 a tm) with (again q3 a tm).
    pose proof (Hres t a tm Hin Htm) as Hh. rewrite Eh, Ea.
    destruct (again q3 a tm) eqn:Eag; [|done]. split; [done|]. apply Hact. right. eauto 7.
  - rewrite Et. destruct (timers_ q4) as [|[t a] ts]; [done|]. intros Hp. eauto.
Qed.

(** ** The queue of a loop with other threads

    Timers added or cancelled from another thread: the [Timer] object is
    created at once, the operation on the queue waits in the loop's list of
    pending functors and runs on the loop thread, in order. *)

Inductive functor : Type :=
| FAdd (timer : Z)
| FCancel (timerId : TimerId).

Record system : Type := mkSystem { queue : TimerQueue; pending : list functor }.

Inductive label : Type :=
| LAdd (cb : nat) (when : Timestamp) (interval : double)
| LCancel (timerId : TimerId)
| LForeignAdd (cb : nat) (when : Timestamp) (interval : double)
| LForeignCancel (timerId : TimerId)
| LFunctor
| LRead.

Definition sys_run (s : system) (l : label) : outcome system :=
  match l with
  | LAdd cb when interval =>
      '(_, q) ← addTimer (queue s) cb when interval; Ok (mkSystem q (pending s))
  | LCancel id => q ← cancel (queue s) id; Ok (mkSystem q (pending s))
  | LForeignAdd cb when interval =>
      '(a, q) ← new_Timer (queue s) cb when interval;
      Ok (mkSystem q (pending s ++ [FAdd a]))
  | LForeignCancel id => Ok (mkSystem (queue s) (pending s ++ [FCancel id]))
  | LFunctor =>
      match pending s with
      | [] => Ok s
      | FAdd a :: fs => q ← addTimerInLoop (queue s) a; Ok (mkSystem q fs)
      | FCancel id :: fs => q ← cancelInLoop (queue s) id; Ok (mkSystem q fs)
      end
  | LRead => q ← handleRead (queue s); Ok (mkSystem q (pending s))
  end.

Definition sys_init : system := mkSystem new_TimerQueue [].

Definition added (f : functor) : option Z :=
  match f with FAdd a => Some a | FCancel _ => None end.

(** Every timer waiting to be inserted is alive and in neither set. *)
Definition SysInv (s : system) : Prop :=
  exists E, Inv E (queue s) /\ map snd E = omap added (pending s).

Lemma new_TimerQueue_inv : Inv [] new_TimerQueue.
Proof.
  constructor; simpl; try by constructor.
  - intros t a Ha. by apply elem_of_nil in Ha.
  - intros t a Ha. by apply elem_of_nil in Ha.
  - intros a [x Hx]. by rewrite lookup_empty in Hx.
  - intros t a Ha. by apply elem_of_nil in Ha.
Qed.

Lemma inv_enqueue E q a : Inv E q -> idle E q a ->
  exists t, Inv (E ++ [(t, a)]) q.
Proof.
  intros H ([tm Htm] & Hn & HnE). exists (micros (expiration_ tm)).
  constructor; try apply H.
  - intros t b Hb. apply elem_of_app in Hb as [Hb|Hb]; [by apply (inv_E _ _ H)|].
    apply list_elem_of_singleton in Hb as [= -> ->]. eauto.
  - rewrite map_app. apply NoDup_app. split; [apply H|]. split; [|simpl; apply NoDup_singleton].
    intros b Hb Hb'. simpl in Hb'. apply list_elem_of_singleton in Hb' as ->. done.
Qed.

Lemma inv_dequeue t a E q : Inv ((t, a) :: E) q -> Inv E q /\ idle E q a.
Proof.
  intros H. pose proof (inv_E_nodup _ _ H) as Hnd. simpl in Hnd. apply NoDup_cons in Hnd as [Hn Hnd].
  destruct (inv_E _ _ H t a) as (tm & Htm & _ & Hs); [set_solver|]. split.
  - constructor; try apply H; [|done]. intros t' b Hb. apply (inv_E _ _ H). set_solver.
  - split; [eauto|]. done.
Qed.

Lemma sys_run_inv s l : SysInv s -> unless oom (sys_run s l) SysInv.
Proof.
  intros (E & H & HE). destruct s as [q fs]; simpl in *.
  destruct l as [cb when iv|id|cb when iv|id| |]; simpl.
  - eapply unless_bind; [by apply addTimer_inv|]. intros [id q'] _ [H' _]. by exists E.
  - unfold cancel. destruct (cancelInLoop_inv E q id H) as (q' & -> & H' & _). by exists E.
  - destruct (new_Timer q cb when iv) as [[a q1]|f] eqn:En; cycle 1.
    { unfold new_Timer in En. destruct (malloc _); simplify_eq. done. }
    destruct (new_Timer_inv E q cb when iv a q1 H En) as (H1 & Hidle & _).
    destruct (inv_enqueue E q1 a H1 Hidle) as [t Ht].
    exists (E ++ [(t, a)]). split; [done|]. simpl. rewrite map_app, HE, omap_app. done.
  - exists E. split; [done|]. simpl. by rewrite omap_app, HE, app_nil_r.
  - destruct fs as [|[a|id] fs]; simpl in *.
    + by exists E.
    + destruct E as [|[t b] E]; [done|]. simpl in HE. injection HE as -> HE.
      destruct (inv_dequeue t a E q H) as [H' Hidle].
      destruct (addTimerInLoop_inv E q a H' Hidle) as (q' & -> & Hq' & _). by exists E.
    + destruct (cancelInLoop_inv E q id H) as (q' & -> & H' & _). by exists E.
  - eapply unless_bind; [by apply handleRead_spec|].
    intros q' _ (? & ? & ? & _ & _ & H' & _). by exists E.
Qed.

Lemma sys_init_inv : SysInv sys_init.
Proof. exists []. split; [apply new_TimerQueue_inv|done]. Qed.

Lemma sys_reachable ls : unless oom (for_each sys_run sys_init ls) SysInv.
Proof.
  apply unless_for_each; [|apply sys_init_inv]. intros s l _ Hs. by apply sys_run_inv.
Qed.

End Queue.

(** ** Concrete instances, used by the witnesses *)

(** An allocator with four cells. *)
Definition small_malloc (live : gset Z) : option Z :=
  List.find (fun a => negb (bool_decide (a ∈ live))) [16; 32; 48; 64].

Lemma small_malloc_fresh live a : small_malloc live = Some a -> a ∉ live.
Proof.
  intros H. apply find_some in H as [_ H]. apply negb_true_iff in H.
  by apply bool_decide_eq_false in H.
Qed.

Lemma small_malloc_range live a : small_malloc live = Some a -> 0 < a < UINTPTR_MAX.
Proof. intros H. apply find_some in H as [H _]. unfold UINTPTR_MAX. simpl in H. lia. Qed.

(** A clock that advances by one second per reading. *)
Definition ticking (n : nat) : Timestamp := mkTimestamp (Z.of_nat (S n) * kMicroSecondsPerSecond).

Definition half_second : double := ddiv (double_of_Z 1) (double_of_Z 2).

(** Callback 1 cancels every active timer and adds one; the others do nothing. *)
Definition busy_body (cb : nat) (q : TimerQueue) : list action :=
  match cb with
  | 1%nat => map (fun '(a, s) => Cancel (mkTimerId a s)) (activeTimers_ q) ++
             [Cancel (mkTimerId 16 1); AddTimer 2 (mkTimestamp 9000000) dzero]
  | _ => []
  end.

Definition sample_labels : list label :=
  [LAdd 1 (mkTimestamp 100) half_second; LForeignAdd 2 (mkTimestamp 50) half_second; LFunctor; LRead;
   LForeignCancel (mkTimerId 16 1); LAdd 2 (mkTimestamp 7) dzero; LFunctor; LRead].

(** ** Properties *)



(** The state after the first three labels. *)
Definition sample_system : system :=
  match for_each (sys_run ticking small_malloc busy_body) sys_init (take 3 sample_labels) with
  | Ok s => s
  | Err _ => sys_init
  end.

Definition sample_queue : TimerQueue := queue sample_system.

Lemma sample_inv : Inv [] sample_queue.
Proof.
  pose proof (sys_reachable ticking small_malloc busy_body small_malloc_fresh small_malloc_range
    (take 3 sample_labels)) as H.
  unfold sample_queue. assert (Hp : pending sample_system = []) by (vm_compute; reflexivity).
  unfold sample_system in *. destruct (for_each _ sys_init _) as [s|f]; [|apply new_TimerQueue_inv].
  destruct H as (E0 & HI & HE). rewrite Hp in HE. simpl in HE. by destruct E0.
Qed.

(** [getExpired] splits the queue at the current time: it returns all timers
    whose expiration is at most [now], in expiration order, and leaves exactly
    the later ones in both sets. *)
Theorem getExpired_splits (q : TimerQueue) (now : Timestamp) :
  Inv [] q ->
  exists expired q', getExpired q now = Ok (expired, q') /\
    timers_ q = expired ++ timers_ q' /\
    Forall (due now) expired /\ Forall (later now) (timers_ q') /\
    (forall a s, (a, s) ∈ activeTimers_ q' <->
       (a, s) ∈ activeTimers_ q /\ a ∉ map snd expired).
Proof.
  intros H. destruct (getExpired_inv [] q now H) as (ex & q' & Hg & Hi & Happ & Hd & Hl & Hh & _).
  exists ex, q'. do 4 (split; [done|]). rewrite app_nil_r in Hi. intros a s. split.
  - intros Hs. destruct (inv_a2t _ _ Hi _ _ Hs) as (tm & Htm & -> & Ht). split.
    + rewrite Hh in Htm. destruct (inv_t2a _ _ H (micros (expiration_ tm)) a) as (tm' & ? & _ & ?).
      { rewrite Happ. set_solver. } by simplify_eq.
    + rewrite in_map_snd. intros [t Hex]. destruct (inv_E _ _ Hi _ _ Hex) as (? & _ & _ & Hn).
      by eapply Hn.
  - intros [Hs Hn]. destruct (inv_a2t _ _ H _ _ Hs) as (tm & Htm & -> & Ht).
    rewrite Happ in Ht. apply elem_of_app in Ht as [Ht|Ht].
    + exfalso. apply Hn, in_map_snd. eauto.
    + destruct (inv_t2a _ _ Hi _ _ Ht) as (tm' & Htm' & _ & ?). rewrite Hh in Htm'. by simplify_eq.
Qed.

Lemma getExpired_splits_witness :
  length (timers_ sample_queue) = 2%nat /\
  exists expired q',
    getExpired sample_queue (mkTimestamp 60) = Ok (expired, q') /\
    timers_ sample_queue = expired ++ timers_ q' /\ Forall (due (mkTimestamp 60)) expired.
Proof.
  split; [vm_compute; reflexivity|].
  destruct (getExpired_splits sample_queue (mkTimestamp 60) sample_inv) as (ex & q' & Hg & Happ & Hd & _).
  exists ex, q'. done.
Defined.



(** Cancelling an active timer removes it, and nothing else, from both sets
    and frees it; outside a batch, cancelling it again changes nothing. *)
Theorem cancel_removes_one (q : TimerQueue) (a s : Z) :
  Inv [] q -> (a, s) ∈ activeTimers_ q ->
  exists q', cancelInLoop q (mkTimerId a s) = Ok q' /\ Inv [] q' /\
    heap q' = delete a (heap q) /\
    (forall t b, (t, b) ∈ timers_ q' <-> (t, b) ∈ timers_ q /\ b <> a) /\
    (forall b s', (b, s') ∈ activeTimers_ q' <-> (b, s') ∈ activeTimers_ q /\ b <> a) /\
    (callingExpiredTimers_ q = false -> cancelInLoop q' (mkTimerId a s) = Ok q').
Proof.
  intros H Has. destruct (cancelInLoop_active [] q a s H Has) as (tm & q' & Htm & Hc & Hq' & Hi).
  assert (Hn : forall s', (a, s') ∉ activeTimers_ q').
  { intros s' Hs'. destruct (inv_a2t _ _ Hi _ _ Hs') as (x & Hx & _).
    rewrite Hq' in Hx; simpl in Hx. by rewrite lookup_delete_eq in Hx. }
  exists q'. split; [done|]. split; [done|]. rewrite Hq' at 1. split; [done|]. repeat split.
  - rewrite Hq' in H0; cbn -[set_erase] in H0. by apply set_erase_elem in H0 as [_ ?].
  - intros ->. destruct (inv_t2a _ _ Hi _ _ H0) as (x & _ & _ & Hx). by eapply Hn.
  - intros [Ht Hne]. rewrite Hq'; cbn -[set_erase]. apply set_erase_elem. split; [congruence|done].
  - rewrite Hq' in H0; cbn -[set_erase] in H0. by apply set_erase_elem in H0 as [_ ?].
  - intros ->. by eapply Hn.
  - intros [Ht Hne]. rewrite Hq'; cbn -[set_erase]. apply set_erase_elem. split; [congruence|done].
  - intros Hcall. destruct (cancelInLoop_inactive [] q' a s Hi (Hn s)) as [-> _].
    assert (callingExpiredTimers_ q' = false) as -> by by rewrite Hq'. done.
Qed.

Lemma cancel_removes_one_witness :
  exists q', cancelInLoop sample_queue (mkTimerId 16 1) = Ok q' /\
    heap q' = delete 16 (heap sample_queue).
Proof.
  destruct (cancel_removes_one sample_queue 16 1 sample_inv) as (q' & Hc & _ & Hh & _).
  - apply (bool_decide_unpack _). vm_compute. exact I.
  - exists q'. done.
Defined.

(** The relative time handed to [timerfd_settime] is the distance to the
    expiration, at least 100 microseconds (so never the zero that would disarm
    the descriptor), with a normalised nanosecond field. *)
Theorem howMuchTimeFromNow_bounds (when now : Timestamp) :
  in_s 64 (micros when - micros now) ->
  let ts := howMuchTimeFromNow when now in
  0 <= ts_sec ts /\ 0 <= ts_nsec ts < 1000000000 /\
  ts_sec ts * 1000000 + ts_nsec ts / 1000 = Z.max 100 (micros when - micros now).
Proof.
  intros Hr ts. unfold ts, howMuchTimeFromNow, micros in *. unfold i64. rewrite swrap_small by (lia || done).
  set (d := microSecondsSinceEpoch when - microSecondsSinceEpoch now) in *.
  replace (if d <? 100 then 100 else d) with (Z.max 100 d) by (destruct (Z.ltb_spec d 100); lia).
  unfold kMicroSecondsPerSecond. change (1000 * 1000) with 1000000. cbn [ts_sec ts_nsec].
  rewrite Z.quot_div_nonneg, Z.rem_mod_nonneg by lia. rewrite Z.div_mul by lia.
  pose proof (Z.div_mod (Z.max 100 d) 1000000 ltac:(lia)).
  pose proof (Z.mod_pos_bound (Z.max 100 d) 1000000 ltac:(lia)).
  pose proof (Z.div_pos (Z.max 100 d) 1000000 ltac:(lia) ltac:(lia)). lia.
Qed.

Lemma howMuchTimeFromNow_bounds_witness :
  howMuchTimeFromNow (mkTimestamp 2500000) (mkTimestamp 1000000) = mkTimespec 1 500000000 /\
  1 * 1000000 + 500000000 / 1000 = Z.max 100 (2500000 - 1000000).
Proof.
  split; [reflexivity|].
  refine (proj2 (proj2 (howMuchTimeFromNow_bounds (mkTimestamp 2500000) (mkTimestamp 1000000) _))).
  unfold in_s, micros; simpl; lia.
Defined.

(** The defect of [insert]: adding a timer that expires before all others
    to a non-empty queue does not re-arm the descriptor (the comparison looks
    for a later expiration), although the new timer becomes the first one. *)
Theorem earlier_timer_does_not_rearm (clock : nat -> Timestamp) (q : TimerQueue) (a : Z) (tm : Timer)
    (first : Z) (b : Z) (rest : list key) :
  Inv [] q -> heap q !! a = Some tm -> (forall s, (a, s) ∉ activeTimers_ q) ->
  timers_ q = (first, b) :: rest -> micros (expiration_ tm) < first ->
  exists q', addTimerInLoop clock q a = Ok q' /\
    timers_ q' = (micros (expiration_ tm), a) :: timers_ q /\ timerfd q' = timerfd q.
Proof.
  intros H Htm Hn Ht Hlt.
  destruct (insert_inv [] q a tm H Htm Hn) as [_ Hins]; [simpl; apply not_elem_of_nil|].
  unfold addTimerInLoop. rewrite Hins, Ht. cbn [mbind outcome_bind].
  destruct (Z.ltb_spec first (micros (expiration_ tm))); [lia|].
  eexists; split; [done|]. cbn [timers_ with_sets timerfd set_insert fst].
  destruct (pair_ltb _ _) eqn:E; [done|]. apply pair_ltb_false in E. rewrite pair_lt_spec in E.
  simpl in E. lia.
Qed.

(** A queue with timer 16 due at 100 and timer 32, due at 50, not yet inserted. *)
Definition waiting_queue : TimerQueue :=
  mkTimerQueue [(100, 16)] [(16, 1)] false []
    {[32 := Timer_init 2 (mkTimestamp 50) half_second 2;
      16 := Timer_init 1 (mkTimestamp 100) half_second 1]} 2
    (Some (howMuchTimeFromNow (mkTimestamp 100) (ticking 0))) 1.

Lemma waiting_queue_inv : Inv [] waiting_queue.
Proof.
  constructor; unfold waiting_queue; simpl.
  - repeat constructor.
  - repeat constructor.
  - intros t a Ha. apply list_elem_of_singleton in Ha as [= -> ->]. eexists.
    split; [reflexivity|]. split; [done|]. set_solver.
  - intros a s Ha. apply list_elem_of_singleton in Ha as [= -> ->]. eexists.
    split; [reflexivity|]. split; [done|]. set_solver.
  - done.
  - intros a [x Hx]. unfold UINTPTR_MAX.
    apply lookup_insert_Some in Hx as [[<- _]|[_ Hx]]; [lia|].
    apply lookup_singleton_Some in Hx as [<- _]. lia.
  - intros t a Ha. by apply elem_of_nil in Ha.
  - constructor.
Qed.

Lemma earlier_timer_does_not_rearm_witness :
  exists q', addTimerInLoop ticking waiting_queue 32 = Ok q' /\
    timers_ q' = [(50, 32); (100, 16)] /\ timerfd q' = timerfd waiting_queue.
Proof.
  apply (earlier_timer_does_not_rearm ticking waiting_queue 32
    (Timer_init 2 (mkTimestamp 50) half_second 2) 100 16 []).
  - apply waiting_queue_inv.
  - reflexivity.
  - simpl. set_solver.
  - reflexivity.
  - reflexivity.
Defined.
