(* ===== verification/Channel.v ===== *)
(** * Channels (src/src/Channel.h, src/src/Channel.cpp)

    A channel dispatches the events of one descriptor to callbacks.  Channels
    live at addresses in a store shared with the poller and the loop; a
    callback is an arbitrary transformer of the state, so that a channel that
    a callback destroys is noticed at the next access. *)

From S2P Require Import Prelude Format Timestamp.
Local Open Scope Z_scope.

(** ** Event masks (poll.h; epoll uses the same values) *)

Definition POLLIN : Z := 1.
Definition POLLPRI : Z := 2.
Definition POLLOUT : Z := 4.
Definition POLLERR : Z := 8.
Definition POLLHUP : Z := 16.
Definition POLLNVAL : Z := 32.
Definition POLLRDHUP : Z := 8192.

Definition kNoneEvent : Z := 0.
Definition kReadEvent : Z := Z.lor POLLIN POLLPRI.
Definition kWriteEvent : Z := POLLOUT.

(** [mask & bits] as a C condition. *)
Definition has (mask bits : Z) : bool := negb (Z.land mask bits =? 0).

(** ** The object *)

Record Channel : Type := mkChannel {
  fd_ : Z;
  events_ : Z;
  revents_ : Z;
  index_ : Z;
  logHup_ : bool;
  tied_ : bool;
  eventHandling_ : bool;
  addedToLoop_ : bool
}.

Definition new_Channel (fd : Z) : Channel := mkChannel fd 0 0 (-1) true false false false.

Definition set_events (c : Channel) (e : Z) : Channel :=
  mkChannel (fd_ c) e (revents_ c) (index_ c) (logHup_ c) (tied_ c) (eventHandling_ c) (addedToLoop_ c).
Definition set_revents (c : Channel) (r : Z) : Channel :=
  mkChannel (fd_ c) (events_ c) r (index_ c) (logHup_ c) (tied_ c) (eventHandling_ c) (addedToLoop_ c).
Definition set_index (c : Channel) (i : Z) : Channel :=
  mkChannel (fd_ c) (events_ c) (revents_ c) i (logHup_ c) (tied_ c) (eventHandling_ c) (addedToLoop_ c).
Definition set_handling (c : Channel) (b : bool) : Channel :=
  mkChannel (fd_ c) (events_ c) (revents_ c) (index_ c) (logHup_ c) (tied_ c) b (addedToLoop_ c).
Definition set_added (c : Channel) (b : bool) : Channel :=
  mkChannel (fd_ c) (events_ c) (revents_ c) (index_ c) (logHup_ c) (tied_ c) (eventHandling_ c) b.

Definition tie (c : Channel) : Channel :=
  mkChannel (fd_ c) (events_ c) (revents_ c) (index_ c) (logHup_ c) true (eventHandling_ c) (addedToLoop_ c).
Definition doNotLogHup (c : Channel) : Channel :=
  mkChannel (fd_ c) (events_ c) (revents_ c) (index_ c) false (tied_ c) (eventHandling_ c) (addedToLoop_ c).

Definition isNoneEvent (c : Channel) : bool := events_ c =? kNoneEvent.
Definition isWriting (c : Channel) : bool := has (events_ c) kWriteEvent.
Definition isReading (c : Channel) : bool := has (events_ c) kReadEvent.

(** The five operations that change the interest, before they call [update]. *)
Inductive interest_op : Type :=
| enableReading | disableReading | enableWriting | disableWriting | disableAll.

#[export] Instance interest_op_eq_dec : EqDecision interest_op.
Proof. solve_decision. Defined.

Definition apply_interest (o : interest_op) (c : Channel) : Channel :=
  set_events c
    match o with
    | enableReading => Z.lor (events_ c) kReadEvent
    | disableReading => Z.land (events_ c) (Z.lnot kReadEvent)
    | enableWriting => Z.lor (events_ c) kWriteEvent
    | disableWriting => Z.land (events_ c) (Z.lnot kWriteEvent)
    | disableAll => kNoneEvent
    end.

Definition eventsToString (fd ev : Z) : list ascii :=
  let word (bit : Z) (s : string) := if has ev bit then bytes s else [] in
  fmt_d fd ++ bytes ": " ++ word POLLIN "IN " ++ word POLLPRI "PRI " ++ word POLLOUT "OUT " ++
  word POLLHUP "HUP " ++ word POLLRDHUP "RDHUP " ++ word POLLERR "ERR " ++ word POLLNVAL "NVAL ".

(** ** Events *)

Inductive callback : Type := closeCallback | errorCallback | readCallback | writeCallback.

#[export] Instance callback_eq_dec : EqDecision callback.
Proof. solve_decision. Defined.

(** The store of channels. *)
Abbreviation channels := (gmap Z Channel).

Section Events.
(** [S] is the state of the program around the channels; [cb k a s] runs the
    callback [k] installed in the channel at [a] (the identity when none is
    installed); [alive] is whether the owner the channel is tied to exists. *)
Context {S : Type}.
Context (get : S -> channels) (put : channels -> S -> S).
Context (cb : callback -> Z -> S -> outcome S).
Context (alive : Z -> S -> bool).

Definition chan (s : S) (a : Z) : outcome Channel :=
  match get s !! a with Some c => Ok c | None => Err UseAfterFree end.

Definition modify (a : Z) (f : Channel -> Channel) (s : S) : outcome S :=
  c ← chan s a; Ok (put (<[a := f c]> (get s)) s).

(** [if (revents_ & ...) callback()], with [revents_] read at that moment. *)
Definition dispatch (a : Z) (cond : Channel -> bool) (k : callback) (s : S) : outcome S :=
  c ← chan s a;
  if cond c then cb k a s else Ok s.

Definition handleEventWithGuard (a : Z) (s : S) : outcome S :=
  s ← modify a (fun c => set_handling c true) s;
  s ← dispatch a (fun c => has (revents_ c) POLLHUP && negb (has (revents_ c) POLLIN)) closeCallback s;
  s ← dispatch a (fun c => has (revents_ c) (Z.lor POLLERR POLLNVAL)) errorCallback s;
  s ← dispatch a (fun c => has (revents_ c) (Z.lor POLLIN (Z.lor POLLPRI POLLRDHUP))) readCallback s;
  s ← dispatch a (fun c => has (revents_ c) POLLOUT) writeCallback s;
  modify a (fun c => set_handling c false) s.

Definition handleEvent (a : Z) (s : S) : outcome S :=
  c ← chan s a;
  if tied_ c then (if alive a s then handleEventWithGuard a s else Ok s)
  else handleEventWithGuard a s.

(** The callbacks a set of received events selects, in the order of the code. *)
Definition selected (revents : Z) : list callback :=
  (if has revents POLLHUP && negb (has revents POLLIN) then [closeCallback] else []) ++
  (if has revents (Z.lor POLLERR POLLNVAL) then [errorCallback] else []) ++
  (if has revents (Z.lor POLLIN (Z.lor POLLPRI POLLRDHUP)) then [readCallback] else []) ++
  (if has revents POLLOUT then [writeCallback] else []).

(** What the callbacks have to respect: they do not destroy the channel they
    run on and do not touch its received events or its handling flag. *)
Definition respects (a : Z) : Prop := forall k s s' c,
  cb k a s = Ok s' -> get s !! a = Some c ->
  exists c', get s' !! a = Some c' /\ revents_ c' = revents_ c /\ eventHandling_ c' = eventHandling_ c.

Context (get_put : forall m s, get (put m s) = m).

Lemma dispatch_step a cond b k s c :
  get s !! a = Some c -> cond c = b ->
  dispatch a cond k s = for_each (fun s k => cb k a s) s (if b then [k] else []).
Proof.
  intros Hc <-. unfold dispatch, chan. rewrite Hc. simpl. destruct (cond c); [|done].
  simpl. by destruct (cb k a s).
Qed.

Lemma for_each_respects a ks s s' c :
  respects a -> for_each (fun s k => cb k a s) s ks = Ok s' -> get s !! a = Some c ->
  exists c', get s' !! a = Some c' /\ revents_ c' = revents_ c /\ eventHandling_ c' = eventHandling_ c.
Proof.
  intros Hr. revert s c. induction ks as [|k ks IH]; intros s c; simpl.
  - intros [= <-]; eauto.
  - intros H Hc. destruct (cb k a s) as [s1|] eqn:E; [|done]. simpl in H.
    destruct (Hr _ _ _ _ E Hc) as (c1 & Hc1 & Er & Eh).
    destruct (IH s1 c1 H Hc1) as (c2 & ? & ? & ?). exists c2. split; [done|]. split; congruence.
Qed.

(** One condition of [handleEventWithGuard] after the callbacks of [ks] ran. *)
Lemma dispatch_chain a cond (p : Z -> bool) k ks s c :
  respects a -> get s !! a = Some c -> (forall x, cond x = p (revents_ x)) ->
  (s1 ← for_each (fun s k => cb k a s) s ks; dispatch a cond k s1) =
  for_each (fun s k => cb k a s) s (ks ++ if p (revents_ c) then [k] else []).
Proof.
  intros Hr Hc Hp. rewrite for_each_app.
  destruct (for_each _ s ks) as [s1|] eqn:E; [|done]. simpl.
  destruct (for_each_respects a ks s s1 c Hr E Hc) as (c1 & Hc1 & Er & _).
  apply (dispatch_step a cond _ k s1 c1); [done|]. by rewrite Hp, Er.
Qed.

Lemma handleEventWithGuard_spec a s c :
  respects a -> get s !! a = Some c ->
  handleEventWithGuard a s =
    (s' ← for_each (fun s k => cb k a s)
            (put (<[a := set_handling c true]> (get s)) s) (selected (revents_ c));
     modify a (fun c => set_handling c false) s').
Proof.
  intros Hr Hc. set (c0 := set_handling c true). set (s0 := put _ s).
  assert (H0 : get s0 !! a = Some c0) by (unfold s0; by rewrite get_put, lookup_insert_eq).
  assert (Hm : modify a (fun c => set_handling c true) s = Ok s0)
    by (unfold modify, chan; by rewrite Hc).
  unfold handleEventWithGuard. rewrite Hm. cbn [mbind outcome_bind].
  change (revents_ c) with (revents_ c0). unfold selected. rewrite !app_assoc.
  rewrite <- (dispatch_chain a (fun c => has (revents_ c) POLLOUT) (fun r => has r POLLOUT) writeCallback)
    by done.
  rewrite <- (dispatch_chain a (fun c => has (revents_ c) (Z.lor POLLIN (Z.lor POLLPRI POLLRDHUP)))
    (fun r => has r (Z.lor POLLIN (Z.lor POLLPRI POLLRDHUP))) readCallback) by done.
  rewrite <- (dispatch_chain a (fun c => has (revents_ c) (Z.lor POLLERR POLLNVAL))
    (fun r => has r (Z.lor POLLERR POLLNVAL)) errorCallback) by done.
  rewrite (dispatch_step a _ (has (revents_ c0) POLLHUP && negb (has (revents_ c0) POLLIN))
    closeCallback s0 c0) by done.
  destruct (for_each _ s0 _) as [s1|]; [|done]. simpl. destruct (dispatch _ _ errorCallback s1); [|done].
  simpl. destruct (dispatch _ _ readCallback _); [|done]. done.
Qed.

End Events.

(** Events that include a hang-up without input run either the close callback or
    the read callback, between an error that changes nothing and a write. *)
Lemma selected_inv {S} F (run : S -> callback -> outcome S) (I : S -> Prop) mask s :
  I s -> ~ (closeCallback ∈ selected mask /\ readCallback ∈ selected mask) ->
  unless F (run s closeCallback) I -> (forall s, run s errorCallback = Ok s) ->
  (readCallback ∈ selected mask -> unless F (run s readCallback) I) ->
  (forall s, I s -> unless F (run s writeCallback) I) ->
  unless F (for_each run s (selected mask)) I.
Proof.
  intros Hs Hex Hclose Herr Hread Hwrite.
  assert (Hstep : forall (b : bool) k s0, I s0 -> (b = true -> unless F (run s0 k) I) ->
    unless F (for_each run s0 (if b then [k] else [])) I).
  { intros b k s0 H0 Ht. destruct b; simpl; [|done]. specialize (Ht eq_refl). by destruct (run s0 k). }
  assert (Herror : forall (b : bool) s0, for_each run s0 (if b then [errorCallback] else []) = Ok s0)
    by (intros [] s0; simpl; [by rewrite Herr|done]).
  unfold selected in *. set (bc := has mask POLLHUP && _) in *. set (br := has mask (Z.lor POLLIN _)) in *.
  rewrite !for_each_app. destruct bc eqn:Ebc.
  - assert (br = false) as ->. { destruct br; [|done]. exfalso. apply Hex. split; set_solver. }
    eapply unless_bind; [by apply (Hstep true)|]. intros s1 _ H1. rewrite for_each_app, Herror. cbn [mbind outcome_bind].
    rewrite for_each_app. by apply Hstep; auto.
  - cbn [for_each mbind outcome_bind]. rewrite for_each_app, Herror. cbn [mbind outcome_bind].
    rewrite for_each_app. eapply unless_bind; [apply Hstep; [done|]|].
    + intros Hb. apply Hread. rewrite Hb. set_solver.
    + intros s1 _ H1. by apply Hstep; auto.
Qed.
