(* ===== verification/Poller.v ===== *)
(** * The interface of a poller (src/src/Poller.h, src/src/Poller.cpp)

    A poller keeps the registered channels of a loop and asks the kernel about
    their descriptors.  [PollerOps] are the virtual functions of the class;
    [PollerSpec] is the contract the loop relies on: every poller behaves as
    an abstract [registry] that maps a descriptor to its channel and to the
    mask it is watched with, if any. *)

From S2P Require Import Prelude Format Timestamp Channel.
Local Open Scope Z_scope.

(** ** The abstract registry *)

Record registration : Type := mkReg { reg_channel : Z; reg_mask : option Z }.

Abbreviation registry := (gmap Z registration).

(** Registering a channel, or changing its mask: an empty mask on a watched
    channel stops watching it but keeps it registered. *)
Definition spec_update (r : registry) (a fd mask : Z) : registry :=
  <[fd := mkReg a (match r !! fd with
                   | Some _ => if mask =? 0 then None else Some mask
                   | None => Some mask
                   end)]> r.

Definition spec_remove (r : registry) (fd : Z) : registry := delete fd r.

(** When an update is meaningful: a channel that was never registered, or the
    registered channel of the descriptor, whose mask is not emptied twice. *)
Definition can_update (r : registry) (a : Z) (c : Channel) (mask : Z) : Prop :=
  0 <= fd_ c /\
  match r !! fd_ c with
  | None => index_ c = -1
  | Some g => reg_channel g = a /\ (reg_mask g = None -> mask <> 0)
  end.

Definition can_remove (r : registry) (a : Z) (c : Channel) : Prop :=
  r !! fd_ c = Some (mkReg a None).

(** What a poller may change of a channel behind its back. *)
Definition same_channel (c c' : Channel) : Prop :=
  fd_ c' = fd_ c /\ events_ c' = events_ c /\ logHup_ c' = logHup_ c /\ tied_ c' = tied_ c /\
  eventHandling_ c' = eventHandling_ c /\ addedToLoop_ c' = addedToLoop_ c.

Definition same_channels (cs cs' : channels) : Prop :=
  forall a, option_relation same_channel (fun _ => False) (fun _ => False) (cs !! a) (cs' !! a).

#[export] Instance same_channel_preorder : PreOrder same_channel.
Proof. split; [done|]. intros a b c; unfold same_channel; intuition congruence. Qed.

#[export] Instance same_channels_preorder : PreOrder same_channels.
Proof.
  split.
  - intros cs a. by destruct (cs !! a); simpl.
  - intros cs1 cs2 cs3 H1 H2 a. specialize (H1 a); specialize (H2 a).
    destruct (cs1 !! a), (cs2 !! a), (cs3 !! a); simpl in *; try done. by etrans.
Qed.

Lemma same_channels_insert cs a c c' :
  cs !! a = Some c -> same_channel c c' -> same_channels cs (<[a := c']> cs).
Proof.
  intros Hc Hs b. destruct (decide (b = a)) as [->|Hne].
  - by rewrite Hc, lookup_insert_eq.
  - rewrite lookup_insert_ne by done. by destruct (cs !! b); simpl.
Qed.

(** ** The class *)

Class PollerOps (P : Type) := {
  (** the map from descriptors to channels *)
  channels_ : P -> gmap Z Z;
  updateChannel : P -> channels -> Z -> outcome (P * channels);
  removeChannel : P -> channels -> Z -> outcome (P * channels);
  (** what the kernel answers to one call that waits for events *)
  answer : Type;
  poll : P -> channels -> answer -> outcome (P * channels * list Z)
}.

Definition hasChannel `{PollerOps P} (p : P) (cs : channels) (a : Z) : outcome bool :=
  match cs !! a with
  | None => Err UseAfterFree
  | Some c => Ok (bool_decide (channels_ p !! fd_ c = Some a))
  end.

(** [Channel::update] after [events_] has been changed by [o]. *)
Definition Channel_update `{PollerOps P} (o : interest_op) (p : P) (cs : channels) (a : Z)
  : outcome (P * channels) :=
  match cs !! a with
  | None => Err UseAfterFree
  | Some c => updateChannel p (<[a := set_added (apply_interest o c) true]> cs) a
  end.

Definition Channel_remove `{PollerOps P} (p : P) (cs : channels) (a : Z) : outcome (P * channels) :=
  match cs !! a with
  | None => Err UseAfterFree
  | Some c =>
      assert_ (isNoneEvent c);;
      removeChannel p (<[a := set_added c false]> cs) a
  end.

(** The destructor of a channel, on the thread of the loop. *)
Definition delete_Channel `{PollerOps P} (p : P) (cs : channels) (a : Z) : outcome channels :=
  match cs !! a with
  | None => Err UseAfterFree
  | Some c =>
      assert_ (negb (eventHandling_ c));;
      assert_ (negb (addedToLoop_ c));;
      b ← hasChannel p cs a;
      assert_ (negb b);;
      Ok (delete a cs)
  end.

Class PollerSpec (P : Type) `{PollerOps P} := {
  pwf : P -> channels -> Prop;
  registered : P -> channels -> registry;
  valid_answer : P -> channels -> answer -> Prop;

  pwf_alter p cs a (f : Channel -> Channel) :
    (forall c, fd_ (f c) = fd_ c /\ events_ (f c) = events_ c /\ index_ (f c) = index_ c) ->
    pwf p cs -> pwf p (alter f a cs);
  (** channels that are not registered may come and go *)
  pwf_agree p cs cs' :
    (forall fd a, channels_ p !! fd = Some a -> cs' !! a = cs !! a) -> pwf p cs ->
    pwf p cs' /\ registered p cs' = registered p cs;
  channels_registered p cs : pwf p cs -> channels_ p = reg_channel <$> registered p cs;
  registered_alive p cs fd g :
    pwf p cs -> registered p cs !! fd = Some g ->
    exists c, cs !! reg_channel g = Some c /\ fd_ c = fd;
  registered_mask p cs fd g :
    pwf p cs -> registered p cs !! fd = Some g ->
    forall c, cs !! reg_channel g = Some c ->
      events_ c = match reg_mask g with Some m => m | None => 0 end;
  update_refines p cs a c mask added :
    pwf p cs -> cs !! a = Some c -> can_update (registered p cs) a c mask ->
    exists p' cs',
      updateChannel p (<[a := set_added (set_events c mask) added]> cs) a = Ok (p', cs') /\
      pwf p' cs' /\
      registered p' cs' = spec_update (registered p cs) a (fd_ c) mask /\
      same_channels (<[a := set_added (set_events c mask) added]> cs) cs';
  remove_refines p cs a c added :
    pwf p cs -> cs !! a = Some c -> can_remove (registered p cs) a c ->
    exists p' cs',
      removeChannel p (<[a := set_added c added]> cs) a = Ok (p', cs') /\
      pwf p' cs' /\
      registered p' cs' = spec_remove (registered p cs) (fd_ c) /\
      same_channels (<[a := set_added c added]> cs) cs';
  (** channels that are not registered are left as they are *)
  update_untouched p cs a p' cs' b :
    updateChannel p cs a = Ok (p', cs') -> b <> a -> (forall fd, channels_ p !! fd <> Some b) ->
    cs' !! b = cs !! b;
  remove_untouched p cs a p' cs' b :
    removeChannel p cs a = Ok (p', cs') -> b <> a -> (forall fd, channels_ p !! fd <> Some b) ->
    cs' !! b = cs !! b;
  poll_refines p cs ans :
    pwf p cs -> valid_answer p cs ans ->
    exists p' cs' active,
      poll p cs ans = Ok (p', cs', active) /\ pwf p' cs' /\
      registered p' cs' = registered p cs /\ same_channels cs cs' /\
      forall a, a ∈ active -> exists fd m, registered p cs !! fd = Some (mkReg a (Some m))
}.

(** ** Clients of the interface

    The history of the channels of a loop: every operation is one of the
    channel's, and the poller stays in step with the abstract registry. *)

Inductive channel_op : Type :=
| Update (a : Z) (o : interest_op)
| Remove (a : Z).

Definition run_channel_op `{PollerOps P} (s : P * channels) (o : channel_op) : outcome (P * channels) :=
  match o with
  | Update a i => Channel_update i s.1 s.2 a
  | Remove a => Channel_remove s.1 s.2 a
  end.

(** The abstract history: the registry together with the channels it is about. *)
Definition spec_channel_op (r : registry) (c : Channel) (o : channel_op) : registry :=
  match o with
  | Update a i => spec_update r a (fd_ c) (events_ (apply_interest i c))
  | Remove a => spec_remove r (fd_ c)
  end.

Definition op_addr (o : channel_op) : Z := match o with Update a _ => a | Remove a => a end.

(** The protocol a client follows: it only updates or removes live channels
    in the states [can_update] and [can_remove] describe. *)
Definition allowed (r : registry) (c : Channel) (o : channel_op) : Prop :=
  match o with
  | Update a i => can_update r a c (events_ (apply_interest i c))
  | Remove a => can_remove r a c
  end.

Section Clients.
Context `{PollerSpec P}.

Lemma Channel_update_spec o p cs a c :
  pwf p cs -> cs !! a = Some c ->
  can_update (registered p cs) a c (events_ (apply_interest o c)) ->
  exists p' cs', Channel_update o p cs a = Ok (p', cs') /\ pwf p' cs' /\
    registered p' cs' = spec_update (registered p cs) a (fd_ c) (events_ (apply_interest o c)) /\
    same_channels (<[a := set_added (apply_interest o c) true]> cs) cs'.
Proof.
  intros Hwf Hc Hcan. unfold Channel_update. rewrite Hc.
  exact (update_refines p cs a c (events_ (apply_interest o c)) true Hwf Hc Hcan).
Qed.

Lemma Channel_remove_spec p cs a c :
  pwf p cs -> cs !! a = Some c -> can_remove (registered p cs) a c ->
  exists p' cs', Channel_remove p cs a = Ok (p', cs') /\ pwf p' cs' /\
    registered p' cs' = spec_remove (registered p cs) (fd_ c) /\
    same_channels (<[a := set_added c false]> cs) cs'.
Proof.
  intros Hwf Hc Hcan. unfold Channel_remove. rewrite Hc.
  pose proof (registered_mask p cs _ _ Hwf Hcan c Hc) as Hm. simpl in Hm.
  unfold isNoneEvent, kNoneEvent. rewrite Hm. cbn [Z.eqb assert_ mbind outcome_bind].
  exact (remove_refines p cs a c false Hwf Hc Hcan).
Qed.

Lemma run_channel_op_spec o p cs c :
  pwf p cs -> cs !! op_addr o = Some c -> allowed (registered p cs) c o ->
  exists p' cs', run_channel_op (p, cs) o = Ok (p', cs') /\ pwf p' cs' /\
    registered p' cs' = spec_channel_op (registered p cs) c o.
Proof.
  intros Hwf Hc Hal. destruct o as [a i|a]; simpl in *.
  - destruct (Channel_update_spec i p cs a c Hwf Hc Hal) as (p' & cs' & ? & ? & ? & _). eauto 6.
  - destruct (Channel_remove_spec p cs a c Hwf Hc Hal) as (p' & cs' & ? & ? & ? & _). eauto 6.
Qed.

(** The life of a channel that is enabled, disabled and removed: it can be
    destroyed afterwards, and the registry is as before. *)
Lemma channel_lifetime p cs a c :
  pwf p cs -> cs !! a = Some c -> registered p cs !! fd_ c = None -> 0 <= fd_ c ->
  index_ c = -1 -> events_ c = 0 -> eventHandling_ c = false ->
  exists p1 cs1 p2 cs2 p3 cs3 cs4,
    Channel_update enableReading p cs a = Ok (p1, cs1) /\
    registered p1 cs1 = <[fd_ c := mkReg a (Some kReadEvent)]> (registered p cs) /\
    Channel_update disableAll p1 cs1 a = Ok (p2, cs2) /\
    registered p2 cs2 = <[fd_ c := mkReg a None]> (registered p cs) /\
    Channel_remove p2 cs2 a = Ok (p3, cs3) /\
    registered p3 cs3 = registered p cs /\ pwf p3 cs3 /\
    delete_Channel p3 cs3 a = Ok cs4.
Proof.
  intros Hwf Hc Hr Hfd Hix Hev Heh.
  destruct (Channel_update_spec enableReading p cs a c Hwf Hc) as (p1 & cs1 & E1 & W1 & R1 & S1).
  { split; [done|]. by rewrite Hr. }
  pose proof (S1 a) as Sa1. rewrite lookup_insert_eq in Sa1.
  destruct (cs1 !! a) as [c1|] eqn:Hc1; [|done]. destruct Sa1 as (F1 & V1 & _ & _ & H1 & A1).
  simpl in F1, V1, H1, A1. rewrite Hev in V1.
  unfold spec_update in R1. rewrite Hr in R1. simpl in R1. rewrite Hev in R1.
  change (Z.lor 0 kReadEvent) with kReadEvent in *.
  destruct (Channel_update_spec disableAll p1 cs1 a c1 W1 Hc1) as (p2 & cs2 & E2 & W2 & R2 & S2).
  { split; [by rewrite F1|]. rewrite R1, F1, lookup_insert_eq. done. }
  pose proof (S2 a) as Sa2. rewrite lookup_insert_eq in Sa2.
  destruct (cs2 !! a) as [c2|] eqn:Hc2; [|done]. destruct Sa2 as (F2 & V2 & _ & _ & H2 & A2).
  simpl in F2, V2, H2, A2.
  unfold spec_update in R2. rewrite F1, R1, lookup_insert_eq in R2. simpl in R2.
  rewrite insert_insert_eq in R2.
  destruct (Channel_remove_spec p2 cs2 a c2 W2 Hc2) as (p3 & cs3 & E3 & W3 & R3 & S3).
  { unfold can_remove. by rewrite R2, F2, F1, lookup_insert_eq. }
  pose proof (S3 a) as Sa3. rewrite lookup_insert_eq in Sa3.
  destruct (cs3 !! a) as [c3|] eqn:Hc3; [|done]. destruct Sa3 as (F3 & V3 & _ & _ & H3 & A3).
  simpl in F3, V3, H3, A3.
  unfold spec_remove in R3. rewrite R2, F2, F1, delete_insert_id in R3 by done.
  exists p1, cs1, p2, cs2, p3, cs3, (delete a cs3). do 7 (split; [done|]).
  unfold delete_Channel, hasChannel. rewrite Hc3. rewrite H3, H2, H1, Heh, A3. simpl.
  rewrite (channels_registered p3 cs3 W3), R3, F3, F2, F1, lookup_fmap, Hr. simpl. done.
Qed.

End Clients.
