(* ===== verification/EPollPoller.v ===== *)
(** * The epoll poller (src/src/EPollPoller.h, src/src/EPollPoller.cpp)

    The kernel side of epoll is a parameter: the class [Epoll] states what
    epoll_ctl(2) documents about the interest list.  The poller keeps the map
    of channels, the state of each channel ([index_]: new, added, deleted) and
    the interest list in step, and implements the interface of Poller.v. *)

From S2P Require Import Prelude Format Timestamp Channel Poller.
Local Open Scope Z_scope.

(** ** The kernel *)

Definition EPOLL_CTL_ADD : Z := 1.
Definition EPOLL_CTL_DEL : Z := 2.
Definition EPOLL_CTL_MOD : Z := 3.

(** [struct epoll_event]: the mask and the user data, here a channel. *)
Record epoll_event : Type := mkEvent { ev_events : Z; ev_ptr : Z }.

Class Epoll (K : Type) := {
  interest : K -> gmap Z epoll_event;
  epoll_create : K;
  epoll_ctl : K -> Z -> Z -> epoll_event -> Z * K;

  interest_create : interest epoll_create = ∅;
  (** ADD on a descriptor that is not in the list, MOD and DEL on one that is *)
  ctl_add k fd ev : interest k !! fd = None ->
    exists k', epoll_ctl k EPOLL_CTL_ADD fd ev = (0, k') /\ interest k' = <[fd := ev]> (interest k);
  ctl_mod k fd ev : is_Some (interest k !! fd) ->
    exists k', epoll_ctl k EPOLL_CTL_MOD fd ev = (0, k') /\ interest k' = <[fd := ev]> (interest k);
  ctl_del k fd ev : is_Some (interest k !! fd) ->
    exists k', epoll_ctl k EPOLL_CTL_DEL fd ev = (0, k') /\ interest k' = delete fd (interest k)
}.

(** The answer of epoll_wait(2): the number of events, or minus one. *)
Record wait_answer : Type := mkWait { numEvents : Z; returned : list epoll_event }.

(** ** The poller *)

Definition kNew : Z := -1.
Definition kAdded : Z := 1.
Definition kDeleted : Z := 2.
Definition kInitEventListSize : Z := 26.

Record EPollPoller (K : Type) : Type := mkEPoll {
  ep_channels : gmap Z Z;
  epollfd_ : K;
  ep_events_size : Z
}.
Arguments mkEPoll {K}. Arguments ep_channels {K}. Arguments epollfd_ {K}. Arguments ep_events_size {K}.

Definition operationToString (op : Z) : outcome string :=
  if op =? EPOLL_CTL_ADD then Ok "ADD"%string
  else if op =? EPOLL_CTL_DEL then Ok "DEL"%string
  else if op =? EPOLL_CTL_MOD then Ok "MOD"%string
  else Err AssertFailed.

Section EPoll.
Context `{Epoll K}.

Definition new_EPollPoller : EPollPoller K := mkEPoll ∅ epoll_create kInitEventListSize.

(** [update]: the result of [epoll_ctl] is only logged. *)
Definition update (operation : Z) (c : Channel) (a : Z) (p : EPollPoller K) : outcome (EPollPoller K) :=
  let event := mkEvent (events_ c) a in
  _ ← operationToString operation;
  Ok (mkEPoll (ep_channels p) (epoll_ctl (epollfd_ p) operation (fd_ c) event).2 (ep_events_size p)).

Definition ep_updateChannel (p : EPollPoller K) (cs : channels) (a : Z)
  : outcome (EPollPoller K * channels) :=
  match cs !! a with
  | None => Err UseAfterFree
  | Some channel =>
    let index := index_ channel in
    let fd := fd_ channel in
    if (index =? kNew) || (index =? kDeleted) then
      p ← (if index =? kNew then
             assert_ (bool_decide (ep_channels p !! fd = None));;
             Ok (mkEPoll (<[fd := a]> (ep_channels p)) (epollfd_ p) (ep_events_size p))
           else
             assert_ (negb (bool_decide (ep_channels p !! fd = None)));;
             assert_ (bool_decide (ep_channels p !! fd = Some a));;
             Ok p);
      let channel := set_index channel kAdded in
      p ← update EPOLL_CTL_ADD channel a p;
      Ok (p, <[a := channel]> cs)
    else
      assert_ (negb (bool_decide (ep_channels p !! fd = None)));;
      assert_ (bool_decide (ep_channels p !! fd = Some a));;
      assert_ (index =? kAdded);;
      if isNoneEvent channel then
        p ← update EPOLL_CTL_DEL channel a p;
        Ok (p, <[a := set_index channel kDeleted]> cs)
      else
        p ← update EPOLL_CTL_MOD channel a p;
        Ok (p, cs)
  end.

Definition ep_removeChannel (p : EPollPoller K) (cs : channels) (a : Z)
  : outcome (EPollPoller K * channels) :=
  match cs !! a with
  | None => Err UseAfterFree
  | Some channel =>
    let fd := fd_ channel in
    assert_ (negb (bool_decide (ep_channels p !! fd = None)));;
    assert_ (bool_decide (ep_channels p !! fd = Some a));;
    assert_ (isNoneEvent channel);;
    let index := index_ channel in
    assert_ ((index =? kAdded) || (index =? kDeleted));;
    let p := mkEPoll (delete fd (ep_channels p)) (epollfd_ p) (ep_events_size p) in
    p ← (if index =? kAdded then update EPOLL_CTL_DEL channel a p else Ok p);
    Ok (p, <[a := set_index channel kNew]> cs)
  end.

(** One iteration of the loop of [fillActiveChannels]. *)
Definition fill_one (p : EPollPoller K) (s : channels * list Z) (ev : epoll_event)
  : outcome (channels * list Z) :=
  let a := ev_ptr ev in
  match s.1 !! a with
  | None => Err UseAfterFree
  | Some channel =>
    assert_ (negb (bool_decide (ep_channels p !! fd_ channel = None)));;
    assert_ (bool_decide (ep_channels p !! fd_ channel = Some a));;
    Ok (<[a := set_revents channel (ev_events ev)]> s.1, s.2 ++ [a])
  end.

Definition ep_fillActiveChannels (p : EPollPoller K) (cs : channels) (ans : wait_answer)
  : outcome (channels * list Z) :=
  assert_ (numEvents ans <=? ep_events_size p);;
  for_each (fill_one p) (cs, []) (ztake (numEvents ans) (returned ans)).

Definition ep_poll (p : EPollPoller K) (cs : channels) (ans : wait_answer)
  : outcome (EPollPoller K * channels * list Z) :=
  if 0 <? numEvents ans then
    '(cs, active) ← ep_fillActiveChannels p cs ans;
    let p := if numEvents ans =? ep_events_size p
             then mkEPoll (ep_channels p) (epollfd_ p) (ep_events_size p * 2) else p in
    Ok (p, cs, active)
  else Ok (p, cs, []).

#[export] Instance epoll_ops : PollerOps (EPollPoller K) := {
  channels_ := ep_channels;
  updateChannel := ep_updateChannel;
  removeChannel := ep_removeChannel;
  answer := wait_answer;
  poll := ep_poll
}.

(** ** The invariant

    Every entry of the map is a live channel with that descriptor, in state
    added or deleted; a deleted channel has no events; the interest list holds
    exactly the added channels, with their events and their address. *)

Definition ep_mask (c : Channel) : option Z := if index_ c =? kAdded then Some (events_ c) else None.

Record ep_wf (p : EPollPoller K) (cs : channels) : Prop := mkEpWf {
  ep_alive : forall fd a, ep_channels p !! fd = Some a -> exists c, cs !! a = Some c /\ fd_ c = fd /\
    (index_ c = kAdded \/ (index_ c = kDeleted /\ events_ c = 0));
  ep_interest : forall fd, interest (epollfd_ p) !! fd =
    (a ← ep_channels p !! fd; c ← cs !! a; m ← ep_mask c; Some (mkEvent m a));
  ep_size : 0 < ep_events_size p
}.

Definition ep_registered (p : EPollPoller K) (cs : channels) : registry :=
  (fun a => mkReg a (c ← cs !! a; ep_mask c)) <$> ep_channels p.

(** epoll_wait(2): at most [maxevents] events, each of an entry of the
    interest list. *)
Definition ep_valid_answer (p : EPollPoller K) (cs : channels) (ans : wait_answer) : Prop :=
  numEvents ans <= ep_events_size p /\
  (0 < numEvents ans -> zlen (returned ans) = numEvents ans) /\
  Forall (fun ev => exists fd w, interest (epollfd_ p) !! fd = Some w /\ ev_ptr ev = ev_ptr w) (returned ans).

Lemma ep_registered_lookup p cs fd :
  ep_registered p cs !! fd = (fun a => mkReg a (c ← cs !! a; ep_mask c)) <$> ep_channels p !! fd.
Proof. apply lookup_fmap. Qed.

(** Two descriptors never share a channel. *)
Lemma ep_channels_inj p cs fd1 fd2 a :
  ep_wf p cs -> ep_channels p !! fd1 = Some a -> ep_channels p !! fd2 = Some a -> fd1 = fd2.
Proof.
  intros W H1 H2. destruct (ep_alive _ _ W _ _ H1) as (c1 & E1 & <- & _).
  destruct (ep_alive _ _ W _ _ H2) as (c2 & E2 & <- & _). congruence.
Qed.

(** The effect of changing one channel [a] of descriptor [fd] and the entries
    of [fd] in the map and in the interest list. *)
Lemma ep_wf_change p cs p' cs' fd a c' :
  ep_wf p cs -> cs' = <[a := c']> cs -> fd_ c' = fd ->
  (forall f, f <> fd -> ep_channels p !! f <> Some a) ->
  (forall f, f <> fd -> ep_channels p' !! f = ep_channels p !! f) ->
  (ep_channels p' !! fd = None \/ (ep_channels p' !! fd = Some a /\
     (index_ c' = kAdded \/ (index_ c' = kDeleted /\ events_ c' = 0)))) ->
  (forall f, f <> fd -> interest (epollfd_ p') !! f = interest (epollfd_ p) !! f) ->
  interest (epollfd_ p') !! fd =
    (_ ← ep_channels p' !! fd; m ← ep_mask c'; Some (mkEvent m a)) ->
  ep_events_size p' = ep_events_size p ->
  ep_wf p' cs'.
Proof.
  intros W -> Hfd Hinj Hch Hst Hint Hself Hsz. constructor.
  - intros f b Hb. destruct (decide (f = fd)) as [->|Hne].
    + destruct Hst as [Hst|[Hst Hix]]; [congruence|]. assert (b = a) as -> by congruence.
      exists c'. rewrite lookup_insert_eq. auto.
    + rewrite Hch in Hb by done. assert (b <> a) by (intros ->; by eapply Hinj).
      rewrite lookup_insert_ne by done. by apply (ep_alive _ _ W).
  - intros f. destruct (decide (f = fd)) as [->|Hne].
    + rewrite Hself. destruct Hst as [->|[-> _]]; [done|]. simpl. by rewrite lookup_insert_eq.
    + rewrite Hint, Hch, (ep_interest _ _ W) by done.
      destruct (ep_channels p !! f) as [b|] eqn:E; [|done]. simpl.
      rewrite lookup_insert_ne; [done|]. intros ->. by eapply Hinj.
  - rewrite Hsz. apply W.
Qed.

Lemma ep_registered_change p cs p' cs' fd a c' :
  cs' = <[a := c']> cs ->
  (forall f, f <> fd -> ep_channels p !! f <> Some a) ->
  (forall f, f <> fd -> ep_channels p' !! f = ep_channels p !! f) ->
  (ep_channels p' !! fd = None \/ ep_channels p' !! fd = Some a) ->
  ep_registered p' cs' =
    match ep_channels p' !! fd with
    | None => delete fd (ep_registered p cs)
    | Some _ => <[fd := mkReg a (ep_mask c')]> (ep_registered p cs)
    end.
Proof.
  intros -> Hinj Hch Hst. apply map_eq. intros f. rewrite ep_registered_lookup.
  destruct (decide (f = fd)) as [->|Hne].
  - destruct Hst as [->| ->]; simpl; [by rewrite lookup_delete_eq|].
    by rewrite !lookup_insert_eq.
  - rewrite Hch by done. assert (Hr : (fun x => mkReg x (c ← <[a := c']> cs !! x; ep_mask c)) <$> ep_channels p !! f
      = ep_registered p cs !! f).
    { rewrite ep_registered_lookup. destruct (ep_channels p !! f) as [b|] eqn:E; [|done]. simpl.
      rewrite lookup_insert_ne; [done|]. intros ->. by eapply Hinj. }
    rewrite Hr. destruct Hst as [->| ->]; [by rewrite lookup_delete_ne|by rewrite lookup_insert_ne].
Qed.

(** ** The operations *)

Lemma ep_lookup_not_shared p cs a c :
  ep_wf p cs -> cs !! a = Some c -> forall f, f <> fd_ c -> ep_channels p !! f <> Some a.
Proof.
  intros W Hc f Hne Hf. destruct (ep_alive _ _ W _ _ Hf) as (c' & E & <- & _).
  assert (c' = c) as -> by congruence. done.
Qed.

Lemma ep_interest_none p cs fd :
  ep_wf p cs -> ep_channels p !! fd = None -> interest (epollfd_ p) !! fd = None.
Proof. intros W E. by rewrite (ep_interest _ _ W), E. Qed.

(** ADD for a channel that becomes registered and watched. *)
Lemma ep_add p cs a c c' :
  ep_wf p cs -> cs !! a = Some c -> fd_ c' = fd_ c -> index_ c' = kAdded ->
  interest (epollfd_ p) !! fd_ c = None ->
  let p1 := mkEPoll (<[fd_ c := a]> (ep_channels p)) (epollfd_ p) (ep_events_size p) in
  exists p', update EPOLL_CTL_ADD c' a p1 = Ok p' /\ ep_wf p' (<[a := c']> cs) /\
    ep_registered p' (<[a := c']> cs) = <[fd_ c := mkReg a (Some (events_ c'))]> (ep_registered p cs).
Proof.
  intros W Hc Hfd Hix Hint p1. destruct (ctl_add (epollfd_ p) (fd_ c) (mkEvent (events_ c') a) Hint)
    as (k' & Hk & Hi).
  exists (mkEPoll (ep_channels p1) k' (ep_events_size p)). unfold update. simpl.
  rewrite Hfd, Hk. split; [done|]. pose proof (ep_lookup_not_shared p cs a c W Hc) as Hns.
  assert (Hm : ep_mask c' = Some (events_ c')) by (unfold ep_mask; by rewrite Hix).
  split.
  - apply (ep_wf_change p cs _ _ (fd_ c) a c'); simpl; try done.
    + intros f Hf. by rewrite lookup_insert_ne.
    + rewrite lookup_insert_eq. auto.
    + intros f Hf. by rewrite Hi, lookup_insert_ne.
    + rewrite Hi, !lookup_insert_eq. simpl. by rewrite Hm.
  - rewrite (ep_registered_change p cs _ _ (fd_ c) a c'); simpl; try done.
    + by rewrite lookup_insert_eq, Hm.
    + intros f Hf. by rewrite lookup_insert_ne.
    + rewrite lookup_insert_eq. auto.
Qed.

(** MOD or DEL for a channel that stays registered. *)
Lemma ep_change p cs a c c' op :
  ep_wf p cs -> cs !! a = Some c -> ep_channels p !! fd_ c = Some a -> fd_ c' = fd_ c ->
  index_ c = kAdded ->
  (op = EPOLL_CTL_MOD /\ index_ c' = kAdded) \/
  (op = EPOLL_CTL_DEL /\ index_ c' = kDeleted /\ events_ c' = 0) ->
  forall c1, fd_ c1 = fd_ c -> events_ c1 = events_ c' ->
  exists p', update op c1 a p = Ok p' /\ ep_wf p' (<[a := c']> cs) /\
    ep_registered p' (<[a := c']> cs) = <[fd_ c := mkReg a (ep_mask c')]> (ep_registered p cs).
Proof.
  intros W Hc Hch Hfd Hix Hop c1 Hfd1 Hev1. pose proof (ep_lookup_not_shared p cs a c W Hc) as Hns.
  assert (Hin : is_Some (interest (epollfd_ p) !! fd_ c)).
  { rewrite (ep_interest _ _ W), Hch. simpl. rewrite Hc. simpl. unfold ep_mask. rewrite Hix. simpl. eauto. }
  assert (exists k', epoll_ctl (epollfd_ p) op (fd_ c) (mkEvent (events_ c') a) = (0, k') /\
    (forall f, f <> fd_ c -> interest k' !! f = interest (epollfd_ p) !! f) /\
    interest k' !! fd_ c = (m ← ep_mask c'; Some (mkEvent m a))) as (k' & Hk & Hi & Hs).
  { destruct Hop as [[-> Hix']|[-> [Hix' _]]].
    - destruct (ctl_mod _ (fd_ c) (mkEvent (events_ c') a) Hin) as (k' & -> & Hi). exists k'.
      rewrite Hi. split; [done|]. unfold ep_mask. rewrite Hix'. simpl.
      split; [intros; by rewrite lookup_insert_ne|by rewrite lookup_insert_eq].
    - destruct (ctl_del _ (fd_ c) (mkEvent (events_ c') a) Hin) as (k' & -> & Hi). exists k'.
      rewrite Hi. split; [done|]. unfold ep_mask. rewrite Hix'. simpl.
      split; [intros; by rewrite lookup_delete_ne|by rewrite lookup_delete_eq]. }
  exists (mkEPoll (ep_channels p) k' (ep_events_size p)). unfold update. rewrite Hfd1, Hev1, Hk.
  assert (exists s, operationToString op = Ok s) as [s ->] by (destruct Hop as [[-> _]|[-> _]]; eauto).
  split; [done|]. split.
  - apply (ep_wf_change p cs _ _ (fd_ c) a c'); simpl; try done.
    + right. split; [done|]. destruct Hop as [[_ ?]|[_ ?]]; auto.
    + by rewrite Hs, Hch.
  - rewrite (ep_registered_change p cs _ _ (fd_ c) a c'); simpl; try done; [by rewrite Hch|auto].
Qed.

(** What [updateChannel] must achieve for the channel at [a]. *)
Definition ep_updated (p : EPollPoller K) (cs : channels) (a : Z) (c c1 : Channel) (mask : Z) : Prop :=
  exists p' cs', ep_updateChannel p (<[a := c1]> cs) a = Ok (p', cs') /\ ep_wf p' cs' /\
    ep_registered p' cs' = spec_update (ep_registered p cs) a (fd_ c) mask /\ same_channels (<[a := c1]> cs) cs'.

Lemma ep_updated_by p cs a c c1 mask p' i :
  ep_updateChannel p (<[a := c1]> cs) a = Ok (p', <[a := set_index c1 i]> (<[a := c1]> cs)) ->
  ep_wf p' (<[a := set_index c1 i]> cs) ->
  ep_registered p' (<[a := set_index c1 i]> cs) = spec_update (ep_registered p cs) a (fd_ c) mask ->
  ep_updated p cs a c c1 mask.
Proof.
  intros E W R. exists p', (<[a := set_index c1 i]> (<[a := c1]> cs)). split; [done|].
  rewrite insert_insert_eq. split; [done|]. split; [done|]. rewrite <- (insert_insert_eq cs a (set_index c1 i) c1).
  eapply same_channels_insert; [apply lookup_insert_eq|done].
Qed.

(** A channel the kernel watches: modified, or deleted if it has no event. *)
Lemma ep_update_added p cs a c mask added :
  ep_wf p cs -> cs !! a = Some c -> ep_channels p !! fd_ c = Some a -> index_ c = kAdded ->
  ep_updated p cs a c (set_added (set_events c mask) added) mask.
Proof.
  intros W Hc Ech Hix. set (c1 := set_added (set_events c mask) added).
  assert (Hup : ep_updateChannel p (<[a := c1]> cs) a =
    if mask =? 0 then p' ← update EPOLL_CTL_DEL c1 a p; Ok (p', <[a := set_index c1 kDeleted]> (<[a := c1]> cs))
    else p' ← update EPOLL_CTL_MOD c1 a p; Ok (p', <[a := c1]> cs)).
  { unfold ep_updateChannel. rewrite lookup_insert_eq. cbn [fd_ index_ set_added set_events c1]. rewrite Hix, Ech.
    change ((kAdded =? kNew) || (kAdded =? kDeleted)) with false. cbn [negb].
    rewrite (bool_decide_false (Some a = None)), (bool_decide_true (Some a = Some a)) by done.
    cbn [negb assert_ mbind outcome_bind]. change (kAdded =? kAdded) with true. done. }
  assert (Hspec : spec_update (ep_registered p cs) a (fd_ c) mask =
    <[fd_ c := mkReg a (if mask =? 0 then None else Some mask)]> (ep_registered p cs)).
  { unfold spec_update. by rewrite ep_registered_lookup, Ech. }
  destruct (Z.eqb_spec mask 0) as [Hm|Hm].
  - destruct (ep_change p cs a c (set_index c1 kDeleted) EPOLL_CTL_DEL W Hc Ech eq_refl Hix
      (or_intror (conj eq_refl (conj eq_refl Hm))) c1 eq_refl eq_refl) as (p' & Hu & W' & R').
    rewrite Hu in Hup. apply (ep_updated_by _ _ _ _ _ _ _ _ Hup); [done|]. by rewrite R', Hspec.
  - destruct (ep_change p cs a c c1 EPOLL_CTL_MOD W Hc Ech eq_refl Hix
      (or_introl (conj eq_refl Hix)) c1 eq_refl eq_refl) as (p' & Hu & W' & R').
    rewrite Hu in Hup. exists p', (<[a := c1]> cs). split; [done|]. split; [done|]. split; [|done].
    rewrite R', Hspec. unfold ep_mask. simpl. by rewrite Hix.
Qed.

(** A channel with a deleted or no entry: added. *)
Lemma ep_update_deleted p cs a c mask added :
  ep_wf p cs -> cs !! a = Some c -> ep_channels p !! fd_ c = Some a -> index_ c = kDeleted -> mask <> 0 ->
  ep_updated p cs a c (set_added (set_events c mask) added) mask.
Proof.
  intros W Hc Ech Hix Hm. set (c1 := set_added (set_events c mask) added).
  assert (Hint : interest (epollfd_ p) !! fd_ c = None).
  { rewrite (ep_interest _ _ W), Ech. simpl. rewrite Hc. simpl. unfold ep_mask. by rewrite Hix. }
  destruct (ep_add p cs a c (set_index c1 kAdded) W Hc eq_refl eq_refl Hint) as (p' & Hu & W' & R').
  rewrite insert_id in Hu by done.
  replace (mkEPoll (ep_channels p) (epollfd_ p) (ep_events_size p)) with p in Hu by by destruct p.
  apply (ep_updated_by p cs a c c1 mask p' kAdded); [|done|].
  - unfold ep_updateChannel. rewrite lookup_insert_eq. cbn [fd_ index_ set_added set_events c1]. rewrite Hix, Ech.
    change ((kDeleted =? kNew) || (kDeleted =? kDeleted)) with true. change (kDeleted =? kNew) with false.
    rewrite (bool_decide_false (Some a = None)), (bool_decide_true (Some a = Some a)) by done.
    cbn [negb assert_ mbind outcome_bind]. by rewrite Hu.
  - unfold spec_update. rewrite R', ep_registered_lookup, Ech. simpl. by destruct (Z.eqb_spec mask 0).
Qed.

Lemma ep_update_new p cs a c mask added :
  ep_wf p cs -> cs !! a = Some c -> ep_channels p !! fd_ c = None -> index_ c = kNew ->
  ep_updated p cs a c (set_added (set_events c mask) added) mask.
Proof.
  intros W Hc Ech Hix. set (c1 := set_added (set_events c mask) added).
  destruct (ep_add p cs a c (set_index c1 kAdded) W Hc eq_refl eq_refl (ep_interest_none p cs _ W Ech))
    as (p' & Hu & W' & R').
  apply (ep_updated_by p cs a c c1 mask p' kAdded); [|done|].
  - unfold ep_updateChannel. rewrite lookup_insert_eq. cbn [fd_ index_ set_added set_events c1]. rewrite Hix, Ech.
    change ((kNew =? kNew) || (kNew =? kDeleted)) with true. change (kNew =? kNew) with true.
    rewrite bool_decide_true by done. cbn [assert_ mbind outcome_bind]. by rewrite Hu.
  - unfold spec_update. by rewrite R', ep_registered_lookup, Ech.
Qed.

Lemma ep_update_refines p cs a c mask added :
  ep_wf p cs -> cs !! a = Some c -> can_update (ep_registered p cs) a c mask ->
  let cs1 := <[a := set_added (set_events c mask) added]> cs in
  exists p' cs', ep_updateChannel p cs1 a = Ok (p', cs') /\ ep_wf p' cs' /\
    ep_registered p' cs' = spec_update (ep_registered p cs) a (fd_ c) mask /\ same_channels cs1 cs'.
Proof.
  intros W Hc [Hfd Hcan]. rewrite ep_registered_lookup in Hcan.
  destruct (ep_channels p !! fd_ c) as [b|] eqn:Ech; simpl in Hcan; [|by apply ep_update_new].
  destruct Hcan as [-> Hmask]. destruct (ep_alive _ _ W _ _ Ech) as (c'' & Hc'' & _ & Hst).
  assert (c'' = c) as -> by congruence. clear Hc''. rewrite Hc in Hmask. simpl in Hmask.
  destruct Hst as [Hix|[Hix Hev0]]; [by apply ep_update_added|].
  apply ep_update_deleted; try done. apply Hmask. unfold ep_mask. by rewrite Hix.
Qed.

Lemma ep_remove_refines p cs a c added :
  ep_wf p cs -> cs !! a = Some c -> can_remove (ep_registered p cs) a c ->
  let cs1 := <[a := set_added c added]> cs in
  exists p' cs', ep_removeChannel p cs1 a = Ok (p', cs') /\ ep_wf p' cs' /\
    ep_registered p' cs' = spec_remove (ep_registered p cs) (fd_ c) /\ same_channels cs1 cs'.
Proof.
  intros W Hc Hcan cs1. unfold can_remove in Hcan. rewrite ep_registered_lookup in Hcan.
  destruct (ep_channels p !! fd_ c) as [b|] eqn:Ech; [|done]. simpl in Hcan.
  injection Hcan as -> Hm. rewrite Hc in Hm. simpl in Hm.
  destruct (ep_alive _ _ W _ _ Ech) as (c'' & Hc'' & _ & Hst).
  assert (c'' = c) as -> by congruence. clear Hc''. pose proof (ep_lookup_not_shared p cs a c W Hc) as Hns.
  destruct Hst as [Hix|[Hix Hev]]; [unfold ep_mask in Hm; by rewrite Hix in Hm|].
  unfold ep_removeChannel. set (c1 := set_added c added) in *.
  assert (Hc1 : cs1 !! a = Some c1) by apply lookup_insert_eq. rewrite Hc1. cbn [fd_ c1 set_added index_].
  rewrite Ech. rewrite (bool_decide_false (Some a = None)), (bool_decide_true (Some a = Some a)) by done.
  unfold isNoneEvent. cbn [events_ c1 set_added]. rewrite Hev, Hix.
  cbn [negb assert_ mbind outcome_bind Z.eqb kNoneEvent orb].
  change ((kDeleted =? kAdded) || (kDeleted =? kDeleted)) with true.
  change (kDeleted =? kAdded) with false. cbn [assert_ mbind outcome_bind].
  assert (Hcs : forall x, <[a := x]> cs1 = <[a := x]> cs) by (intros x; apply insert_insert_eq).
  eexists _, _. split; [done|]. rewrite Hcs. split; [|split].
  - apply (ep_wf_change p cs _ _ (fd_ c) a (set_index c1 kNew)); simpl; try done.
    + intros f Hf. by rewrite lookup_delete_ne.
    + rewrite lookup_delete_eq. auto.
    + rewrite lookup_delete_eq. simpl. rewrite (ep_interest _ _ W), Ech. simpl.
      rewrite Hc. simpl. by rewrite Hm.
  - rewrite (ep_registered_change p cs _ _ (fd_ c) a (set_index c1 kNew)); simpl; try done.
    + by rewrite lookup_delete_eq.
    + intros f Hf. by rewrite lookup_delete_ne.
    + rewrite lookup_delete_eq. auto.
  - rewrite <- Hcs. by eapply same_channels_insert.
Qed.

(** ** Waiting for events *)

(** What one call stores: the channels of the answer, in order, and in each of
    them the received events of its last entry. *)
Definition store_revents (cs : channels) (evs : list epoll_event) : channels :=
  foldl (fun cs ev => alter (fun c => set_revents c (ev_events ev)) (ev_ptr ev) cs) cs evs.

Lemma same_channels_alter_revents cs a r :
  same_channels cs (alter (fun c => set_revents c r) a cs).
Proof.
  intros b. destruct (decide (b = a)) as [->|Hne].
  - rewrite lookup_alter_eq. by destruct (cs !! a); simpl.
  - rewrite lookup_alter_ne by done. by destruct (cs !! b); simpl.
Qed.

Lemma ep_wf_alter p cs a (f : Channel -> Channel) :
  (forall c, fd_ (f c) = fd_ c /\ events_ (f c) = events_ c /\ index_ (f c) = index_ c) ->
  ep_wf p cs -> ep_wf p (alter f a cs).
Proof.
  intros Hf W. constructor; [| |apply W].
  - intros fd b Hb. destruct (ep_alive _ _ W _ _ Hb) as (c & Hc & Hfd & Hst).
    destruct (decide (b = a)) as [->|Hne].
    + exists (f c). rewrite lookup_alter_eq, Hc. destruct (Hf c) as (-> & -> & ->). done.
    + exists c. by rewrite lookup_alter_ne.
  - intros fd. rewrite (ep_interest _ _ W). destruct (ep_channels p !! fd) as [b|]; [|done]. simpl.
    destruct (decide (b = a)) as [->|Hne].
    + rewrite lookup_alter_eq. destruct (cs !! a) as [c|]; [|done]. simpl. unfold ep_mask.
      destruct (Hf c) as (_ & -> & ->). done.
    + by rewrite lookup_alter_ne.
Qed.

Lemma ep_wf_revents p cs a r : ep_wf p cs -> ep_wf p (alter (fun c => set_revents c r) a cs).
Proof. by apply ep_wf_alter. Qed.

Lemma ep_registered_revents p cs a r :
  ep_registered p (alter (fun c => set_revents c r) a cs) = ep_registered p cs.
Proof.
  apply map_eq. intros fd. rewrite !ep_registered_lookup. destruct (ep_channels p !! fd) as [b|]; [|done].
  simpl. do 2 f_equal. destruct (decide (b = a)) as [->|Hne].
  - rewrite lookup_alter_eq. by destruct (cs !! a).
  - by rewrite lookup_alter_ne.
Qed.

Lemma ep_interest_registered p cs fd w :
  ep_wf p cs -> interest (epollfd_ p) !! fd = Some w ->
  ep_registered p cs !! fd = Some (mkReg (ev_ptr w) (Some (ev_events w))) /\
  ep_channels p !! fd = Some (ev_ptr w) /\ exists c, cs !! ev_ptr w = Some c /\ fd_ c = fd.
Proof.
  intros W Hw. rewrite (ep_interest _ _ W) in Hw. rewrite ep_registered_lookup.
  destruct (ep_channels p !! fd) as [a|] eqn:Ea; [|done]. simpl in *.
  destruct (ep_alive _ _ W _ _ Ea) as (c & Hc & Hfd & _). rewrite Hc in *. simpl in *.
  destruct (ep_mask c) as [m|]; [|done]. simpl in Hw. injection Hw as <-. simpl. eauto.
Qed.

Lemma ep_fill p evs cs acc :
  ep_wf p cs ->
  Forall (fun ev => exists fd w, interest (epollfd_ p) !! fd = Some w /\ ev_ptr ev = ev_ptr w) evs ->
  for_each (fill_one p) (cs, acc) evs = Ok (store_revents cs evs, acc ++ map ev_ptr evs) /\
  ep_wf p (store_revents cs evs) /\ ep_registered p (store_revents cs evs) = ep_registered p cs /\
  same_channels cs (store_revents cs evs).
Proof.
  intros W Hev. revert cs acc W.
  induction Hev as [|ev evs (fd & w & Hw & Hp) Hevs IH]; intros cs acc W; cbn [for_each map].
  - rewrite app_nil_r. do 3 (split; [done|]). done.
  - destruct (ep_interest_registered p cs fd w W Hw) as (_ & Hch & c & Hc & Hfd).
    assert (Hone : fill_one p (cs, acc) ev =
      Ok (alter (fun c => set_revents c (ev_events ev)) (ev_ptr ev) cs, acc ++ [ev_ptr ev])).
    { unfold fill_one. cbn [fst snd]. rewrite Hp, Hc, Hfd, Hch.
      rewrite (bool_decide_false (Some _ = None)), (bool_decide_true (Some _ = Some _)) by done.
      cbn [negb assert_ mbind outcome_bind]. do 2 f_equal.
      apply map_eq. intros b. destruct (decide (b = ev_ptr w)) as [->|Hne].
      - by rewrite lookup_alter_eq, lookup_insert_eq, Hc.
      - by rewrite lookup_alter_ne, lookup_insert_ne. }
    rewrite Hone. cbn [mbind outcome_bind].
    change (store_revents cs (ev :: evs)) with
      (store_revents (alter (fun c => set_revents c (ev_events ev)) (ev_ptr ev) cs) evs).
    set (cs1 := alter _ _ cs). destruct (IH cs1 (acc ++ [ev_ptr ev])) as (E & W' & R' & S').
    { by apply ep_wf_revents. }
    rewrite <- app_assoc in E. split; [exact E|]. split; [done|]. split.
    + rewrite R'. apply ep_registered_revents.
    + etrans; [|exact S']. apply same_channels_alter_revents.
Qed.

(** The state after [poll]: the event buffer doubles when it was filled. *)
Definition ep_grown (p : EPollPoller K) (ans : wait_answer) : EPollPoller K :=
  if (0 <? numEvents ans) && (numEvents ans =? ep_events_size p)
  then mkEPoll (ep_channels p) (epollfd_ p) (ep_events_size p * 2) else p.

Definition received (ans : wait_answer) : list epoll_event :=
  if 0 <? numEvents ans then returned ans else [].

Lemma ep_grown_wf p cs ans : ep_wf p cs -> ep_wf (ep_grown p ans) cs.
Proof.
  intros W. unfold ep_grown. destruct (_ && _); [|done].
  constructor; simpl; [apply W|apply W|]. pose proof (ep_size _ _ W). lia.
Qed.

Lemma ep_poll_spec p cs ans :
  ep_wf p cs -> ep_valid_answer p cs ans ->
  ep_poll p cs ans =
    Ok (ep_grown p ans, store_revents cs (received ans), map ev_ptr (received ans)) /\
  ep_wf (ep_grown p ans) (store_revents cs (received ans)) /\
  ep_registered (ep_grown p ans) (store_revents cs (received ans)) = ep_registered p cs /\
  same_channels cs (store_revents cs (received ans)).
Proof.
  intros W (Hle & Hlen & Hall). unfold ep_poll, received.
  destruct (Z.ltb_spec 0 (numEvents ans)) as [Hpos|Hneg].
  - destruct (ep_fill p (returned ans) cs [] W Hall) as (E & W' & R' & S').
    unfold ep_fillActiveChannels. rewrite (proj2 (Z.leb_le _ _) Hle). cbn [assert_ mbind outcome_bind].
    rewrite ztake_all by (rewrite Hlen; lia). rewrite E. cbn [mbind outcome_bind].
    split; [unfold ep_grown; by rewrite (proj2 (Z.ltb_lt _ _) Hpos)|].
    split; [by apply ep_grown_wf|]. split; [|done].
    rewrite <- R'. unfold ep_registered, ep_grown. by destruct (_ && _).
  - unfold ep_grown. rewrite (proj2 (Z.ltb_ge _ _) Hneg). simpl. done.
Qed.

Lemma ep_wf_agree p cs cs' : (forall fd a, ep_channels p !! fd = Some a -> cs' !! a = cs !! a) -> ep_wf p cs ->
  ep_wf p cs' /\ ep_registered p cs' = ep_registered p cs.
Proof.
  intros Ha [W1 W2 W3]. split; [constructor|]; [..|].
  - intros fd a Hfd. rewrite (Ha fd a Hfd). by apply W1.
  - intros fd. rewrite W2. destruct (ep_channels p !! fd) as [a|] eqn:E; [|done]. simpl. by rewrite (Ha fd a E).
  - done.
  - apply map_eq. intros fd. rewrite !ep_registered_lookup. destruct (ep_channels p !! fd) as [a|] eqn:E; [|done].
    simpl. by rewrite (Ha fd a E).
Qed.

(** Only the channel of the call changes. *)
Lemma ep_update_others p cs a p' cs' b :
  ep_updateChannel p cs a = Ok (p', cs') -> b <> a -> cs' !! b = cs !! b.
Proof.
  unfold ep_updateChannel. intros Hu Hne. destruct (cs !! a) as [c|]; [|done].
  destruct (_ || _); obind; [by rewrite lookup_insert_ne|].
  destruct (isNoneEvent c); obind; [by rewrite lookup_insert_ne|done].
Qed.

Lemma ep_remove_others p cs a p' cs' b :
  ep_removeChannel p cs a = Ok (p', cs') -> b <> a -> cs' !! b = cs !! b.
Proof.
  unfold ep_removeChannel. intros Hu Hne. destruct (cs !! a) as [c|]; [|done]. obind. by rewrite lookup_insert_ne.
Qed.

#[export] Instance epoll_spec : PollerSpec (EPollPoller K).
Proof.
  refine {| pwf := ep_wf; registered := ep_registered;
            valid_answer := ep_valid_answer : EPollPoller K -> channels -> @answer _ epoll_ops -> Prop |}.
  - intros. by apply ep_wf_alter.
  - intros. by apply ep_wf_agree.
  - intros p cs W. simpl. apply map_eq. intros fd. rewrite lookup_fmap, ep_registered_lookup.
    by destruct (ep_channels p !! fd).
  - intros p cs fd g W Hg. rewrite ep_registered_lookup in Hg.
    destruct (ep_channels p !! fd) as [a|] eqn:Ea; [|done]. injection Hg as <-.
    destruct (ep_alive _ _ W _ _ Ea) as (c & Hc & Hfd & _). simpl. eauto.
  - intros p cs fd g W Hg c Hc. rewrite ep_registered_lookup in Hg.
    destruct (ep_channels p !! fd) as [a|] eqn:Ea; [|done]. injection Hg as <-. simpl in *.
    destruct (ep_alive _ _ W _ _ Ea) as (c' & Hc' & _ & Hst). assert (c' = c) as -> by congruence.
    rewrite Hc. simpl. unfold ep_mask. by destruct Hst as [->|[-> ->]].
  - intros. by apply ep_update_refines.
  - intros. by apply ep_remove_refines.
  - intros. by eapply ep_update_others.
  - intros. by eapply ep_remove_others.
  - intros p cs ans W Hv. destruct (ep_poll_spec p cs ans W Hv) as (E & W' & R' & S').
    eexists _, _, _. split; [exact E|]. do 3 (split; [done|]). intros a Ha.
    apply list_elem_of_fmap in Ha as (ev & -> & Hev). unfold received in Hev.
    destruct (0 <? numEvents ans); [|by apply elem_of_nil in Hev].
    destruct Hv as (_ & _ & Hall). rewrite Forall_forall in Hall.
    destruct (Hall ev Hev) as (fd & w & Hw & ->).
    destruct (ep_interest_registered p cs fd w W Hw) as (Hr & _). eauto.
Defined.

Lemma new_EPollPoller_wf cs : ep_wf new_EPollPoller cs.
Proof.
  constructor; simpl.
  - intros fd a Ha. by rewrite lookup_empty in Ha.
  - intros fd. by rewrite interest_create, !lookup_empty.
  - unfold kInitEventListSize. lia.
Qed.

End EPoll.

(** ** A concrete kernel *)

Definition model_ctl (k : gmap Z epoll_event) (op fd : Z) (ev : epoll_event) : Z * gmap Z epoll_event :=
  match op with
  | 1 => match k !! fd with None => (0, <[fd := ev]> k) | Some _ => (-1, k) end
  | 2 => match k !! fd with None => (-1, k) | Some _ => (0, delete fd k) end
  | 3 => match k !! fd with None => (-1, k) | Some _ => (0, <[fd := ev]> k) end
  | _ => (-1, k)
  end.

#[export] Instance model_epoll : Epoll (gmap Z epoll_event).
Proof.
  refine {| interest k := k; epoll_create := ∅; epoll_ctl := model_ctl |}.
  - done.
  - intros k fd ev E. unfold model_ctl, EPOLL_CTL_ADD. rewrite E. eauto.
  - intros k fd ev [w E]. unfold model_ctl, EPOLL_CTL_MOD. rewrite E. eauto.
  - intros k fd ev [w E]. unfold model_ctl, EPOLL_CTL_DEL. rewrite E. eauto.
Defined.

(** ** Properties *)

Lemma ep_interest_of_registry `{Epoll K} (p : EPollPoller K) cs fd :
  ep_wf p cs -> interest (epollfd_ p) !! fd =
    (g ← ep_registered p cs !! fd; m ← reg_mask g; Some (mkEvent m (reg_channel g))).
Proof.
  intros W. rewrite (ep_interest _ _ W), ep_registered_lookup.
  destruct (ep_channels p !! fd) as [a|]; [|done]. simpl. by destruct (cs !! a).
Qed.

(** C12. Every allowed operation of a channel (enable, disable, remove) succeeds
    on the epoll poller, moves its registry as the abstract poller prescribes,
    and leaves in the kernel's interest list exactly the watched descriptors,
    each with the mask and the address of its channel. *)
Theorem epoll_simulates_registry `{Epoll K} (p : EPollPoller K) cs (o : channel_op) (c : Channel) :
  ep_wf p cs -> cs !! op_addr o = Some c -> allowed (ep_registered p cs) c o ->
  exists p' cs', run_channel_op (p, cs) o = Ok (p', cs') /\ ep_wf p' cs' /\
    ep_registered p' cs' = spec_channel_op (ep_registered p cs) c o /\
    forall fd, interest (epollfd_ p') !! fd =
      (g ← spec_channel_op (ep_registered p cs) c o !! fd;
       m ← reg_mask g; Some (mkEvent m (reg_channel g))).
Proof.
  intros W Hc Ha. pose proof (run_channel_op_spec (P := EPollPoller K) o p cs c) as X.
  destruct (X W Hc Ha) as (p' & cs' & E & W' & R').
  exists p', cs'. do 3 (split; [done|]). intros fd.
  change (ep_registered p' cs' = spec_channel_op (ep_registered p cs) c o) in R'.
  rewrite <- R'. by apply ep_interest_of_registry.
Qed.

Definition sample_channels : channels := {[ 16 := new_Channel 5; 32 := new_Channel 7 ]}.

Lemma epoll_simulates_registry_witness :
  exists p' cs',
    run_channel_op (new_EPollPoller (K := gmap Z epoll_event), sample_channels)
      (Update 16 enableReading) = Ok (p', cs') /\
    interest (epollfd_ p') !! 5 = Some (mkEvent kReadEvent 16).
Proof.
  destruct (epoll_simulates_registry (new_EPollPoller (K := gmap Z epoll_event)) sample_channels
    (Update 16 enableReading) (new_Channel 5)) as (p' & cs' & E & _ & _ & Hi).
  - apply new_EPollPoller_wf.
  - reflexivity.
  - split; [done|reflexivity].
  - exists p', cs'. split; [exact E|]. rewrite (Hi 5). reflexivity.
Defined.

(** One wait: with any answer epoll_wait(2) may give, the channels reported
    active are those of the answer, in order, each with its received events
    stored; the assertions about the map of channels hold, the registry does
    not change, and the event buffer doubles when the answer filled it. *)
Theorem epoll_poll_reports `{Epoll K} (p : EPollPoller K) cs (ans : wait_answer) :
  ep_wf p cs -> ep_valid_answer p cs ans ->
  ep_poll p cs ans =
    Ok (ep_grown p ans, store_revents cs (received ans), map ev_ptr (received ans)) /\
  ep_wf (ep_grown p ans) (store_revents cs (received ans)) /\
  ep_registered (ep_grown p ans) (store_revents cs (received ans)) = ep_registered p cs /\
  same_channels cs (store_revents cs (received ans)).
Proof. apply ep_poll_spec. Qed.

Definition sample_poller : EPollPoller (gmap Z epoll_event) * channels :=
  match run_channel_op (new_EPollPoller (K := gmap Z epoll_event), sample_channels)
          (Update 16 enableReading) with
  | Ok s => s
  | Err _ => (new_EPollPoller, sample_channels)
  end.

Lemma epoll_poll_reports_witness :
  let ans := mkWait 1 [mkEvent POLLIN 16] in
  ep_poll sample_poller.1 sample_poller.2 ans =
    Ok (ep_grown sample_poller.1 ans, store_revents sample_poller.2 (received ans), [16]).
Proof.
  intros ans. refine (proj1 (epoll_poll_reports sample_poller.1 sample_poller.2 ans _ _)).
  - destruct (run_channel_op_spec (P := EPollPoller (gmap Z epoll_event)) (Update 16 enableReading) (new_EPollPoller (K := gmap Z epoll_event))
      sample_channels (new_Channel 5)) as (p' & cs' & E & W & _).
    + apply new_EPollPoller_wf.
    + reflexivity.
    + split; [done|reflexivity].
    + unfold sample_poller. rewrite E. exact W.
  - split; [vm_compute; discriminate|]. split; [reflexivity|]. constructor; [|constructor].
    exists 5, (mkEvent kReadEvent 16). split; reflexivity.
Defined.
