(* ===== verification/PollPoller.v ===== *)
(** * The poll poller (src/src/PollPoller.h, src/src/PollPoller.cpp)

    The descriptors are kept in a vector of [struct pollfd]; a channel knows
    its position ([index_]), a channel that is registered but not watched has
    its descriptor stored as [-fd - 1], and a removed entry is replaced by the
    last one, whose channel is told its new position.  The poller implements
    the same interface as the epoll one. *)

From S2P Require Import Prelude Format Timestamp Channel Poller.
Local Open Scope Z_scope.

Record pollfd : Type := mkPollfd { pfd_fd : Z; pfd_events : Z; pfd_revents : Z }.

Record PollPoller : Type := mkPoll { pl_channels : gmap Z Z; pollfds_ : list pollfd }.

Definition new_PollPoller : PollPoller := mkPoll ∅ [].

(** The answer of poll(2): the number of descriptors with events, or minus
    one, and the [revents] it stored in each entry of the vector. *)
Record poll_answer : Type := mkPollAnswer { poll_num : Z; poll_revents : list Z }.

Definition set_pfd_revents (p : pollfd) (r : Z) : pollfd := mkPollfd (pfd_fd p) (pfd_events p) r.

(** ** The operations *)

Fixpoint fillActiveChannels (p : PollPoller) (cs : channels) (pfds : list pollfd) (numEvents : Z)
  : outcome (list Z) :=
  match pfds with
  | [] => Ok []
  | pfd :: pfds' =>
    if 0 <? numEvents then
      if 0 <? pfd_revents pfd then
        match pl_channels p !! pfd_fd pfd with
        | None => Err AssertFailed
        | Some a =>
          match cs !! a with
          | None => Err UseAfterFree
          | Some channel =>
            assert_ (fd_ channel =? pfd_fd pfd);;
            rest ← fillActiveChannels p cs pfds' (numEvents - 1);
            Ok (a :: rest)
          end
        end
      else fillActiveChannels p cs pfds' numEvents
    else Ok []
  end.

(** poll(2) writes [revents]; the channels keep the events they had. *)
Definition pl_poll (p : PollPoller) (cs : channels) (ans : poll_answer)
  : outcome (PollPoller * channels * list Z) :=
  let p := mkPoll (pl_channels p) (zip_with set_pfd_revents (pollfds_ p) (poll_revents ans)) in
  if 0 <? poll_num ans then
    active ← fillActiveChannels p cs (pollfds_ p) (poll_num ans);
    Ok (p, cs, active)
  else Ok (p, cs, []).

Definition pl_updateChannel (p : PollPoller) (cs : channels) (a : Z)
  : outcome (PollPoller * channels) :=
  match cs !! a with
  | None => Err UseAfterFree
  | Some channel =>
    if index_ channel <? 0 then
      assert_ (bool_decide (pl_channels p !! fd_ channel = None));;
      let pfd := mkPollfd (fd_ channel) (i16 (events_ channel)) 0 in
      let pollfds := pollfds_ p ++ [pfd] in
      let idx := zlen pollfds - 1 in
      Ok (mkPoll (<[pfd_fd pfd := a]> (pl_channels p)) pollfds, <[a := set_index channel idx]> cs)
    else
      assert_ (negb (bool_decide (pl_channels p !! fd_ channel = None)));;
      assert_ (bool_decide (pl_channels p !! fd_ channel = Some a));;
      let idx := index_ channel in
      assert_ ((0 <=? idx) && (idx <? zlen (pollfds_ p)));;
      match pollfds_ p !! Z.to_nat idx with
      | None => Err OutOfBounds
      | Some pfd =>
        assert_ ((pfd_fd pfd =? fd_ channel) || (pfd_fd pfd =? - fd_ channel - 1));;
        let pfd := mkPollfd (if isNoneEvent channel then - fd_ channel - 1 else fd_ channel)
                            (i16 (events_ channel)) 0 in
        Ok (mkPoll (pl_channels p) (<[Z.to_nat idx := pfd]> (pollfds_ p)), cs)
      end
  end.

(** [iter_swap] of position [idx] with the last one, then [pop_back]. *)
Definition swap_pop (idx : nat) (l : list pollfd) : list pollfd :=
  match last l with
  | None => l
  | Some e => take (length l - 1) (<[idx := e]> l)
  end.

Definition pl_removeChannel (p : PollPoller) (cs : channels) (a : Z)
  : outcome (PollPoller * channels) :=
  match cs !! a with
  | None => Err UseAfterFree
  | Some channel =>
    assert_ (negb (bool_decide (pl_channels p !! fd_ channel = None)));;
    assert_ (bool_decide (pl_channels p !! fd_ channel = Some a));;
    assert_ (isNoneEvent channel);;
    let idx := index_ channel in
    assert_ ((0 <=? idx) && (idx <? zlen (pollfds_ p)));;
    match pollfds_ p !! Z.to_nat idx with
    | None => Err OutOfBounds
    | Some pfd =>
      assert_ ((pfd_fd pfd =? - fd_ channel - 1) && (pfd_events pfd =? events_ channel));;
      let chans := delete (fd_ channel) (pl_channels p) in
      if idx =? zlen (pollfds_ p) - 1 then
        Ok (mkPoll chans (take (length (pollfds_ p) - 1) (pollfds_ p)), cs)
      else
        match last (pollfds_ p) with
        | None => Err OutOfBounds
        | Some e =>
          let channelAtEnd := if pfd_fd e <? 0 then - pfd_fd e - 1 else pfd_fd e in
          match chans !! channelAtEnd with
          | None => Err UseAfterFree
          | Some b =>
            match cs !! b with
            | None => Err UseAfterFree
            | Some d => Ok (mkPoll chans (swap_pop (Z.to_nat idx) (pollfds_ p)),
                            <[b := set_index d idx]> cs)
            end
          end
        end
    end
  end.

#[export] Instance poll_ops : PollerOps PollPoller := {
  channels_ := pl_channels;
  updateChannel := pl_updateChannel;
  removeChannel := pl_removeChannel;
  answer := poll_answer;
  poll := pl_poll
}.

(** ** The invariant *)

(** The entry at position [i] describes the channel [c]. *)
Definition describes (pfd : pollfd) (c : Channel) : Prop :=
  pfd_events pfd = i16 (events_ c) /\
  (pfd_fd pfd = fd_ c \/ (pfd_fd pfd = - fd_ c - 1 /\ events_ c = 0)).

Definition pfd_owner (pfd : pollfd) : Z := if pfd_fd pfd <? 0 then - pfd_fd pfd - 1 else pfd_fd pfd.

Record pl_wf (p : PollPoller) (cs : channels) : Prop := mkPlWf {
  pl_alive : forall fd a, pl_channels p !! fd = Some a -> exists c pfd,
    cs !! a = Some c /\ fd_ c = fd /\ 0 <= fd /\ 0 <= index_ c /\
    pollfds_ p !! Z.to_nat (index_ c) = Some pfd /\ describes pfd c;
  pl_entries : forall i pfd, pollfds_ p !! i = Some pfd -> exists a c,
    pl_channels p !! pfd_owner pfd = Some a /\ cs !! a = Some c /\ index_ c = Z.of_nat i
}.

Definition pl_mask (p : PollPoller) (c : Channel) : option Z :=
  match pollfds_ p !! Z.to_nat (index_ c) with
  | Some pfd => if pfd_fd pfd <? 0 then None else Some (events_ c)
  | None => None
  end.

Definition pl_registered (p : PollPoller) (cs : channels) : registry :=
  (fun a => mkReg a (c ← cs !! a; pl_mask p c)) <$> pl_channels p.

(** poll(2): entries with a negative descriptor get no events, and the result
    is the number of entries with events. *)
Definition pl_valid_answer (p : PollPoller) (cs : channels) (ans : poll_answer) : Prop :=
  length (poll_revents ans) = length (pollfds_ p) /\
  (forall i pfd r, pollfds_ p !! i = Some pfd -> poll_revents ans !! i = Some r ->
     pfd_fd pfd < 0 -> r = 0).

Lemma pl_registered_lookup p cs fd :
  pl_registered p cs !! fd = (fun a => mkReg a (c ← cs !! a; pl_mask p c)) <$> pl_channels p !! fd.
Proof. apply lookup_fmap. Qed.

Lemma describes_owner pfd c : 0 <= fd_ c -> describes pfd c -> pfd_owner pfd = fd_ c.
Proof.
  intros Hfd (_ & H). unfold pfd_owner. destruct (Z.ltb_spec (pfd_fd pfd) 0); lia.
Qed.

Lemma pl_mask_events p cs fd a c :
  pl_wf p cs -> pl_channels p !! fd = Some a -> cs !! a = Some c ->
  events_ c = match pl_mask p c with Some m => m | None => 0 end.
Proof.
  intros W Ha Hc. destruct (pl_alive _ _ W _ _ Ha) as (c' & pfd & Hc' & Hfd & Hpos & _ & Hp & _ & Hd).
  assert (c' = c) as -> by congruence. unfold pl_mask. rewrite Hp.
  destruct (Z.ltb_spec (pfd_fd pfd) 0); lia.
Qed.

(** Registered channels at different descriptors are different and sit at
    different positions. *)
Lemma pl_index_inj p cs fd1 fd2 a1 a2 c1 c2 :
  pl_wf p cs -> pl_channels p !! fd1 = Some a1 -> pl_channels p !! fd2 = Some a2 ->
  cs !! a1 = Some c1 -> cs !! a2 = Some c2 -> index_ c1 = index_ c2 -> fd1 = fd2.
Proof.
  intros W H1 H2 E1 E2 Hix.
  destruct (pl_alive _ _ W _ _ H1) as (x1 & p1 & X1 & F1 & P1 & I1 & L1 & D1).
  destruct (pl_alive _ _ W _ _ H2) as (x2 & p2 & X2 & F2 & P2 & I2 & L2 & D2).
  assert (x1 = c1) as -> by congruence. assert (x2 = c2) as -> by congruence.
  rewrite Hix in L1. assert (p1 = p2) as -> by congruence.
  rewrite <- F1, <- F2. rewrite <- (describes_owner p2 c1), <- (describes_owner p2 c2); congruence.
Qed.

(** A channel is registered under no descriptor but its own. *)
Lemma pl_not_shared p cs a c :
  pl_wf p cs -> cs !! a = Some c -> forall f, f <> fd_ c -> pl_channels p !! f <> Some a.
Proof.
  intros W Hc f Hne Hf. destruct (pl_alive _ _ W _ _ Hf) as (c' & pfd & E & <- & _).
  assert (c' = c) as -> by congruence. done.
Qed.

(** ** Updating *)

Lemma pl_update_new p cs a c c1 :
  pl_wf p cs -> cs !! a = Some c -> pl_channels p !! fd_ c = None -> 0 <= fd_ c ->
  fd_ c1 = fd_ c -> index_ c1 = zlen (pollfds_ p) ->
  let p' := mkPoll (<[fd_ c := a]> (pl_channels p))
              (pollfds_ p ++ [mkPollfd (fd_ c) (i16 (events_ c1)) 0]) in
  pl_wf p' (<[a := c1]> cs) /\
  pl_registered p' (<[a := c1]> cs) = <[fd_ c := mkReg a (Some (events_ c1))]> (pl_registered p cs).
Proof.
  intros W Hc Hnone Hfd Hfd1 Hix p'. pose proof (pl_not_shared p cs a c W Hc) as Hns.
  assert (Hnew : pollfds_ p' !! Z.to_nat (index_ c1) = Some (mkPollfd (fd_ c) (i16 (events_ c1)) 0)).
  { rewrite Hix. unfold zlen. rewrite Nat2Z.id. simpl. by rewrite lookup_app_r, Nat.sub_diag. }
  assert (Hold : forall f b, f <> fd_ c -> pl_channels p !! f = Some b -> exists x pfd,
    cs !! b = Some x /\ b <> a /\ pollfds_ p !! Z.to_nat (index_ x) = Some pfd /\
    pollfds_ p' !! Z.to_nat (index_ x) = Some pfd).
  { intros f b Hne Hb. destruct (pl_alive _ _ W _ _ Hb) as (x & pfd & Hx & _ & _ & _ & Hp & _).
    exists x, pfd. split; [done|]. split; [intros ->; by eapply Hns|]. split; [done|].
    simpl. rewrite lookup_app_l; [done|]. by eapply lookup_lt_Some. }
  split.
  - constructor; simpl.
    + intros f b Hb. destruct (decide (f = fd_ c)) as [->|Hne].
      * rewrite lookup_insert_eq in Hb. injection Hb as <-. exists c1, (mkPollfd (fd_ c) (i16 (events_ c1)) 0).
        rewrite lookup_insert_eq. do 3 (split; [done|]). split; [rewrite Hix; apply zlen_nonneg|].
        split; [exact Hnew|]. split; [done|]. by left.
      * rewrite lookup_insert_ne in Hb by done. destruct (Hold f b Hne Hb) as (x & pfd & Hx & Hba & Hp & Hp').
        destruct (pl_alive _ _ W _ _ Hb) as (x' & pfd' & Hx' & H1 & H2 & H3 & H4 & H5).
        assert (x' = x) as -> by congruence. exists x, pfd. rewrite lookup_insert_ne by done.
        assert (pfd' = pfd) as -> by congruence. done.
    + intros i pfd Hi. destruct (decide (i < length (pollfds_ p))%nat) as [Hlt|Hge].
      * rewrite lookup_app_l in Hi by done. destruct (pl_entries _ _ W _ _ Hi) as (b & x & Hb & Hx & Hxi).
        exists b, x. assert (pfd_owner pfd <> fd_ c) by congruence.
        rewrite lookup_insert_ne by done. split; [done|]. rewrite lookup_insert_ne; [done|].
        intros ->. by eapply Hns.
      * rewrite lookup_app_r in Hi by lia.
        destruct (i - length (pollfds_ p))%nat as [|k] eqn:Ek; [|by destruct k].
        simpl in Hi. injection Hi as <-. exists a, c1. unfold pfd_owner; simpl.
        destruct (Z.ltb_spec (fd_ c) 0); [lia|]. rewrite !lookup_insert_eq.
        do 2 (split; [done|]). rewrite Hix. unfold zlen. lia.
  - apply map_eq. intros f. rewrite pl_registered_lookup. destruct (decide (f = fd_ c)) as [->|Hne].
    + simpl. rewrite !lookup_insert_eq. simpl. rewrite lookup_insert_eq. simpl. unfold pl_mask.
      rewrite Hnew. simpl. destruct (Z.ltb_spec (fd_ c) 0); [lia|done].
    + simpl. rewrite !lookup_insert_ne by done. rewrite pl_registered_lookup.
      destruct (pl_channels p !! f) as [b|] eqn:Eb; [|done]. simpl.
      destruct (Hold f b Hne Eb) as (x & pfd & Hx & Hba & Hp & Hp').
      rewrite lookup_insert_ne, Hx by done. simpl. unfold pl_mask. by rewrite Hp, Hp'.
Qed.

Lemma pl_update_existing p cs a c c1 :
  pl_wf p cs -> cs !! a = Some c -> pl_channels p !! fd_ c = Some a ->
  fd_ c1 = fd_ c -> index_ c1 = index_ c ->
  let pfd' := mkPollfd (if isNoneEvent c1 then - fd_ c - 1 else fd_ c) (i16 (events_ c1)) 0 in
  let p' := mkPoll (pl_channels p) (<[Z.to_nat (index_ c) := pfd']> (pollfds_ p)) in
  pl_wf p' (<[a := c1]> cs) /\
  pl_registered p' (<[a := c1]> cs) =
    <[fd_ c := mkReg a (if events_ c1 =? 0 then None else Some (events_ c1))]> (pl_registered p cs).
Proof.
  intros W Hc Hreg Hfd1 Hix pfd' p'. pose proof (pl_not_shared p cs a c W Hc) as Hns.
  destruct (pl_alive _ _ W _ _ Hreg) as (c'' & pfd0 & Hc'' & _ & Hfd & Hpos & Hp0 & Hd0).
  assert (c'' = c) as -> by congruence. clear Hc''.
  assert (Hlt : (Z.to_nat (index_ c) < length (pollfds_ p))%nat) by by eapply lookup_lt_Some.
  assert (Hnew : pollfds_ p' !! Z.to_nat (index_ c1) = Some pfd').
  { rewrite Hix. simpl. by apply list_lookup_insert_eq. }
  assert (Hown : pfd_owner pfd' = fd_ c).
  { unfold pfd_owner, pfd'. simpl. destruct (isNoneEvent c1); case_match; lia. }
  assert (Hneq : (pfd_fd pfd' <? 0) = (events_ c1 =? 0)).
  { unfold pfd', isNoneEvent, kNoneEvent. simpl. destruct (events_ c1 =? 0); [apply Z.ltb_lt|apply Z.ltb_ge]; lia. }
  assert (Hold : forall f b, f <> fd_ c -> pl_channels p !! f = Some b -> exists x,
    cs !! b = Some x /\ b <> a /\
    pollfds_ p' !! Z.to_nat (index_ x) = pollfds_ p !! Z.to_nat (index_ x)).
  { intros f b Hne Hb. destruct (pl_alive _ _ W _ _ Hb) as (x & pfd & Hx & _ & _ & Hxp & Hp & _).
    exists x. split; [done|]. split; [intros ->; by eapply Hns|].
    simpl. apply list_lookup_insert_ne. intros Heq. apply Hne.
    apply (pl_index_inj p cs f (fd_ c) b a x c); try done. lia. }
  split.
  - constructor; simpl.
    + intros f b Hb. destruct (decide (f = fd_ c)) as [->|Hne].
      * assert (b = a) as -> by congruence. exists c1, pfd'. rewrite lookup_insert_eq.
        do 3 (split; [done|]). split; [lia|]. split; [exact Hnew|]. split; [done|].
        unfold pfd'; simpl. unfold isNoneEvent, kNoneEvent. rewrite Hfd1.
        destruct (Z.eqb_spec (events_ c1) 0); auto.
      * destruct (Hold f b Hne Hb) as (x & Hx & Hba & Hp).
        destruct (pl_alive _ _ W _ _ Hb) as (x' & pfd & Hx' & H1 & H2 & H3 & H4 & H5).
        assert (x' = x) as -> by congruence. exists x, pfd. rewrite lookup_insert_ne by done.
        simpl in Hp. by rewrite Hp.
    + intros i pfd Hi. destruct (decide (i = Z.to_nat (index_ c))) as [->|Hne].
      * rewrite list_lookup_insert_eq in Hi by done. injection Hi as <-. rewrite Hown.
        exists a, c1. rewrite lookup_insert_eq. do 2 (split; [done|]). lia.
      * rewrite list_lookup_insert_ne in Hi by done.
        destruct (pl_entries _ _ W _ _ Hi) as (b & x & Hb & Hx & Hxi). exists b, x.
        split; [done|]. rewrite lookup_insert_ne; [done|]. intros ->. assert (x = c) as -> by congruence. lia.
  - apply map_eq. intros f. rewrite pl_registered_lookup. destruct (decide (f = fd_ c)) as [->|Hne].
    + simpl. rewrite Hreg, lookup_insert_eq. simpl. rewrite lookup_insert_eq. simpl. unfold pl_mask.
      rewrite Hnew, Hneq. done.
    + simpl. rewrite lookup_insert_ne by done. rewrite pl_registered_lookup.
      destruct (pl_channels p !! f) as [b|] eqn:Eb; [|done]. simpl.
      destruct (Hold f b Hne Eb) as (x & Hx & Hba & Hp).
      rewrite lookup_insert_ne, Hx by done. simpl. unfold pl_mask. by rewrite Hp.
Qed.

Lemma pl_update_refines p cs a c mask added :
  pl_wf p cs -> cs !! a = Some c -> can_update (pl_registered p cs) a c mask ->
  let cs1 := <[a := set_added (set_events c mask) added]> cs in
  exists p' cs', pl_updateChannel p cs1 a = Ok (p', cs') /\ pl_wf p' cs' /\
    pl_registered p' cs' = spec_update (pl_registered p cs) a (fd_ c) mask /\ same_channels cs1 cs'.
Proof.
  intros W Hc [Hfd Hcan] cs1. set (c1 := set_added (set_events c mask) added) in *.
  assert (Hc1 : cs1 !! a = Some c1) by apply lookup_insert_eq.
  rewrite pl_registered_lookup in Hcan. unfold spec_update. rewrite pl_registered_lookup.
  unfold pl_updateChannel. rewrite Hc1. cbn [fd_ index_ set_added set_events c1].
  destruct (pl_channels p !! fd_ c) as [b|] eqn:Ech; simpl in Hcan.
  - destruct Hcan as [-> _].
    destruct (pl_alive _ _ W _ _ Ech) as (c'' & pfd & Hc'' & _ & _ & Hpos & Hp & Hd).
    assert (c'' = c) as -> by congruence. clear Hc''.
    pose proof (lookup_lt_Some _ _ _ Hp) as Hlt.
    rewrite (proj2 (Z.ltb_ge _ _) Hpos), (proj2 (Z.leb_le _ _) Hpos).
    rewrite (bool_decide_false (Some a = None)), (bool_decide_true (Some a = Some a)) by done.
    cbn [negb assert_ mbind outcome_bind andb].
    rewrite (proj2 (Z.ltb_lt _ _)) by (unfold zlen; lia). cbn [assert_ mbind outcome_bind]. rewrite Hp.
    replace ((pfd_fd pfd =? fd_ c) || (pfd_fd pfd =? - fd_ c - 1)) with true
      by (symmetry; apply orb_true_iff; rewrite !Z.eqb_eq; destruct Hd as (_ & [?|[? _]]); auto).
    cbn [assert_ mbind outcome_bind].
    destruct (pl_update_existing p cs a c c1 W Hc Ech eq_refl eq_refl) as (W' & R').
    eexists _, _. split; [done|]. split; [exact W'|]. split; [exact R'|done].
  - rewrite Hcan. cbn [Z.ltb Z.compare]. rewrite bool_decide_true by done. cbn [assert_ mbind outcome_bind].
    set (idx := zlen _ - 1). assert (Hidx : idx = zlen (pollfds_ p)).
    { unfold idx. rewrite zlen_app. unfold zlen at 2. simpl. lia. }
    destruct (pl_update_new p cs a c (set_index c1 idx) W Hc Ech Hfd eq_refl Hidx) as (W' & R').
    eexists _, _. split; [done|]. unfold cs1. rewrite insert_insert_eq.
    split; [exact W'|]. split; [exact R'|].
    rewrite <- (insert_insert_eq cs a (set_index c1 idx) c1). by eapply same_channels_insert.
Qed.

(** ** Removing *)

Lemma swap_pop_lookup idx l e i :
  last l = Some e -> (idx < length l - 1)%nat ->
  swap_pop idx l !! i =
    if decide (i < length l - 1)%nat then (if decide (i = idx) then Some e else l !! i) else None.
Proof.
  intros He Hidx. unfold swap_pop. rewrite He. destruct (decide (i < length l - 1)%nat) as [Hi|Hi].
  - rewrite lookup_take_lt by done. destruct (decide (i = idx)) as [->|Hne].
    + apply list_lookup_insert_eq. lia.
    + by apply list_lookup_insert_ne.
  - apply lookup_take_ge. lia.
Qed.

(** Removing the entry of a channel: the poller that results when the entries
    of the others are [pfds'], each at the position its channel now has. *)
Lemma pl_remove_wf p cs a c pfds' cs' :
  pl_wf p cs -> cs !! a = Some c -> pl_channels p !! fd_ c = Some a ->
  (forall b x, b <> a -> cs !! b = Some x -> exists i, cs' !! b = Some (set_index x i) /\
     ((exists f, pl_channels p !! f = Some b) ->
        0 <= i /\ pfds' !! Z.to_nat i = pollfds_ p !! Z.to_nat (index_ x))) ->
  (forall i pfd, pfds' !! i = Some pfd -> exists j, pollfds_ p !! j = Some pfd /\
     j <> Z.to_nat (index_ c) /\ forall b x, cs !! b = Some x -> b <> a -> index_ x = Z.of_nat j ->
       (exists f, pl_channels p !! f = Some b) -> cs' !! b = Some (set_index x (Z.of_nat i))) ->
  let p' := mkPoll (delete (fd_ c) (pl_channels p)) pfds' in
  pl_wf p' cs' /\ pl_registered p' cs' = delete (fd_ c) (pl_registered p cs).
Proof.
  intros W Hc Hreg Hmove Hent p'. pose proof (pl_not_shared p cs a c W Hc) as Hns.
  destruct (pl_alive _ _ W _ _ Hreg) as (c'' & pfd0 & Hc'' & _ & Hfd & Hpos & Hp0 & Hd0).
  assert (c'' = c) as -> by congruence. clear Hc''.
  assert (Hold : forall f b, f <> fd_ c -> pl_channels p !! f = Some b -> exists x pfd i,
    cs !! b = Some x /\ pollfds_ p !! Z.to_nat (index_ x) = Some pfd /\ describes pfd x /\ fd_ x = f /\ 0 <= f /\
    cs' !! b = Some (set_index x i) /\ 0 <= i /\ pfds' !! Z.to_nat i = Some pfd).
  { intros f b Hne Hb. destruct (pl_alive _ _ W _ _ Hb) as (x & pfd & Hx & Hf & Hf0 & Hxp & Hp & Hd).
    assert (b <> a) by (intros ->; by eapply Hns).
    destruct (Hmove b x) as (i & Hi & Hpos'); [done..|]. destruct Hpos' as [Hi0 Hi']; [eauto|].
    exists x, pfd, i. rewrite Hi'. done. }
  split.
  - constructor; simpl.
    + intros f b Hb. apply lookup_delete_Some in Hb as [Hne Hb].
      destruct (Hold f b) as (x & pfd & i & Hx & Hp & Hd & Hf & Hf0 & Hx' & Hi & Hpi); [done..|].
      exists (set_index x i), pfd. done.
    + intros i pfd Hi. destruct (Hent i pfd Hi) as (j & Hj & Hne & Hpos').
      destruct (pl_entries _ _ W _ _ Hj) as (b & x & Hb & Hx & Hxi).
      assert (b <> a) as Hba. { intros ->. assert (x = c) as -> by congruence. lia. }
      assert (pfd_owner pfd <> fd_ c) by (intros E; rewrite E in Hb; congruence).
      exists b, (set_index x (Z.of_nat i)). rewrite lookup_delete_ne by done. eauto 8.
  - apply map_eq. intros f. rewrite pl_registered_lookup. simpl.
    destruct (decide (f = fd_ c)) as [->|Hne]; [by rewrite !lookup_delete_eq|].
    rewrite !lookup_delete_ne, pl_registered_lookup by done.
    destruct (pl_channels p !! f) as [b|] eqn:Eb; [|done]. simpl.
    destruct (Hold f b) as (x & pfd & i & Hx & Hp & Hd & Hf & Hf0 & Hx' & Hi & Hpi); [done..|].
    rewrite Hx, Hx'. simpl. unfold pl_mask. simpl. by rewrite Hp, Hpi.
Qed.

Lemma set_index_id c : set_index c (index_ c) = c.
Proof. by destruct c. Qed.

(** The other registered channels have other positions. *)
Lemma pl_other_index p cs a c f b x :
  pl_wf p cs -> cs !! a = Some c -> pl_channels p !! fd_ c = Some a ->
  b <> a -> cs !! b = Some x -> pl_channels p !! f = Some b ->
  0 <= index_ x < zlen (pollfds_ p) /\ index_ x <> index_ c.
Proof.
  intros W Hc Hreg Hne Hx Hf. destruct (pl_alive _ _ W _ _ Hf) as (x' & pfd' & Hx' & Hfx & _ & H0 & H1 & _).
  assert (x' = x) as -> by congruence. apply lookup_lt_Some in H1 as H2.
  split; [unfold zlen; lia|]. intros E. apply Hne.
  destruct (pl_alive _ _ W _ _ Hreg) as (c'' & pfd & Hc'' & _ & _ & Hpos & _).
  assert (f = fd_ c) as -> by (by apply (pl_index_inj p cs f (fd_ c) b a x c)). congruence.
Qed.

(** The entry is the last one: it is popped. *)
Lemma pl_remove_last p cs a c added :
  pl_wf p cs -> cs !! a = Some c -> pl_channels p !! fd_ c = Some a ->
  index_ c = zlen (pollfds_ p) - 1 ->
  let cs1 := <[a := set_added c added]> cs in
  let p' := mkPoll (delete (fd_ c) (pl_channels p)) (take (length (pollfds_ p) - 1) (pollfds_ p)) in
  pl_wf p' cs1 /\ pl_registered p' cs1 = delete (fd_ c) (pl_registered p cs).
Proof.
  intros W Hc Hreg Elast cs1. apply (pl_remove_wf p cs a c _ cs1 W Hc Hreg).
  - intros b x Hne Hx. exists (index_ x). unfold cs1. rewrite set_index_id, lookup_insert_ne by done.
    split; [done|]. intros [f Hf]. destruct (pl_other_index p cs a c f b x) as [Hr Hr']; [done..|]. split; [lia|].
    apply lookup_take_lt. unfold zlen in *. lia.
  - intros i pfd' Hi. apply lookup_take_Some in Hi as [Hi Hil]. exists i. split; [done|].
    split; [unfold zlen in *; lia|]. intros b x Hx Hne <- _. unfold cs1.
    by rewrite set_index_id, lookup_insert_ne.
Qed.

(** It is not: the last one takes its place, and its channel the index. *)
Lemma pl_remove_swap p cs a c added e b d :
  pl_wf p cs -> cs !! a = Some c -> pl_channels p !! fd_ c = Some a ->
  0 <= index_ c < zlen (pollfds_ p) - 1 -> last (pollfds_ p) = Some e ->
  pl_channels p !! pfd_owner e = Some b -> cs !! b = Some d -> index_ d = zlen (pollfds_ p) - 1 ->
  let cs' := <[b := set_index d (index_ c)]> (<[a := set_added c added]> cs) in
  let p' := mkPoll (delete (fd_ c) (pl_channels p)) (swap_pop (Z.to_nat (index_ c)) (pollfds_ p)) in
  pl_wf p' cs' /\ pl_registered p' cs' = delete (fd_ c) (pl_registered p cs).
Proof.
  intros W Hc Hreg Hix El Hb Hd Hdi cs'. pose proof El as El'. rewrite last_lookup in El'.
  assert (Hsp : forall i, swap_pop (Z.to_nat (index_ c)) (pollfds_ p) !! i =
    if decide (i < length (pollfds_ p) - 1)%nat then
      (if decide (i = Z.to_nat (index_ c)) then Some e else pollfds_ p !! i) else None)
    by (intros i; apply swap_pop_lookup; [done|unfold zlen in *; lia]).
  assert (Hsame : forall b' x f, cs !! b' = Some x -> pl_channels p !! f = Some b' -> index_ x = index_ d -> b' = b).
  { intros b' x f Hx Hf E. assert (f = pfd_owner e) as -> by (apply (pl_index_inj p cs f _ b' b x d); done).
    congruence. }
  apply (pl_remove_wf p cs a c _ cs' W Hc Hreg).
  - intros b' x Hne Hx. unfold cs'. destruct (decide (b' = b)) as [->|Hnb].
    + assert (x = d) as -> by congruence. exists (index_ c). rewrite lookup_insert_eq.
      split; [done|]. intros _. split; [lia|]. rewrite Hsp, Hdi. unfold zlen in *.
      rewrite decide_True, decide_True by lia. rewrite <- El'. f_equal. lia.
    + exists (index_ x). rewrite set_index_id, !lookup_insert_ne by done. split; [done|].
      intros [f Hf]. destruct (pl_other_index p cs a c f b' x) as [Hr Hr']; [done..|]. split; [lia|]. rewrite Hsp.
      assert (index_ x <> index_ d) by (intros E; by eapply Hnb, Hsame).
      rewrite decide_True by (unfold zlen in *; lia). by rewrite decide_False by lia.
  - intros i pfd' Hi. rewrite Hsp in Hi. destruct (decide (i < _)%nat) as [Hil|]; [|done].
    destruct (decide (i = Z.to_nat (index_ c))) as [->|Hne].
    + injection Hi as <-. exists (length (pollfds_ p) - 1)%nat.
      split; [by rewrite <- El'; f_equal; lia|]. split; [unfold zlen in *; lia|].
      intros b' x Hx Hne Hxi [f Hf]. assert (b' = b) as -> by (eapply Hsame; [done..|unfold zlen in *; lia]).
      unfold cs'. rewrite lookup_insert_eq, Z2Nat.id by lia. congruence.
    + exists i. split; [done|]. split; [done|]. intros b' x Hx Hne' Hxi _. unfold cs'. rewrite <- Hxi, set_index_id.
      rewrite !lookup_insert_ne; [done..|]. intros <-. assert (x = d) as -> by congruence. unfold zlen in *. lia.
Qed.

Lemma pl_remove_refines p cs a c added :
  pl_wf p cs -> cs !! a = Some c -> can_remove (pl_registered p cs) a c ->
  let cs1 := <[a := set_added c added]> cs in
  exists p' cs', pl_removeChannel p cs1 a = Ok (p', cs') /\ pl_wf p' cs' /\
    pl_registered p' cs' = spec_remove (pl_registered p cs) (fd_ c) /\ same_channels cs1 cs'.
Proof.
  intros W Hc Hcan cs1. unfold can_remove in Hcan. rewrite pl_registered_lookup in Hcan.
  destruct (pl_channels p !! fd_ c) as [b|] eqn:Ech; [|done]. simpl in Hcan.
  injection Hcan as -> Hm. rewrite Hc in Hm. simpl in Hm.
  pose proof (pl_mask_events p cs _ _ _ W Ech Hc) as Hev. rewrite Hm in Hev.
  destruct (pl_alive _ _ W _ _ Ech) as (c'' & pfd & Hc'' & _ & Hfd & Hpos & Hp & Hdev & Hd).
  assert (c'' = c) as -> by congruence. clear Hc''.
  unfold pl_mask in Hm. rewrite Hp in Hm. destruct (Z.ltb_spec (pfd_fd pfd) 0) as [Hneg|]; [|done].
  pose proof (lookup_lt_Some _ _ _ Hp) as Hlt.
  assert (Hc1 : cs1 !! a = Some (set_added c added)) by apply lookup_insert_eq.
  unfold pl_removeChannel. rewrite Hc1. cbn [fd_ set_added index_ events_].
  rewrite Ech. rewrite (bool_decide_false (Some a = None)), (bool_decide_true (Some a = Some a)) by done.
  unfold isNoneEvent, kNoneEvent. cbn [events_ set_added]. rewrite Hev, (proj2 (Z.leb_le _ _) Hpos).
  rewrite (proj2 (Z.ltb_lt (index_ c) _)) by (unfold zlen; lia).
  cbn [negb assert_ mbind outcome_bind andb Z.eqb]. rewrite Hp, Hdev, Hev.
  rewrite (proj2 (Z.eqb_eq (pfd_fd pfd) _)) by lia. change (i16 0 =? 0) with true.
  cbn [andb assert_ mbind outcome_bind].
  destruct (Z.eqb_spec (index_ c) (zlen (pollfds_ p) - 1)) as [Elast|Hnl].
  - destruct (pl_remove_last p cs a c added W Hc Ech Elast) as [W' R']. by eexists _, _.
  - destruct (last (pollfds_ p)) as [e|] eqn:El; [|apply last_None in El; rewrite El in Hlt; simpl in Hlt; lia].
    pose proof El as El'. rewrite last_lookup in El'.
    destruct (pl_entries _ _ W _ _ El') as (b & d & Hb & Hd' & Hdi). fold (pfd_owner e).
    assert (Hba : b <> a) by (intros ->; assert (d = c) as -> by congruence; unfold zlen in *; lia).
    rewrite lookup_delete_ne, Hb by (intros E; rewrite <- E in Hb; congruence).
    assert (Hcd : cs1 !! b = Some d) by (unfold cs1; by rewrite lookup_insert_ne). rewrite Hcd.
    destruct (pl_remove_swap p cs a c added e b d W Hc Ech) as [W' R']; [unfold zlen in *; lia|done..|unfold zlen; lia|].
    eexists _, _. split; [done|]. split; [exact W'|]. split; [exact R'|]. by apply (same_channels_insert cs1 b d).
Qed.

(** ** Waiting for events *)

(** poll(2) only writes the received events of the entries. *)
Definition pl_polled (p : PollPoller) (ans : poll_answer) : PollPoller :=
  mkPoll (pl_channels p) (zip_with set_pfd_revents (pollfds_ p) (poll_revents ans)).

Lemma pl_polled_lookup p ans i :
  length (poll_revents ans) = length (pollfds_ p) ->
  pollfds_ (pl_polled p ans) !! i =
    (pfd ← pollfds_ p !! i; r ← poll_revents ans !! i; Some (set_pfd_revents pfd r)).
Proof. intros _. simpl. apply lookup_zip_with. Qed.

Lemma pl_polled_entry p ans i pfd :
  length (poll_revents ans) = length (pollfds_ p) -> pollfds_ p !! i = Some pfd ->
  exists r, poll_revents ans !! i = Some r /\
    pollfds_ (pl_polled p ans) !! i = Some (set_pfd_revents pfd r).
Proof.
  intros Hlen Hi. destruct (lookup_lt_is_Some_2 (poll_revents ans) i) as [r Hr].
  { rewrite Hlen. by eapply lookup_lt_Some. }
  exists r. split; [done|]. by rewrite pl_polled_lookup, Hi, Hr.
Qed.

Lemma pl_polled_wf p cs ans :
  pl_wf p cs -> length (poll_revents ans) = length (pollfds_ p) ->
  pl_wf (pl_polled p ans) cs /\ pl_registered (pl_polled p ans) cs = pl_registered p cs.
Proof.
  intros W Hlen. split.
  - constructor.
    + intros fd a Ha. destruct (pl_alive _ _ W fd a Ha) as (c & pfd & Hc & Hf & Hf0 & Hi & Hp & Hd).
      destruct (pl_polled_entry p ans _ pfd Hlen Hp) as (r & _ & Hr). exists c, (set_pfd_revents pfd r). done.
    + intros i pfd Hi. rewrite pl_polled_lookup in Hi by done.
      destruct (pollfds_ p !! i) as [q|] eqn:Eq; [|done]. simpl in Hi.
      destruct (poll_revents ans !! i) as [r|]; [|done]. simpl in Hi. injection Hi as <-.
      exact (pl_entries _ _ W _ _ Eq).
  - apply map_eq. intros fd. rewrite !pl_registered_lookup. simpl.
    destruct (pl_channels p !! fd) as [a|] eqn:Ea; [|done]. simpl. do 2 f_equal.
    destruct (cs !! a) as [c|] eqn:Ec; [|done]. simpl. unfold pl_mask.
    destruct (pl_alive _ _ W fd a Ea) as (c' & pfd & Hc & _ & _ & _ & Hp & _).
    assert (c' = c) as -> by congruence.
    destruct (pl_polled_entry p ans _ pfd Hlen Hp) as (r & _ & Hr). by rewrite Hr, Hp.
Qed.

(** The channels of the first [n] entries with events. *)
Fixpoint reported (p : PollPoller) (pfds : list pollfd) (n : Z) : list Z :=
  match pfds with
  | [] => []
  | pfd :: pfds' =>
    if 0 <? n then
      if 0 <? pfd_revents pfd
      then match pl_channels p !! pfd_fd pfd with Some a => a :: reported p pfds' (n - 1) | None => [] end
      else reported p pfds' n
    else []
  end.

Lemma fillActiveChannels_reported p cs pfds n :
  (forall pfd, pfd ∈ pfds -> 0 < pfd_revents pfd -> exists a c,
     pl_channels p !! pfd_fd pfd = Some a /\ cs !! a = Some c /\ fd_ c = pfd_fd pfd) ->
  fillActiveChannels p cs pfds n = Ok (reported p pfds n).
Proof.
  revert n; induction pfds as [|pfd pfds IH]; intros n Hall; simpl; [done|].
  destruct (0 <? n); [|done]. destruct (Z.ltb_spec 0 (pfd_revents pfd)) as [Hr|Hr].
  - destruct (Hall pfd) as (a & c & Ha & Hc & Hf); [set_solver|done|]. rewrite Ha, Hc, Hf, Z.eqb_refl.
    cbn [assert_ mbind outcome_bind]. rewrite IH; [done|]. intros; apply Hall; set_solver.
  - apply IH. intros; apply Hall; set_solver.
Qed.

Lemma reported_elem p pfds n a :
  a ∈ reported p pfds n -> exists pfd, pfd ∈ pfds /\ 0 < pfd_revents pfd /\
    pl_channels p !! pfd_fd pfd = Some a.
Proof.
  revert n; induction pfds as [|pfd pfds IH]; intros n Ha; simpl in Ha; [by apply elem_of_nil in Ha|].
  destruct (0 <? n); [|by apply elem_of_nil in Ha].
  destruct (Z.ltb_spec 0 (pfd_revents pfd)) as [Hr|Hr].
  - destruct (pl_channels p !! pfd_fd pfd) as [b|] eqn:Eb; [|by apply elem_of_nil in Ha].
    apply elem_of_cons in Ha as [->|Ha]; [exists pfd; set_solver|].
    destruct (IH _ Ha) as (x & ? & ? & ?). exists x. set_solver.
  - destruct (IH _ Ha) as (x & ? & ? & ?). exists x. set_solver.
Qed.

(** An entry with events belongs to a live channel that is watched. *)
Lemma pl_polled_active p cs ans pfd :
  pl_wf p cs -> pl_valid_answer p cs ans -> pfd ∈ pollfds_ (pl_polled p ans) -> 0 < pfd_revents pfd ->
  exists a c, pl_channels p !! pfd_fd pfd = Some a /\ cs !! a = Some c /\ fd_ c = pfd_fd pfd /\
    pl_registered p cs !! pfd_fd pfd = Some (mkReg a (Some (events_ c))).
Proof.
  intros W [Hlen Hneg] Hin Hr. apply list_elem_of_lookup in Hin as [i Hi].
  rewrite pl_polled_lookup in Hi by done.
  destruct (pollfds_ p !! i) as [q|] eqn:Eq; [|done]. simpl in Hi.
  destruct (poll_revents ans !! i) as [r|] eqn:Er; [|done]. simpl in Hi. injection Hi as <-. simpl in *.
  assert (0 <= pfd_fd q) as Hq.
  { destruct (Z.ltb_spec (pfd_fd q) 0) as [Hlt|]; [|done]. pose proof (Hneg _ _ _ Eq Er Hlt). lia. }
  destruct (pl_entries _ _ W _ _ Eq) as (a & c & Ha & Hc & Hix). unfold pfd_owner in Ha.
  rewrite (proj2 (Z.ltb_ge _ _) Hq) in Ha.
  destruct (pl_alive _ _ W _ _ Ha) as (c' & q' & Hc' & Hf & _). assert (c' = c) as -> by congruence.
  exists a, c. do 3 (split; [done|]). rewrite pl_registered_lookup, Ha. simpl. rewrite Hc. simpl.
  unfold pl_mask. rewrite Hix, Nat2Z.id, Eq, (proj2 (Z.ltb_ge _ _) Hq). done.
Qed.

Lemma pl_poll_spec p cs ans :
  pl_wf p cs -> pl_valid_answer p cs ans ->
  pl_poll p cs ans = 
    Ok (pl_polled p ans, cs, reported (pl_polled p ans) (pollfds_ (pl_polled p ans)) (poll_num ans)).
Proof.
  intros W Hv. unfold pl_poll. fold (pl_polled p ans).
  destruct (Z.ltb_spec 0 (poll_num ans)) as [Hpos|Hneg].
  - rewrite fillActiveChannels_reported; [done|]. intros pfd Hin Hr.
    destruct (pl_polled_active p cs ans pfd W Hv Hin Hr) as (a & c & ? & ? & ? & _). eauto.
  - destruct (pollfds_ (pl_polled p ans)); simpl; [done|]. by rewrite (proj2 (Z.ltb_ge _ _) Hneg).
Qed.

Lemma pl_wf_alter p cs a (f : Channel -> Channel) :
  (forall c, fd_ (f c) = fd_ c /\ events_ (f c) = events_ c /\ index_ (f c) = index_ c) ->
  pl_wf p cs -> pl_wf p (alter f a cs).
Proof.
  intros Hf W. assert (Hal : forall b c, cs !! b = Some c -> exists c', alter f a cs !! b = Some c' /\
    fd_ c' = fd_ c /\ events_ c' = events_ c /\ index_ c' = index_ c).
  { intros b c Hc. destruct (decide (b = a)) as [->|Hne].
    - exists (f c). rewrite lookup_alter_eq, Hc. auto.
    - exists c. by rewrite lookup_alter_ne. }
  constructor.
  - intros fd b Hb. destruct (pl_alive _ _ W _ _ Hb) as (c & pfd & Hc & Hfd & H0 & Hi & Hp & Hd1 & Hd2).
    destruct (Hal b c Hc) as (c' & Hc' & E1 & E2 & E3). exists c', pfd. unfold describes.
    rewrite E1, E2, E3. done.
  - intros i pfd Hi. destruct (pl_entries _ _ W _ _ Hi) as (b & c & Hb & Hc & Hx).
    destruct (Hal b c Hc) as (c' & Hc' & _ & _ & E3). exists b, c'. by rewrite E3.
Qed.

Lemma pl_wf_agree p cs cs' : (forall fd a, pl_channels p !! fd = Some a -> cs' !! a = cs !! a) -> pl_wf p cs ->
  pl_wf p cs' /\ pl_registered p cs' = pl_registered p cs.
Proof.
  intros Ha [W1 W2]. split; [constructor|].
  - intros fd a Hfd. rewrite (Ha fd a Hfd). by apply W1.
  - intros i pfd Hi. destruct (W2 i pfd Hi) as (a & c & Hfd & Hc & Hx). exists a, c. by rewrite (Ha _ _ Hfd).
  - apply map_eq. intros fd. rewrite !pl_registered_lookup. destruct (pl_channels p !! fd) as [a|] eqn:E; [|done].
    simpl. by rewrite (Ha fd a E).
Qed.

(** Only the channel of the call changes, and on a removal the one that takes
    its place, which is registered. *)
Lemma pl_update_others p cs a p' cs' b :
  pl_updateChannel p cs a = Ok (p', cs') -> b <> a -> cs' !! b = cs !! b.
Proof.
  unfold pl_updateChannel. intros H Hne. destruct (cs !! a) as [c|]; [|done].
  destruct (_ <? 0); obind; [by rewrite lookup_insert_ne|]. case_match; obind; done.
Qed.

Lemma pl_remove_others p cs a p' cs' b :
  pl_removeChannel p cs a = Ok (p', cs') -> (forall fd, pl_channels p !! fd <> Some b) -> cs' !! b = cs !! b.
Proof.
  unfold pl_removeChannel. intros H Hne. destruct (cs !! a) as [c|]; [|done]. obind.
  case_match; [|done]. obind. case_match; [by obind|]. case_match; [|done].
  destruct (delete _ _ !! _) as [b'|] eqn:Eb; [|done]. case_match; [|done]. obind.
  apply lookup_delete_Some in Eb as [_ Eb]. rewrite lookup_insert_ne; [done|]. intros ->. by eapply Hne.
Qed.

#[export] Instance poll_spec : PollerSpec PollPoller.
Proof.
  refine {| pwf := pl_wf; registered := pl_registered;
            valid_answer := pl_valid_answer : PollPoller -> channels -> @answer _ poll_ops -> Prop |}.
  - intros. by apply pl_wf_alter.
  - intros. by apply pl_wf_agree.
  - intros p cs W. simpl. apply map_eq. intros fd. rewrite lookup_fmap, pl_registered_lookup.
    by destruct (pl_channels p !! fd).
  - intros p cs fd g W Hg. rewrite pl_registered_lookup in Hg.
    destruct (pl_channels p !! fd) as [a|] eqn:Ea; [|done]. injection Hg as <-.
    destruct (pl_alive _ _ W _ _ Ea) as (c & pfd & Hc & Hfd & _). simpl. eauto.
  - intros p cs fd g W Hg c Hc. rewrite pl_registered_lookup in Hg.
    destruct (pl_channels p !! fd) as [a|] eqn:Ea; [|done]. injection Hg as <-. simpl in *.
    rewrite Hc. simpl. by eapply pl_mask_events.
  - intros. by apply pl_update_refines.
  - intros. by apply pl_remove_refines.
  - intros. by eapply pl_update_others.
  - intros. by eapply pl_remove_others.
  - intros p cs ans W Hv. destruct (pl_polled_wf p cs ans W (proj1 Hv)) as [W' R'].
    eexists _, _, _. split; [by apply pl_poll_spec|]. do 2 (split; [done|]). split; [done|]. intros a Ha.
    apply reported_elem in Ha as (pfd & Hin & Hr & Ha).
    destruct (pl_polled_active p cs ans pfd W Hv Hin Hr) as (a' & c & Ha' & _ & _ & Hreg).
    simpl in Ha. assert (a' = a) as -> by congruence. eauto.
Defined.

Lemma new_PollPoller_wf cs : pl_wf new_PollPoller cs.
Proof.
  constructor; simpl.
  - intros fd a Ha. by rewrite lookup_empty in Ha.
  - intros i pfd Hi. by rewrite lookup_nil in Hi.
Qed.

(** ** Properties *)

(** C30. Every allowed operation of a channel succeeds on the poll poller and
    moves its registry as the abstract poller prescribes: the positions the
    channels remember stay right when an entry is replaced by the last one. *)
Theorem poll_simulates_registry (p : PollPoller) cs (o : channel_op) (c : Channel) :
  pl_wf p cs -> cs !! op_addr o = Some c -> allowed (pl_registered p cs) c o ->
  exists p' cs', run_channel_op (p, cs) o = Ok (p', cs') /\ pl_wf p' cs' /\
    pl_registered p' cs' = spec_channel_op (pl_registered p cs) c o.
Proof. exact (run_channel_op_spec (P := PollPoller) (H0 := poll_spec) o p cs c). Qed.

(** Two channels, both watched, then the first one not any more. *)
Definition two_channels : PollPoller * channels :=
  match for_each run_channel_op
          (new_PollPoller, {[ 16 := new_Channel 5; 32 := new_Channel 7 ]} : channels)
          [Update 16 enableReading; Update 32 enableWriting; Update 16 disableAll] with
  | Ok s => s
  | Err _ => (new_PollPoller, ∅)
  end.

Lemma two_channels_wf : pl_wf two_channels.1 two_channels.2.
Proof.
  constructor.
  - intros fd a Ha. change (pl_channels two_channels.1) with ({[7 := 32; 5 := 16]} : gmap Z Z) in Ha.
    apply lookup_insert_Some in Ha as [[<- <-]|[_ Ha]].
    + eexists _, _. split; [vm_compute; reflexivity|]. vm_compute. intuition discriminate.
    + apply lookup_singleton_Some in Ha as [<- <-].
      eexists _, _. split; [vm_compute; reflexivity|]. vm_compute. intuition discriminate.
  - intros i pfd Hi. destruct i as [|[|i]]; [| |by rewrite lookup_ge_None_2 in Hi by (vm_compute; lia)].
    + vm_compute in Hi. injection Hi as <-. eexists 16, _. split; [reflexivity|].
      split; [vm_compute; reflexivity|reflexivity].
    + vm_compute in Hi. injection Hi as <-. eexists 32, _. split; [reflexivity|].
      split; [vm_compute; reflexivity|reflexivity].
Qed.

Lemma poll_simulates_registry_witness :
  exists p' cs', run_channel_op two_channels (Remove 16) = Ok (p', cs') /\
    pl_registered p' cs' = {[ 7 := mkReg 32 (Some kWriteEvent) ]}.
Proof.
  destruct (poll_simulates_registry two_channels.1 two_channels.2 (Remove 16)
    (mkChannel 5 0 0 0 true false false true)) as (p' & cs' & E & _ & R).
  - apply two_channels_wf.
  - reflexivity.
  - reflexivity.
  - exists p', cs'. split; [exact E|]. rewrite R. reflexivity.
Defined.

(** The poll poller reports the channels of the entries with events but
    never stores the received events in them: the channels are unchanged, so
    a channel whose events were empty runs no callback. *)
Theorem poll_keeps_channels (p : PollPoller) cs (ans : poll_answer) :
  pl_wf p cs -> pl_valid_answer p cs ans ->
  exists p' active, pl_poll p cs ans = Ok (p', cs, active) /\ pl_wf p' cs /\
    (forall a, a ∈ active -> exists fd m, pl_registered p cs !! fd = Some (mkReg a (Some m))) /\
    (forall a c, cs !! a = Some c -> revents_ c = 0 -> selected (revents_ c) = []).
Proof.
  intros W Hv. destruct (poll_refines (P := PollPoller) (PollerSpec := poll_spec) p cs ans W Hv) as (p' & cs' & act & E & W' & R & S & A).
  change (pl_poll p cs ans = Ok (p', cs', act)) in E. rewrite pl_poll_spec in E by done. simplify_eq.
  eexists _, _. split; [by apply pl_poll_spec|]. split; [exact W'|]. split; [exact A|].
  intros a c _ ->. reflexivity.
Qed.

Lemma poll_keeps_channels_witness :
  exists p', pl_poll two_channels.1 two_channels.2 (mkPollAnswer 1 [0; POLLOUT]) =
    Ok (p', two_channels.2, [32]).
Proof.
  destruct (poll_keeps_channels two_channels.1 two_channels.2 (mkPollAnswer 1 [0; POLLOUT]))
    as (p' & act & E & _).
  - apply two_channels_wf.
  - split; [reflexivity|]. intros i pfd r Hp Hr Hneg. destruct i as [|[|i]]; [| |done].
    + by injection Hr as <-.
    + injection Hr as <-. vm_compute in Hp. injection Hp as <-. done.
  - exists p'. rewrite E. do 2 f_equal. vm_compute in E. by injection E as _ <-.
Defined.
