(* ===== verification/EventLoop.v ===== *)
(** * The event loop (src/src/EventLoop.h, src/src/EventLoop.cpp)

    Two views.  [Module Threads] models the protocol between the thread of the
    loop and the other threads ([queueInLoop], [quit], [wakeup], [handleRead],
    [doPendingFunctors], [loop]) as a step relation in which every access to
    shared data is a step of its own, so that all interleavings are covered.
    [Section Iteration] models one thread: the channels, the poller behind the
    interface of Poller.v, and one turn of [loop]. *)

From S2P Require Import Prelude Format Timestamp Channel Poller EPollPoller PollPoller.
Local Open Scope Z_scope.

Module Threads.

(** ** Shared state *)

(** A functor is named by a number; [body] is what it asks of the loop when it
    runs on the thread of the loop. *)
Inductive act : Type :=
| AQueue (f : nat)   (** [queueInLoop(f)] *)
| AWakeIf            (** the second half of [queueInLoop]: the test and [wakeup] *)
| AQuit.             (** [quit()] *)

(** What the callbacks of one channel do: the loop's own [handleRead], or user code. *)
Inductive event : Type := EvRead | EvAct (a : act).

(** The position of the thread of the loop. *)
Inductive lpc : Type :=
| Start                                   (** before [loop()] *)
| Check                                   (** at [while (!quit_)] *)
| Poll                                    (** in [poller_->poll] *)
| Handle (evs : list event)               (** callbacks still to run *)
| Swap                                    (** in [doPendingFunctors], flag set *)
| Run (fs : list nat) (acts : list act)   (** functors still to run *)
| Exit.                                   (** after [loop()] *)

(** The position of another thread inside [queueInLoop] or [quit]. *)
Inductive opc : Type := Idle | Pushed | QuitSet.

#[export] Instance opc_eq_dec : EqDecision opc.
Proof. solve_decision. Defined.

Record eloop : Type := mkLoop {
  pc : lpc;
  others : gmap nat opc;
  pendingFunctors_ : list nat;
  callingPendingFunctors_ : bool;
  quit_ : bool;
  looping_ : bool;
  eventfd : Z;                 (** the counter behind [wakeupFd_] *)
  queued : list nat;           (** all functors queued so far, in order *)
  executed : list nat;         (** all functors started so far, in order *)
  early : bool                 (** the loop's own thread queued before [loop()] *)
}.

(** The constructor leaves [callingPendingFunctors_] uninitialised. *)
Definition init (garbage : bool) (others : gmap nat opc) : eloop :=
  mkLoop Start others [] garbage false false 0 [] [] false.

Definition set_pc (s : eloop) (p : lpc) : eloop :=
  mkLoop p (others s) (pendingFunctors_ s) (callingPendingFunctors_ s) (quit_ s) (looping_ s)
    (eventfd s) (queued s) (executed s) (early s).
Definition set_other (s : eloop) (t : nat) (o : opc) : eloop :=
  mkLoop (pc s) (<[t := o]> (others s)) (pendingFunctors_ s) (callingPendingFunctors_ s) (quit_ s)
    (looping_ s) (eventfd s) (queued s) (executed s) (early s).
Definition set_calling (s : eloop) (b : bool) : eloop :=
  mkLoop (pc s) (others s) (pendingFunctors_ s) b (quit_ s) (looping_ s)
    (eventfd s) (queued s) (executed s) (early s).
Definition set_quit (s : eloop) (b : bool) : eloop :=
  mkLoop (pc s) (others s) (pendingFunctors_ s) (callingPendingFunctors_ s) b (looping_ s)
    (eventfd s) (queued s) (executed s) (early s).
Definition set_looping (s : eloop) (b : bool) : eloop :=
  mkLoop (pc s) (others s) (pendingFunctors_ s) (callingPendingFunctors_ s) (quit_ s) b
    (eventfd s) (queued s) (executed s) (early s).
Definition set_eventfd (s : eloop) (n : Z) : eloop :=
  mkLoop (pc s) (others s) (pendingFunctors_ s) (callingPendingFunctors_ s) (quit_ s) (looping_ s)
    n (queued s) (executed s) (early s).

(** Under the mutex: [pendingFunctors_.push_back]. *)
Definition push (s : eloop) (f : nat) : eloop :=
  mkLoop (pc s) (others s) (pendingFunctors_ s ++ [f]) (callingPendingFunctors_ s) (quit_ s)
    (looping_ s) (eventfd s) (queued s ++ [f]) (executed s) (early s).

Definition mark_early (s : eloop) : eloop :=
  mkLoop (pc s) (others s) (pendingFunctors_ s) (callingPendingFunctors_ s) (quit_ s) (looping_ s)
    (eventfd s) (queued s) (executed s) true.

(** [wakeup]: a write of 1 to an eventfd(2), which adds to the counter unless
    that would overflow (the write then fails and is only logged). *)
Definition eventfd_max : Z := 2 ^ 64 - 2.

Definition wakeup (s : eloop) : eloop :=
  set_eventfd s (if eventfd s <? eventfd_max then eventfd s + 1 else eventfd s).

(** [handleRead]: a read resets the counter. *)
Definition handleRead (s : eloop) : eloop := set_eventfd s 0.

(** ** Steps of the thread of the loop *)

(** One access by user code on the thread of the loop; the result says what is
    left to do for it. *)
Definition do_act (s : eloop) (a : act) : eloop * list act :=
  match a with
  | AQueue f => (push s f, [AWakeIf])
  | AWakeIf => ((if callingPendingFunctors_ s then wakeup s else s), [])
  | AQuit => (set_quit s true, [])
  end.

Inductive llabel : Type :=
| LEarly (f : nat)           (** user code before [loop()] queues a functor *)
| LStart
| LCheck
| LPoll (evs : list event)   (** [poll] returns; [evs] is what the active channels will do *)
| LStep.                     (** the next access of the current phase *)

Section Body.
Context (body : nat -> list act).

Definition step_loop (s : eloop) (l : llabel) : option eloop :=
  match pc s, l with
  | Start, LEarly f =>
      let s := push s f in
      Some (mark_early (if callingPendingFunctors_ s then wakeup s else s))
  | Start, LStart => Some (set_pc (set_quit (set_looping s true) false) Check)
  | Check, LCheck => Some (if quit_ s then set_pc (set_looping s false) Exit else set_pc s Poll)
  | Poll, LPoll evs =>
      (* level-triggered: a readable descriptor ends the wait, and the channel
         of the wakeup descriptor is active only when it is readable *)
      match evs with
      | [] => if eventfd s =? 0 then Some (set_pc s (Handle [])) else None
      | _ => if forallb (fun e => match e with EvRead => 0 <? eventfd s | EvAct _ => true end) evs
             then Some (set_pc s (Handle evs)) else None
      end
  | Handle (EvRead :: evs), LStep => Some (set_pc (handleRead s) (Handle evs))
  | Handle (EvAct a :: evs), LStep =>
      let '(s, more) := do_act s a in Some (set_pc s (Handle (map EvAct more ++ evs)))
  | Handle [], LStep => Some (set_pc (set_calling s true) Swap)
  | Swap, LStep =>
      Some (mkLoop (Run (pendingFunctors_ s) []) (others s) [] (callingPendingFunctors_ s) (quit_ s)
              (looping_ s) (eventfd s) (queued s) (executed s) false)
  | Run fs (a :: acts), LStep =>
      let '(s, more) := do_act s a in Some (set_pc s (Run fs (more ++ acts)))
  | Run (f :: fs) [], LStep =>
      Some (mkLoop (Run fs (body f)) (others s) (pendingFunctors_ s) (callingPendingFunctors_ s)
              (quit_ s) (looping_ s) (eventfd s) (queued s) (executed s ++ [f]) (early s))
  | Run [] [], LStep => Some (set_pc (set_calling s false) Check)
  | _, _ => None
  end.

(** ** Steps of the other threads *)

Inductive olabel : Type :=
| OQueue (t : nat) (f : nat)   (** the first half of [queueInLoop] *)
| OQuit (t : nat)              (** the first half of [quit] *)
| OWake (t : nat).             (** the second half of either: [wakeup()] *)

Definition step_other (s : eloop) (l : olabel) : option eloop :=
  match l with
  | OQueue t f =>
      if bool_decide (others s !! t = Some Idle) then Some (set_other (push s f) t Pushed) else None
  | OQuit t =>
      if bool_decide (others s !! t = Some Idle) then Some (set_other (set_quit s true) t QuitSet) else None
  | OWake t =>
      match others s !! t with
      | Some Pushed | Some QuitSet => Some (set_other (wakeup s) t Idle)
      | _ => None
      end
  end.

(** ** Reachability *)

Inductive step (s : eloop) : eloop -> Prop :=
| step_l l s' : step_loop s l = Some s' -> step s s'
| step_o l s' : step_other s l = Some s' -> step s s'.

Definition reachable (g : bool) (ts : gmap nat opc) : eloop -> Prop := rtc step (init g ts).

(** ** The invariant *)

(** Another thread has queued a functor (asked to quit) and has not yet called [wakeup]. *)
Definition waking (o : opc) (s : eloop) : Prop := exists t, others s !! t = Some o.

(** The functors taken out of the list that have not started. *)
Definition running (s : eloop) : list nat := match pc s with Run fs _ => fs | _ => [] end.

(** The places from which the loop reaches [poll] without passing [Swap]. *)
Definition before_poll (p : lpc) : bool :=
  match p with Start | Check | Poll | Run _ _ => true | _ => false end.

(** The thread of the loop is about to call [wakeup] for a functor it queued. *)
Definition about_to_wake (p : lpc) : bool :=
  match p with Run _ (AWakeIf :: _) => true | _ => false end.

Record Inv (s : eloop) : Prop := mkInv {
  inv_log : queued s = executed s ++ running s ++ pendingFunctors_ s;
  inv_fd : 0 <= eventfd s <= eventfd_max;
  inv_calling : match pc s with Swap | Run _ _ => callingPendingFunctors_ s = true | _ => True end;
  inv_wake : before_poll (pc s) = true -> pendingFunctors_ s <> [] ->
    0 < eventfd s \/ waking Pushed s \/ about_to_wake (pc s) = true \/ early s = true;
  inv_quit : pc s = Poll -> quit_ s = true -> 0 < eventfd s \/ waking QuitSet s
}.

Lemma wakeup_positive s : 0 <= eventfd s <= eventfd_max ->
  0 < eventfd (wakeup s) <= eventfd_max.
Proof. unfold wakeup, eventfd_max; simpl. destruct (Z.ltb_spec (eventfd s) (2 ^ 64 - 2)); lia. Qed.

Lemma waking_set_other o s t o' :
  waking o s -> others s !! t <> Some o -> waking o (set_other s t o').
Proof.
  intros [t' Ht'] Hne. exists t'. simpl. rewrite lookup_insert_ne; [done|]. intros ->. done.
Qed.

Lemma init_inv g ts : Inv (init g ts).
Proof. by constructor. Qed.

Lemma step_other_inv s l s' : Inv s -> step_other s l = Some s' -> Inv s'.
Proof.
  intros [Hlog Hfd Hcall Hwake Hquit] Hs. destruct l as [t f|t|t]; simpl in Hs.
  - case_bool_decide as Hidle; [|done]. injection Hs as <-. constructor; simpl; try done.
    + rewrite Hlog. by rewrite !app_assoc.
    + intros _ _. right; left. exists t. simpl. by rewrite lookup_insert_eq.
    + intros Hp Hq. destruct (Hquit Hp Hq) as [|Hw]; [by left|right].
      apply (waking_set_other _ (push s f)); [done|]. simpl. by rewrite Hidle.
  - case_bool_decide as Hidle; [|done]. injection Hs as <-. constructor; simpl; try done.
    + intros Hb Hp. destruct (Hwake Hb Hp) as [|[Hw|]]; [by left| |by right; right].
      right; left. apply (waking_set_other _ (set_quit s true)); [done|]. simpl. by rewrite Hidle.
    + intros _ _. right. exists t. simpl. by rewrite lookup_insert_eq.
  - pose proof (wakeup_positive s Hfd) as Hpos.
    assert (s' = set_other (wakeup s) t Idle) as -> by (by destruct (others s !! t) as [[]|]; simplify_eq).
    constructor; simpl in *; try done; [lia|intros; left; lia|intros; left; lia].
Qed.

(** What an access of user code on the thread of the loop changes. *)
Lemma do_act_inv s a s' more :
  do_act s a = (s', more) -> 0 <= eventfd s <= eventfd_max ->
  0 <= eventfd s' <= eventfd_max /\ pc s' = pc s /\ others s' = others s /\
  callingPendingFunctors_ s' = callingPendingFunctors_ s /\ executed s' = executed s /\
  early s' = early s /\ eventfd s <= eventfd s' /\
  (exists new, pendingFunctors_ s' = pendingFunctors_ s ++ new /\ queued s' = queued s ++ new /\
     (new <> [] -> more = [AWakeIf])) /\
  (a = AWakeIf -> callingPendingFunctors_ s = true -> 0 < eventfd s').
Proof.
  intros Hd Hfd. destruct a as [f| |]; simpl in Hd.
  - injection Hd as <- <-. simpl. do 7 (split; [done|]). split; [by exists [f]|done].
  - pose proof (wakeup_positive s Hfd) as Hpos.
    assert (eventfd s <= eventfd (wakeup s)) 
      by (unfold wakeup; simpl; destruct (Z.ltb_spec (eventfd s) eventfd_max); lia).
    destruct (callingPendingFunctors_ s) eqn:E; injection Hd as <- <-; simpl in *.
    + rewrite E. repeat split; try done; try lia. exists []. by rewrite !app_nil_r.
    + rewrite E. repeat split; try done; try lia. exists []. by rewrite !app_nil_r.
  - injection Hd as <- <-. simpl. do 7 (split; [done|]). split; [|done].
    exists []. by rewrite !app_nil_r.
Qed.

Lemma run_act_inv s a s1 more fs acts :
  Inv s -> pc s = Run fs (a :: acts) -> do_act s a = (s1, more) -> Inv (set_pc s1 (Run fs (more ++ acts))).
Proof.
  intros [Hlog Hfd Hcall Hwake Hquit] Hpc Ea. unfold running in Hlog. rewrite Hpc in *.
  destruct (do_act_inv s a s1 more Ea Hfd)
    as (Hfd1 & _ & Ho & Hc & He & Hy & Hle & (new & Hp & Hq & Hnew) & Hw).
  constructor; unfold running; simpl; try done.
  - rewrite Hq, Hp, He, Hlog. by rewrite !app_assoc.
  - congruence.
  - intros _ Hne. destruct new as [|n new].
    + rewrite app_nil_r in Hp. rewrite Hp in Hne.
      destruct (Hwake eq_refl Hne) as [Hpos|[[t Ht]|[Hab|Hearly]]].
      * left. lia.
      * right; left. exists t. simpl. by rewrite Ho.
      * left. destruct a; simpl in Hab; [done| |done]. by apply Hw.
      * do 3 right. congruence.
    + rewrite Hnew by done. simpl. auto.
Qed.

Lemma step_loop_inv s l s' : Inv s -> step_loop s l = Some s' -> Inv s'.
Proof.
  intros HI Hs. pose proof HI as [Hlog Hfd Hcall Hwake Hquit]. unfold step_loop in Hs.
  destruct (pc s) as [| | |evs| |fs acts|] eqn:Hpc; unfold running in Hlog; rewrite Hpc in Hlog.
  - destruct l as [f| | | |]; simplify_eq.
    + pose proof (wakeup_positive (push s f) Hfd) as Hpos. simpl in Hpos.
      simpl. destruct (callingPendingFunctors_ s); constructor; unfold running; simpl; rewrite ?Hpc; try done;
        try (rewrite Hlog; by rewrite !app_assoc); try lia; intros; right; right; by right.
    + by constructor.
  - destruct l; simplify_eq. destruct (quit_ s) eqn:Eq.
    + constructor; unfold running; simpl; try done.
    + constructor; unfold running; simpl; try done.
      congruence.
  - destruct l as [| | |evs|]; simplify_eq.
    assert (s' = set_pc s (Handle evs)) as ->
      by (destruct evs; [destruct (eventfd s =? 0)|destruct (forallb _ _)]; by simplify_eq).
    constructor; unfold running; simpl; done.
  - destruct evs as [|[|a] evs], l; simplify_eq.
    + constructor; unfold running; simpl; done.
    + by constructor.
    + destruct (do_act s a) as [s1 more] eqn:Ea. injection Hs as <-.
      destruct (do_act_inv s a s1 more Ea Hfd) as (Hfd1 & _ & _ & _ & He & _ & _ & (new & Hp & Hq & _) & _).
      constructor; unfold running; simpl; try done. rewrite Hq, Hp, He, Hlog. simpl. by rewrite !app_assoc.
  - destruct l; simplify_eq. constructor; unfold running; simpl; try done. by rewrite app_nil_r.
  - destruct fs as [|f fs], acts as [|a acts], l; simplify_eq.
    + by constructor.
    + destruct (do_act s a) as [s1 more] eqn:Ea. injection Hs as <-.
      by apply (run_act_inv s a s1 more).
    + constructor; unfold running; simpl; try done.
      * rewrite Hlog. simpl. by rewrite <- app_assoc.
      * intros _ Hp. specialize (Hwake eq_refl Hp). simpl in Hwake. destruct Hwake as [?|[?|[?|?]]]; [auto|auto|done|auto].
    + destruct (do_act s a) as [s1 more] eqn:Ea. injection Hs as <-.
      by apply (run_act_inv s a s1 more).
  - by destruct l.
Qed.

Lemma reachable_inv g ts s : reachable g ts s -> Inv s.
Proof.
  intros H. unfold reachable in H. remember (init g ts) as s0 eqn:E0.
  assert (Inv s0) as Hi by (subst; apply init_inv). clear E0.
  induction H as [|s0 s1 s2 [l s' Hs|l s' Hs] _ IH]; [done|apply IH..].
  - by eapply step_loop_inv.
  - by eapply step_other_inv.
Qed.

(** ** Progress of the thread of the loop *)

Definition loop_steps : eloop -> eloop -> Prop := rtc (fun s s' => exists l, step_loop s l = Some s').

Lemma loop_step l s s' s'' : step_loop s l = Some s' -> loop_steps s' s'' -> loop_steps s s''.
Proof. intros H. apply rtc_l. eauto. Qed.

(** [s'] has executed the same functors as [s] and lost no pending one. *)
Definition kept (s s' : eloop) : Prop :=
  executed s' = executed s /\ exists new, pendingFunctors_ s' = pendingFunctors_ s ++ new.

#[local] Instance kept_preorder : PreOrder kept.
Proof.
  split.
  - intros s. split; [done|]. exists []. by rewrite app_nil_r.
  - intros s1 s2 s3 (E1 & n1 & P1) (E2 & n2 & P2). split; [congruence|].
    exists (n1 ++ n2). by rewrite P2, P1, app_assoc.
Qed.

Lemma do_act_kept s a : kept s (do_act s a).1.
Proof.
  destruct a; simpl.
  - split; [done|]. by exists [f].
  - destruct (callingPendingFunctors_ s); (split; [done|exists []; by rewrite app_nil_r]).
  - split; [done|]. exists []. by rewrite app_nil_r.
Qed.

Lemma kept_pc s s' p : kept s s' -> kept s (set_pc s' p).
Proof. done. Qed.

Lemma run_act_done s fs a acts :
  pc s = Run fs (a :: acts) ->
  exists s', loop_steps s s' /\ pc s' = Run fs acts /\ kept s s'.
Proof.
  intros Hpc. destruct (do_act s a) as [s1 more] eqn:Ea.
  assert (H1 : step_loop s LStep = Some (set_pc s1 (Run fs (more ++ acts)))).
  { unfold step_loop. rewrite Hpc, Ea. by destruct fs. }
  pose proof (do_act_kept s a) as Hk. rewrite Ea in Hk.
  destruct a as [f| |]; simpl in Ea; injection Ea as <- <-; simpl in *.
  - eexists. split; [|split].
    + eapply loop_step; [exact H1|]. eapply (loop_step LStep); [|apply rtc_refl].
      unfold step_loop. simpl. by destruct fs.
    + done.
    + destruct (callingPendingFunctors_ s); exact Hk.
  - eexists. split; [by eapply loop_step; [exact H1|apply rtc_refl]|]. done.
  - eexists. split; [by eapply loop_step; [exact H1|apply rtc_refl]|]. done.
Qed.

Lemma run_acts_done acts : forall s fs,
  pc s = Run fs acts -> exists s', loop_steps s s' /\ pc s' = Run fs [] /\ kept s s'.
Proof.
  induction acts as [|a acts IH]; intros s fs Hpc.
  - exists s. split; [apply rtc_refl|]. done.
  - destruct (run_act_done s fs a acts Hpc) as (s1 & H1 & Hpc1 & K1).
    destruct (IH s1 fs Hpc1) as (s2 & H2 & Hpc2 & K2).
    exists s2. split; [by etrans|]. split; [done|]. by etrans.
Qed.

(** All functors that were swapped out run. *)
Lemma run_functors_done fs : forall s acts,
  pc s = Run fs acts -> exists s', loop_steps s s' /\ pc s' = Run [] [] /\ executed s' = executed s ++ fs.
Proof.
  induction fs as [|f fs IH]; intros s acts Hpc.
  - destruct (run_acts_done acts s [] Hpc) as (s' & H & Hpc' & E & _). exists s'.
    by rewrite app_nil_r.
  - destruct (run_acts_done acts s (f :: fs) Hpc) as (s1 & H1 & Hpc1 & E1 & _).
    set (s2 := mkLoop (Run fs (body f)) (others s1) (pendingFunctors_ s1) (callingPendingFunctors_ s1)
              (quit_ s1) (looping_ s1) (eventfd s1) (queued s1) (executed s1 ++ [f]) (early s1)).
    destruct (IH s2 (body f) eq_refl) as (s3 & H3 & Hpc3 & E3). exists s3. split; [|split; [done|]].
    + etrans; [exact H1|]. eapply (loop_step LStep); [|exact H3]. unfold step_loop. by rewrite Hpc1.
    + rewrite E3. simpl. by rewrite E1, <- app_assoc.
Qed.

(** All callbacks of the active channels run. *)
Lemma handle_done evs : forall s,
  pc s = Handle evs -> exists s', loop_steps s s' /\ pc s' = Handle [] /\ kept s s'.
Proof.
  induction evs as [|[|a] evs IH]; intros s Hpc.
  - exists s. split; [apply rtc_refl|]. done.
  - destruct (IH (set_pc (handleRead s) (Handle evs)) eq_refl) as (s' & H & Hpc' & K). exists s'.
    split; [|done]. eapply (loop_step LStep); [|exact H]. unfold step_loop. by rewrite Hpc.
  - destruct (do_act s a) as [s1 more] eqn:Ea. pose proof (do_act_kept s a) as Hk. rewrite Ea in Hk.
    assert (H1 : step_loop s LStep = Some (set_pc s1 (Handle (map EvAct more ++ evs)))).
    { unfold step_loop. by rewrite Hpc, Ea. }
    assert (more = [] \/ more = [AWakeIf]) as [-> | ->].
    { destruct a; simpl in Ea; injection Ea as _ <-; auto. }
    + destruct (IH (set_pc s1 (Handle evs)) eq_refl) as (s' & H & Hpc' & K). exists s'.
      split; [by eapply loop_step|]. split; [done|]. by etrans; [|exact K].
    + set (s2 := set_pc (do_act (set_pc s1 (Handle (EvAct AWakeIf :: evs))) AWakeIf).1 (Handle evs)).
      destruct (IH s2 eq_refl) as (s' & H & Hpc' & K). exists s'. split; [|split; [done|]].
      * eapply loop_step; [exact H1|]. by eapply (loop_step LStep).
      * etrans; [exact Hk|]. etrans; [|exact K].
        exact (do_act_kept (set_pc s1 (Handle (EvAct AWakeIf :: evs))) AWakeIf).
Qed.

(** From the return of [poll], the thread of the loop alone reaches the next
    test of [quit_] having run every functor that was pending. *)
Lemma iteration_done s evs :
  pc s = Handle evs ->
  exists s' new, loop_steps s s' /\ pc s' = Check /\ executed s' = executed s ++ pendingFunctors_ s ++ new.
Proof.
  intros Hpc. destruct (handle_done evs s Hpc) as (s1 & H1 & Hpc1 & E1 & new & P1).
  set (s2 := set_pc (set_calling s1 true) Swap).
  set (s3 := mkLoop (Run (pendingFunctors_ s2) []) (others s2) [] (callingPendingFunctors_ s2) (quit_ s2)
              (looping_ s2) (eventfd s2) (queued s2) (executed s2) false).
  destruct (run_functors_done (pendingFunctors_ s2) s3 [] eq_refl) as (s4 & H4 & Hpc4 & E4).
  exists (set_pc (set_calling s4 false) Check), new. split; [|split; [done|]].
  - etrans; [exact H1|]. eapply (loop_step LStep s1 s2); [unfold step_loop; by rewrite Hpc1|].
    eapply (loop_step LStep s2 s3); [done|]. etrans; [exact H4|].
    eapply (loop_step LStep); [unfold step_loop; by rewrite Hpc4|apply rtc_refl].
  - simpl. rewrite E4. simpl. by rewrite E1, P1.
Qed.

(** ** Running a schedule *)

Fixpoint run (s : eloop) (ls : list (llabel + olabel)) : option eloop :=
  match ls with
  | [] => Some s
  | inl l :: ls => s' ← step_loop s l; run s' ls
  | inr l :: ls => s' ← step_other s l; run s' ls
  end.

Lemma run_steps ls : forall s s', run s ls = Some s' -> rtc step s s'.
Proof.
  induction ls as [|[l|l] ls IH]; intros s s' H; simpl in H.
  - injection H as <-. apply rtc_refl.
  - destruct (step_loop s l) as [s1|] eqn:E; [|done]. eapply rtc_l; [by eapply step_l|]. by apply IH.
  - destruct (step_other s l) as [s1|] eqn:E; [|done]. eapply rtc_l; [by eapply step_o|]. by apply IH.
Qed.

End Body.

(** Thread 1 queues functor 7 while the loop waits; functor 7 queues functor 8. *)
Definition sample_body (f : nat) : list act := match f with 7%nat => [AQueue 8] | _ => [] end.
Definition sample_threads : gmap nat opc := {[ 1%nat := Idle; 2%nat := Idle ]}.
Definition sample_schedule : list (llabel + olabel) :=
  [inl LStart; inl LCheck; inr (OQueue 1 7); inr (OWake 1)].

Definition sample_state : eloop :=
  default (init false sample_threads) (run sample_body (init false sample_threads) sample_schedule).

Lemma sample_reachable : reachable sample_body false sample_threads sample_state.
Proof. apply (run_steps sample_body sample_schedule). vm_compute. reflexivity. Qed.

(** ** Properties *)

(** C2. In every interleaving of the loop with other threads, the functors ever
    queued are, in order, those already started, those taken out by the
    current [doPendingFunctors] and those still pending: each is run at most
    once, in the order of the calls of [queueInLoop], and none is lost. *)
Theorem functors_fifo_once (body : nat -> list act) (g : bool) (ts : gmap nat opc) (s : eloop) :
  reachable body g ts s -> queued s = executed s ++ running s ++ pendingFunctors_ s.
Proof. intros H. apply (reachable_inv body g ts s H). Qed.

Lemma functors_fifo_once_witness :
  queued sample_state = [7%nat] /\
  queued sample_state = executed sample_state ++ running sample_state ++ pendingFunctors_ sample_state.
Proof.
  split; [vm_compute; reflexivity|].
  apply (functors_fifo_once sample_body false sample_threads). apply sample_reachable.
Defined.





(** The exception of the previous property is real: a functor the loop's
    own thread queues before [loop()], with [callingPendingFunctors_] false,
    does not wake the loop, so [poll] may wait for its whole timeout. *)
Theorem early_functor_waits (body : nat -> list act) (f : nat) :
  exists s, reachable body false ∅ s /\ pc s = Poll /\ pendingFunctors_ s = [f] /\
    is_Some (step_loop body s (LPoll [])).
Proof.
  destruct (run body (init false ∅) [inl (LEarly f); inl LStart; inl LCheck]) as [s|] eqn:E; [|done].
  exists s. split; [by eapply run_steps|]. simpl in E. injection E as <-. simpl. eauto.
Qed.

End Threads.

(** ** One thread: channels, poller and one turn of the loop *)

Record EventLoop (P : Type) : Type := mkEventLoop {
  eventHandling_ : bool;
  callingPendingFunctors_ : bool;
  iteration_ : Z;
  pollReturnTime_ : Timestamp;
  poller_ : P;
  activeChannels_ : list Z;
  currentActiveChannel_ : option Z;
  pendingFunctors_ : list nat;
  chans : channels
}.
Arguments mkEventLoop {P}. Arguments eventHandling_ {P}. Arguments callingPendingFunctors_ {P}.
Arguments iteration_ {P}. Arguments pollReturnTime_ {P}. Arguments poller_ {P}.
Arguments activeChannels_ {P}. Arguments currentActiveChannel_ {P}. Arguments pendingFunctors_ {P}.
Arguments chans {P}.

Section Iteration.
Context `{PollerSpec P}.
Abbreviation loop_t := (EventLoop P).

Definition put_chans (m : channels) (s : loop_t) : loop_t :=
  mkEventLoop (eventHandling_ s) (callingPendingFunctors_ s) (iteration_ s) (pollReturnTime_ s)
    (poller_ s) (activeChannels_ s) (currentActiveChannel_ s) (pendingFunctors_ s) m.
Definition put_poller (s : loop_t) (pc : P * channels) : loop_t :=
  mkEventLoop (eventHandling_ s) (callingPendingFunctors_ s) (iteration_ s) (pollReturnTime_ s)
    pc.1 (activeChannels_ s) (currentActiveChannel_ s) (pendingFunctors_ s) pc.2.
Definition put_handling (s : loop_t) (b : bool) (cur : option Z) : loop_t :=
  mkEventLoop b (callingPendingFunctors_ s) (iteration_ s) (pollReturnTime_ s)
    (poller_ s) (activeChannels_ s) cur (pendingFunctors_ s) (chans s).
Definition put_pending (s : loop_t) (calling : bool) (fs : list nat) : loop_t :=
  mkEventLoop (eventHandling_ s) calling (iteration_ s) (pollReturnTime_ s)
    (poller_ s) (activeChannels_ s) (currentActiveChannel_ s) fs (chans s).

(** [Channel::enableReading] and the like, through [EventLoop::updateChannel]. *)
Definition loop_updateChannel (o : interest_op) (a : Z) (s : loop_t) : outcome loop_t :=
  pc ← Channel_update o (poller_ s) (chans s) a; Ok (put_poller s pc).

(** [Channel::remove] through [EventLoop::removeChannel]: while events are being
    handled, only the current channel or one that is not active. *)
Definition loop_removeChannel (a : Z) (s : loop_t) : outcome loop_t :=
  assert_ (negb (eventHandling_ s) || bool_decide (currentActiveChannel_ s = Some a)
           || negb (bool_decide (a ∈ activeChannels_ s)));;
  pc ← Channel_remove (poller_ s) (chans s) a; Ok (put_poller s pc).

Definition loop_hasChannel (a : Z) (s : loop_t) : outcome bool := hasChannel (poller_ s) (chans s) a.

Context (cb : callback -> Z -> loop_t -> outcome loop_t).
Context (alive : Z -> loop_t -> bool).
Context (functor : nat -> loop_t -> outcome loop_t).

Definition doPendingFunctors (s : loop_t) : outcome loop_t :=
  let functors := pendingFunctors_ s in
  s ← for_each (fun s f => functor f s) (put_pending s true []) functors;
  Ok (put_pending s false (pendingFunctors_ s)).

Definition handle_channel (s : loop_t) (a : Z) : outcome loop_t :=
  handleEvent chans put_chans cb alive a (put_handling s (eventHandling_ s) (Some a)).

(** The body of [while (!quit_)]; [ans] is the answer of the kernel and [now]
    the time [poll] returns. *)
Definition turn (ans : answer) (now : Timestamp) (s : loop_t) : outcome loop_t :=
  '(p, cs, active) ← poll (poller_ s) (chans s) ans;
  let s := mkEventLoop true (callingPendingFunctors_ s) (i64 (iteration_ s + 1)) now p active
             (currentActiveChannel_ s) (pendingFunctors_ s) cs in
  s ← for_each handle_channel s (activeChannels_ s);
  doPendingFunctors (put_handling s false None).

(** *** The invariant *)

Record LInv (s : loop_t) : Prop := mkLInv {
  linv_poller : pwf (poller_ s) (chans s);
  linv_active : eventHandling_ s = true ->
    forall a, a ∈ activeChannels_ s -> is_Some (chans s !! a)
}.

(** What stays fixed while the callbacks of a turn run. *)
Definition same_turn (s s' : loop_t) : Prop :=
  eventHandling_ s' = eventHandling_ s /\ activeChannels_ s' = activeChannels_ s /\
  currentActiveChannel_ s' = currentActiveChannel_ s /\ iteration_ s' = iteration_ s /\
  callingPendingFunctors_ s' = callingPendingFunctors_ s.

(** The contract of user callbacks: they succeed and keep the invariant, and a
    callback does not destroy the channel it runs on. *)
Definition good_callback : Prop := forall k a s c,
  LInv s -> eventHandling_ s = true -> currentActiveChannel_ s = Some a -> a ∈ activeChannels_ s ->
  chans s !! a = Some c ->
  exists s' c', cb k a s = Ok s' /\ LInv s' /\ same_turn s s' /\ chans s' !! a = Some c'.

Definition good_functor : Prop := forall f s,
  LInv s -> eventHandling_ s = false ->
  exists s', functor f s = Ok s' /\ LInv s' /\ same_turn s s'.

#[local] Instance same_turn_preorder : PreOrder same_turn.
Proof. split; [done|]. intros s1 s2 s3; unfold same_turn; intuition congruence. Qed.

(** *** The operations on channels keep it *)

Lemma LInv_same s p cs :
  LInv s -> pwf p cs -> (forall a, is_Some (chans s !! a) -> is_Some (cs !! a)) -> LInv (put_poller s (p, cs)).
Proof. intros [_ Ha] Hwf Hall. constructor; simpl; [done|]. intros He a Hin. by apply Hall, Ha. Qed.

Lemma same_channels_dom cs cs' a : same_channels cs cs' -> is_Some (cs !! a) -> is_Some (cs' !! a).
Proof. intros Hs [c Hc]. specialize (Hs a). rewrite Hc in Hs. by destruct (cs' !! a). Qed.

Lemma loop_updateChannel_ok o a c s :
  LInv s -> chans s !! a = Some c ->
  can_update (registered (poller_ s) (chans s)) a c (events_ (apply_interest o c)) ->
  exists s', loop_updateChannel o a s = Ok s' /\ LInv s' /\ same_turn s s'.
Proof.
  intros Hi Hc Hcan. destruct (Channel_update_spec o _ _ a c (linv_poller _ Hi) Hc Hcan)
    as (p' & cs' & E & W & _ & S). unfold loop_updateChannel. rewrite E. simpl.
  eexists; split; [done|]. split; [|done]. apply LInv_same; [done..|]. intros b Hb.
  eapply same_channels_dom; [exact S|]. destruct (decide (b = a)) as [->|Hne];
    [rewrite lookup_insert_eq; eauto|by rewrite lookup_insert_ne].
Qed.

Lemma loop_removeChannel_ok a c s :
  LInv s -> chans s !! a = Some c -> can_remove (registered (poller_ s) (chans s)) a c ->
  (eventHandling_ s = true -> currentActiveChannel_ s = Some a \/ a ∉ activeChannels_ s) ->
  exists s', loop_removeChannel a s = Ok s' /\ LInv s' /\ same_turn s s'.
Proof.
  intros Hi Hc Hcan Hact. destruct (Channel_remove_spec _ _ a c (linv_poller _ Hi) Hc Hcan)
    as (p' & cs' & E & W & _ & S). unfold loop_removeChannel.
  replace (negb (eventHandling_ s) || _ || _) with true; cycle 1.
  { destruct (eventHandling_ s); [|done]. destruct Hact as [Ha|Ha]; [done| |].
    - rewrite bool_decide_true by done. done.
    - rewrite (bool_decide_false (a ∈ _)) by done. by rewrite orb_true_r. }
  cbn [assert_ mbind outcome_bind]. rewrite E. simpl.
  eexists; split; [done|]. split; [|done]. apply LInv_same; [done..|]. intros b Hb.
  eapply same_channels_dom; [exact S|]. destruct (decide (b = a)) as [->|Hne];
    [rewrite lookup_insert_eq; eauto|by rewrite lookup_insert_ne].
Qed.

(** Removing another active channel while events are handled fails. *)
Lemma loop_removeChannel_active a b s :
  eventHandling_ s = true -> currentActiveChannel_ s = Some b -> a <> b -> a ∈ activeChannels_ s ->
  loop_removeChannel a s = Err AssertFailed.
Proof.
  intros He Hc Hne Ha. unfold loop_removeChannel. rewrite He, Hc.
  rewrite bool_decide_false by congruence. by rewrite bool_decide_true.
Qed.

(** *** A whole turn *)

Lemma modify_ok s a f :
  (forall c, fd_ (f c) = fd_ c /\ events_ (f c) = events_ c /\ index_ (f c) = index_ c) ->
  LInv s -> is_Some (chans s !! a) ->
  exists s', modify chans put_chans a f s = Ok s' /\ LInv s' /\ same_turn s s' /\ is_Some (chans s' !! a).
Proof.
  intros Hf Hi [c Hc]. unfold modify, chan. rewrite Hc. simpl. eexists; split; [done|].
  replace (<[a := f c]> (chans s)) with (alter f a (chans s)); cycle 1.
  { apply map_eq. intros b. destruct (decide (b = a)) as [->|Hne].
    - by rewrite lookup_alter_eq, lookup_insert_eq, Hc.
    - by rewrite lookup_alter_ne, lookup_insert_ne. }
  split; [|split; [done|]].
  - constructor; simpl; [apply pwf_alter; [done|apply Hi]|]. intros He b Hb.
    apply lookup_alter_is_Some. by apply (linv_active _ Hi).
  - simpl. apply lookup_alter_is_Some. eauto.
Qed.

Definition current_is (a : Z) (s : loop_t) : Prop :=
  LInv s /\ eventHandling_ s = true /\ currentActiveChannel_ s = Some a /\ a ∈ activeChannels_ s /\
  is_Some (chans s !! a).

Lemma current_is_same a s s' :
  current_is a s -> LInv s' -> same_turn s s' -> is_Some (chans s' !! a) -> current_is a s'.
Proof. intros (_ & H1 & H2 & H3 & _) Hi (E1 & E2 & E3 & _) Hs. split_and!; congruence || done. Qed.

Lemma dispatch_ok cond k a s :
  good_callback -> current_is a s ->
  exists s', dispatch chans cb a cond k s = Ok s' /\ current_is a s' /\ same_turn s s'.
Proof.
  intros Hcb Hcur. pose proof Hcur as (Hi & He & Hc & Ha & [c Hs]). unfold dispatch, chan. rewrite Hs. simpl.
  destruct (cond c).
  - destruct (Hcb k a s c) as (s' & c' & -> & Hi' & Hst & Hs'); [done..|].
    exists s'. split; [done|]. split; [|done]. eapply current_is_same; eauto.
  - exists s. done.
Qed.

Ltac step_dispatch s Hcb Hc s' Hc' T :=
  match goal with
  | |- context [dispatch _ _ ?a ?cond ?k s] =>
      destruct (dispatch_ok cond k a s Hcb Hc) as (s' & -> & Hc' & T)
  end; cbn [mbind outcome_bind].

Lemma handleEvent_ok a s :
  good_callback -> current_is a s ->
  exists s', handleEvent chans put_chans cb alive a s = Ok s' /\ current_is a s' /\ same_turn s s'.
Proof.
  intros Hcb Hcur. assert (Hguard : exists s', handleEventWithGuard chans put_chans cb a s = Ok s' /\
    current_is a s' /\ same_turn s s').
  { unfold handleEventWithGuard.
    destruct (modify_ok s a (fun c => set_handling c true)) as (s0 & -> & Hi0 & T0 & Hs0);
      [done|apply Hcur|apply Hcur|]. cbn [mbind outcome_bind].
    pose proof (current_is_same a s s0 Hcur Hi0 T0 Hs0) as Hc0.
    step_dispatch s0 Hcb Hc0 s1 Hc1 T1.
    step_dispatch s1 Hcb Hc1 s2 Hc2 T2.
    step_dispatch s2 Hcb Hc2 s3 Hc3 T3.
    step_dispatch s3 Hcb Hc3 s4 Hc4 T4.
    destruct (modify_ok s4 a (fun c => set_handling c false)) as (s5 & -> & Hi5 & T5 & H5);
      [done|apply Hc4|apply Hc4|].
    exists s5. split; [done|]. split; [by eapply current_is_same|].
    etrans; [exact T0|]. etrans; [exact T1|]. etrans; [exact T2|]. etrans; [exact T3|]. by etrans; [exact T4|]. }
  unfold handleEvent, chan. pose proof Hcur as (_ & _ & _ & _ & [c Hc]). rewrite Hc. simpl.
  destruct (tied_ c); [|done]. destruct (alive a s); [done|]. exists s. done.
Qed.

(** During the handling of the active channels of one turn. *)
Definition Handling (active : list Z) (it : Z) (s : loop_t) : Prop :=
  LInv s /\ eventHandling_ s = true /\ activeChannels_ s = active /\ iteration_ s = it.

Lemma handle_all_ok s active it :
  good_callback -> Handling active it s ->
  exists s', for_each handle_channel s active = Ok s' /\ Handling active it s'.
Proof.
  intros Hcb Hs. apply (for_each_inv handle_channel (Handling active it)); [|done].
  intros s1 a Ha (Hi & He & Hact & Hit). unfold handle_channel.
  destruct (handleEvent_ok a (put_handling s1 (eventHandling_ s1) (Some a)) Hcb)
    as (s2 & E & Hc2 & (T1 & T2 & _ & T4 & _)).
  - split; [constructor; apply Hi|]. simpl. do 2 (split; [done|]). rewrite Hact. split; [done|].
    apply (linv_active _ Hi); [done|]. by rewrite Hact.
  - exists s2. split; [done|]. split; [apply Hc2|]. simpl in *. split_and!; congruence.
Qed.

Lemma doPendingFunctors_ok s :
  good_functor -> LInv s -> eventHandling_ s = false ->
  exists s', doPendingFunctors s = Ok s' /\ LInv s' /\ eventHandling_ s' = false /\
    activeChannels_ s' = activeChannels_ s /\ iteration_ s' = iteration_ s /\
    currentActiveChannel_ s' = currentActiveChannel_ s /\ callingPendingFunctors_ s' = false.
Proof.
  intros Hf Hi He. unfold doPendingFunctors. set (s0 := put_pending s true []).
  destruct (for_each_inv (fun s f => functor f s) (fun s' => LInv s' /\ same_turn s0 s')
    (pendingFunctors_ s)) with (s := s0) as (s1 & -> & Hi1 & (T1 & T2 & T3 & T4 & T5)).
  - intros s1 f _ [Hi1 T1]. destruct (Hf f s1 Hi1) as (s2 & E & Hi2 & T2).
    { destruct T1 as (-> & _). done. }
    exists s2. split; [done|]. split; [done|]. by etrans.
  - split; [|done]. constructor; apply Hi.
  - simpl. eexists; split; [done|]. simpl in *. split; [constructor; apply Hi1|]. split_and!; congruence.
Qed.

Lemma turn_ok ans now s :
  good_callback -> good_functor -> LInv s -> valid_answer (poller_ s) (chans s) ans ->
  exists s' p cs active, turn ans now s = Ok s' /\ LInv s' /\
    poll (poller_ s) (chans s) ans = Ok (p, cs, active) /\ activeChannels_ s' = active /\
    iteration_ s' = i64 (iteration_ s + 1) /\ eventHandling_ s' = false /\
    currentActiveChannel_ s' = None /\ callingPendingFunctors_ s' = false.
Proof.
  intros Hcb Hf Hi Hv. destruct (poll_refines _ _ ans (linv_poller _ Hi) Hv)
    as (p & cs & active & E & W & R & S & Hact).
  unfold turn. rewrite E. cbn [mbind outcome_bind].
  set (s1 := mkEventLoop true _ _ _ _ _ _ _ _).
  destruct (handle_all_ok s1 active (i64 (iteration_ s + 1)) Hcb) as (s2 & E2 & Hi2 & He2 & Ha2 & Hit2).
  - split; [|done]. constructor; simpl; [done|]. intros _ a Ha.
    destruct (Hact a Ha) as (fd & m & Hreg). rewrite <- R in Hreg.
    destruct (registered_alive _ _ _ _ W Hreg) as (c & Hc & _). eauto.
  - change (activeChannels_ s1) with active. rewrite E2. cbn [mbind outcome_bind].
    destruct (doPendingFunctors_ok (put_handling s2 false None) Hf) as (s3 & -> & Hi3 & H1 & H2 & H3 & H4 & H5).
    { constructor; [apply Hi2|done]. } { done. }
    exists s3, p, cs, active. simpl in *. split_and!; congruence || done.
Qed.

End Iteration.

(** [Poller::newDefaultPoller] (src/src/DefaultPoller.cpp). *)
Definition newDefaultPoller `{Epoll K} (getenv : string -> option string) : PollPoller + EPollPoller K :=
  match getenv "MUDUO_USE_POLL"%string with
  | Some _ => inl new_PollPoller
  | None => inr new_EPollPoller
  end.

(** *** A user program: when a channel becomes readable, watch it for writing *)

Definition echo_back `{PollerSpec P} (k : callback) (a : Z) (s : EventLoop P) : outcome (EventLoop P) :=
  match k, chans s !! a with
  | readCallback, Some c =>
      match registered (poller_ s) (chans s) !! fd_ c with
      | Some g => if (0 <=? fd_ c) && (reg_channel g =? a)
                  then loop_updateChannel enableWriting a s else Ok s
      | None => Ok s
      end
  | _, _ => Ok s
  end.

Lemma echo_back_good `{PollerSpec P} : good_callback (P := P) echo_back.
Proof.
  intros k a s c Hi He Hc Ha Hs.
  assert (Hsame : exists s' c', Ok s = Ok s' /\ LInv s' /\ same_turn s s' /\ chans s' !! a = Some c')
    by (exists s, c; done).
  unfold echo_back. destruct k; try exact Hsame. rewrite Hs.
  destruct (registered (poller_ s) (chans s) !! fd_ c) as [g|] eqn:Eg; [|exact Hsame].
  destruct ((0 <=? fd_ c) && (reg_channel g =? a)) eqn:Econd; [|exact Hsame].
  apply andb_true_iff in Econd as [Hfd Hg]. apply Z.leb_le in Hfd. apply Z.eqb_eq in Hg.
  destruct (loop_updateChannel_ok enableWriting a c s Hi Hs) as (s' & -> & Hi' & T).
  - split; [done|]. rewrite Eg. split; [done|]. intros _ E. simpl in E.
    apply Z.lor_eq_0_iff in E as [_ E]. discriminate E.
  - destruct (linv_active _ Hi') with (a := a) as [c' Hc'].
    + destruct T as (-> & _). done.
    + destruct T as (_ & -> & _). done.
    + exists s', c'. done.
Qed.


Definition sample_loop : EventLoop PollPoller :=
  mkEventLoop false false 0 invalid two_channels.1 [] None [3%nat] two_channels.2.

