(* ===== verification/TcpConnection.v ===== *)
(** * TCP connections (src/src/TcpConnection.h, src/src/TcpConnection.cpp)

    A connection is a state machine over a channel and two buffers.  The model
    has the whole state and every operation; the kernel (write, readv) is a
    parameter, the user's callbacks are programs over the operations of the
    connection, and what the code hands to the loop ([queueInLoop], [runAfter])
    is kept in the state and run later, in any order the loop allows. *)

From S2P Require Import Prelude Endian StringPiece Buffer Format Timestamp Channel Poller.
Local Open Scope Z_scope.

Inductive StateE : Type := kDisconnected | kConnecting | kConnected | kDisconnecting.

#[export] Instance StateE_eq_dec : EqDecision StateE.
Proof. solve_decision. Defined.

Definition EWOULDBLOCK : Z := 11.
Definition EPIPE : Z := 32.
Definition ECONNRESET : Z := 104.

(** What the connection tells its user. *)
Inductive notification : Type :=
| NConnection                  (** [connectionCallback_] *)
| NMessage                     (** [messageCallback_] *)
| NWriteComplete               (** [writeCompleteCallback_] *)
| NHighWaterMark (n : Z).      (** [highWaterMarkCallback_] *)

(** What waits in the loop for this connection. *)
Inductive functor : Type :=
| FSend (message : list ascii)
| FShutdown
| FForceClose
| FStartRead
| FWriteComplete
| FHighWaterMark (n : Z)
| FConnectDestroyed.

#[export] Instance functor_eq_dec : EqDecision functor.
Proof. solve_decision. Defined.

(** What the connection asks of the poller through its channel. *)
Inductive chan_call : Type :=
| CallUpdate (o : interest_op)
| CallRemove.

#[export] Instance chan_call_eq_dec : EqDecision chan_call.
Proof. solve_decision. Defined.

(** [reg] is what the poller knows of the channel (not registered; registered
    and idle; watched with a mask), [chan_calls] the calls so far and
    [protocol] whether they kept to the interface of Poller.v; [sent] are the bytes the kernel accepted,
    [writes] counts the calls of write(2), [shut] is whether the write side
    was shut down; [calls] and [closes] record the callbacks that ran,
    [closing] those close callbacks the server has not acted upon, [timers]
    the delayed [forceClose]s. *)
Record TcpConnection : Type := mkConn {
  state_ : StateE;
  reading_ : bool;
  channel_ : Channel;
  reg : option (option Z);
  protocol : bool;
  chan_calls : list chan_call;
  inputBuffer_ : Buffer;
  outputBuffer_ : Buffer;
  highWaterMark_ : Z;
  writeCompleteCallback_ : bool;
  highWaterMarkCallback_ : bool;
  queue : list functor;
  timers : nat;
  closing : nat;
  sent : list ascii;
  writes : nat;
  shut : bool;
  calls : list notification;
  closes : nat
}.

Definition setState (s : StateE) (c : TcpConnection) : TcpConnection :=
  mkConn s (reading_ c) (channel_ c) (reg c) (protocol c) (chan_calls c) (inputBuffer_ c) (outputBuffer_ c)
    (highWaterMark_ c) (writeCompleteCallback_ c) (highWaterMarkCallback_ c) (queue c) (timers c)
    (closing c) (sent c) (writes c) (shut c) (calls c) (closes c).
Definition set_reading (b : bool) (c : TcpConnection) : TcpConnection :=
  mkConn (state_ c) b (channel_ c) (reg c) (protocol c) (chan_calls c) (inputBuffer_ c) (outputBuffer_ c)
    (highWaterMark_ c) (writeCompleteCallback_ c) (highWaterMarkCallback_ c) (queue c) (timers c)
    (closing c) (sent c) (writes c) (shut c) (calls c) (closes c).
Definition set_channel (ch : Channel) (r : option (option Z)) (p : bool) (l : list chan_call) (c : TcpConnection)
  : TcpConnection :=
  mkConn (state_ c) (reading_ c) ch r p l (inputBuffer_ c) (outputBuffer_ c)
    (highWaterMark_ c) (writeCompleteCallback_ c) (highWaterMarkCallback_ c) (queue c) (timers c)
    (closing c) (sent c) (writes c) (shut c) (calls c) (closes c).
Definition set_input (b : Buffer) (c : TcpConnection) : TcpConnection :=
  mkConn (state_ c) (reading_ c) (channel_ c) (reg c) (protocol c) (chan_calls c) b (outputBuffer_ c)
    (highWaterMark_ c) (writeCompleteCallback_ c) (highWaterMarkCallback_ c) (queue c) (timers c)
    (closing c) (sent c) (writes c) (shut c) (calls c) (closes c).
Definition set_output (b : Buffer) (c : TcpConnection) : TcpConnection :=
  mkConn (state_ c) (reading_ c) (channel_ c) (reg c) (protocol c) (chan_calls c) (inputBuffer_ c) b
    (highWaterMark_ c) (writeCompleteCallback_ c) (highWaterMarkCallback_ c) (queue c) (timers c)
    (closing c) (sent c) (writes c) (shut c) (calls c) (closes c).
Definition set_queue (q : list functor) (c : TcpConnection) : TcpConnection :=
  mkConn (state_ c) (reading_ c) (channel_ c) (reg c) (protocol c) (chan_calls c) (inputBuffer_ c) (outputBuffer_ c)
    (highWaterMark_ c) (writeCompleteCallback_ c) (highWaterMarkCallback_ c) q (timers c)
    (closing c) (sent c) (writes c) (shut c) (calls c) (closes c).
Definition set_pending (t cl n : nat) (c : TcpConnection) : TcpConnection :=
  mkConn (state_ c) (reading_ c) (channel_ c) (reg c) (protocol c) (chan_calls c) (inputBuffer_ c) (outputBuffer_ c)
    (highWaterMark_ c) (writeCompleteCallback_ c) (highWaterMarkCallback_ c) (queue c) t
    cl (sent c) (writes c) (shut c) (calls c) n.
Definition set_sent (s : list ascii) (w : nat) (c : TcpConnection) : TcpConnection :=
  mkConn (state_ c) (reading_ c) (channel_ c) (reg c) (protocol c) (chan_calls c) (inputBuffer_ c) (outputBuffer_ c)
    (highWaterMark_ c) (writeCompleteCallback_ c) (highWaterMarkCallback_ c) (queue c) (timers c)
    (closing c) s w (shut c) (calls c) (closes c).
Definition set_shut (b : bool) (c : TcpConnection) : TcpConnection :=
  mkConn (state_ c) (reading_ c) (channel_ c) (reg c) (protocol c) (chan_calls c) (inputBuffer_ c) (outputBuffer_ c)
    (highWaterMark_ c) (writeCompleteCallback_ c) (highWaterMarkCallback_ c) (queue c) (timers c)
    (closing c) (sent c) (writes c) b (calls c) (closes c).
Definition record_call (n : notification) (c : TcpConnection) : TcpConnection :=
  mkConn (state_ c) (reading_ c) (channel_ c) (reg c) (protocol c) (chan_calls c) (inputBuffer_ c) (outputBuffer_ c)
    (highWaterMark_ c) (writeCompleteCallback_ c) (highWaterMarkCallback_ c) (queue c) (timers c)
    (closing c) (sent c) (writes c) (shut c) (calls c ++ [n]) (closes c).

Definition setHighWaterMarkCallback (mark : Z) (c : TcpConnection) : TcpConnection :=
  mkConn (state_ c) (reading_ c) (channel_ c) (reg c) (protocol c) (chan_calls c) (inputBuffer_ c) (outputBuffer_ c)
    mark (writeCompleteCallback_ c) true (queue c) (timers c)
    (closing c) (sent c) (writes c) (shut c) (calls c) (closes c).
Definition setWriteCompleteCallback (c : TcpConnection) : TcpConnection :=
  mkConn (state_ c) (reading_ c) (channel_ c) (reg c) (protocol c) (chan_calls c) (inputBuffer_ c) (outputBuffer_ c)
    (highWaterMark_ c) true (highWaterMarkCallback_ c) (queue c) (timers c)
    (closing c) (sent c) (writes c) (shut c) (calls c) (closes c).

Definition queueInLoop (f : functor) (c : TcpConnection) : TcpConnection := set_queue (queue c ++ [f]) c.

(** The constructor. *)
Definition new_TcpConnection (fd : Z) (input output : Buffer) (wc hw : bool) : TcpConnection :=
  mkConn kConnecting true (new_Channel fd) None true [] input output (64 * 1024 * 1024) wc hw
    [] 0 0 [] 0 false [] 0.

Definition connected (c : TcpConnection) : bool := bool_decide (state_ c = kConnected).
Definition disconnected (c : TcpConnection) : bool := bool_decide (state_ c = kDisconnected).

Definition stateToString (c : TcpConnection) : string :=
  match state_ c with
  | kDisconnected => "kDisconnected"
  | kConnecting => "kConnecting"
  | kConnected => "kConnected"
  | kDisconnecting => "kDisconnecting"
  end.

(** ** The channel of the connection

    [chan_op] and [chan_remove] act on the registration the way the abstract
    poller does ([spec_update], [spec_remove]) and note a call outside the
    protocol. *)

Definition chan_op (o : interest_op) (c : TcpConnection) : TcpConnection :=
  let ch := set_added (apply_interest o (channel_ c)) true in
  let mask := events_ ch in
  let r := match reg c with
           | Some _ => if mask =? 0 then None else Some mask
           | None => Some mask
           end in
  let fine := match reg c with
              | Some None => negb (mask =? 0)
              | Some (Some _) => true
              | None => bool_decide (chan_calls c = [])
              end in
  set_channel ch (Some r) (protocol c && fine) (chan_calls c ++ [CallUpdate o]) c.

Definition chan_remove (c : TcpConnection) : outcome TcpConnection :=
  assert_ (isNoneEvent (channel_ c));;
  Ok (set_channel (set_added (channel_ c) false) None
        (protocol c && bool_decide (reg c = Some None)) (chan_calls c ++ [CallRemove]) c).

Definition chan_tie (c : TcpConnection) : TcpConnection :=
  set_channel (tie (channel_ c)) (reg c) (protocol c) (chan_calls c) c.

(** ** Sending *)

(** The answer of write(2) to one call. *)
Inductive write_result : Type :=
| Wrote (n : Z)
| WriteError (errno : Z).

Inductive user_op : Type :=
| USend (message : list ascii)   (** [send(StringPiece)] or [send(data, len)] *)
| USendInput                     (** [send(conn->inputBuffer())] *)
| USendBuffer (buf : Buffer)     (** [send(&buf)] with a buffer of the user *)
| UShutdown
| UForceClose
| UForceCloseWithDelay
| UStartRead
| URetrieve (n : Z)              (** [inputBuffer()->retrieve(n)] *)
| URetrieveAll                   (** [inputBuffer()->retrieveAll()] *)
| USetHighWaterMark (mark : Z)   (** [setHighWaterMarkCallback(cb, mark)] *)
| USetWriteComplete.             (** [setWriteCompleteCallback(cb)] *)

Section Connection.
(** [write k data] is the answer of the kernel to the [k]-th call of write(2)
    on the socket; [user n c] is the program of the user's callback. *)
Context (write : nat -> list ascii -> write_result).
Context (user : notification -> TcpConnection -> list user_op).

(** The first half of [sendInLoop]: the attempt to write at once.  The result
    is [nwrote], [remaining], [faultError] and the connection. *)
Definition try_write (data : list ascii) (c : TcpConnection) : Z * Z * bool * TcpConnection :=
  let len := zlen data in
  if negb (isWriting (channel_ c)) && (readableBytes (outputBuffer_ c) =? 0) then
    match write (writes c) data with
    | Wrote n =>
        let c := set_sent (sent c ++ ztake n data) (S (writes c)) c in
        let remaining := u64 (len - n) in
        (n, remaining, false,
         if (remaining =? 0) && writeCompleteCallback_ c then queueInLoop FWriteComplete c else c)
    | WriteError errno =>
        let faultError := negb (errno =? EWOULDBLOCK) && ((errno =? EPIPE) || (errno =? ECONNRESET)) in
        (0, len, faultError, set_sent (sent c) (S (writes c)) c)
    end
  else (0, len, false, c).

(** Its second half: what was not written goes to the buffer. *)
Definition buffer_remaining (data : list ascii) (nwrote remaining : Z) (c : TcpConnection)
  : outcome TcpConnection :=
  let oldLen := readableBytes (outputBuffer_ c) in
  let c := if (highWaterMark_ c <=? oldLen + remaining) && (oldLen <? highWaterMark_ c)
              && highWaterMarkCallback_ c
           then queueInLoop (FHighWaterMark (oldLen + remaining)) c else c in
  out ← append (outputBuffer_ c) (zdrop nwrote data) remaining;
  let c := set_output out c in
  Ok (if isWriting (channel_ c) then c else chan_op enableWriting c).

Definition sendInLoop (data : list ascii) (c : TcpConnection) : outcome TcpConnection :=
  if bool_decide (state_ c = kDisconnected) then Ok c
  else
    let '(nwrote, remaining, faultError, c) := try_write data c in
    assert_ (remaining <=? zlen data);;
    if negb faultError && (0 <? remaining) then buffer_remaining data nwrote remaining c else Ok c.

(** [send] on the thread of the loop, and from another thread. *)
Definition send (message : list ascii) (c : TcpConnection) : outcome TcpConnection :=
  if connected c then sendInLoop message c else Ok c.

Definition send_foreign (message : list ascii) (c : TcpConnection) : TcpConnection :=
  if connected c then queueInLoop (FSend message) c else c.

(** [send] of a buffer: it is emptied if the data was taken. *)
Definition send_buffer (buf : Buffer) (c : TcpConnection) : outcome (Buffer * TcpConnection) :=
  if connected c then
    c ← sendInLoop (range buf (peek buf) (peek buf + readableBytes buf)) c;
    Ok (retrieveAll buf, c)
  else Ok (buf, c).

(** The same from another thread: the bytes go to the loop as a string. *)
Definition send_buffer_foreign (buf : Buffer) (c : TcpConnection) : outcome (Buffer * TcpConnection) :=
  if connected c then
    '(tmp, buf) ← retrieveAllAsString buf;
    Ok (buf, queueInLoop (FSend tmp) c)
  else Ok (buf, c).

(** ** Closing *)

Definition shutdownInLoop (c : TcpConnection) : TcpConnection :=
  if isWriting (channel_ c) then c else set_shut true c.

Definition shutdown (c : TcpConnection) : TcpConnection :=
  if connected c then shutdownInLoop (setState kDisconnecting c) else c.

Definition shutdown_foreign (c : TcpConnection) : TcpConnection :=
  if connected c then queueInLoop FShutdown (setState kDisconnecting c) else c.

Definition forceClose (c : TcpConnection) : TcpConnection :=
  if connected c || disconnected c
  then queueInLoop FForceClose (setState kDisconnecting c) else c.

Definition forceCloseWithDelay (c : TcpConnection) : TcpConnection :=
  if connected c || bool_decide (state_ c = kDisconnecting)
  then set_pending (S (timers c)) (closing c) (closes c) (setState kDisconnecting c) else c.

Definition startReadInLoop (c : TcpConnection) : TcpConnection :=
  if negb (reading_ c) || negb (isReading (channel_ c))
  then set_reading true (chan_op enableReading c) else c.

(** ** The user's callbacks *)

Definition run_user (c : TcpConnection) (o : user_op) : outcome TcpConnection :=
  match o with
  | USend message => send message c
  | USendInput => '(b, c) ← send_buffer (inputBuffer_ c) c; Ok (set_input b c)
  | USendBuffer buf => '(_, c) ← send_buffer buf c; Ok c
  | UShutdown => Ok (shutdown c)
  | UForceClose => Ok (forceClose c)
  | UForceCloseWithDelay => Ok (forceCloseWithDelay c)
  | UStartRead => Ok (startReadInLoop c)
  | URetrieve n => b ← retrieve (inputBuffer_ c) n; Ok (set_input b c)
  | URetrieveAll => Ok (set_input (retrieveAll (inputBuffer_ c)) c)
  | USetHighWaterMark mark => Ok (setHighWaterMarkCallback mark c)
  | USetWriteComplete => Ok (setWriteCompleteCallback c)
  end.

(** [defaultConnectionCallback] (which only prints) and
    [defaultMessageCallback]: the callbacks a server or client starts with. *)
Definition default_callbacks (n : notification) (c : TcpConnection) : list user_op :=
  match n with NMessage => [URetrieveAll] | _ => [] end.

Definition notify (n : notification) (c : TcpConnection) : outcome TcpConnection :=
  let c := record_call n c in
  for_each run_user c (user n c).

(** ** The handlers *)

Definition connectEstablished (c : TcpConnection) : outcome TcpConnection :=
  assert_ (bool_decide (state_ c = kConnecting));;
  let c := chan_op enableReading (chan_tie (setState kConnected c)) in
  notify NConnection c.

Definition connectDestroyed (c : TcpConnection) : outcome TcpConnection :=
  c ← (if connected c
       then notify NConnection (chan_op disableAll (setState kDisconnected c))
       else Ok c);
  chan_remove c.

(** [closeCallback_] is the server's: it will queue [connectDestroyed]. *)
Definition close_callback (c : TcpConnection) : TcpConnection :=
  set_pending (timers c) (S (closing c)) (S (closes c)) c.

Definition handleClose (c : TcpConnection) : outcome TcpConnection :=
  assert_ (connected c || bool_decide (state_ c = kDisconnecting));;
  let c := chan_op disableAll (setState kDisconnected c) in
  c ← notify NConnection c;
  Ok (close_callback c).

Definition forceCloseInLoop (c : TcpConnection) : outcome TcpConnection :=
  if connected c || bool_decide (state_ c = kDisconnecting) then handleClose c else Ok c.

(** [handleError] only reads and prints the pending error. *)
Definition handleError (c : TcpConnection) : outcome TcpConnection := Ok c.

Definition handleRead (readv : list Z -> readv_result) (c : TcpConnection) : outcome TcpConnection :=
  '(n, _, b) ← readFd readv (inputBuffer_ c);
  let c := set_input b c in
  if 0 <? n then notify NMessage c
  else if n =? 0 then handleClose c
  else handleError c.

Definition handleWrite (c : TcpConnection) : outcome TcpConnection :=
  if isWriting (channel_ c) then
    let out := outputBuffer_ c in
    let data := range out (peek out) (peek out + readableBytes out) in
    match write (writes c) data with
    | Wrote n =>
        let c := set_sent (sent c ++ ztake n data) (S (writes c)) c in
        if 0 <? n then
          b ← retrieve (outputBuffer_ c) 0;
          let c := set_output b c in
          if readableBytes (outputBuffer_ c) =? 0 then
            let c := chan_op disableWriting c in
            let c := if writeCompleteCallback_ c then queueInLoop FWriteComplete c else c in
            Ok (if bool_decide (state_ c = kDisconnecting) then shutdownInLoop c else c)
          else Ok c
        else Ok c
    | WriteError _ => Ok (set_sent (sent c) (S (writes c)) c)
    end
  else Ok c.

(** ** The life of a connection *)

Definition run_functor (f : functor) (c : TcpConnection) : outcome TcpConnection :=
  match f with
  | FSend message =>
      (* the bound [std::string] becomes the [StringPiece] parameter *)
      piece ← StringPiece.of_string message;
      sendInLoop (StringPiece.chars piece) c
  | FShutdown => Ok (shutdownInLoop c)
  | FForceClose => forceCloseInLoop c
  | FStartRead => Ok (startReadInLoop c)
  | FWriteComplete => notify NWriteComplete c
  | FHighWaterMark n => notify (NHighWaterMark n) c
  | FConnectDestroyed => connectDestroyed c
  end.

Definition run_callback (readv : list Z -> readv_result) (c : TcpConnection) (k : callback)
  : outcome TcpConnection :=
  match k with
  | closeCallback => handleClose c
  | errorCallback => handleError c
  | readCallback => handleRead readv c
  | writeCallback => handleWrite c
  end.

Inductive label : Type :=
| LEstablish                                        (** the server hands the connection over *)
| LEvent (mask : Z) (readv : list Z -> readv_result)   (** the poller reports events *)
| LFunctor                                          (** the loop runs the next functor *)
| LUser (o : user_op)                               (** a call on the thread of the loop *)
| LForeignSend (message : list ascii)               (** calls from other threads *)
| LForeignShutdown
| LForeignForceClose
| LTimer                                            (** a delayed [forceClose] *)
| LRemove.                                          (** the server acts on a close callback *)

Definition conn_step (c : TcpConnection) (l : label) : outcome TcpConnection :=
  match l with
  | LEstablish => connectEstablished c
  | LEvent mask readv => for_each (run_callback readv) c (selected mask)
  | LFunctor => match queue c with [] => Ok c | f :: fs => run_functor f (set_queue fs c) end
  | LUser o => run_user c o
  | LForeignSend message => Ok (send_foreign message c)
  | LForeignShutdown => Ok (shutdown_foreign c)
  | LForeignForceClose => Ok (forceClose c)
  | LTimer => match timers c with
              | O => Ok c
              | S t => Ok (forceClose (set_pending t (closing c) (closes c) c))
              end
  | LRemove => match closing c with
               | O => Ok c
               | S k => Ok (queueInLoop FConnectDestroyed (set_pending (timers c) k (closes c) c))
               end
  end.

(** ** The invariant *)

Hypothesis write_bounded : forall k data n, write k data = Wrote n -> 0 <= n <= zlen data.

(** The bytes waiting in the output buffer. *)
Definition pending_output (c : TcpConnection) : list ascii := content (outputBuffer_ c).

Definition is_up (n : notification) : bool := match n with NConnection => true | _ => false end.
Definition ups (c : TcpConnection) : nat := length (List.filter is_up (calls c)).
Definition is_destroy (f : functor) : bool := match f with FConnectDestroyed => true | _ => false end.
Definition destroys (c : TcpConnection) : nat := length (List.filter is_destroy (queue c)).

Definition fine_functor (f : functor) : Prop :=
  match f with FStartRead => False | FSend m => zlen m < 2 ^ 31 | _ => True end.

(** What the state says about the channel, the poller and the callbacks so far;
    [owed] is one between the change of state in [handleClose] and the call of
    the close callback. *)
Definition phase (owed : nat) (c : TcpConnection) : Prop :=
  let e := events_ (channel_ c) in
  match state_ c with
  | kConnecting =>
      reg c = None /\ chan_calls c = [] /\ e = 0 /\ queue c = [] /\ closing c = 0%nat /\ closes c = 0%nat /\ ups c = 0%nat /\
      owed = 0%nat
  | kConnected | kDisconnecting =>
      reg c = Some (Some e) /\ (e = kReadEvent \/ e = Z.lor kReadEvent kWriteEvent) /\
      (closing c + destroys c = 0)%nat /\ closes c = 0%nat /\ ups c = 1%nat /\ owed = 0%nat
  | kDisconnected =>
      e = 0 /\ (closes c + owed = 1)%nat /\ ups c = 2%nat /\
      ((reg c = Some None /\ (closing c + destroys c + owed = 1)%nat) \/
       (reg c = None /\ (closing c + destroys c + owed = 0)%nat))
  end.

Record CInv (owed : nat) (c : TcpConnection) : Prop := mkCInv {
  ci_in : wf (inputBuffer_ c);
  ci_out : wf (outputBuffer_ c);
  ci_writing : pending_output c <> [] -> state_ c <> kDisconnected -> isWriting (channel_ c) = true;
  ci_protocol : protocol c = true;
  ci_queue : Forall fine_functor (queue c);
  ci_phase : phase owed c
}.

(** The operations a program may call: not [forceClose] or [startRead] on a
    connection that is closed, nor [retrieve] beyond the end of the buffer. *)
Definition permitted (c : TcpConnection) (o : user_op) : Prop :=
  match o with
  | USend m => zlen m < 2 ^ 31
  | USendInput => True
  | USendBuffer buf => wf buf
  | UShutdown => True
  | UForceClose => state_ c <> kDisconnected
  | UForceCloseWithDelay => True
  | UStartRead => state_ c = kConnected \/ state_ c = kDisconnecting
  | URetrieve n => 0 <= n <= readableBytes (inputBuffer_ c)
  | URetrieveAll | USetHighWaterMark _ | USetWriteComplete => True
  end.

Definition well_behaved : Prop := forall n c, guarded run_user permitted c (user n c).

Definition permitted_label (c : TcpConnection) (l : label) : Prop :=
  match l with
  | LEstablish => state_ c = kConnecting
  | LEvent mask readv =>
      (* the poller only reports channels it watches; a hang-up without input
         comes without urgent data *)
      (exists m, reg c = Some (Some m)) /\
      ~ (closeCallback ∈ selected mask /\ readCallback ∈ selected mask) /\
      (forall iov bs, readv iov = ReadData bs -> zlen bs <= iov_total iov)
  | LFunctor => True
  | LUser o => permitted c o
  | LForeignSend m => zlen m < 2 ^ 31
  | LForeignShutdown => True
  | LForeignForceClose => state_ c <> kDisconnected
  | LTimer => timers c = 0%nat \/ state_ c <> kDisconnected
  | LRemove => True
  end.

(** ** Sending keeps the order of the bytes *)

Lemma repr_wf b : wf b -> repr b (content b).
Proof. done. Qed.

Lemma writing_after_enable e :
  e = kReadEvent \/ e = Z.lor kReadEvent kWriteEvent -> has (Z.lor e kWriteEvent) kWriteEvent = true /\
  Z.lor e kWriteEvent = Z.lor kReadEvent kWriteEvent.
Proof. by intros [-> | ->]. Qed.

(** What [sendInLoop] may change: the output, the write interest, and functors
    for the user's callbacks at the end of the queue. *)
Definition sends (data : list ascii) (c c' : TcpConnection) : Prop :=
  state_ c' = state_ c /\ inputBuffer_ c' = inputBuffer_ c /\ wf (outputBuffer_ c') /\
  (pending_output c' <> [] -> isWriting (channel_ c') = true) /\
  closing c' = closing c /\ closes c' = closes c /\ calls c' = calls c /\ timers c' = timers c /\
  protocol c' = protocol c /\
  (exists fs, queue c' = queue c ++ fs /\ Forall (fun f => fine_functor f /\ is_destroy f = false) fs) /\
  ((channel_ c' = channel_ c /\ reg c' = reg c) \/
   (channel_ c' = set_added (apply_interest enableWriting (channel_ c)) true /\
    reg c' = Some (Some (events_ (channel_ c'))))) /\
  ((sent c' ++ pending_output c' = sent c ++ pending_output c ++ data) \/
   (sent c' = sent c /\ pending_output c = [] /\ pending_output c' = [] /\
    exists e, write (writes c) data = WriteError e /\ (e = EPIPE \/ e = ECONNRESET))).

(** A connection whose channel the poller watches. *)
Definition open (c : TcpConnection) : Prop :=
  reg c = Some (Some (events_ (channel_ c))) /\
  (events_ (channel_ c) = kReadEvent \/ events_ (channel_ c) = Z.lor kReadEvent kWriteEvent).

Lemma chan_op_enableWriting c :
  open c ->
  chan_op enableWriting c =
    set_channel (set_added (apply_interest enableWriting (channel_ c)) true)
      (Some (Some (Z.lor kReadEvent kWriteEvent))) (protocol c) (chan_calls c ++ [CallUpdate enableWriting]) c /\
  events_ (apply_interest enableWriting (channel_ c)) = Z.lor kReadEvent kWriteEvent.
Proof.
  intros [Hr He]. destruct (writing_after_enable _ He) as [_ E].
  unfold chan_op. rewrite Hr. simpl. rewrite E. simpl. by rewrite andb_true_r.
Qed.

Definition user_functor (f : functor) : Prop := fine_functor f /\ is_destroy f = false.

(** [c'] is [c] with a new output buffer, write interest if needed, and
    functors of the user at the end of the queue. *)
Definition rest_post (data : list ascii) (c c' : TcpConnection) : Prop := exists ch r b fs l,
  c' = set_channel ch r (protocol c) l (set_output b (set_queue (queue c ++ fs) c)) /\
  wf b /\ content b = pending_output c ++ data /\ isWriting ch = true /\ Forall user_functor fs /\
  ((ch = channel_ c /\ r = reg c) \/
   (ch = set_added (apply_interest enableWriting (channel_ c)) true /\ r = Some (Some (events_ ch)))).

Lemma buffer_remaining_post data n c :
  open c -> wf (outputBuffer_ c) -> 0 <= n < zlen data -> zlen data <= max_size ->
  unless too_long (buffer_remaining data n (zlen data - n) c) (rest_post (zdrop n data) c).
Proof.
  intros Hopen Hwf Hn Hlen. unfold buffer_remaining.
  set (c0 := if _ && _ && _ then _ else c).
  assert (exists fs, c0 = set_queue (queue c ++ fs) c /\ Forall user_functor fs) as (fs & Ec0 & Hfs).
  { unfold c0. destruct (_ && _ && _); [eexists; split; [reflexivity|by repeat constructor]|]. exists []. rewrite app_nil_r. by destruct c. }
  clearbody c0. subst c0. cbn [outputBuffer_ set_queue].
  destruct (append_cases (outputBuffer_ c) (content (outputBuffer_ c)) (zdrop n data) (zlen data - n))
    as [[-> _]|(b' & -> & [Hb' Hc] & _)]; [done|rewrite zlen_zdrop; lia|lia|done|].
  rewrite ztake_all in Hc by (rewrite zlen_zdrop; lia). cbn [mbind outcome_bind unless].
  set (c1 := set_output b' _). destruct (isWriting (channel_ c1)) eqn:Ew.
  - exists (channel_ c), (reg c), b', fs, (chan_calls c). split; [by destruct c|]. split_and!; try done. by left.
  - assert (Ho1 : open c1) by exact Hopen. destruct (chan_op_enableWriting c1 Ho1) as [-> Ee].
    eexists _, _, b', fs, _. split; [reflexivity|]. do 2 (split; [done|]).
    split; [unfold isWriting; simpl; by destruct (writing_after_enable _ (proj2 Hopen))|].
    split; [done|]. right. split; [done|]. by rewrite <- Ee.
Qed.

Lemma rest_post_sends data d c c1 c' :
  rest_post d c1 c' ->
  state_ c1 = state_ c -> inputBuffer_ c1 = inputBuffer_ c -> closing c1 = closing c ->
  closes c1 = closes c -> calls c1 = calls c -> timers c1 = timers c -> protocol c1 = protocol c ->
  queue c1 = queue c -> channel_ c1 = channel_ c -> reg c1 = reg c ->
  sent c1 ++ pending_output c1 ++ d = sent c ++ pending_output c ++ data -> sends data c c'.
Proof.
  intros (ch & r & b & fs & l & -> & Hb & Hc & Hw & Hfs & Hch) E1 E2 E3 E4 E5 E6 E7 E8 E9 E10 Hs.
  unfold sends. simpl. rewrite <- E8, <- E9, <- E10, <- Hs. split_and!; try done.
  - by exists fs.
  - left. unfold pending_output at 1. simpl. by rewrite Hc.
Qed.

Lemma sends_refl_written data c n fs :
  wf (outputBuffer_ c) -> pending_output c = [] -> Forall user_functor fs -> zlen data <= n ->
  sends data c (set_queue (queue c ++ fs) (set_sent (sent c ++ ztake n data) (S (writes c)) c)).
Proof.
  intros Hwf He Hfs Hn. unfold sends. simpl. split_and!; try done.
  - by exists fs.
  - by left.
  - left. unfold pending_output in *. simpl. rewrite He, ztake_all by done. by rewrite app_nil_r.
Qed.

(** Nothing to buffer: the state of the connection does not change. *)
Lemma sends_nothing data c c' :
  wf (outputBuffer_ c) -> (pending_output c <> [] -> isWriting (channel_ c) = true) ->
  c' = set_sent (sent c) (writes c') c ->
  data = [] \/ (pending_output c = [] /\ exists e, write (writes c) data = WriteError e /\ (e = EPIPE \/ e = ECONNRESET)) ->
  sends data c c'.
Proof.
  intros Hwf Hwr -> Hd. unfold sends. simpl. split_and!; try done.
  - exists []. by rewrite app_nil_r.
  - by left.
  - destruct Hd as [-> |[Hp He]]; [left; by rewrite app_nil_r|right]. by split_and!.
Qed.

(** The attempt to write at once was made. *)
Lemma send_direct data c :
  open c -> wf (outputBuffer_ c) -> pending_output c = [] -> isWriting (channel_ c) = false ->
  zlen data <= max_size -> state_ c <> kDisconnected ->
  unless too_long (sendInLoop data c) (sends data c).
Proof.
  intros Hopen Hwf Hz Hnw Hlen Hst. unfold sendInLoop, try_write. rewrite bool_decide_false by done.
  pose proof (zlen_nonneg data) as Hpos.
  rewrite (readable_repr _ _ (repr_wf _ Hwf)), Hnw. fold (pending_output c). rewrite Hz. cbn [negb andb zlen].
  change (zlen [] =? 0) with true. cbv iota. destruct (write (writes c) data) as [n|e] eqn:Ewr.
  - pose proof (write_bounded _ _ _ Ewr) as Hn. rewrite u64_id by lia.
    rewrite (proj2 (Z.leb_le (zlen data - n) _)) by lia. cbn [negb andb assert_ mbind outcome_bind].
    destruct (Z.ltb_spec 0 (zlen data - n)) as [Hrem|Hrem].
    + rewrite (proj2 (Z.eqb_neq (zlen data - n) 0)) by lia. cbn [andb].
      eapply unless_mono; [apply buffer_remaining_post; [exact Hopen|done|lia|done]|].
      intros c' _ Hp. eapply rest_post_sends; [exact Hp|try done..].
      simpl. change (pending_output (set_sent _ _ c)) with (pending_output c). rewrite Hz. simpl.
      by rewrite <- app_assoc, ztake_zdrop.
    + simpl. destruct ((zlen data - n =? 0) && writeCompleteCallback_ c).
      * apply (sends_refl_written data c n [FWriteComplete]); [done..|by repeat constructor|lia].
      * pose proof (sends_refl_written data c n [] Hwf Hz ltac:(done) ltac:(lia)) as Hr.
        rewrite app_nil_r in Hr. by destruct c.
  - rewrite (proj2 (Z.leb_le (zlen data) _)) by lia. cbn [assert_ mbind outcome_bind].
    destruct (negb _ && (0 <? zlen data)) eqn:Eb.
    + apply andb_true_iff in Eb as [_ Hd]. apply Z.ltb_lt in Hd.
      replace (zlen data) with (zlen data - 0) by lia.
      eapply unless_mono; [apply buffer_remaining_post; [exact Hopen|done|lia|done]|].
      intros c' _ Hp. by eapply rest_post_sends; [exact Hp|try done..].
    + apply sends_nothing; [done|by rewrite Hz|done|].
      apply andb_false_iff in Eb as [Hf|Hd]; [right|left; apply Z.ltb_ge in Hd; apply zlen_zero; lia].
      split; [done|]. exists e. split; [done|]. apply negb_false_iff, andb_true_iff in Hf as [_ Hf].
      apply orb_true_iff in Hf as [Hf|Hf]; apply Z.eqb_eq in Hf; auto.
Qed.

Lemma sendInLoop_sends data c :
  state_ c <> kDisconnected -> open c -> wf (outputBuffer_ c) ->
  (pending_output c <> [] -> isWriting (channel_ c) = true) -> zlen data <= max_size ->
  unless too_long (sendInLoop data c) (sends data c).
Proof.
  intros Hst Hopen Hwf Hwr Hlen. pose proof (zlen_nonneg data) as Hpos.
  destruct (isWriting (channel_ c)) eqn:Ew; cycle 1.
  { apply send_direct; try done. destruct (pending_output c); [done|]. by discriminate Hwr. }
  unfold sendInLoop, try_write. rewrite bool_decide_false, Ew by done.
  cbn [negb andb].
  rewrite (proj2 (Z.leb_le (zlen data) _)) by lia. cbn [negb andb assert_ mbind outcome_bind].
  destruct (Z.ltb_spec 0 (zlen data)) as [Hd|Hd].
  - replace (zlen data) with (zlen data - 0) by lia.
    eapply unless_mono; [apply buffer_remaining_post; [exact Hopen|done|lia|done]|].
    intros c' _ Hp. by eapply rest_post_sends; [exact Hp|try done..].
  - apply sends_nothing; [done|done|by destruct c|left; apply zlen_zero; lia].
Qed.

(** ** Preservation *)

Lemma destroys_app c fs q :
  queue c = q ++ fs -> Forall user_functor fs -> destroys c = length (List.filter is_destroy q).
Proof.
  intros Hq Hfs. unfold destroys. rewrite Hq, List.filter_app, length_app.
  assert (List.filter is_destroy fs = []) as ->; [|simpl; lia].
  clear Hq. induction Hfs as [|f fs [_ Hf] _ IH]; [done|]. simpl. by rewrite Hf.
Qed.

Definition live (c : TcpConnection) : Prop := state_ c = kConnected \/ state_ c = kDisconnecting.

Lemma live_open owed c : CInv owed c -> live c ->
  open c /\ (closing c + destroys c = 0)%nat /\ closes c = 0%nat /\ ups c = 1%nat /\ owed = 0%nat.
Proof. intros [_ _ _ _ _ Hp] [E|E]; unfold phase in Hp; rewrite E in Hp; unfold open; tauto. Qed.

Lemma phase_live owed c :
  live c -> open c -> (closing c + destroys c = 0)%nat -> closes c = 0%nat -> ups c = 1%nat ->
  owed = 0%nat -> phase owed c.
Proof. intros [E|E] [H1 H2] ? ? ? ?; unfold phase; rewrite E; tauto. Qed.

Lemma sends_inv owed data c c' : CInv owed c -> live c -> sends data c c' -> CInv owed c'.
Proof.
  intros Hi Hl (E1 & E2 & Hwf & Hw & E3 & E4 & E5 & _ & E7 & (fs & Hq & Hfs) & Hch & _).
  destruct (live_open owed c Hi Hl) as ((Hr & He) & Hc & Hcl & Hu & Ho).
  assert (Hopen' : open c').
  { destruct Hch as [[Hch1 Hch2]|[Hch1 Hch2]]; split.
    - by rewrite Hch1, Hch2.
    - by rewrite Hch1.
    - done.
    - rewrite Hch1. simpl. right. by apply writing_after_enable. }
  constructor; try congruence.
  - rewrite E2. apply Hi.
  - intros Hp _. by apply Hw.
  - rewrite E7. apply Hi.
  - rewrite Hq. apply Forall_app. split; [apply Hi|]. eapply Forall_impl; [exact Hfs|]. by intros f [? _].
  - apply phase_live; try congruence.
    + unfold live. by rewrite E1.
    + rewrite E3, (destroys_app c' fs (queue c)) by done. done.
    + unfold ups. by rewrite E5.
Qed.

Lemma sendInLoop_inv owed data c :
  CInv owed c -> state_ c <> kConnecting -> zlen data <= max_size ->
  unless too_long (sendInLoop data c) (CInv owed).
Proof.
  intros Hi Hst Hlen. destruct (decide (state_ c = kDisconnected)) as [Ed|Hd].
  - unfold sendInLoop. by rewrite bool_decide_true.
  - assert (Hl : live c) by (unfold live; destruct (state_ c); auto; done).
    destruct (live_open owed c Hi Hl) as (Ho & _).
    eapply unless_mono; [apply sendInLoop_sends; try done; try apply Hi|].
    + intros Hp. by apply (ci_writing _ _ Hi).
    + intros c' _. by apply sends_inv.
Qed.

Lemma connected_spec c : connected c = true <-> state_ c = kConnected.
Proof. apply bool_decide_eq_true. Qed.

Lemma content_bound b : wf b -> zlen (range b (peek b) (peek b + readableBytes b)) <= max_size.
Proof.
  intros Hb. pose proof (repr_wf b Hb) as Hr. pose proof (repr_bound _ _ Hr) as (H1 & H2 & H3).
  rewrite (readable_repr b _ Hr). pose proof (zlen_nonneg (content b)).
  rewrite (range_peek b (content b)) by (done || lia). rewrite ztake_all by lia. lia.
Qed.

(** Changes of the state between connected and disconnecting, of the shutdown
    flag, of the timers, and of the user's part of the queue. *)
Lemma CInv_live owed c c' fs :
  CInv owed c -> live c -> live c' -> channel_ c' = channel_ c -> reg c' = reg c ->
  protocol c' = protocol c -> inputBuffer_ c' = inputBuffer_ c -> outputBuffer_ c' = outputBuffer_ c ->
  queue c' = queue c ++ fs -> Forall user_functor fs -> closing c' = closing c -> closes c' = closes c ->
  calls c' = calls c -> CInv owed c'.
Proof.
  intros Hi Hl Hl' E1 E2 E3 E4 E5 E6 Hfs E7 E8 E9.
  destruct (live_open owed c Hi Hl) as ((Hr & He) & Hc & Hcl & Hu & Ho). constructor.
  - rewrite E4. apply Hi.
  - rewrite E5. apply Hi.
  - unfold pending_output. rewrite E5, E1. intros Hp _. apply (ci_writing _ _ Hi); [done|].
    by destruct Hl as [-> | ->].
  - rewrite E3. apply Hi.
  - rewrite E6. apply Forall_app. split; [apply Hi|]. eapply Forall_impl; [exact Hfs|]. by intros f [? _].
  - apply phase_live; try done; try congruence.
    + unfold open. by rewrite E1, E2.
    + rewrite E7, (destroys_app c' fs (queue c)) by done. done.
    + unfold ups. by rewrite E9.
Qed.

Lemma CInv_input owed c b : CInv owed c -> wf b -> CInv owed (set_input b c).
Proof. intros [H1 H2 H3 H4 H5 H6] Hb. by constructor. Qed.

Lemma CInv_sent owed c l k : CInv owed c -> CInv owed (set_sent l k c).
Proof. intros [H1 H2 H3 H4 H5 H6]. by constructor. Qed.

Lemma startReadInLoop_inv owed c : CInv owed c -> live c -> CInv owed (startReadInLoop c).
Proof.
  intros Hi Hl. unfold startReadInLoop. destruct (_ || _); [|done].
  destruct (live_open owed c Hi Hl) as ((Hr & He) & Hc & Hcl & Hu & Ho).
  assert (Hev : events_ (apply_interest enableReading (channel_ c)) = events_ (channel_ c))
    by (simpl; by destruct He as [-> | ->]).
  assert (Hmask : (events_ (channel_ c) =? 0) = false) by (by destruct He as [-> | ->]).
  unfold chan_op. rewrite Hr. cbn [events_ set_added] in *. rewrite Hev, Hmask. simpl.
  constructor; simpl; try apply Hi.
  - intros Hpo Hs. unfold isWriting. simpl. simpl in Hev. rewrite Hev. by apply (ci_writing _ _ Hi).
  - rewrite andb_true_r. apply Hi.
  - apply phase_live; try done. split; simpl in *; by rewrite Hev.
Qed.

Lemma run_user_inv owed c o : CInv owed c -> permitted c o -> unless too_long (run_user c o) (CInv owed).
Proof.
  intros Hi Hp. destruct o as [m| |buf| | | | |n| |mark|]; simpl in *.
  - unfold send. destruct (connected c) eqn:Ec; [|done]. apply connected_spec in Ec.
    apply sendInLoop_inv; [done|by rewrite Ec|unfold max_size; lia].
  - unfold send_buffer. destruct (connected c) eqn:Ec.
    + apply connected_spec in Ec. pose proof (ci_in _ _ Hi) as Hin.
      pose proof (sendInLoop_inv owed _ c Hi ltac:(by rewrite Ec) (content_bound _ Hin)) as Hs.
      destruct (sendInLoop _ c) as [c'|f]; [|done]. simpl in *. apply CInv_input; [done|].
      apply (retrieveAll_repr _ _ (repr_wf _ Hin)).
    + simpl. apply CInv_input; [done|apply Hi].
  - unfold send_buffer. destruct (connected c) eqn:Ec; [|done].
    apply connected_spec in Ec.
    pose proof (sendInLoop_inv owed _ c Hi ltac:(by rewrite Ec) (content_bound _ Hp)) as Hs.
    by destruct (sendInLoop _ c).
  - unfold shutdown, shutdownInLoop. destruct (connected c) eqn:Ec; [|done]. apply connected_spec in Ec.
    cbn [channel_ setState]. destruct (isWriting (channel_ c));
      apply (CInv_live owed c _ []); rewrite ?app_nil_r; try done; try (by left); by right.
  - unfold forceClose. destruct (connected c) eqn:Ec; simpl.
    + apply connected_spec in Ec.
      apply (CInv_live owed c _ [FForceClose]); try done; [by left|by right|by repeat constructor].
    + unfold disconnected. by rewrite bool_decide_false.
  - unfold forceCloseWithDelay. destruct (connected c || bool_decide _) eqn:Ec; [|done].
    assert (live c). { apply orb_true_iff in Ec as [Ec|Ec]; [left; by apply connected_spec|right].
      by apply bool_decide_eq_true in Ec. }
    apply (CInv_live owed c _ []); rewrite ?app_nil_r; try done. by right.
  - by apply startReadInLoop_inv.
  - pose proof (ci_in _ _ Hi) as Hin. pose proof (repr_wf _ Hin) as Hr.
    rewrite (readable_repr _ _ Hr) in Hp.
    destruct (retrieve_repr _ _ n Hr Hp) as (b' & -> & [Hb' _] & _). simpl. by apply CInv_input.
  - apply CInv_input; [done|]. apply (retrieveAll_repr _ _ (repr_wf _ (ci_in _ _ Hi))).
  - by destruct Hi.
  - by destruct Hi.
Qed.

Hypothesis user_ok : well_behaved.

Lemma notify_inv owed n c :
  CInv owed (record_call n c) -> unless too_long (notify n c) (CInv owed).
Proof.
  intros Hi. unfold notify. eapply unless_guarded; [|exact Hi|apply user_ok].
  intros c' o Hc' Hp. by apply run_user_inv.
Qed.

(** A notification other than of a connection changes nothing the invariant reads. *)
Lemma CInv_record owed n c : is_up n = false -> CInv owed c -> CInv owed (record_call n c).
Proof.
  intros Hn [H1 H2 H3 H4 H5 H6]. constructor; try done. unfold phase in *. simpl.
  assert (ups (record_call n c) = ups c) as ->; [|done].
  unfold ups. simpl. rewrite List.filter_app. simpl. by rewrite Hn, app_nil_r.
Qed.

Lemma ups_record c : ups (record_call NConnection c) = S (ups c).
Proof. unfold ups. simpl. rewrite List.filter_app, length_app. simpl. lia. Qed.

Lemma connectEstablished_inv c :
  CInv 0 c -> state_ c = kConnecting -> unless too_long (connectEstablished c) (CInv 0).
Proof.
  intros [H1 H2 H3 H4 H5 H6] Hst. unfold connectEstablished. rewrite bool_decide_true by done.
  cbn [assert_ mbind outcome_bind]. apply notify_inv. unfold phase in H6. rewrite Hst in H6.
  destruct H6 as (Hr & Hcalls & He & Hq & Hc & Hcl & Hu & _).
  unfold chan_op. simpl. rewrite Hr, He. constructor; simpl; try done.
  - intros Hp _. unfold isWriting. simpl. exfalso. pose proof (H3 Hp) as Hw. rewrite Hst in Hw.
    specialize (Hw ltac:(done)). unfold isWriting in Hw. by rewrite He in Hw.
  - by rewrite H4, Hcalls.
  - unfold phase. simpl. rewrite ups_record. unfold ups, destroys in *. simpl. rewrite Hq, Hu.
    rewrite He. split; [done|]. split; [by left|]. simpl. lia.
Qed.

Lemma handleClose_inv c : CInv 0 c -> live c -> unless too_long (handleClose c) (CInv 0).
Proof.
  intros Hi Hl. destruct (live_open 0 c Hi Hl) as ((Hr & He) & Hc & Hcl & Hu & _).
  destruct Hi as [H1 H2 H3 H4 H5 _]. unfold handleClose.
  replace (connected c || bool_decide (state_ c = kDisconnecting)) with true; cycle 1.
  { symmetry. apply orb_true_iff. destruct Hl as [E|E]; [left; by apply connected_spec|right].
    by apply bool_decide_eq_true. }
  cbn [assert_ mbind outcome_bind]. set (c1 := chan_op disableAll _).
  assert (Hc1 : CInv 1 (record_call NConnection c1)).
  { unfold c1, chan_op. simpl. rewrite Hr. constructor; simpl; try done.
    - by rewrite H4.
    - unfold phase. simpl. rewrite ups_record. unfold ups, destroys in *. simpl. rewrite Hu, Hcl.
      do 3 (split; [done|]). left. split; [done|]. lia. }
  eapply unless_bind; [by apply notify_inv|]. intros c2 _ [K1 K2 K3 K4 K5 K6]. simpl.
  unfold phase in K6. destruct (state_ c2) eqn:Es; try (exfalso; lia).
  constructor; simpl; try done; try (by rewrite Es).
  unfold phase. simpl. rewrite Es. change (destroys (close_callback c2)) with (destroys c2).
  change (ups (close_callback c2)) with (ups c2). destruct K6 as (L1 & L2 & L3 & L4).
  do 3 (split; [done || lia|]). destruct L4 as [[L4 L5]|[L4 L5]]; [left|lia]. split; [done|lia].
Qed.

Lemma handleWrite_inv c : CInv 0 c -> unless too_long (handleWrite c) (CInv 0).
Proof.
  intros Hi. unfold handleWrite. destruct (isWriting (channel_ c)) eqn:Ew; [|done].
  pose proof (repr_wf _ (ci_out _ _ Hi)) as Hr.
  set (data := range _ _ _). destruct (write (writes c) data) as [n|e] eqn:Ewr; [|by apply CInv_sent].
  pose proof (write_bounded _ _ _ Ewr) as Hn.
  destruct (Z.ltb_spec 0 n) as [Hpos|]; [|by apply CInv_sent].
  destruct (retrieve_repr _ _ 0 Hr) as (b' & Hb' & [Hwf Hc] & _); [pose proof (zlen_nonneg (content (outputBuffer_ c))); lia|].
  cbn [outputBuffer_ set_sent]. rewrite Hb'. cbn [mbind outcome_bind outputBuffer_ set_output].
  rewrite zdrop_0 in Hc. rewrite (readable_repr b' (content (outputBuffer_ c))) by (split; done).
  assert (Hdata : zlen data <= zlen (content (outputBuffer_ c))).
  { unfold data. rewrite (readable_repr _ _ Hr). pose proof (zlen_nonneg (content (outputBuffer_ c))).
    rewrite (range_peek _ _ _ Hr) by lia. rewrite ztake_all; lia. }
  rewrite (proj2 (Z.eqb_neq (zlen (content (outputBuffer_ c))) 0)) by lia. simpl.
  destruct Hi as [H1 H2 H3 H4 H5 H6]. constructor; simpl; try done.
Qed.

Lemma handleRead_inv readv c :
  CInv 0 c -> live c -> (forall iov bs, readv iov = ReadData bs -> zlen bs <= iov_total iov) ->
  unless too_long (handleRead readv c) (CInv 0).
Proof.
  intros Hi Hl Hread. unfold handleRead. pose proof (repr_wf _ (ci_in _ _ Hi)) as Hr.
  destruct (readv (readFd_iov (inputBuffer_ c))) as [e|bs] eqn:Erd.
  - unfold readFd. rewrite Erd. simpl. unfold handleError. simpl. apply CInv_input; [done|apply Hi].
  - destruct (readFd_cases _ _ readv bs Hr Erd (Hread _ _ Erd)) as [[-> _]|(b' & -> & [Hb' _])]; [done|].
    cbn [mbind outcome_bind]. assert (Hi' : CInv 0 (set_input b' c)) by by apply CInv_input.
    destruct (0 <? zlen bs).
    + apply notify_inv. by apply CInv_record.
    + destruct (zlen bs =? 0); [|done]. by apply handleClose_inv.
Qed.

(** The poller only watches connections that are up. *)
Lemma watched_live c m : CInv 0 c -> reg c = Some (Some m) -> live c.
Proof.
  intros Hi Hreg. pose proof (ci_phase _ _ Hi) as Hp. unfold phase in Hp. unfold live. destruct (state_ c); auto.
  - destruct Hp as (_ & _ & _ & [[? _]|[? _]]); congruence.
  - destruct Hp as (? & _). congruence.
Qed.

Lemma LEvent_inv mask readv c :
  CInv 0 c -> permitted_label c (LEvent mask readv) ->
  unless too_long (for_each (run_callback readv) c (selected mask)) (CInv 0).
Proof.
  intros Hi ((m & Hreg) & Hex & Hread). pose proof (watched_live c m Hi Hreg) as Hl.
  apply selected_inv; try done.
  - by apply handleClose_inv.
  - intros _. by apply handleRead_inv.
  - intros c1 H1. by apply handleWrite_inv.
Qed.

(** The queue without its first functor, and without what its removal means. *)
Lemma CInv_pop f fs c :
  CInv 0 c -> queue c = f :: fs -> is_destroy f = false -> CInv 0 (set_queue fs c).
Proof.
  intros [H1 H2 H3 H4 H5 H6] Hq Hf. constructor; simpl; try done.
  - rewrite Hq in H5. by inversion H5.
  - unfold phase in *. simpl.
    assert (destroys (set_queue fs c) = destroys c) as -> by (unfold destroys; rewrite Hq; simpl; by rewrite Hf).
    change (ups (set_queue fs c)) with (ups c). destruct (state_ c); try done.
    destruct H6 as (_ & _ & _ & Hq' & _). congruence.
Qed.

Lemma connectDestroyed_inv fs c :
  CInv 0 c -> queue c = FConnectDestroyed :: fs ->
  unless too_long (connectDestroyed (set_queue fs c)) (CInv 0).
Proof.
  intros [H1 H2 H3 H4 H5 H6] Hq.
  assert (Hd : destroys c = S (length (List.filter is_destroy fs))) by (unfold destroys; by rewrite Hq).
  unfold phase in H6. destruct (state_ c) eqn:Es; try (exfalso; lia); cycle 1.
  { destruct H6 as (_ & _ & _ & Hq' & _). congruence. }
  destruct H6 as (He & Hcl & Hu & [[Hr Hc]|[_ Hc]]); [|lia].
  unfold connectDestroyed, connected. simpl. rewrite Es. simpl.
  unfold chan_remove, isNoneEvent, kNoneEvent. simpl. rewrite He, Hr. simpl. constructor; simpl; try done.
  - rewrite H4. reflexivity.
  - rewrite Hq in H5. by inversion H5.
  - unfold phase. simpl. rewrite Es. unfold destroys in *. simpl. split_and!; try done. right. split; [done|lia].
Qed.

Lemma until_nul_le m : zlen (StringPiece.until_nul m) <= zlen m.
Proof.
  destruct (StringPiece.until_nul_prefix m) as [t Ht]. rewrite Ht at 2. rewrite zlen_app.
  pose proof (zlen_nonneg t). lia.
Qed.

Lemma run_functor_inv f fs c :
  CInv 0 c -> queue c = f :: fs -> unless too_long (run_functor f (set_queue fs c)) (CInv 0).
Proof.
  intros Hi Hq. pose proof (ci_queue _ _ Hi) as Hfine. rewrite Hq in Hfine. inversion Hfine as [|? ? Hf _]; subst.
  assert (Hnc : state_ c <> kConnecting).
  { intros E. pose proof (ci_phase _ _ Hi) as Hp. unfold phase in Hp. rewrite E in Hp.
    destruct Hp as (_ & _ & _ & Hq' & _). congruence. }
  destruct f as [m| | | | |n|]; try (pose proof (CInv_pop _ fs c Hi Hq eq_refl) as Hi'); simpl in *.
  - destruct (StringPiece.of_string_spec m Hf) as (p & -> & _ & Hch). cbn [mbind outcome_bind].
    apply sendInLoop_inv; [done|done|]. rewrite Hch. pose proof (until_nul_le m). unfold max_size. lia.
  - unfold shutdownInLoop. destruct (isWriting _); [done|]. destruct Hi' as [H1 H2 H3 H4 H5 H6]. by constructor.
  - unfold forceCloseInLoop. destruct (_ || _) eqn:E; [|done]. apply handleClose_inv; [done|].
    apply orb_true_iff in E as [E|E]; [left; by apply connected_spec in E|right; by apply bool_decide_eq_true in E].
  - done.
  - apply notify_inv. by apply CInv_record.
  - apply notify_inv. by apply CInv_record.
  - by apply connectDestroyed_inv.
Qed.

Lemma conn_step_inv c l :
  CInv 0 c -> permitted_label c l -> unless too_long (conn_step c l) (CInv 0).
Proof.
  intros Hi Hp. destruct l as [|mask readv| |o|m| | | |]; cbn [conn_step].
  - by apply connectEstablished_inv.
  - by apply LEvent_inv.
  - destruct (queue c) as [|f fs] eqn:Hq; [done|]. by apply run_functor_inv.
  - by apply run_user_inv.
  - simpl. unfold send_foreign. destruct (connected c) eqn:Ec; [|done]. apply connected_spec in Ec.
    apply (CInv_live 0 c _ [FSend m]); try done; [by left..|by repeat constructor].
  - simpl. unfold shutdown_foreign. destruct (connected c) eqn:Ec; [|done]. apply connected_spec in Ec.
    apply (CInv_live 0 c _ [FShutdown]); try done; [by left|by right|by repeat constructor].
  - exact (run_user_inv 0 c UForceClose Hi Hp).
  - destruct (timers c) as [|t] eqn:Et; [done|].
    apply (run_user_inv 0 (set_pending t (closing c) (closes c) c) UForceClose).
    + destruct Hi as [H1 H2 H3 H4 H5 H6]. by constructor.
    + simpl in *. destruct Hp as [Hp|Hp]; [congruence|done].
  - destruct (closing c) as [|k] eqn:Ec; [done|]. destruct Hi as [H1 H2 H3 H4 H5 H6].
    constructor; simpl; try done.
    + apply Forall_app. split; [done|]. by repeat constructor.
    + unfold phase in *. simpl in *. unfold destroys, ups in *. simpl. rewrite List.filter_app, length_app. simpl.
      destruct (state_ c); rewrite ?Ec in H6; try lia.
      destruct H6 as (? & ? & ? & [[? ?]|[? ?]]); [|lia]. split_and!; try done. left. split; [done|lia].
Qed.

Lemma new_TcpConnection_inv fd input output wc hw :
  wf input -> repr output [] -> CInv 0 (new_TcpConnection fd input output wc hw).
Proof.
  intros H1 [H2 H3]. by constructor.
Qed.

Lemma conn_life c ls :
  CInv 0 c -> guarded conn_step permitted_label c ls ->
  unless too_long (for_each conn_step c ls) (CInv 0).
Proof. intros Hi Hg. eapply unless_guarded; [|exact Hi|exact Hg]. intros. by apply conn_step_inv. Qed.

(** ** Streams of bytes *)

Definition no_fault : Prop := forall k data, write k data <> WriteError EPIPE /\ write k data <> WriteError ECONNRESET.

Lemma send_stream m c :
  no_fault -> CInv 0 c -> state_ c = kConnected -> zlen m < 2 ^ 31 ->
  unless too_long (send m c) (fun c' => CInv 0 c' /\ state_ c' = kConnected /\
    sent c' ++ pending_output c' = sent c ++ pending_output c ++ m).
Proof.
  intros Hnf Hi Hst Hlen. unfold send. rewrite (proj2 (connected_spec c) Hst).
  assert (Hl : live c) by by left. destruct (live_open 0 c Hi Hl) as (Ho & _).
  eapply unless_mono; [apply sendInLoop_sends; try done; try apply Hi|].
  - by rewrite Hst.
  - intros Hp. apply (ci_writing _ _ Hi); [done|by rewrite Hst].
  - unfold max_size. lia.
  - intros c' _ Hs. split; [by eapply sends_inv|]. destruct Hs as (Es & _ & _ & _ & _ & _ & _ & _ & _ & _ & _ & Hs).
    split; [congruence|]. destruct Hs as [Hs|(_ & _ & _ & e & He & Hcase)]; [done|].
    exfalso. destruct (Hnf (writes c) m) as [H1 H2]. destruct Hcase as [-> | ->]; congruence.
Qed.

Lemma sends_stream ms c :
  no_fault -> CInv 0 c -> state_ c = kConnected -> Forall (fun m => zlen m < 2 ^ 31) ms ->
  unless too_long (for_each (fun c m => send m c) c ms) (fun c' => CInv 0 c' /\ state_ c' = kConnected /\
    sent c' ++ pending_output c' = sent c ++ pending_output c ++ concat ms).
Proof.
  intros Hnf. revert c. induction ms as [|m ms IH]; intros c Hi Hst Hall; simpl.
  - by rewrite app_nil_r.
  - inversion Hall as [|? ? Hm Hms]; subst. eapply unless_bind; [by apply send_stream|].
    intros c1 _ (Hi1 & Hst1 & E1). eapply unless_mono; [by apply IH|].
    intros c2 _ (Hi2 & Hst2 & E2). split; [done|]. split; [done|]. rewrite E2, app_assoc, E1.
    by rewrite <- !app_assoc.
Qed.

(** What [handleWrite] does with a non-empty output buffer. *)
Lemma handleWrite_resends_once c n :
  wf (outputBuffer_ c) -> isWriting (channel_ c) = true -> 0 < n ->
  write (writes c) (pending_output c) = Wrote n ->
  exists c', handleWrite c = Ok c' /\ sent c' = sent c ++ ztake n (pending_output c) /\
    wf (outputBuffer_ c') /\ pending_output c' = pending_output c /\ channel_ c' = channel_ c /\
    queue c' = queue c /\ writes c' = S (writes c).
Proof.
  intros Hwf Hw Hpos Hn. unfold handleWrite. rewrite Hw. pose proof (repr_wf _ Hwf) as Hr.
  pose proof (zlen_nonneg (content (outputBuffer_ c))) as Hz.
  assert (Hd : range (outputBuffer_ c) (peek (outputBuffer_ c))
    (peek (outputBuffer_ c) + readableBytes (outputBuffer_ c)) = pending_output c).
  { rewrite (readable_repr _ _ Hr), (range_peek _ _ _ Hr) by lia. by apply ztake_all. }
  rewrite Hd, Hn. pose proof (write_bounded _ _ _ Hn) as Hb. unfold pending_output in Hb.
  rewrite (proj2 (Z.ltb_lt 0 n)) by done.
  destruct (retrieve_repr _ _ 0 Hr) as (b' & Hb' & [Hwf' Hc] & _); [lia|].
  cbn [outputBuffer_ set_sent]. rewrite Hb'. cbn [mbind outcome_bind outputBuffer_ set_output].
  rewrite zdrop_0 in Hc. rewrite (readable_repr b' (content (outputBuffer_ c))) by (split; done).
  rewrite (proj2 (Z.eqb_neq (zlen (content (outputBuffer_ c))) 0)) by lia.
  eexists; split; [done|]. done.
Qed.

End Connection.

(** ** Concrete instances *)

Definition full_write (k : nat) (data : list ascii) : write_result := Wrote (zlen data).

(** A kernel that takes three bytes at a time. *)
Definition short_write (k : nat) (data : list ascii) : write_result := Wrote (Z.min 3 (zlen data)).

Lemma full_write_bounded k data n : full_write k data = Wrote n -> 0 <= n <= zlen data.
Proof. intros [= <-]. pose proof (zlen_nonneg data). lia. Qed.

Lemma short_write_bounded k data n : short_write k data = Wrote n -> 0 <= n <= zlen data.
Proof. intros [= <-]. pose proof (zlen_nonneg data). lia. Qed.

Lemma short_write_no_fault : no_fault short_write.
Proof. intros k data. split; discriminate. Qed.

(** An echo server. *)
Definition echo_user (n : notification) (c : TcpConnection) : list user_op :=
  match n with NMessage => [USendInput] | _ => [] end.

Lemma echo_well_behaved write : well_behaved write echo_user.
Proof. intros [] c; simpl; try done. Qed.

Lemma default_well_behaved write : well_behaved write default_callbacks.
Proof. intros [] c; simpl; try done. Qed.

Definition silent_user (n : notification) (c : TcpConnection) : list user_op := [].

Lemma silent_well_behaved write : well_behaved write silent_user.
Proof. by intros n c. Qed.

Definition fresh_connection : TcpConnection := new_TcpConnection 9 empty_buffer empty_buffer true true.

Lemma fresh_connection_inv : CInv 0 fresh_connection.
Proof. apply new_TcpConnection_inv; apply empty_buffer_repr. Qed.

Definition read_hello (iov : list Z) : readv_result :=
  if 5 <=? iov_total iov then ReadData (bytes "hello") else ReadError 11.

Lemma read_hello_bounded iov bs : read_hello iov = ReadData bs -> zlen bs <= iov_total iov.
Proof. unfold read_hello. destruct (Z.leb_spec 5 (iov_total iov)); [|done]. intros [= <-]. done. Qed.

(** The connection after the handshake. *)
Definition open_connection : TcpConnection :=
  mkConn kConnected true (mkChannel 9 kReadEvent 0 (-1) true true false true) (Some (Some kReadEvent)) true
    [CallUpdate enableReading]
    empty_buffer empty_buffer (64 * 1024 * 1024) true true [] 0 0 [] 0 false [NConnection] 0.

Lemma open_connection_step write : conn_step write silent_user fresh_connection LEstablish = Ok open_connection.
Proof. reflexivity. Qed.

Lemma open_connection_inv : CInv 0 open_connection.
Proof.
  constructor; try apply empty_buffer_repr; try done. simpl. split_and!; try done. by left.
Qed.

(** ** Properties *)



(** C11. Sending keeps the order of the bytes: over any sequence of [send] calls
    on a connected connection, the bytes the kernel accepted followed by those
    in the output buffer are the concatenation of the messages, however the
    kernel splits the writes. *)
Theorem send_keeps_order (write : nat -> list ascii -> write_result) (ms : list (list ascii)) (c : TcpConnection) :
  (forall k data n, write k data = Wrote n -> 0 <= n <= zlen data) -> no_fault write ->
  CInv 0 c -> state_ c = kConnected -> Forall (fun m => zlen m < 2 ^ 31) ms ->
  unless too_long (for_each (fun c m => send write m c) c ms) (fun c' =>
    sent c' ++ pending_output c' = sent c ++ pending_output c ++ concat ms).
Proof.
  intros Hw Hnf Hi Hst Hall. eapply unless_mono; [by apply sends_stream|]. by intros c' _ (_ & _ & E).
Qed.

Lemma send_keeps_order_witness :
  exists c', for_each (fun c m => send short_write m c) open_connection [bytes "hello "; bytes "world"] = Ok c' /\
    sent c' ++ pending_output c' = bytes "hello world" /\ sent c' = bytes "hel".
Proof.
  pose proof (send_keeps_order short_write [bytes "hello "; bytes "world"] open_connection
    short_write_bounded) as H.
  destruct (for_each _ open_connection _) as [c'|f] eqn:E; [|exfalso; vm_compute in E; discriminate E].
  exists c'. split; [reflexivity|]. split.
  - apply H.
    + apply short_write_no_fault.
    + apply open_connection_inv.
    + reflexivity.
    + repeat constructor.
  - vm_compute in E. by injection E as <-.
Defined.

(** C36. The defect of [handleWrite]: it never removes what it wrote from the
    output buffer ([retrieve(0)]).  After any number of writable events the
    buffer and the write interest are unchanged, and the kernel has been given
    the same prefix again each time. *)
Theorem handleWrite_never_drains (write : nat -> list ascii -> write_result) (c : TcpConnection) (n : Z) (k : nat) :
  (forall k data n, write k data = Wrote n -> 0 <= n <= zlen data) ->
  wf (outputBuffer_ c) -> isWriting (channel_ c) = true -> 0 < n ->
  (forall j, write j (pending_output c) = Wrote n) ->
  exists c', for_each (fun c _ => handleWrite write c) c (replicate k tt) = Ok c' /\
    pending_output c' = pending_output c /\ isWriting (channel_ c') = true /\
    sent c' = sent c ++ concat (replicate k (ztake n (pending_output c))).
Proof.
  intros Hb Hwf Hw Hn Hans. revert c Hwf Hw Hans. induction k as [|k IH]; intros c Hwf Hw Hans.
  - exists c. simpl. by rewrite app_nil_r.
  - destruct (handleWrite_resends_once write Hb c n Hwf Hw Hn (Hans _))
      as (c1 & E1 & Es & Hwf1 & Ep & Ech & _).
    destruct (IH c1) as (c2 & E2 & Ep2 & Hw2 & Es2); [done|by rewrite Ech|by rewrite Ep|].
    exists c2. simpl. rewrite E1. simpl. split; [exact E2|]. rewrite Ep2, Ep. split; [done|].
    split; [done|]. rewrite Es2, Es, Ep. by rewrite <- app_assoc.
Qed.

(** A connection with five bytes waiting. *)
Definition waiting_connection : TcpConnection :=
  set_output (layout (replicate 8 StringPiece.NUL) (bytes "hello") (replicate 1019 StringPiece.NUL))
    (set_channel (mkChannel 9 (Z.lor kReadEvent kWriteEvent) 0 1 true true false true)
       (Some (Some (Z.lor kReadEvent kWriteEvent))) true
       [CallUpdate enableReading; CallUpdate enableWriting] open_connection).

Lemma handleWrite_never_drains_witness :
  exists c', for_each (fun c _ => handleWrite short_write c) waiting_connection (replicate 2 tt) = Ok c' /\
    pending_output c' = bytes "hello" /\ sent c' = bytes "helhel".
Proof.
  destruct (handleWrite_never_drains short_write waiting_connection 3 2) as (c' & E & Ep & _ & Es).
  - apply short_write_bounded.
  - vm_compute. intuition discriminate.
  - reflexivity.
  - lia.
  - reflexivity.
  - exists c'. split; [exact E|]. rewrite Ep, Es. split; reflexivity.
Defined.

(** The defect of [forceCloseWithDelay]: when the timer fires, the state it
    has set itself makes [forceClose] do nothing, so the connection is not
    closed and nothing that would close it is queued. *)
Theorem forceCloseWithDelay_does_not_close (write : nat -> list ascii -> write_result)
    (user : notification -> TcpConnection -> list user_op) (c : TcpConnection) :
  live c ->
  exists c', conn_step write user (forceCloseWithDelay c) LTimer = Ok c' /\
    state_ c' = kDisconnecting /\ queue c' = queue c /\ closes c' = closes c /\ channel_ c' = channel_ c.
Proof.
  intros Hl. unfold forceCloseWithDelay.
  replace (connected c || bool_decide (state_ c = kDisconnecting)) with true; cycle 1.
  { symmetry. apply orb_true_iff. destruct Hl as [E|E]; [left; by apply connected_spec|right].
    by apply bool_decide_eq_true. }
  simpl. eexists; split; [reflexivity|]. done.
Qed.

Lemma forceCloseWithDelay_does_not_close_witness :
  exists c', conn_step full_write silent_user (forceCloseWithDelay open_connection) LTimer = Ok c' /\
    state_ c' = kDisconnecting /\ queue c' = [].
Proof.
  destruct (forceCloseWithDelay_does_not_close full_write silent_user open_connection) as (c' & E & Es & Eq & _).
  - by left.
  - exists c'. done.
Defined.

(** The defect of [forceClose]: on a connection that is already closed it
    reopens the closing path, and the connection and close callbacks run a
    second time. *)
Theorem forceClose_closes_twice (write : nat -> list ascii -> write_result) (c : TcpConnection) :
  CInv 0 c -> state_ c = kDisconnected -> queue c = [] ->
  exists c', for_each (conn_step write silent_user) c [LForeignForceClose; LFunctor] = Ok c' /\
    closes c' = 2%nat /\ ups c' = 3%nat.
Proof.
  intros Hi Hst Hq. pose proof (ci_phase _ _ Hi) as Hp. unfold phase in Hp. rewrite Hst in Hp.
  destruct Hp as (_ & Hcl & Hu & _). simpl. unfold forceClose, connected, disconnected.
  rewrite Hst. simpl. rewrite Hq. simpl. eexists; split; [reflexivity|].
  unfold ups in *. simpl. rewrite List.filter_app, length_app, Hu. simpl. split; lia.
Qed.

(** A connection the peer has closed and that the server has let go. *)
Definition closed_connection : TcpConnection :=
  mkConn kDisconnected true (mkChannel 9 0 0 (-1) true true false false) None true
    [CallUpdate enableReading; CallUpdate disableAll; CallRemove]
    empty_buffer empty_buffer (64 * 1024 * 1024) true true [] 0 0 [] 0 false [NConnection; NConnection] 1.

Lemma forceClose_closes_twice_witness :
  exists c', for_each (conn_step full_write silent_user) closed_connection
      [LForeignForceClose; LFunctor] = Ok c' /\ closes c' = 2%nat /\ ups c' = 3%nat.
Proof.
  apply (forceClose_closes_twice full_write closed_connection).
  - constructor; try apply empty_buffer_repr; try done. simpl. split_and!; try done. by right.
  - reflexivity.
  - reflexivity.
Defined.

(** A message sent from another thread is cut at its first zero byte: the
    string bound to the functor is converted back with [strlen]. *)
Theorem foreign_send_truncates (write : nat -> list ascii -> write_result)
    (user : notification -> TcpConnection -> list user_op) (c : TcpConnection) (m : list ascii) :
  state_ c = kConnected -> queue c = [] -> zlen m < 2 ^ 31 ->
  for_each (conn_step write user) c [LForeignSend m; LFunctor] =
  conn_step write user c (LUser (USend (StringPiece.until_nul m))).
Proof.
  intros Hst Hq Hm. cbn [for_each conn_step run_user mbind outcome_bind]. unfold send_foreign, send.
  rewrite (proj2 (connected_spec c) Hst). cbn [queue queueInLoop set_queue]. rewrite Hq.
  cbn [app run_functor]. destruct (StringPiece.of_string_spec m Hm) as (p & -> & _ & Hch).
  cbn [mbind outcome_bind]. rewrite Hch.
  replace (set_queue [] _) with c by (by destruct c; simpl in *; subst).
  by destruct (sendInLoop write _ c).
Qed.

Lemma foreign_send_truncates_witness :
  exists c', for_each (conn_step full_write silent_user) open_connection
      [LForeignSend (bytes "ab" ++ [StringPiece.NUL] ++ bytes "cd"); LFunctor] = Ok c' /\ sent c' = bytes "ab".
Proof.
  rewrite (foreign_send_truncates full_write silent_user open_connection).
  - eexists. split; [vm_compute; reflexivity|reflexivity].
  - reflexivity.
  - reflexivity.
  - reflexivity.
Defined.
