(* ===== verification/ConnFrame.v ===== *)
(** * What the steps of a connection can change (src/src/TcpConnection.cpp)

    Every handler of a connection is made of changes to fields the poller and
    the server do not see, of calls on its channel, and of the close callback.
    A relation that holds over each of these holds over every step: the lemma
    the invariants of the server and of the poller are derived from. *)

From S2P Require Import Prelude Endian StringPiece Buffer Format Timestamp Channel Poller TcpConnection.
Local Open Scope Z_scope.

(** The close callbacks the server has acted upon; only [LRemove] changes it. *)
Definition removals (c : TcpConnection) : Z := Z.of_nat (closes c) - Z.of_nat (closing c).

(** Nothing the poller or the server sees has changed. *)
Definition quiet (c c' : TcpConnection) : Prop :=
  channel_ c' = channel_ c /\ reg c' = reg c /\ protocol c' = protocol c /\ chan_calls c' = chan_calls c /\
  removals c' = removals c.

(** The relations that hold over each elementary change. *)
Class Framed (R : TcpConnection -> TcpConnection -> Prop) : Prop := {
  framed_pre :: PreOrder R;
  framed_quiet c c' : quiet c c' -> R c c';
  framed_op o c : R c (chan_op o c);
  framed_remove c c' : chan_remove c = Ok c' -> R c c';
  framed_tie c : R c (chan_tie c)
}.

(** ** Every step is made of such changes *)

Section Frame.
Context (R : TcpConnection -> TcpConnection -> Prop) `{!Framed R}.
Context (write : nat -> list ascii -> write_result).
Context (user : notification -> TcpConnection -> list user_op).

Lemma framed_by c0 c c' : R c0 c -> quiet c c' -> R c0 c'.
Proof. intros H Hq. etrans; [exact H|]. by apply framed_quiet. Qed.

Lemma framed_shutdownInLoop c : R c (shutdownInLoop c).
Proof. unfold shutdownInLoop. destruct (isWriting _); [done|by apply framed_quiet]. Qed.

Lemma framed_forceClose c : R c (forceClose c).
Proof. unfold forceClose. destruct (_ || _); [by apply framed_quiet|done]. Qed.

Lemma framed_startReadInLoop c : R c (startReadInLoop c).
Proof.
  unfold startReadInLoop. destruct (_ || _); [|done]. apply (framed_by _ (chan_op enableReading c)); [|done].
  apply framed_op.
Qed.

Lemma framed_sendInLoop data c c' : sendInLoop write data c = Ok c' -> R c c'.
Proof.
  unfold sendInLoop. destruct (bool_decide _); [by intros [= ->]|].
  destruct (try_write write data c) as [[[nw rem] fault] c1] eqn:Et.
  assert (H1 : R c c1).
  { revert Et. unfold try_write. destruct (_ && _); [|by intros [= <- <- <- <-]].
    destruct (write (writes c) data); intros [= <- <- <- <-]; [|by apply framed_quiet].
    destruct (_ && _); by apply framed_quiet. }
  destruct (rem <=? zlen data); [|done]. cbn [assert_ mbind outcome_bind].
  destruct (_ && _); [|by intros [= <-]]. unfold buffer_remaining. intros H. obind. etrans; [exact H1|].
  set (c2 := set_output _ _). assert (H2 : R c1 c2) by (apply framed_quiet; unfold c2; by destruct (_ && _ && _)).
  etrans; [exact H2|]. destruct (isWriting _); [done|]. apply framed_op.
Qed.

Lemma framed_send_buffer b c b' c' : send_buffer write b c = Ok (b', c') -> R c c'.
Proof.
  unfold send_buffer. destruct (connected c); [|by intros [= _ <-]]. intros H. obind. subst.
  by eapply framed_sendInLoop.
Qed.

Lemma framed_run_user c o c' : run_user write c o = Ok c' -> R c c'.
Proof.
  destruct o; simpl; unfold send; intros H; obind.
  - destruct (connected c); [by eapply framed_sendInLoop|by simplify_eq].
  - destruct r as [b c1]. obind. apply framed_send_buffer in Hr. by apply (framed_by _ c1).
  - destruct r as [b c1]. obind. by apply framed_send_buffer in Hr.
  - unfold shutdown. destruct (connected c); [|done].
    etrans; [|apply framed_shutdownInLoop]. by apply framed_quiet.
  - apply framed_forceClose.
  - unfold forceCloseWithDelay. destruct (_ || _); [by apply framed_quiet|done].
  - apply framed_startReadInLoop.
  - by apply framed_quiet.
  - by apply framed_quiet.
  - by apply framed_quiet.
  - by apply framed_quiet.
Qed.

Lemma framed_for_each {A} (f : TcpConnection -> A -> outcome TcpConnection) l :
  (forall c a c', f c a = Ok c' -> R c c') -> forall c c', for_each f c l = Ok c' -> R c c'.
Proof.
  intros Hf. induction l as [|a l IH]; simpl; intros c c' H; [by simplify_eq|]. obind.
  etrans; [by eapply Hf|by apply IH].
Qed.

Lemma framed_notify n c c' : notify write user n c = Ok c' -> R c c'.
Proof.
  unfold notify. intros H. apply (framed_for_each _ _ framed_run_user) in H. etrans; [|exact H]. by apply framed_quiet.
Qed.

(** The state changes, the channel is called, the user is told. *)
Lemma framed_transition st o c c' :
  notify write user NConnection (chan_op o (setState st c)) = Ok c' -> R c c'.
Proof.
  intros H. apply framed_notify in H. etrans; [|exact H]. etrans; [|apply framed_op]. by apply framed_quiet.
Qed.

Lemma framed_handleClose c c' : handleClose write user c = Ok c' -> R c c'.
Proof.
  unfold handleClose. intros H. obind. apply framed_transition in Hr0. apply (framed_by _ r0); [done|].
  unfold quiet, close_callback, removals. simpl. split_and!; try done. lia.
Qed.

Lemma framed_handleRead readv c c' : handleRead write user readv c = Ok c' -> R c c'.
Proof.
  unfold handleRead. intros H. obind. destruct r as [[n e] b].
  assert (Hb : R c (set_input b c)) by by apply framed_quiet. etrans; [exact Hb|].
  destruct (0 <? n); [by apply framed_notify in H|].
  destruct (n =? 0); [by apply framed_handleClose in H|]. unfold handleError in H. by simplify_eq.
Qed.

Lemma framed_handleWrite c c' : handleWrite write c = Ok c' -> R c c'.
Proof.
  unfold handleWrite. destruct (isWriting _); [|by intros [= <-]].
  destruct (write (writes c) _); [|intros [= <-]; by apply framed_quiet].
  destruct (0 <? n); [|intros [= <-]; by apply framed_quiet]. intros H. obind.
  set (c1 := set_output _ _) in H. assert (H1 : R c c1) by by apply framed_quiet. etrans; [exact H1|].
  clearbody c1. clear H1. destruct (_ =? 0); [|by simplify_eq].
  set (c2 := if writeCompleteCallback_ _ then _ else _) in H.
  assert (H2 : R c1 c2).
  { etrans; [apply (framed_op disableWriting)|]. unfold c2. destruct (writeCompleteCallback_ _); [by apply framed_quiet|done]. }
  etrans; [exact H2|]. destruct (bool_decide _); simplify_eq; [apply framed_shutdownInLoop|done].
Qed.

Lemma framed_run_callback readv c k c' : run_callback write user readv c k = Ok c' -> R c c'.
Proof.
  destruct k; simpl; intros H.
  all: first [by apply framed_handleClose in H | by apply framed_handleRead in H | by apply framed_handleWrite in H |
              unfold handleError in H; by simplify_eq].
Qed.

Lemma framed_run_functor f c c' : run_functor write user f c = Ok c' -> R c c'.
Proof.
  destruct f; simpl; intros H; obind.
  - by eapply framed_sendInLoop.
  - apply framed_shutdownInLoop.
  - unfold forceCloseInLoop in H. destruct (_ || _); [by apply framed_handleClose in H|by simplify_eq].
  - apply framed_startReadInLoop.
  - by apply framed_notify in H.
  - by apply framed_notify in H.
  - unfold connectDestroyed in H. obind. etrans; [|by apply framed_remove].
    destruct (connected c); [by apply framed_transition in Hr|by simplify_eq].
Qed.

Lemma framed_conn_step c l c' : l <> LRemove -> conn_step write user c l = Ok c' -> R c c'.
Proof.
  intros Hl. destruct l as [|mask readv| |o|m| | | |]; simpl; intros H; [..|done].
  - unfold connectEstablished in H. obind. apply framed_notify in H. etrans; [|exact H].
    etrans; [|apply framed_op]. etrans; [|apply framed_tie]. by apply framed_quiet.
  - exact (framed_for_each _ _ (framed_run_callback readv) c c' H).
  - destruct (queue c) as [|f fs]; [by simplify_eq|]. apply framed_run_functor in H. etrans; [|exact H].
    by apply framed_quiet.
  - by apply framed_run_user in H.
  - simplify_eq. unfold send_foreign. destruct (connected c); [by apply framed_quiet|done].
  - simplify_eq. unfold shutdown_foreign. destruct (connected c); [by apply framed_quiet|done].
  - simplify_eq. apply framed_forceClose.
  - destruct (timers c); simplify_eq; [done|]. etrans; [|apply framed_forceClose]. by apply framed_quiet.
Qed.
End Frame.

(** ** Close callbacks of a connection *)

Definition same_removals (c c' : TcpConnection) : Prop := removals c' = removals c.

#[export] Instance same_removals_framed : Framed same_removals.
Proof.
  unfold same_removals. split; try done.
  - split; [done|]. intros a b c. congruence.
  - by intros c c' (_ & _ & _ & _ & ?).
  - intros c c' H. unfold chan_remove in H. by obind.
Qed.

Lemma removals_conn_step write user c l c' :
  l <> LRemove -> conn_step write user c l = Ok c' -> removals c' = removals c.
Proof. apply (framed_conn_step same_removals). Qed.

(** A connection that satisfies its invariant was removed once or not at all. *)
Lemma removals_CInv c : CInv 0 c ->
  (removals c = 0 \/ (removals c = 1 /\ closing c = 0%nat)) /\ (closing c <> 0%nat -> removals c = 0 /\ closing c = 1%nat).
Proof.
  intros [_ _ _ _ _ Hp]. unfold phase, removals in *. destruct (TcpConnection.state_ c); lia.
Qed.
