(* ===== verification/ConnStream.v ===== *)
(** * The bytes a started connection sends (src/src/TcpConnection.cpp)

    What the calls of a program - [send], [shutdown] - do to a connection that
    has come up: the stream of bytes sent or left to send, the state and the
    input.  The protocols that run on connections are proved with these. *)

From S2P Require Import Prelude Endian StringPiece Buffer Format Timestamp Channel Poller TcpConnection.
Local Open Scope Z_scope.

Lemma shutdown_inv c : CInv 0 c -> CInv 0 (shutdown c) /\ connected (shutdown c) = false /\
  (TcpConnection.state_ c <> kConnecting -> TcpConnection.state_ (shutdown c) <> kConnecting).
Proof.
  intros Hc. split; [exact (run_user_inv full_write full_write_bounded 0 c UShutdown Hc I)|].
  unfold shutdown, shutdownInLoop. destruct (connected c) eqn:E; [|done].
  simpl. by destruct (isWriting (channel_ c)).
Qed.

Lemma shutdown_frame c : inputBuffer_ (shutdown c) = inputBuffer_ c /\ sent (shutdown c) = sent c /\
  outputBuffer_ (shutdown c) = outputBuffer_ c /\
  (TcpConnection.state_ c = kConnected -> TcpConnection.state_ (shutdown c) = kDisconnecting).
Proof.
  unfold shutdown, shutdownInLoop. destruct (connected c) eqn:E.
  - cbn [channel_ setState]. by destruct (isWriting (channel_ c)).
  - split_and!; try done. intros H. apply connected_spec in H. congruence.
Qed.

Section Sending.
Context (write : nat -> list ascii -> write_result).
Hypothesis write_bounded : forall k data n, write k data = Wrote n -> 0 <= n <= zlen data.

(** Sending keeps the invariant and, while connected, the state. *)
Lemma sendInLoop_started data c : CInv 0 c -> TcpConnection.state_ c <> kConnecting -> zlen data <= max_size ->
  unless too_long (sendInLoop write data c) (fun c' =>
    CInv 0 c' /\ TcpConnection.state_ c' = TcpConnection.state_ c /\ inputBuffer_ c' = inputBuffer_ c /\
    (TcpConnection.state_ c <> kDisconnected -> no_fault write ->
     sent c' ++ pending_output c' = sent c ++ pending_output c ++ data)).
Proof.
  intros Hi Hst Hlen. destruct (decide (TcpConnection.state_ c = kDisconnected)) as [Ed|Hd].
  - unfold sendInLoop. rewrite bool_decide_true by done. done.
  - assert (Hl : live c) by (unfold live; destruct (TcpConnection.state_ c); auto; done).
    destruct (live_open 0 c Hi Hl) as (Ho & _).
    eapply unless_mono; [apply (sendInLoop_sends write write_bounded); try done; try apply Hi|].
    + intros Hp. by apply (ci_writing _ _ Hi).
    + intros c' _ Hs. split; [by eapply sends_inv|].
      destruct Hs as (Es & Ei & _ & _ & _ & _ & _ & _ & _ & _ & _ & Hs).
      split; [done|]. split; [done|]. intros _ Hnf.
      destruct Hs as [Hs|(_ & _ & _ & e & He & Hcase)]; [done|].
      exfalso. destruct (Hnf (writes c) data) as [H1 H2]. destruct Hcase as [-> | ->]; congruence.
Qed.

Lemma send_buffer_started buf s c : repr buf s -> CInv 0 c -> TcpConnection.state_ c <> kConnecting ->
  unless too_long (send_buffer write buf c) (fun p =>
    CInv 0 p.2 /\ TcpConnection.state_ p.2 = TcpConnection.state_ c /\ inputBuffer_ p.2 = inputBuffer_ c /\
    (TcpConnection.state_ c = kConnected -> no_fault write ->
     sent p.2 ++ pending_output p.2 = sent c ++ pending_output c ++ s)).
Proof.
  intros Hb Hi Hst. unfold send_buffer. destruct (connected c) eqn:Ec.
  - rewrite (readable_repr buf s Hb), (range_peek buf s _ Hb), ztake_all by (pose proof (zlen_nonneg s); lia).
    destruct (repr_bound buf s Hb) as (H1 & H2 & H3).
    eapply unless_bind; [apply (sendInLoop_started s c Hi Hst); pose proof (zlen_nonneg s); lia|].
    intros c' _ (Hi' & Hs' & Hin & Hsent). simpl. split_and!; try done.
    intros Hc. apply Hsent. by rewrite Hc.
  - simpl. split_and!; try done. intros Hc. apply connected_spec in Hc. congruence.
Qed.
End Sending.
