(* ===== verification/ConnPoller.v ===== *)
(** * Connections on a poller (src/src/TcpConnection.cpp, Channel.cpp, Poller.h)

    TcpConnection.v keeps, for each connection, what the poller should know of
    its channel and the calls it made.  Here these calls are carried out: for
    any poller that meets [PollerSpec], the calls of any number of connections,
    interleaved in any way, all succeed, and the poller ends up knowing exactly
    what the connections believe it knows. *)

From S2P Require Import Prelude Endian StringPiece Buffer Format Timestamp Channel Poller TcpConnection ConnFrame.
Local Open Scope Z_scope.

(** ** The protocol of one channel *)

(** How far a channel has got: its mask, what the poller knows, and whether it
    was never used.  A removed channel is not registered again. *)
Record usage : Type := mkUsage { u_events : Z; u_reg : option (option Z); u_fresh : bool }.

Definition unused : usage := mkUsage 0 None true.

Definition mask_of (o : interest_op) (e : Z) : Z := events_ (apply_interest o (set_events (new_Channel 0) e)).

Lemma mask_of_channel o c : events_ (apply_interest o c) = mask_of o (events_ c).
Proof. by destruct o. Qed.

Definition drive (u : usage) (k : chan_call) : option usage :=
  match k with
  | CallUpdate o =>
      let m := mask_of o (u_events u) in
      match u_reg u with
      | None => if u_fresh u then Some (mkUsage m (Some (Some m)) false) else None
      | Some None => if m =? 0 then None else Some (mkUsage m (Some (Some m)) false)
      | Some (Some _) => Some (mkUsage m (Some (if m =? 0 then None else Some m)) false)
      end
  | CallRemove =>
      if (u_events u =? 0) && bool_decide (u_reg u = Some None) then Some (mkUsage 0 None false) else None
  end.

Fixpoint drives (u : usage) (ks : list chan_call) : option usage :=
  match ks with
  | [] => Some u
  | k :: ks => u' ← drive u k; drives u' ks
  end.

Lemma drives_app u ks ks' : drives u (ks ++ ks') = (u' ← drives u ks; drives u' ks').
Proof. revert u. induction ks as [|k ks IH]; intros u; simpl; [done|]. destruct (drive u k); simpl; auto. Qed.

Lemma drives_snoc u ks k : drives u (ks ++ [k]) = (u' ← drives u ks; drive u' k).
Proof. rewrite drives_app. destruct (drives u ks) as [u'|]; simpl; [|done]. by destruct (drive u' k). Qed.

(** ** A connection keeps to it *)

Definition usage_of (c : TcpConnection) : usage :=
  mkUsage (events_ (channel_ c)) (reg c) (bool_decide (chan_calls c = [])).

(** As long as the recorded protocol is kept, the calls lead where the
    connection believes. *)
Definition traced (c : TcpConnection) : Prop :=
  protocol c = true -> drives unused (chan_calls c) = Some (usage_of c).

Definition keeps_trace (c c' : TcpConnection) : Prop := traced c -> traced c'.

Lemma snoc_not_nil (ks : list chan_call) k : bool_decide (ks ++ [k] = []) = false.
Proof. apply bool_decide_false. by destruct ks. Qed.

Lemma trace_op o c : keeps_trace c (chan_op o c).
Proof.
  intros Hc Hp. unfold chan_op in *. pose proof (mask_of_channel o (channel_ c)) as Em.
  cbn [protocol set_channel] in Hp. apply andb_true_iff in Hp as [Hp Hf].
  unfold usage_of. cbn [chan_calls channel_ reg set_channel]. rewrite drives_snoc, (Hc Hp), snoc_not_nil.
  change (events_ (set_added (apply_interest o (channel_ c)) true)) with (events_ (apply_interest o (channel_ c))) in *.
  rewrite Em in *. unfold usage_of, drive. cbn [mbind option_bind u_reg u_events u_fresh].
  destruct (reg c) as [[m|]|]; [done| |by rewrite Hf]. by destruct (mask_of o _ =? 0).
Qed.

Lemma trace_remove c c' : chan_remove c = Ok c' -> keeps_trace c c'.
Proof.
  intros H Hc. unfold chan_remove in H. destruct (isNoneEvent (channel_ c)) eqn:He; [|done]. injection H as <-.
  intros Hp. simpl in Hp. apply andb_true_iff in Hp as [Hp Hr]. apply Z.eqb_eq in He.
  unfold usage_of. simpl. rewrite drives_snoc, (Hc Hp), snoc_not_nil. simpl.
  change kNoneEvent with 0 in He. by rewrite He, Hr.
Qed.

#[export] Instance keeps_trace_framed : Framed keeps_trace.
Proof.
  split; unfold keeps_trace.
  - split; [by intros c|]. intros a b c. auto.
  - intros c c' (E1 & E2 & E3 & E4 & _) H. unfold traced, usage_of in *. by rewrite E1, E2, E3, E4.
  - apply trace_op.
  - apply trace_remove.
  - intros c H. exact H.
Qed.

(** ** Many channels on one poller *)

(** A history of calls: which channel makes which call. *)
Definition calls_of (i : nat) (h : list (nat * chan_call)) : list chan_call :=
  map snd (filter (fun x => x.1 = i) h).

Definition use (i : nat) (h : list (nat * chan_call)) : option usage := drives unused (calls_of i h).

Lemma calls_of_snoc i h j k : calls_of i (h ++ [(j, k)]) = calls_of i h ++ (if decide (j = i) then [k] else []).
Proof.
  unfold calls_of. rewrite filter_app, map_app. f_equal. cbn. by destruct (decide (j = i)).
Qed.

Lemma use_snoc_eq i h k : use i (h ++ [(i, k)]) = (u ← use i h; drive u k).
Proof. unfold use. rewrite calls_of_snoc, decide_True by done. apply drives_snoc. Qed.

Lemma use_snoc_ne i j h k : j <> i -> use i (h ++ [(j, k)]) = use i h.
Proof. intros Hne. unfold use. by rewrite calls_of_snoc, decide_False, app_nil_r. Qed.

Lemma drive_used u k u' : drive u k = Some u' -> u_fresh u' = false.
Proof. unfold drive. intros H. repeat case_match; by simplify_eq. Qed.

Lemma fresh_no_calls ks u : drives unused ks = Some u -> u_fresh u = true -> ks = [] /\ u = unused.
Proof.
  induction ks as [|k ks' _] using rev_ind; [by intros [= <-]|].
  rewrite drives_snoc. intros H Hf. destruct (drives unused ks') as [u1|]; [|done]. simpl in H.
  by rewrite (drive_used _ _ _ H) in Hf.
Qed.

Section Interleaving.
Context `{PollerSpec P}.
(** The channels of this poller: which, their descriptors and their addresses. *)
Context (mine : nat -> Prop) (fd addr : nat -> Z) (r0 : registry).
Hypothesis addr_inj : forall i j, mine i -> mine j -> addr i = addr j -> i = j.
Hypothesis fd_nonneg : forall i, mine i -> 0 <= fd i.

Definition to_op (x : nat * chan_call) : channel_op :=
  match x.2 with
  | CallUpdate o => Update (addr x.1) o
  | CallRemove => Remove (addr x.1)
  end.

(** The poller knows of each channel what its calls say, and of other
    descriptors what it knew at first. *)
Record on_poller (h : list (nat * chan_call)) (s : P * channels) : Prop := mkOnPoller {
  on_wf : pwf s.1 s.2;
  on_chan : forall i u, mine i -> use i h = Some u -> exists ch, s.2 !! addr i = Some ch /\
    fd_ ch = fd i /\ events_ ch = u_events u /\ (u_fresh u = true -> index_ ch = -1);
  on_reg : forall i u m, mine i -> use i h = Some u -> u_reg u = Some m ->
    registered s.1 s.2 !! fd i = Some (mkReg (addr i) m);
  on_only : forall i g, mine i -> registered s.1 s.2 !! fd i = Some g -> exists j u,
    mine j /\ fd j = fd i /\ use j h = Some u /\ u_reg u = Some (reg_mask g) /\ reg_channel g = addr j;
  on_frame : forall f, (forall i, mine i -> fd i <> f) -> registered s.1 s.2 !! f = r0 !! f
}.

(** A channel that was never used is not registered anywhere. *)
Lemma fresh_unregistered h s j u : on_poller h s -> mine j -> use j h = Some u -> u_reg u = None ->
  forall f, channels_ s.1 !! f <> Some (addr j).
Proof.
  intros Ho Hj Hu Hr f Hf. destruct (on_chan _ _ Ho j u Hj Hu) as (ch & Hch & Hfd & _).
  rewrite (channels_registered _ _ (on_wf _ _ Ho)), lookup_fmap in Hf.
  destruct (registered s.1 s.2 !! f) as [g|] eqn:Eg; [|done]. simpl in Hf. injection Hf as Hg.
  destruct (registered_alive _ _ _ _ (on_wf _ _ Ho) Eg) as (ch' & Hch' & Hfd'). rewrite Hg in Hch'.
  assert (f = fd j) as -> by congruence. destruct (on_only _ _ Ho j g Hj Eg) as (i & u' & Hi & _ & Hu' & Hr' & Hg').
  assert (i = j) as -> by (apply addr_inj; congruence). congruence.
Qed.

(** The channel of the call changes as it should, the others hardly. *)
Lemma on_poller_step h s s' i k u u' ch' :
  on_poller h s -> mine i -> use i h = Some u -> drive u k = Some u' ->
  pwf s'.1 s'.2 -> s'.2 !! addr i = Some ch' -> fd_ ch' = fd i -> events_ ch' = u_events u' ->
  (forall j ch, mine j -> j <> i -> s.2 !! addr j = Some ch -> exists cj, s'.2 !! addr j = Some cj /\ same_channel ch cj) ->
  (forall j, mine j -> j <> i -> (forall f, channels_ s.1 !! f <> Some (addr j)) -> s'.2 !! addr j = s.2 !! addr j) ->
  registered s'.1 s'.2 !! fd i = (fun m => mkReg (addr i) m) <$> u_reg u' ->
  (forall f, f <> fd i -> registered s'.1 s'.2 !! f = registered s.1 s.2 !! f) ->
  (forall j uj, mine j -> j <> i -> fd j = fd i -> use j h = Some uj -> u_reg uj = None) ->
  on_poller (h ++ [(i, k)]) s'.
Proof.
  intros Ho Hi Hu Hd Hwf Hc' Hfd' Hev' Hsame Hun Hreg Hother Hex. constructor; [done|..].
  - intros j uj Hj Hj'. destruct (decide (j = i)) as [->|Hne].
    + rewrite use_snoc_eq, Hu in Hj'. simpl in Hj'. assert (uj = u') as -> by congruence.
      exists ch'. split_and!; try done. intros Hf. by rewrite (drive_used _ _ _ Hd) in Hf.
    + rewrite use_snoc_ne in Hj' by done. destruct (on_chan _ _ Ho j uj Hj Hj') as (ch & Hch & Hfd & Hev & Hix).
      destruct (Hsame j ch Hj Hne Hch) as (cj & Hcj & F & E & _). exists cj. split_and!; try congruence.
      intros Hf. destruct (fresh_no_calls _ _ Hj' Hf) as [_ ->].
      rewrite (Hun j Hj Hne (fresh_unregistered h s j unused Ho Hj Hj' eq_refl)) in Hcj.
      assert (cj = ch) as -> by congruence. auto.
  - intros j uj m Hj Hj' Hm. destruct (decide (j = i)) as [->|Hne].
    + rewrite use_snoc_eq, Hu in Hj'. simpl in Hj'. assert (uj = u') as -> by congruence. by rewrite Hreg, Hm.
    + rewrite use_snoc_ne in Hj' by done. rewrite Hother; [by eapply on_reg|]. intros E.
      rewrite (Hex j uj Hj Hne E Hj') in Hm. done.
  - intros j g Hj Hg. destruct (decide (fd j = fd i)) as [E|Hne].
    + rewrite E, Hreg in Hg. destruct (u_reg u') as [m|] eqn:Em; [|done]. injection Hg as <-.
      exists i, u'. split_and!; try done. rewrite use_snoc_eq, Hu. done.
    + rewrite Hother in Hg by done. destruct (on_only _ _ Ho j g Hj Hg) as (l & ul & Hl & Hfl & Hul & Hrl & Hgl).
      exists l, ul. split_and!; try done. rewrite use_snoc_ne; [done|]. intros ->. by rewrite Hfl in Hne.
  - intros f Hf. rewrite Hother by (intros ->; by apply (Hf i)). by apply (on_frame _ _ Ho).
Qed.

(** Two channels are never registered under one descriptor, if none is used
    before the other has gone. *)
Lemma others_gone h s i u k : on_poller h s -> mine i -> use i h = Some u -> is_Some (drive u k) ->
  (calls_of i h = [] -> forall j uj, mine j -> j <> i -> fd j = fd i -> use j h = Some uj -> u_reg uj = None) ->
  forall j uj, mine j -> j <> i -> fd j = fd i -> use j h = Some uj -> u_reg uj = None.
Proof.
  intros Ho Hi Hu Hd Hex j uj Hj Hne Hf Huj. destruct (u_reg u) as [m|] eqn:Er.
  - pose proof (on_reg _ _ Ho i u m Hi Hu Er) as H1. destruct (u_reg uj) as [m'|] eqn:Erj; [|done].
    pose proof (on_reg _ _ Ho j uj m' Hj Huj Erj) as H2. rewrite Hf, H1 in H2. injection H2 as Ha _.
    exfalso. apply Hne, addr_inj; auto.
  - apply (Hex) with (j := j); try done. destruct (u_fresh u) eqn:Ef; [by apply (fresh_no_calls _ _ Hu)|].
    exfalso. destruct Hd as [u' Hd]. unfold drive in Hd. rewrite Er, Ef in Hd. destruct k; [done|].
    by rewrite andb_false_r in Hd.
Qed.

Lemma same_channels_at cs cs' a c : same_channels cs cs' -> cs !! a = Some c ->
  exists c', cs' !! a = Some c' /\ same_channel c c'.
Proof. intros Hs Hc. specialize (Hs a). rewrite Hc in Hs. destruct (cs' !! a) as [c'|]; [by exists c'|done]. Qed.

Lemma update_step h s i o u u' : on_poller h s -> mine i -> use i h = Some u -> drive u (CallUpdate o) = Some u' ->
  (forall j uj, mine j -> j <> i -> fd j = fd i -> use j h = Some uj -> u_reg uj = None) ->
  exists s', run_channel_op s (Update (addr i) o) = Ok s' /\ on_poller (h ++ [(i, CallUpdate o)]) s'.
Proof.
  intros Ho Hi Hu Hd Hex. destruct s as [p cs]. destruct (on_chan _ _ Ho i u Hi Hu) as (ch & Hch & Hfd & Hev & Hix).
  simpl in *. pose proof (on_wf _ _ Ho) as Hwf. simpl in Hwf.
  assert (Em : events_ (apply_interest o ch) = mask_of o (u_events u)) by (by rewrite mask_of_channel, Hev).
  assert (Hsome : forall m, u_reg u = Some m -> registered p cs !! fd i = Some (mkReg (addr i) m))
    by exact (fun m => on_reg _ _ Ho i u m Hi Hu).
  assert (Hnone : u_reg u = None -> registered p cs !! fd i = None).
  { intros Er. destruct (registered p cs !! fd i) as [g|] eqn:Eg; [|done]. exfalso.
    destruct (on_only _ _ Ho i g Hi Eg) as (j & uj & Hj & Hf & Huj & Hrj & _).
    destruct (decide (j = i)) as [->|Hne]; [congruence|]. rewrite (Hex j uj Hj Hne Hf Huj) in Hrj. done. }
  destruct (Channel_update_spec o p cs (addr i) ch Hwf Hch) as (p' & cs' & E & Hwf' & Hreg & Hs).
  { split; [rewrite Hfd; auto|]. rewrite Hfd, Em. unfold drive in Hd. destruct (u_reg u) as [m|] eqn:Er.
    - rewrite (Hsome m eq_refl). split; [done|]. simpl. intros ->. by destruct (Z.eqb_spec (mask_of o (u_events u)) 0).
    - rewrite (Hnone eq_refl). apply Hix. by destruct (u_fresh u). }
  destruct (same_channels_at _ _ (addr i) _ Hs (lookup_insert_eq _ _ _)) as (ch' & Hch' & F & V & _).
  exists (p', cs'). split; [done|]. rewrite Em in Hreg. unfold spec_update in Hreg. rewrite Hfd in Hreg.
  assert (Hreg' : registered p' cs' !! fd i = (fun m => mkReg (addr i) m) <$> u_reg u' /\ u_events u' = mask_of o (u_events u)).
  { rewrite Hreg, lookup_insert_eq. unfold drive in Hd. destruct (u_reg u) as [m|] eqn:Er.
    - rewrite (Hsome m eq_refl). destruct m; [by simplify_eq|]. destruct (_ =? 0); by simplify_eq.
    - rewrite (Hnone eq_refl). destruct (u_fresh u); by simplify_eq. }
  apply (on_poller_step h (p, cs) (p', cs') i _ u u' ch'); try done; simpl.
  - rewrite F. exact Hfd.
  - rewrite V. simpl in *. by rewrite (proj2 Hreg').
  - intros j c Hj Hne Hc. apply (same_channels_at _ _ (addr j) c Hs). rewrite lookup_insert_ne; [done|].
    intros Ea. apply Hne, addr_inj; auto.
  - intros j Hj Hne Hf. unfold Channel_update in E. rewrite Hch in E.
    assert (addr j <> addr i) by (intros Ea; apply Hne, addr_inj; auto).
    rewrite (update_untouched _ _ _ _ _ (addr j) E) by done. by rewrite lookup_insert_ne.
  - apply Hreg'.
  - intros f Hf. by rewrite Hreg, lookup_insert_ne.
Qed.

Lemma remove_step h s i u u' : on_poller h s -> mine i -> use i h = Some u -> drive u CallRemove = Some u' ->
  (forall j uj, mine j -> j <> i -> fd j = fd i -> use j h = Some uj -> u_reg uj = None) ->
  exists s', run_channel_op s (Remove (addr i)) = Ok s' /\ on_poller (h ++ [(i, CallRemove)]) s'.
Proof.
  intros Ho Hi Hu Hd Hex. destruct s as [p cs]. destruct (on_chan _ _ Ho i u Hi Hu) as (ch & Hch & Hfd & Hev & _).
  simpl in *. pose proof (on_wf _ _ Ho) as Hwf. simpl in Hwf. pose proof Hd as Hd'.
  destruct (_ && _) eqn:Ec in Hd'; [|done]. apply andb_true_iff in Ec as [He Hr].
  apply Z.eqb_eq in He. apply bool_decide_eq_true in Hr. injection Hd' as <-.
  destruct (Channel_remove_spec p cs (addr i) ch Hwf Hch) as (p' & cs' & E & Hwf' & Hreg & Hs).
  { unfold can_remove. rewrite Hfd. apply (on_reg _ _ Ho i u None Hi Hu Hr). }
  destruct (same_channels_at _ _ (addr i) _ Hs (lookup_insert_eq _ _ _)) as (ch' & Hch' & F & V & _).
  exists (p', cs'). split; [done|]. unfold spec_remove in Hreg. rewrite Hfd in Hreg.
  apply (on_poller_step h (p, cs) (p', cs') i CallRemove u (mkUsage 0 None false) ch'); try done; simpl.
  - rewrite F. exact Hfd.
  - rewrite V. simpl. congruence.
  - intros j c Hj Hne Hc. apply (same_channels_at _ _ (addr j) c Hs). rewrite lookup_insert_ne; [done|].
    intros Ea. apply Hne, addr_inj; auto.
  - intros j Hj Hne Hf. unfold Channel_remove in E. rewrite Hch in E. obind.
    assert (addr j <> addr i) by (intros Ea; apply Hne, addr_inj; auto).
    rewrite (remove_untouched _ _ _ _ _ (addr j) E) by done. by rewrite lookup_insert_ne.
  - by rewrite Hreg, lookup_delete_eq.
  - intros f Hf. by rewrite Hreg, lookup_delete_ne.
Qed.

(** The kernel gives a descriptor to a new connection only when the one that had
    it before is gone. *)
Definition exclusive (h : list (nat * chan_call)) : Prop := forall pre i k post,
  h = pre ++ (i, k) :: post -> calls_of i pre = [] ->
  forall j uj, mine j -> j <> i -> fd j = fd i -> use j pre = Some uj -> u_reg uj = None.

Lemma use_prefix i h h' : is_Some (use i (h ++ h')) -> is_Some (use i h).
Proof.
  unfold use, calls_of. rewrite filter_app, map_app, drives_app. destruct (drives _ _); [done|]. by intros [? ?].
Qed.

Lemma run_on_poller h : Forall (fun x => mine x.1) h -> (forall i, mine i -> is_Some (use i h)) ->
  exclusive h -> forall s, on_poller [] s ->
  exists s', for_each run_channel_op s (map to_op h) = Ok s' /\ on_poller h s'.
Proof.
  induction h as [|[i k] h IH] using rev_ind; intros Hn Hu Hex s Hs; [by exists s|].
  apply Forall_app in Hn as [Hn Hi]. apply Forall_cons in Hi as [Hi _]. simpl in Hi.
  destruct (IH) with (s := s) as (s1 & E1 & H1); try done.
  { intros j Hj. eapply use_prefix. by apply Hu. }
  { intros pre j l post -> Hc. eapply (Hex pre j l (post ++ [(i, k)])); [|done]. by rewrite <- app_assoc. }
  destruct (Hu i Hi) as [u' Hu']. rewrite use_snoc_eq in Hu'. destruct (use i h) as [u|] eqn:Eu; [|done].
  simpl in Hu'. pose proof (others_gone h s1 i u k H1 Hi Eu (ex_intro _ _ Hu') (Hex h i k [] eq_refl)) as Hgone.
  assert (exists s2, run_channel_op s1 (to_op (i, k)) = Ok s2 /\ on_poller (h ++ [(i, k)]) s2) as (s2 & E2 & H2).
  { destruct k as [o|]; [by eapply update_step|by eapply remove_step]. }
  exists s2. split; [|done]. rewrite map_app, for_each_app, E1. cbn [mbind outcome_bind map for_each]. by rewrite E2.
Qed.
End Interleaving.
