(* ===== verification/Framing.v ===== *)
(** * Messages cut out of a stream

    The programs that read from a connection cut its stream into messages: a
    function finds the next message of what has arrived, or tells that more
    bytes are needed or that the stream is wrong.  What such a function must
    satisfy for the messages not to depend on how the stream was cut into
    segments, and the handler of readable events ([TcpConnection::handleRead],
    src/src/TcpConnection.cpp) over the segments of a stream. *)

From S2P Require Import Prelude Endian StringPiece Buffer Format Timestamp.
Local Open Scope Z_scope.

Inductive frame (A : Type) : Type :=
| Wait                              (** no complete message yet *)
| Refuse                            (** the stream is wrong *)
| Frame (a : A) (rest : text).
Arguments Wait {A}.
Arguments Refuse {A}.
Arguments Frame {A} a rest.

(** A message takes some bytes, and more bytes change nothing that is settled. *)
Class Framing {A} (next : text -> frame A) : Prop := {
  next_shorter s a rest : next s = Frame a rest -> (length rest < length s)%nat;
  next_app s a rest t : next s = Frame a rest -> next (s ++ t) = Frame a (rest ++ t);
  next_refuse s t : next s = Refuse -> next (s ++ t) = Refuse
}.

Section Decoding.
Context {A : Type} (next : text -> frame A) `{!Framing next}.

(** The messages of a stream, what is left of it, and whether it was right. *)
Fixpoint frames (fuel : nat) (s : text) : list A * text * bool :=
  match fuel with
  | O => ([], s, true)
  | S fuel =>
      match next s with
      | Wait => ([], s, true)
      | Refuse => ([], s, false)
      | Frame a rest => let '(ms, rest, ok) := frames fuel rest in (a :: ms, rest, ok)
      end
  end.

Definition decode (s : text) : list A * text * bool := frames (S (length s)) s.

Lemma frames_fuel f : forall s g, (length s < f)%nat -> (length s < g)%nat -> frames f s = frames g s.
Proof.
  induction f as [|f IH]; intros s g Hf Hg; [lia|]. destruct g as [|g]; [lia|]. simpl.
  destruct (next s) as [| |a rest] eqn:E; [done..|]. apply next_shorter in E. rewrite (IH rest g) by lia. done.
Qed.

Lemma decode_unfold s :
  decode s = match next s with
             | Wait => ([], s, true)
             | Refuse => ([], s, false)
             | Frame a rest => let '(ms, rest, ok) := decode rest in (a :: ms, rest, ok)
             end.
Proof.
  unfold decode at 1. cbn [frames]. destruct (next s) as [| |a rest] eqn:E; [done..|].
  apply next_shorter in E. unfold decode. by rewrite (frames_fuel (length s) rest (S (length rest))) by lia.
Qed.

(** Induction over the messages of a stream. *)
Lemma decode_ind (P : text -> list A * text * bool -> Prop) :
  (forall s, next s = Wait -> P s ([], s, true)) -> (forall s, next s = Refuse -> P s ([], s, false)) ->
  (forall s a rest ms r ok, next s = Frame a rest -> decode rest = (ms, r, ok) -> P rest (ms, r, ok) -> P s (a :: ms, r, ok)) ->
  forall s, P s (decode s).
Proof.
  intros Hw Hr Hf s. remember (length s) as n eqn:Hn. revert s Hn. induction (lt_wf n) as [n _ IH]. intros s ->.
  rewrite decode_unfold. destruct (next s) as [| |a rest] eqn:E; [auto..|].
  pose proof (next_shorter s a rest E) as Hlt. specialize (IH _ Hlt rest eq_refl).
  destruct (decode rest) as [[ms r] ok] eqn:Ed. by eapply Hf.
Qed.

(** The bytes may arrive in pieces: decoding goes on where it stopped. *)
Lemma decode_app s t :
  decode (s ++ t) =
    let '(ms, rest, ok) := decode s in
    if ok then let '(ms', rest', ok') := decode (rest ++ t) in (ms ++ ms', rest', ok')
    else (ms, rest ++ t, false).
Proof.
  apply (decode_ind (fun s d => decode (s ++ t) = let '(ms, rest, ok) := d in
    if ok then let '(ms', rest', ok') := decode (rest ++ t) in (ms ++ ms', rest', ok') else (ms, rest ++ t, false))).
  - intros s0 _. by destruct (decode (s0 ++ t)) as [[ms r] ok].
  - intros s0 E. by rewrite decode_unfold, (next_refuse s0 t E).
  - intros s0 a rest ms r ok E _ IH. rewrite decode_unfold, (next_app s0 a rest t E), IH.
    destruct ok; [|done]. by destruct (decode (r ++ t)) as [[ms' r'] ok'].
Qed.

(** What is left of a refused stream is refused. *)
Lemma decode_refused s : let '(ms, rest, ok) := decode s in ok = false -> next rest = Refuse.
Proof. by apply (decode_ind (fun _ d => let '(ms, rest, ok) := d in ok = false -> next rest = Refuse)). Qed.

Lemma decode_Forall (P : A -> Prop) s : (forall s a rest, next s = Frame a rest -> P a) -> Forall P (decode s).1.1.
Proof.
  intros HP. apply (decode_ind (fun _ d => Forall P d.1.1)); [intros; by apply Forall_nil..|].
  intros s0 a rest ms r ok E _ IH. apply Forall_cons. split; [by eapply HP|done].
Qed.

(** Decoding inverts an encoding of single messages. *)
Lemma decode_encoded (enc : A -> text) ms :
  Forall (fun a => forall t, next (enc a ++ t) = Frame a t) ms -> next [] = Wait ->
  decode (concat (map enc ms)) = (ms, [], true).
Proof.
  intros H H0. induction H as [|a ms Ha _ IH]; cbn [map concat]; rewrite decode_unfold; [by rewrite H0|].
  by rewrite Ha, IH.
Qed.
End Decoding.

(** ** Reading *)

Section Reading.
(** A program that owns a connection: its input buffer, a note of the call of the
    message callback, the message callback, and the handlers of a closed peer
    and of an error. *)
Context {St : Type} (input : St -> Buffer) (with_input : Buffer -> St -> St) (called : St -> St).
Context (onMessage : Timestamp -> St -> option (outcome St)) (closed failed : St -> outcome St).

Definition stream_handleRead (readv : list Z -> readv_result) (receiveTime : Timestamp) (s : St) : option (outcome St) :=
  match readFd readv (input s) with
  | Err f => Some (Err f)
  | Ok (n, _, b) =>
      let s := with_input b s in
      if 0 <? n then onMessage receiveTime (called s)
      else if n =? 0 then Some (closed s)
      else Some (failed s)
  end.

(** The kernel delivers the segments one at a time, each at its own time. *)
Fixpoint stream_read_all (segments : list (Timestamp * text)) (s : St) : option (outcome St) :=
  match segments with
  | [] => Some (Ok s)
  | (t, seg) :: segments =>
      match stream_handleRead (fun _ => ReadData seg) t s with
      | Some (Ok s) => stream_read_all segments s
      | r => r
      end
  end.

(** [P ms s]: the program after the messages [ms]; [Q rest ms s]: after the
    messages [ms] it refused [rest]. *)
Context {A : Type} (next : text -> frame A) `{!Framing next}.
Context (F : failure -> Prop) (P : list A -> St -> Prop) (Q : text -> list A -> St -> Prop).

Definition after_message (rest : text) (ms : list A) (ok : bool) (s : St) : Prop :=
  if ok then repr (input s) rest /\ P ms s else Q rest ms s.

Definition after_bytes (all : text) (s : St) : Prop :=
  let '(ms, rest, ok) := decode next all in after_message rest ms ok s.

Hypothesis F_long : forall f, too_long f -> F f.
Hypothesis on_message : forall t ms s txt b, P ms s -> repr b txt ->
  exists r, onMessage t (called (with_input b s)) = Some r /\ unless F r (fun s' =>
    let '(ms', rest, ok) := decode next txt in after_message rest (ms ++ ms') ok s').
Hypothesis on_refused : forall rest ms s, Q rest ms s -> next rest = Refuse ->
  exists txt, repr (input s) txt /\ forall t b seg, repr b (txt ++ seg) ->
    exists r, onMessage t (called (with_input b s)) = Some r /\ unless F r (Q (rest ++ seg) ms).

Lemma stream_handleRead_decodes t seg all s :
  after_bytes all s -> 0 < zlen seg <= sizeof_extrabuf ->
  exists r, stream_handleRead (fun _ => ReadData seg) t s = Some r /\ unless F r (after_bytes (all ++ seg)).
Proof.
  intros Hs Hseg. unfold after_bytes in *. pose proof (decode_app next all seg) as Happ.
  pose proof (decode_refused next all) as Hbad. destruct (decode next all) as [[ms rest] ok]. unfold after_message in Hs.
  assert (Hread : forall txt, repr (input s) txt ->
    (forall b, repr b (txt ++ seg) -> exists r, onMessage t (called (with_input b s)) = Some r /\
       unless F r (fun s' => let '(ms', rest', ok') := decode next (all ++ seg) in after_message rest' ms' ok' s')) ->
    exists r, stream_handleRead (fun _ => ReadData seg) t s = Some r /\
      unless F r (fun s' => let '(ms', rest', ok') := decode next (all ++ seg) in after_message rest' ms' ok' s')).
  { intros txt Hin Hcall. unfold stream_handleRead. pose proof (iov_room _ _ Hin) as Hroom.
    destruct (readFd_cases (input s) txt (fun _ => ReadData seg) seg Hin eq_refl ltac:(lia))
      as [[-> _]|(b & -> & Hb)]; [eexists; split; [done|by apply F_long]|].
    rewrite (proj2 (Z.ltb_lt 0 _)) by lia. by apply Hcall. }
  destruct ok.
  - destruct Hs as [Hin Hs]. apply (Hread rest Hin). intros b Hb. destruct (on_message t ms s (rest ++ seg) b Hs Hb) as (r & E & Hr).
    exists r. split; [done|]. eapply unless_mono; [exact Hr|]. intros s' _. rewrite Happ.
    by destruct (decode next (rest ++ seg)) as [[ms' rest'] ok'].
  - destruct (on_refused rest ms s Hs (Hbad eq_refl)) as (txt & Hin & Hcall). apply (Hread txt Hin).
    intros b Hb. destruct (Hcall t b seg Hb) as (r & E & Hr). exists r. split; [done|].
    eapply unless_mono; [exact Hr|]. intros s' _. by rewrite Happ.
Qed.

Lemma stream_read_all_decodes segs : forall all s, after_bytes all s ->
  Forall (fun m => 0 < zlen m.2 <= sizeof_extrabuf) segs ->
  exists r, stream_read_all segs s = Some r /\ unless F r (after_bytes (all ++ concat (map snd segs))).
Proof.
  induction segs as [|[t seg] segs IH]; intros all s Hs Hsegs; cbn [stream_read_all map snd concat].
  - eexists. split; [done|]. by rewrite app_nil_r.
  - apply Forall_cons in Hsegs as [Hseg Hsegs].
    destruct (stream_handleRead_decodes t seg all s Hs Hseg) as (r & -> & Hr).
    destruct r as [s'|f]; [|by eexists]. rewrite app_assoc. by apply IH.
Qed.
End Reading.
