(* ===== verification/LengthCodec.v ===== *)
(** * The length-header codec (src/tests/chat/codec.h)

    [LengthHeaderCodec] cuts the stream of a connection into messages, each
    preceded by its length in network byte order.  The program that uses it
    owns the connection and gets the messages through a callback, so its state
    is a parameter here; the reference the loop is compared with is the decoder
    of Framing.v on the messages [next_frame] finds. *)

From S2P Require Import Prelude Endian StringPiece Buffer Format Timestamp Channel Poller TcpConnection ConnStream Framing.
Local Open Scope Z_scope.

Definition kHeaderLen : Z := 4.
Definition max_message : Z := 65536.

(** [*static_cast<const int32_t*>(buf->peek())] and its conversion. *)
Definition header (b : Buffer) : Z :=
  let be32 := i32 (le_value (range b (peek b) (peek b + 4))) in
  i32 (networkToHost32 (u32 be32)).

Section Codec.
(** The state of the program: the input buffer of the connection, the call of
    [shutdown] on it, and the callback. *)
Context {St : Type} (input : St -> Buffer) (with_input : Buffer -> St -> St) (stop : St -> St).
Context (messageCallback_ : text -> Timestamp -> St -> outcome St).

(** [onMessage]: one round of its loop per unit of fuel. *)
Fixpoint codec_loop (fuel : nat) (receiveTime : Timestamp) (s : St) : option (outcome St) :=
  match fuel with
  | O => None
  | S fuel =>
      if kHeaderLen <=? readableBytes (input s) then
        let len := header (input s) in
        if (max_message <? len) || (len <? 0) then Some (Ok (stop s))
        else if u64 (len + kHeaderLen) <=? readableBytes (input s) then
          match (b ← retrieve (input s) kHeaderLen;
                 let message := range b (peek b) (peek b + len) in
                 s ← messageCallback_ message receiveTime (with_input b s);
                 b ← retrieve (input s) len;
                 Ok (with_input b s))
          with
          | Ok s => codec_loop fuel receiveTime s
          | Err f => Some (Err f)
          end
        else Some (Ok s)
      else Some (Ok s)
  end.

Definition codec_onMessage (receiveTime : Timestamp) (s : St) : option (outcome St) :=
  codec_loop (S (length (content (input s)))) receiveTime s.
End Codec.

(** [send]: the message and, before it, its length. *)
Definition codec_buffer (message : StringPiece.StringPiece) : outcome Buffer :=
  buf ← new_Buffer kInitialSize;
  buf ← append buf (StringPiece.data message) (u64 (StringPiece.size message));
  let len := i32 (StringPiece.size message) in
  let be32 := hostToNetwork32 (u32 len) in
  prepend buf (le_bytes 4 be32) 4.

Definition codec_send (write : nat -> list ascii -> write_result) (message : StringPiece.StringPiece) (c : TcpConnection)
  : outcome TcpConnection :=
  buf ← codec_buffer message;
  '(_, c) ← send_buffer write buf c;
  Ok c.

(** ** The reference *)

Definition encode (m : text) : text := be_bytes 4 (zlen m) ++ m.

(** The length at the head of a stream, and whether it is out of range. *)
Definition frame_length (s : text) : Z := i32 (be_value (ztake 4 s)).
Definition bad_length (len : Z) : bool := (max_message <? len) || (len <? 0).

Definition next_frame (s : text) : frame text :=
  let len := frame_length s in
  if zlen s <? kHeaderLen then Wait
  else if bad_length len then Refuse
  else if zlen s <? len + kHeaderLen then Wait
  else Frame (ztake len (zdrop 4 s)) (zdrop (len + kHeaderLen) s).

Lemma good_length s : bad_length (frame_length s) = false -> 0 <= frame_length s <= max_message.
Proof. unfold bad_length. intros H. zprop. lia. Qed.

Lemma length_zdrop {A} n (l : list A) : length (zdrop n l) = (length l - Z.to_nat n)%nat.
Proof. unfold zdrop. apply length_drop. Qed.

(** The three cases of a stream. *)
Lemma next_frame_cases s :
  (next_frame s = Wait) \/
  (kHeaderLen <= zlen s /\ bad_length (frame_length s) = true /\ next_frame s = Refuse) \/
  (0 <= frame_length s <= max_message /\ frame_length s + kHeaderLen <= zlen s /\
   next_frame s = Frame (ztake (frame_length s) (zdrop 4 s)) (zdrop (frame_length s + kHeaderLen) s)).
Proof.
  unfold next_frame. cbv zeta. destruct (Z.ltb_spec (zlen s) kHeaderLen); [by left|].
  destruct (bad_length _) eqn:E; [by right; left|]. destruct (Z.ltb_spec (zlen s) (frame_length s + kHeaderLen)); [by left|].
  right. right. by split; [apply good_length|].
Qed.

Lemma frame_length_app s t : kHeaderLen <= zlen s -> frame_length (s ++ t) = frame_length s.
Proof. intros H. unfold frame_length. by rewrite ztake_app_le. Qed.

#[export] Instance next_frame_framing : Framing next_frame.
Proof.
  split.
  - intros s a rest H. destruct (next_frame_cases s) as [E|[(_ & _ & E)|(H1 & H2 & E)]]; rewrite E in H; try done.
    injection H as <- <-. rewrite length_zdrop. unfold kHeaderLen, zlen in *. lia.
  - intros s a rest t H. destruct (next_frame_cases s) as [E|[(_ & _ & E)|(H1 & H2 & E)]]; rewrite E in H; try done.
    injection H as <- <-. pose proof (zlen_nonneg t). unfold kHeaderLen in *. unfold next_frame, kHeaderLen.
    rewrite frame_length_app by (unfold kHeaderLen; lia). rewrite zlen_app. unfold bad_length. zguard.
    cbv zeta. rewrite !zdrop_app_le by lia. rewrite ztake_app_le by (rewrite zlen_zdrop; lia). done.
  - intros s t H. destruct (next_frame_cases s) as [E|[(H1 & H2 & E)|(H1 & H2 & E)]]; rewrite E in H; try done.
    pose proof (zlen_nonneg t). unfold next_frame. rewrite frame_length_app, H2, zlen_app by done.
    by rewrite (proj2 (Z.ltb_ge _ _)) by lia.
Qed.

Lemma next_frame_encode m t : zlen m <= max_message -> next_frame (encode m ++ t) = Frame m t.
Proof.
  intros Hm. pose proof (zlen_nonneg m). pose proof (zlen_nonneg t). unfold max_message in *.
  assert (Hl : zlen (be_bytes 4 (zlen m)) = 4) by apply zlen_be_bytes.
  assert (Hlen : frame_length (encode m ++ t) = zlen m).
  { unfold frame_length, encode. rewrite <- app_assoc, ztake_app_exact, be_value_bytes by done.
    change (width 4) with 32. unfold i32. rewrite swrap_uwrap by done. apply swrap_small; [done|]. unfold in_s. lia. }
  unfold next_frame. rewrite Hlen. unfold encode, bad_length, max_message, kHeaderLen in *.
  rewrite !zlen_app, Hl. zguard. cbv zeta. rewrite <- !app_assoc.
  rewrite (zdrop_app_exact 4), ztake_app_exact by done. rewrite app_assoc, zdrop_app_exact; [done|].
  rewrite zlen_app. lia.
Qed.

Lemma decode_messages ms : Forall (fun m => zlen m <= max_message) ms ->
  decode next_frame (concat (map encode ms)) = (ms, [], true).
Proof.
  intros H. apply (decode_encoded next_frame); [|done]. eapply Forall_impl; [exact H|].
  intros m Hm t. by apply next_frame_encode.
Qed.

(** Every message that is delivered was no longer than the limit. *)
Lemma decode_sizes s : Forall (fun m => zlen m <= max_message) (decode next_frame s).1.1.
Proof.
  apply (decode_Forall next_frame). intros s0 m rest H.
  destruct (next_frame_cases s0) as [E|[(_ & _ & E)|(H1 & H2 & E)]]; rewrite E in H; try done. injection H as <- _.
  unfold kHeaderLen in *. rewrite zlen_ztake; rewrite ?zlen_zdrop; lia.
Qed.

(** ** The loop and the reference *)

Lemma header_repr b s : repr b s -> kHeaderLen <= zlen s -> header b = frame_length s.
Proof.
  intros Hb Hs. unfold header, frame_length, kHeaderLen in *. rewrite (range_peek b s 4 Hb) by lia.
  set (l := ztake 4 s). assert (Hl : length l = 4%nat).
  { pose proof (zlen_ztake 4 s) as H. unfold zlen in H. fold l in H. unfold zlen in *. lia. }
  unfold u32, i32, networkToHost32. rewrite uwrap_swrap by done. rewrite uwrap_small.
  - by rewrite bswap_le_value.
  - pose proof (le_value_range l) as Hv. rewrite Hl in Hv. exact Hv.
Qed.

Section Loop.
Context {St : Type} (input : St -> Buffer) (with_input : Buffer -> St -> St) (stop : St -> St).
Context (messageCallback_ : text -> Timestamp -> St -> outcome St).
(** What holds of the program after the messages [log], and after the
    connection was stopped. *)
Context (F : failure -> Prop) (P Q : list text -> St -> Prop).
Hypothesis input_with : forall log b s, P log s -> input (with_input b s) = b.
Hypothesis input_stop : forall log s, P log s -> input (stop s) = input s.
Hypothesis P_input : forall log b s, P log s -> wf b -> P log (with_input b s).
Hypothesis P_stop : forall log s, P log s -> Q log (stop s).
Hypothesis P_callback : forall log m t s, P log s -> zlen m <= max_message ->
  unless F (messageCallback_ m t s) (fun s' => P (log ++ [m]) s' /\ input s' = input s).

(** A stopped program still holds what it refused. *)
Definition stopped_with (rest : text) (log : list text) (s : St) : Prop := repr (input s) rest /\ Q log s.

Lemma codec_loop_decodes fuel t : forall log s txt, (length txt < fuel)%nat -> repr (input s) txt -> P log s ->
  exists r, codec_loop input with_input stop messageCallback_ fuel t s = Some r /\
    unless F r (fun s' => let '(ms, rest, ok) := decode next_frame txt in
      after_message input P stopped_with rest (log ++ ms) ok s').
Proof.
  induction fuel as [|fuel IH]; intros log s txt Hf Hin HP; [lia|]. cbn [codec_loop].
  assert (Hnext : next_frame txt = ltac:(let x := eval unfold next_frame in (next_frame txt) in exact x)) by done.
  cbv zeta in Hnext. rewrite (readable_repr _ _ Hin), (decode_unfold next_frame), Hnext. clear Hnext.
  destruct (Z.leb_spec kHeaderLen (zlen txt)) as [Hlen|Hlen]; cycle 1.
  { rewrite (proj2 (Z.ltb_lt (zlen txt) kHeaderLen)) by lia.
    eexists. split; [done|]. by rewrite app_nil_r. }
  rewrite (header_repr _ _ Hin Hlen). fold (bad_length (frame_length txt)). cbv zeta.
  destruct (repr_bound _ _ Hin) as (Hw & _ & Hmax).
  rewrite (proj2 (Z.ltb_ge (zlen txt) kHeaderLen)) by lia.
  destruct (bad_length (frame_length txt)) eqn:E.
  { eexists. split; [done|]. rewrite app_nil_r. split; [by rewrite (input_stop log)|by apply P_stop]. }
  apply good_length in E. set (len := frame_length txt) in *. unfold kHeaderLen, max_message in *.
  rewrite u64_id by (unfold max_size in *; lia).
  destruct (Z.leb_spec (len + 4) (zlen txt)) as [Hle|Hle]; [rewrite (proj2 (Z.ltb_ge _ _)) by lia|rewrite (proj2 (Z.ltb_lt _ _)) by lia];
    [|eexists; split; [done|]; by rewrite app_nil_r].
  destruct (retrieve_repr _ _ 4 Hin) as (b1 & -> & Hb1 & _); [lia|]. cbn [mbind outcome_bind].
  assert (Hl4 : zlen (zdrop 4 txt) = zlen txt - 4) by (rewrite zlen_zdrop; lia).
  rewrite (range_peek b1 _ len Hb1) by lia. set (m := ztake len (zdrop 4 txt)).
  assert (Hm : zlen m = len) by (apply zlen_ztake; lia).
  pose proof (P_callback log m t (with_input b1 s) (P_input _ _ _ HP (proj1 Hb1))) as Hcb.
  unfold max_message in Hcb. specialize (Hcb ltac:(lia)).
  destruct (messageCallback_ m t (with_input b1 s)) as [s1|f]; [|by eexists]. destruct Hcb as [HP1 Hin1].
  cbn [mbind outcome_bind]. rewrite Hin1, (input_with log) by done.
  destruct (retrieve_repr _ _ len Hb1) as (b2 & -> & Hb2 & _); [lia|].
  rewrite zdrop_zdrop, Z.add_comm in Hb2 by lia. cbn [mbind outcome_bind].
  destruct (IH (log ++ [m]) (with_input b2 s1) (zdrop (len + 4) txt)) as (r & -> & Hr).
  - rewrite length_zdrop. unfold zlen in *. lia.
  - by rewrite (input_with (log ++ [m])).
  - apply P_input; [done|apply Hb2].
  - eexists. split; [done|]. eapply unless_mono; [exact Hr|]. intros s' _.
    destruct (decode next_frame (zdrop (len + 4) txt)) as [[ms rest] ok]. by rewrite <- app_assoc.
Qed.

(** On a stream whose next length is out of range the connection is stopped again. *)
Lemma codec_onMessage_bad t s txt : repr (input s) txt -> next_frame txt = Refuse ->
  codec_onMessage input with_input stop messageCallback_ t s = Some (Ok (stop s)).
Proof.
  intros Hin Hbad. destruct (next_frame_cases txt) as [E|[(H1 & H2 & E)|(H1 & H2 & E)]]; rewrite E in Hbad; try done.
  unfold codec_onMessage. cbn [codec_loop]. rewrite (readable_repr _ _ Hin).
  rewrite (proj2 (Z.leb_le _ _)) by done. rewrite (header_repr _ _ Hin H1). fold (bad_length (frame_length txt)). by rewrite H2.
Qed.

(** ** Reading the segments of a stream *)

Context (called : St -> St) (closed failed : St -> outcome St).
Hypothesis P_called : forall log s, P log s -> P log (called s).
Hypothesis Q_input : forall log b s, Q log s -> wf b -> Q log (with_input b s).
Hypothesis Q_called : forall log s, Q log s -> Q log (called s).
Hypothesis Q_stop : forall log s, Q log s -> Q log (stop s).
Hypothesis Q_input_with : forall log b s, Q log s -> input (with_input b s) = b.
Hypothesis Q_input_stop : forall log s, Q log s -> input (stop s) = input s.
Hypothesis input_called : forall s, input (called s) = input s.
Hypothesis F_long : forall f, too_long f -> F f.

Lemma codec_read_all_decodes segs s : repr (input s) [] -> P [] s ->
  Forall (fun m => 0 < zlen m.2 <= sizeof_extrabuf) segs ->
  exists r, stream_read_all input with_input called (codec_onMessage input with_input stop messageCallback_) closed failed
      segs s = Some r /\
    unless F r (fun s' => let '(ms, rest, ok) := decode next_frame (concat (map snd segs)) in
      repr (input s') rest /\ if ok then P ms s' else Q ms s').
Proof.
  intros Hin HP Hsegs.
  destruct (stream_read_all_decodes input with_input called (codec_onMessage input with_input stop messageCallback_)
    closed failed next_frame F P stopped_with F_long) with (segs := segs) (all := [] : text) (s := s)
    as (r & E & Hr); [| |by split|done|].
  - intros t ms s1 txt b H1 Hb. assert (Hi : input (called (with_input b s1)) = b)
      by (by rewrite input_called, (input_with ms)).
    apply codec_loop_decodes; rewrite ?Hi; [destruct Hb as [_ ->]; lia|done|]. apply P_called, P_input; [done|apply Hb].
  - intros rest ms s1 [Hi1 H1] Hbad. exists rest. split; [done|]. intros t b seg Hb.
    assert (HQ : Q ms (called (with_input b s1))) by (apply Q_called, Q_input; [done|apply Hb]).
    assert (Hi : input (called (with_input b s1)) = b) by (by rewrite input_called, (Q_input_with ms)).
    rewrite (codec_onMessage_bad t _ (rest ++ seg)); [|by rewrite Hi|by apply next_refuse].
    eexists. split; [done|]. split; [|by apply Q_stop]. by rewrite (Q_input_stop ms), Hi.
  - exists r. split; [done|]. eapply unless_mono; [exact Hr|]. intros s' _. unfold after_bytes, after_message.
    rewrite app_nil_l. by destruct (decode next_frame (concat (map snd segs))) as [[ms rest] []].
Qed.
End Loop.

(** ** Sending *)

(** The room for the header is kept when the message is appended. *)
Lemma append_reader b d len b' : append b d len = Ok b' ->
  kCheapPrepend <= readerIndex_ b -> kCheapPrepend <= readerIndex_ b'.
Proof.
  unfold append, ensureWritableBytes. intros H Hb. obind.
  assert (Hr : kCheapPrepend <= readerIndex_ r).
  { destruct (writableBytes b <? len); [|by obind; subst]. unfold makeSpace in Hr0.
    destruct (_ <? _); obind; subst; [done|simpl; lia]. }
  destruct (zlen d <? len); [done|]. unfold hasWritten in H. obind. by subst.
Qed.

Lemma codec_buffer_repr p : StringPiece.wf p -> exists b, codec_buffer p = Ok b /\ repr b (encode (StringPiece.chars p)).
Proof.
  intros Hp. unfold codec_buffer. destruct new_Buffer_repr as (b & E & Hb & Hw). rewrite E. cbn [mbind outcome_bind].
  destruct (append_piece_repr b [] p Hb Hp) as (b1 & E1 & Hb1 & _).
  { unfold kCheapPrepend, max_size, StringPiece.size in *. destruct Hp. lia. }
  unfold append_piece in E1. rewrite E1. cbn [mbind outcome_bind].
  assert (Hr : Z.of_nat 4 <= readerIndex_ b1).
  { pose proof (append_reader _ _ _ _ E1) as H. vm_compute in E. injection E as <-. unfold kCheapPrepend in H.
    simpl in H. lia. }
  destruct (prepend_be b1 _ 4 (i32 (StringPiece.size p)) Hb1 Hr) as (b2 & E2 & Hb2 & _).
  exists b2. split; [exact E2|]. simpl in Hb2. unfold encode. destruct Hp as [H1 H2].
  replace (zlen (StringPiece.chars p)) with (i32 (StringPiece.size p)); [done|].
  unfold StringPiece.chars, StringPiece.size, i32. rewrite zlen_ztake by lia. apply swrap_small; [done|].
  unfold in_s. lia.
Qed.

(** Bytes sent and bytes left to send. *)
Definition stream (c : TcpConnection) : text := sent c ++ pending_output c.

(** Nothing is sent of an empty message. *)
Lemma sendInLoop_empty write c : (forall k data n, write k data = Wrote n -> 0 <= n <= zlen data) ->
  exists c', sendInLoop write [] c = Ok c' /\ stream c' = stream c.
Proof.
  intros Hw. unfold sendInLoop. destruct (bool_decide _); [by eexists|]. unfold try_write.
  destruct (_ && _); [|by eexists]. destruct (write (writes c) []) as [n|e] eqn:E.
  - apply Hw in E. assert (n = 0) as -> by (unfold zlen in E; simpl in E; lia). cbn. rewrite app_nil_r.
    eexists. split; [done|]. by destruct (writeCompleteCallback_ c).
  - cbn [zlen length Z.of_nat Z.leb Z.compare assert_ mbind outcome_bind]. rewrite andb_false_r. by eexists.
Qed.

(** What [send] does to a connection that has come up. *)
Definition sent_on (c c' : TcpConnection) (bs : text) : Prop :=
  CInv 0 c' /\ TcpConnection.state_ c' = TcpConnection.state_ c /\ inputBuffer_ c' = inputBuffer_ c /\
  stream c' = stream c ++ (if connected c then bs else []).

Lemma codec_send_sends write p c :
  (forall k data n, write k data = Wrote n -> 0 <= n <= zlen data) -> no_fault write ->
  StringPiece.wf p -> CInv 0 c -> TcpConnection.state_ c <> kConnecting ->
  unless too_long (codec_send write p c) (fun c' => sent_on c c' (encode (StringPiece.chars p))).
Proof.
  intros Hw Hnf Hp Hi Hst. unfold codec_send. destruct (codec_buffer_repr p Hp) as (b & -> & Hb).
  cbn [mbind outcome_bind]. unfold sent_on, stream. destruct (connected c) eqn:Ec.
  - eapply unless_bind; [by apply (send_buffer_started write Hw b)|]. intros [b' c'] _ (H1 & H2 & H3 & H4). simpl in *.
    split_and!; try done. rewrite <- app_assoc. apply H4; [|done]. by apply connected_spec.
  - unfold send_buffer. rewrite Ec. simpl. by rewrite app_nil_r.
Qed.
