(* ===== verification/Chat.v ===== *)
(** * The chat programs (src/tests/chat/server.cpp, client.cpp)

    A server that relays every message it gets from a connection to all its
    connections, and a client that prints what it is sent; both read and write
    through the codec of LengthCodec.v. *)

From S2P Require Import Prelude Endian StringPiece Buffer Format Timestamp Channel Poller TcpConnection ConnStream Framing LengthCodec.
Local Open Scope Z_scope.

(** ** The server *)

(** The connections by creation, and the set of those the server relays to. *)
Record ChatServer : Type := mkChat { chat_conns : list TcpConnection; chat_members : gset nat }.

Section Server.
Context (write : nat -> nat -> list ascii -> write_result).

Definition chat_onConnection (i : nat) (st : ChatServer) : outcome ChatServer :=
  match chat_conns st !! i with
  | None => Err UseAfterFree
  | Some c => Ok (mkChat (chat_conns st) (if connected c then {[i]} ∪ chat_members st else chat_members st ∖ {[i]}))
  end.

(** [codec_.send(get_pointer( *it), message)]: the string becomes a [StringPiece]. *)
Definition chat_relay (message : text) (j : nat) (c : TcpConnection) : outcome TcpConnection :=
  piece ← StringPiece.of_string message;
  codec_send (write j) piece c.

(** The set is ordered by address; the order of the sends is not fixed here. *)
Definition chat_onStringMessage (message : text) (_ : Timestamp) (st : ChatServer) : outcome ChatServer :=
  cs ← for_each (at_index (chat_relay message)) (chat_conns st) (elements (chat_members st));
  Ok (mkChat cs (chat_members st)).

(** Connection [i] reads. *)
Definition chat_input (i : nat) (st : ChatServer) : Buffer :=
  match chat_conns st !! i with Some c => inputBuffer_ c | None => empty_buffer end.
Definition chat_update (i : nat) (f : TcpConnection -> TcpConnection) (st : ChatServer) : ChatServer :=
  mkChat (alter f i (chat_conns st)) (chat_members st).
Definition chat_with_input (i : nat) (b : Buffer) : ChatServer -> ChatServer := chat_update i (set_input b).
Definition chat_shutdown (i : nat) : ChatServer -> ChatServer := chat_update i shutdown.

Definition chat_onMessage (i : nat) : Timestamp -> ChatServer -> option (outcome ChatServer) :=
  codec_onMessage (chat_input i) (chat_with_input i) (chat_shutdown i) chat_onStringMessage.

(** [handleClose] tells [onConnection], which takes the connection out. *)
Definition chat_closed (i : nat) (st : ChatServer) : outcome ChatServer :=
  match chat_conns st !! i with
  | None => Err UseAfterFree
  | Some c =>
      c ← handleClose (write i) silent_user c;
      chat_onConnection i (mkChat (<[i := c]> (chat_conns st)) (chat_members st))
  end.

Definition chat_handleRead (i : nat) : (list Z -> readv_result) -> Timestamp -> ChatServer -> option (outcome ChatServer) :=
  stream_handleRead (chat_input i) (chat_with_input i) (chat_update i (record_call NMessage)) (chat_onMessage i)
    (chat_closed i) Ok.

Definition chat_read_all (i : nat) : list (Timestamp * text) -> ChatServer -> option (outcome ChatServer) :=
  stream_read_all (chat_input i) (chat_with_input i) (chat_update i (record_call NMessage)) (chat_onMessage i)
    (chat_closed i) Ok.

(** [connectEstablished] of connection [i]. *)
Definition chat_establish (i : nat) (st : ChatServer) : outcome ChatServer :=
  match chat_conns st !! i with
  | None => Err UseAfterFree
  | Some c =>
      c ← connectEstablished (write i) silent_user c;
      chat_onConnection i (mkChat (<[i := c]> (chat_conns st)) (chat_members st))
  end.

(** ** Invariant: the members are the connections that are up *)

Hypothesis write_bounded : forall i k data n, write i k data = Wrote n -> 0 <= n <= zlen data.
Hypothesis write_no_fault : forall i, no_fault (write i).

Record ChatInv (st : ChatServer) : Prop := mkChatInv {
  ch_conns : forall j c, chat_conns st !! j = Some c -> CInv 0 c;
  ch_members : forall j, j ∈ chat_members st <-> exists c, chat_conns st !! j = Some c /\ live c
}.

(** ** What a message does *)

(** The bytes a list of messages is relayed as. *)
Definition relayed (ms : list text) : text := concat (map (fun m => encode (StringPiece.until_nul m)) ms).

(** [st] is [st0] after connection [i] delivered the messages [log]; [ok] tells
    that [i] was not stopped. *)
Record Relayed (i : nat) (st0 : ChatServer) (ok : bool) (log : list text) (st : ChatServer) : Prop := mkRelayed {
  re_members : chat_members st = chat_members st0;
  re_length : length (chat_conns st) = length (chat_conns st0);
  re_conns : forall j c0 c, chat_conns st0 !! j = Some c0 -> chat_conns st !! j = Some c ->
    CInv 0 c /\
    TcpConnection.state_ c =
      (if bool_decide (j = i) && negb ok then TcpConnection.state_ (shutdown c0) else TcpConnection.state_ c0) /\
    (j <> i -> inputBuffer_ c = inputBuffer_ c0) /\
    stream c = stream c0 ++ (if bool_decide (j ∈ chat_members st0) && connected c0 then relayed log else [])
}.

Lemma relayed_app log m : relayed (log ++ [m]) = relayed log ++ encode (StringPiece.until_nul m).
Proof. unfold relayed. rewrite map_app, concat_app. simpl. by rewrite app_nil_r. Qed.

(** The callback of the codec relays to the members that are connected. *)
Lemma relayed_message i st0 log m t st : ChatInv st0 -> Relayed i st0 true log st -> zlen m <= max_message ->
  unless too_long (chat_onStringMessage m t st) (fun st' =>
    Relayed i st0 true (log ++ [m]) st' /\ chat_input i st' = chat_input i st).
Proof.
  intros Hinv [H1 H2 H3] Hm. unfold max_message in Hm.
  assert (Hbound : forall j c, chat_conns st !! j = Some c -> exists c0, chat_conns st0 !! j = Some c0).
  { intros j c Hj. apply lookup_lt_is_Some_2. rewrite <- H2. by eapply lookup_lt_Some. }
  destruct (StringPiece.of_string_spec m ltac:(lia)) as (p & Ep & Hp & Hch).
  unfold chat_onStringMessage. eapply unless_bind;
    [apply (at_each_index _ _ (fun _ c c' => sent_on c c' (encode (StringPiece.until_nul m)))); [apply NoDup_elements|]|].
  - intros j Hj. apply elem_of_elements in Hj. rewrite H1 in Hj. apply (ch_members _ Hinv) in Hj as (c0 & Hc0 & Hl).
    destruct (lookup_lt_is_Some_2 (chat_conns st) j) as [c Hc]; [rewrite H2; by eapply lookup_lt_Some|].
    destruct (H3 j c0 c Hc0 Hc) as (Hi & Hst & _). rewrite andb_false_r in Hst. exists c. split; [done|].
    unfold chat_relay. rewrite Ep, <- Hch. apply (codec_send_sends (write j) p c (write_bounded j) (write_no_fault j) Hp Hi).
    rewrite Hst. by destruct Hl as [-> | ->].
  - intros cs _ (K2 & K3). split; [constructor; simpl; [congruence..|]|].
    + intros j c0 c' Hc0 Hc'. destruct (lookup_lt_is_Some_2 (chat_conns st) j) as [c Hc];
        [rewrite H2; by eapply lookup_lt_Some|].
      destruct (H3 j c0 c Hc0 Hc) as (Hi & Hst & Hin & Hstr). specialize (K3 j c c' Hc Hc').
      rewrite andb_false_r in *. rewrite (bool_decide_ext _ (j ∈ chat_members st0)) in K3 by (by rewrite elem_of_elements, H1).
      assert (Hcon : connected c = connected c0) by (unfold connected; by rewrite Hst).
      destruct (bool_decide (j ∈ chat_members st0)).
      * destruct K3 as (L1 & L2 & L3 & L4). rewrite Hcon, Hstr in L4. split_and!; [done|congruence|intros Hj; rewrite L3; auto|].
        rewrite L4. simpl. destruct (connected c0); [by rewrite relayed_app, app_assoc|by rewrite !app_nil_r].
      * subst c'. done.
    + unfold chat_input. destruct (chat_conns st !! i) as [c|] eqn:Ec; cycle 1.
      { simpl. assert (cs !! i = None) as -> by (apply lookup_ge_None_2; rewrite K2; by apply lookup_ge_None_1). done. }
      destruct (lookup_lt_is_Some_2 cs i) as [c' Ec']; [rewrite K2; by eapply lookup_lt_Some|]. simpl. rewrite Ec'.
      specialize (K3 i c c' Ec Ec'). case_bool_decide; [by destruct K3 as (_ & _ & ? & _)|by subst].
Qed.

(** ** Reading *)

Lemma Relayed_refl i st : ChatInv st -> Relayed i st true [] st.
Proof.
  intros Hi. constructor; try done. intros j c0 c H1 H2. assert (c = c0) as -> by congruence.
  rewrite andb_false_r. split_and!; try done; [by eapply (ch_conns _ Hi)|].
  destruct (_ && _); by rewrite ?app_nil_r.
Qed.

(** A change of connection [i] that keeps its stream. *)
Lemma Relayed_update i st0 (ok ok' : bool) log f st : Relayed i st0 ok log st ->
  (forall c0 c, chat_conns st0 !! i = Some c0 -> CInv 0 c ->
     TcpConnection.state_ c = TcpConnection.state_ (if ok then c0 else shutdown c0) ->
     CInv 0 (f c) /\ TcpConnection.state_ (f c) = TcpConnection.state_ (if ok' then c0 else shutdown c0) /\
     stream (f c) = stream c) ->
  Relayed i st0 ok' log (chat_update i f st).
Proof.
  intros [H1 H2 H3] Hf. constructor; simpl; [done|by rewrite length_alter|].
  intros j c0 c' Hc0 Hc'. destruct (decide (j = i)) as [->|Hne].
  - rewrite list_lookup_alter_eq in Hc'. destruct (chat_conns st !! i) as [c|] eqn:Hc; [|done]. injection Hc' as <-.
    destruct (H3 i c0 c Hc0 Hc) as (Hi & Hst & _ & Hstr). rewrite bool_decide_true in * by done.
    destruct (Hf c0 c Hc0 Hi) as (K1 & K2 & K3); [by destruct ok|]. split_and!; try done; [by destruct ok'|by rewrite K3].
  - rewrite list_lookup_alter_ne in Hc' by done. specialize (H3 j c0 c' Hc0 Hc').
    by rewrite bool_decide_false in * by done.
Qed.

Lemma stream_shutdown c : stream (shutdown c) = stream c.
Proof. unfold stream, pending_output. destruct (shutdown_frame c) as (_ & -> & -> & _). done. Qed.

Lemma state_shutdown c c0 : TcpConnection.state_ c = TcpConnection.state_ c0 ->
  TcpConnection.state_ (shutdown c) = TcpConnection.state_ (shutdown c0).
Proof.
  intros E. unfold shutdown, shutdownInLoop, connected. rewrite E.
  destruct (bool_decide _); [|done]. cbn [channel_ setState].
  by destruct (isWriting (channel_ c)), (isWriting (channel_ c0)).
Qed.

Lemma chat_input_update i st0 ok log f st c0 : Relayed i st0 ok log st -> chat_conns st0 !! i = Some c0 ->
  exists c, chat_conns st !! i = Some c /\ chat_input i st = inputBuffer_ c /\
    chat_input i (chat_update i f st) = inputBuffer_ (f c).
Proof.
  intros [_ H2 _] Hc0. destruct (lookup_lt_is_Some_2 (chat_conns st) i) as [c Hc]; [rewrite H2; by eapply lookup_lt_Some|].
  exists c. unfold chat_input, chat_update. simpl. rewrite list_lookup_alter_eq, Hc. done.
Qed.

Lemma Relayed_stop i st0 ok log st : Relayed i st0 ok log st -> Relayed i st0 false log (chat_shutdown i st).
Proof.
  intros H. apply (Relayed_update i st0 ok false log shutdown st H). intros c0 c _ Hi Hst.
  destruct (shutdown_inv c Hi) as (Hi' & _). split_and!; [done| |apply stream_shutdown].
  destruct ok; [by apply state_shutdown|]. rewrite (state_shutdown c (shutdown c0) Hst).
  unfold shutdown at 1. destruct (connected (shutdown c0)) eqn:E; [|done]. exfalso. apply connected_spec in E.
  unfold shutdown, shutdownInLoop in E. destruct (connected c0) eqn:E0.
  - by destruct (isWriting _).
  - apply not_true_iff_false in E0. by rewrite connected_spec in E0.
Qed.

(** Connection [i] receives a stream in segments. *)
Lemma chat_reads i st0 segs c0 : ChatInv st0 -> chat_conns st0 !! i = Some c0 -> repr (inputBuffer_ c0) [] ->
  Forall (fun m => 0 < zlen m.2 <= sizeof_extrabuf) segs ->
  exists r, chat_read_all i segs st0 = Some r /\
    unless too_long r (fun st => let '(ms, rest, ok) := decode next_frame (concat (map snd segs)) in
      repr (chat_input i st) rest /\ if ok then Relayed i st0 true ms st else Relayed i st0 false ms st).
Proof.
  intros Hinv Hc0 Hin Hsegs.
  assert (Hupd : forall ok log f st, Relayed i st0 ok log st ->
    (forall c, CInv 0 c -> CInv 0 (f c)) -> (forall c, TcpConnection.state_ (f c) = TcpConnection.state_ c) ->
    (forall c, stream (f c) = stream c) -> Relayed i st0 ok log (chat_update i f st)).
  { intros ok log f st H K1 K2 K3. apply (Relayed_update i st0 ok ok log f st H). intros c1 c _ Hc Hst.
    rewrite K2, K3. auto. }
  apply (codec_read_all_decodes (chat_input i) (chat_with_input i) (chat_shutdown i) chat_onStringMessage too_long
    (Relayed i st0 true) (Relayed i st0 false)); try done.
  - intros log b st H. unfold chat_with_input. by destruct (chat_input_update i st0 true log (set_input b) st c0 H Hc0) as (c & _ & _ & ->).
  - intros log st H. unfold chat_shutdown. destruct (chat_input_update i st0 true log shutdown st c0 H Hc0) as (c & _ & -> & ->).
    apply shutdown_frame.
  - intros log b st H Hb. apply Hupd; try done. intros c Hc. by apply CInv_input.
  - intros log st. apply Relayed_stop.
  - intros log m t st H Hm. by apply relayed_message.
  - intros log st H. apply Hupd; try done. intros c Hc. by apply CInv_record.
  - intros log b st H Hb. apply Hupd; try done. intros c Hc. by apply CInv_input.
  - intros log st H. apply Hupd; try done. intros c Hc. by apply CInv_record.
  - intros log st. apply Relayed_stop.
  - intros log b st H. unfold chat_with_input. by destruct (chat_input_update i st0 false log (set_input b) st c0 H Hc0) as (c & _ & _ & ->).
  - intros log st H. unfold chat_shutdown. destruct (chat_input_update i st0 false log shutdown st c0 H Hc0) as (c & _ & -> & ->).
    apply shutdown_frame.
  - intros st. unfold chat_input, chat_update. simpl. rewrite list_lookup_alter_eq. by destruct (chat_conns st !! i).
  - unfold chat_input. by rewrite Hc0.
  - by apply Relayed_refl.
Qed.

(** ** The members *)

Lemma Relayed_ChatInv i st0 ok log st : ChatInv st0 -> Relayed i st0 ok log st -> ChatInv st.
Proof.
  intros [Hc Hm] [H1 H2 H3].
  assert (Hlk : forall j c, chat_conns st !! j = Some c -> exists c0, chat_conns st0 !! j = Some c0).
  { intros j c Hj. apply lookup_lt_is_Some_2. rewrite <- H2. by eapply lookup_lt_Some. }
  assert (Hsh : forall c, live (shutdown c) <-> live c).
  { intros c. unfold live, shutdown, shutdownInLoop. destruct (connected c) eqn:E; [|done].
    apply connected_spec in E. cbn [channel_ setState]. destruct (isWriting (channel_ c)); simpl; rewrite E; tauto. }
  assert (Hlive : forall j c0 c, chat_conns st0 !! j = Some c0 -> chat_conns st !! j = Some c -> live c <-> live c0).
  { intros j c0 c Hj0 Hj. destruct (H3 j c0 c Hj0 Hj) as (_ & Hst & _). rewrite <- (Hsh c0).
    destruct (_ && _); [unfold live; by rewrite Hst|]. rewrite Hsh. unfold live. by rewrite Hst. }
  constructor.
  - intros j c Hj. destruct (Hlk j c Hj) as [c0 Hj0]. apply (H3 j c0 c Hj0 Hj).
  - intros j. rewrite H1, Hm. split.
    + intros (c0 & Hj0 & Hl). destruct (lookup_lt_is_Some_2 (chat_conns st) j) as [c Hj];
        [rewrite H2; by eapply lookup_lt_Some|]. exists c. split; [done|]. by apply (Hlive j c0 c).
    + intros (c & Hj & Hl). destruct (Hlk j c Hj) as [c0 Hj0]. exists c0. split; [done|]. by apply (Hlive j c0 c).
Qed.

(** A change of connection [i] followed by [onConnection]. *)
Lemma chat_onConnection_inv i st c c' : ChatInv st -> chat_conns st !! i = Some c -> CInv 0 c' ->
  TcpConnection.state_ c' <> kDisconnecting ->
  unless too_long (chat_onConnection i (mkChat (<[i := c']> (chat_conns st)) (chat_members st))) ChatInv.
Proof.
  intros [Hc Hm] Hi Hc' Hst. unfold chat_onConnection. simpl. pose proof (lookup_lt_Some _ _ _ Hi) as Hlt.
  rewrite list_lookup_insert_eq by done. simpl. constructor; simpl.
  - intros j cj. destruct (decide (j = i)) as [->|Hne].
    + rewrite list_lookup_insert_eq by done. by intros [= <-].
    + rewrite list_lookup_insert_ne by done. apply Hc.
  - intros j. destruct (decide (j = i)) as [->|Hne].
    + rewrite list_lookup_insert_eq by done. destruct (connected c') eqn:E.
      * apply connected_spec in E. split; [|set_solver]. intros _. exists c'. split; [done|by left].
      * split; [set_solver|]. intros (? & [= <-] & [El|El]); [|done]. apply connected_spec in El. congruence.
    + rewrite list_lookup_insert_ne by done. rewrite <- Hm. destruct (connected c'); set_solver.
Qed.

Lemma chat_establish_inv i st c : ChatInv st -> chat_conns st !! i = Some c -> TcpConnection.state_ c = kConnecting ->
  unless too_long (chat_establish i st) ChatInv.
Proof.
  intros Hi Hc Hst. unfold chat_establish. rewrite Hc.
  eapply unless_bind; [apply (connectEstablished_inv (write i) silent_user (write_bounded i)); [done|by apply (ch_conns _ Hi i)|done]|].
  intros c' E Hc'. apply (chat_onConnection_inv i st c); try done. unfold connectEstablished in E. obind.
  unfold notify in E. simpl in E. by injection E as <-.
Qed.

Lemma chat_closed_inv i st c : ChatInv st -> chat_conns st !! i = Some c -> live c ->
  unless too_long (chat_closed i st) ChatInv.
Proof.
  intros Hi Hc Hl. unfold chat_closed. rewrite Hc.
  eapply unless_bind; [apply (handleClose_inv (write i) silent_user (write_bounded i)); [done|by apply (ch_conns _ Hi i)|done]|].
  intros c' E Hc'. apply (chat_onConnection_inv i st c); try done. unfold handleClose in E. obind.
  unfold notify in Hr0. simpl in Hr0. by injection Hr0 as <-.
Qed.
End Server.

(** ** The client *)

(** Its connection, whether [connection_] is set, and what it has printed. *)
Record ChatClient : Type := mkChatClient { client_conn : TcpConnection; connection_ : bool; printed : list text }.

Definition client_onConnection (k : ChatClient) : ChatClient :=
  mkChatClient (client_conn k) (connected (client_conn k)) (printed k).

(** [printf("<<< %s\n", message.c_str())]. *)
Definition print_line (message : text) : text := bytes "<<< " ++ StringPiece.until_nul message ++ ["010"%char].

Definition client_onStringMessage (message : text) (_ : Timestamp) (k : ChatClient) : outcome ChatClient :=
  Ok (mkChatClient (client_conn k) (connection_ k) (printed k ++ [print_line message])).

Definition client_update (f : TcpConnection -> TcpConnection) (k : ChatClient) : ChatClient :=
  mkChatClient (f (client_conn k)) (connection_ k) (printed k).

(** [write], called by the main thread: the buffer of the codec goes to the loop. *)
Definition client_write (message : StringPiece.StringPiece) (k : ChatClient) : outcome ChatClient :=
  if connection_ k then
    buf ← codec_buffer message;
    '(_, c) ← send_buffer_foreign buf (client_conn k);
    Ok (client_update (fun _ => c) k)
  else Ok k.

Definition client_closed (write : nat -> list ascii -> write_result) (k : ChatClient) : outcome ChatClient :=
  c ← handleClose write silent_user (client_conn k);
  Ok (client_onConnection (client_update (fun _ => c) k)).

Definition client_onMessage : Timestamp -> ChatClient -> option (outcome ChatClient) :=
  codec_onMessage (fun k => inputBuffer_ (client_conn k)) (fun b => client_update (set_input b)) (client_update shutdown)
    client_onStringMessage.

Definition client_read_all (write : nat -> list ascii -> write_result)
  : list (Timestamp * text) -> ChatClient -> option (outcome ChatClient) :=
  stream_read_all (fun k => inputBuffer_ (client_conn k)) (fun b => client_update (set_input b))
    (client_update (record_call NMessage)) client_onMessage (client_closed write) Ok.

Lemma client_reads write k segs : CInv 0 (client_conn k) -> repr (inputBuffer_ (client_conn k)) [] ->
  Forall (fun m => 0 < zlen m.2 <= sizeof_extrabuf) segs ->
  exists r, client_read_all write segs k = Some r /\
    unless too_long r (fun k' => let '(ms, rest, ok) := decode next_frame (concat (map snd segs)) in
      CInv 0 (client_conn k') /\ repr (inputBuffer_ (client_conn k')) rest /\
      printed k' = printed k ++ map print_line ms).
Proof.
  intros Hi Hin Hsegs. set (P := fun (log : list text) k' => CInv 0 (client_conn k') /\ printed k' = printed k ++ map print_line log).
  destruct (codec_read_all_decodes (fun k => inputBuffer_ (client_conn k)) (fun b => client_update (set_input b))
    (client_update shutdown) client_onStringMessage too_long P P) with (s := k) (segs := segs)
    (called := client_update (record_call NMessage)) (closed := client_closed write) (failed := @Ok ChatClient)
    as (r & E & Hr); try done.
  - intros log k' _. apply shutdown_frame.
  - intros log b k' [H1 H2] Hb. split; [|done]. by apply CInv_input.
  - intros log k' [H1 H2]. split; [|done]. by destruct (shutdown_inv _ H1).
  - intros log m t k' [H1 H2] _. split; [|done]. split; [done|]. simpl. by rewrite H2, map_app, <- app_assoc.
  - intros log k' [H1 H2]. split; [|done]. by apply CInv_record.
  - intros log b k' [H1 H2] Hb. split; [|done]. by apply CInv_input.
  - intros log k' [H1 H2]. split; [|done]. by apply CInv_record.
  - intros log k' [H1 H2]. split; [|done]. by destruct (shutdown_inv _ H1).
  - intros log k' _. apply shutdown_frame.
  - split; [done|]. by rewrite app_nil_r.
  - exists r. split; [exact E|]. eapply unless_mono; [exact Hr|]. intros k' _.
    destruct (decode next_frame (concat (map snd segs))) as [[ms rest] ok]. intros [H1 H2].
    assert (HP : P ms k') by (by destruct ok). destruct HP as [H3 H4]. done.
Qed.

(** ** Properties *)


(** Two clients, the first of which is about to send. *)
Definition sample_chat : ChatServer := mkChat [open_connection; open_connection] {[0%nat; 1%nat]}.

Lemma sample_chat_inv : ChatInv sample_chat.
Proof.
  constructor.
  - intros j c Hj. assert (c = open_connection) as -> by (by destruct j as [|[|j]]; simpl in Hj; [congruence..|]).
    apply open_connection_inv.
  - intros j. split.
    + intros Hj. exists open_connection. split; [|by left].
      assert (j = 0%nat \/ j = 1%nat) as [-> | ->] by (clear -Hj; set_solver); done.
    + intros (c & Hc & _). apply lookup_lt_Some in Hc. simpl in Hc. simpl.
      assert (j = 0%nat \/ j = 1%nat) as [-> | ->] by lia; set_solver.
Qed.

Definition sample_stream : text := encode (bytes "hi") ++ encode (bytes "all").
Definition sample_segments : list (Timestamp * text) :=
  [(mkTimestamp 1, ztake 3 sample_stream); (mkTimestamp 2, ztake 6 (zdrop 3 sample_stream)); (mkTimestamp 3, zdrop 9 sample_stream)].


(** The first byte of the header of a message of less than 16 MiB is zero. *)
Lemma encode_nul m : zlen m < 2 ^ 24 -> StringPiece.until_nul (encode m) = [].
Proof.
  intros Hm. pose proof (zlen_nonneg m).
  assert (E : zlen m / 256 / 256 / 256 = 0) by (rewrite !Z.div_div, Z.div_small by lia; done).
  assert (Hb : exists l, be_bytes 4 (zlen m) = byte_of_Z 0 :: l) by (unfold be_bytes; simpl; rewrite E; by eexists).
  destruct Hb as [l Hl]. unfold encode. by rewrite Hl.
Qed.

(** The defect of the chat client: [write] runs on the main thread, so the codec's
    buffer goes to the loop as a string that is turned back into a [StringPiece]
    by [strlen]; the header starts with a zero byte, so nothing is ever sent. *)
Theorem chat_client_write_lost (write : nat -> list ascii -> write_result)
    (user : notification -> TcpConnection -> list user_op) (k : ChatClient) (p : StringPiece.StringPiece) :
  (forall k data n, write k data = Wrote n -> 0 <= n <= zlen data) ->
  connection_ k = true -> TcpConnection.state_ (client_conn k) = kConnected -> queue (client_conn k) = [] ->
  StringPiece.wf p -> StringPiece.size p < 2 ^ 24 ->
  exists k', client_write p k = Ok k' /\ exists c, conn_step write user (client_conn k') LFunctor = Ok c /\
    stream c = stream (client_conn k).
Proof.
  intros Hw Hk Hst Hq Hp Hsize. destruct (codec_buffer_repr p Hp) as (b & Eb & Hb).
  destruct (retrieveAllAsString_repr b _ Hb) as (b' & Er & _).
  unfold client_write. rewrite Hk, Eb. cbn [mbind outcome_bind]. unfold send_buffer_foreign.
  rewrite (proj2 (connected_spec _) Hst), Er. cbn [mbind outcome_bind]. eexists. split; [done|].
  cbn [conn_step client_conn client_update queue queueInLoop set_queue]. rewrite Hq. cbn [app run_functor].
  assert (Hm : zlen (StringPiece.chars p) < 2 ^ 24).
  { destruct Hp as [H1 H2]. unfold StringPiece.chars, StringPiece.size in *. rewrite zlen_ztake by lia. lia. }
  destruct (StringPiece.of_string_spec (encode (StringPiece.chars p))) as (p1 & -> & _ & Hch).
  { unfold encode. rewrite zlen_app. pose proof (zlen_be_bytes 4 (zlen (StringPiece.chars p))). lia. }
  cbn [mbind outcome_bind]. rewrite Hch, encode_nul by done.
  set (c := set_queue [] _). exact (sendInLoop_empty write c Hw).
Qed.

Lemma chat_client_write_lost_witness :
  exists k', client_write (StringPiece.mkPiece (bytes "hello") 5) (mkChatClient open_connection true []) = Ok k' /\
    exists c, conn_step full_write silent_user (client_conn k') LFunctor = Ok c /\ stream c = [].
Proof.
  apply (chat_client_write_lost full_write silent_user (mkChatClient open_connection true [])).
  - apply full_write_bounded.
  - reflexivity.
  - reflexivity.
  - reflexivity.
  - vm_compute. split; [split; [discriminate|reflexivity]|discriminate].
  - vm_compute. reflexivity.
Defined.
