(* ===== verification/Hub.v ===== *)
(** * The publish-subscribe hub (src/tests/hub/codec.cpp, hub.cpp, pubsub.cpp)

    The server keeps, for every topic, the connections that subscribed to it and
    what was published last; a connection keeps the topics it subscribed to in
    its context.  The two are compared with a board: a relation between
    connections and topics, and the last post of each topic. *)

From S2P Require Import Prelude Endian StringPiece Buffer Lines Format Timestamp Channel Poller TcpConnection ConnStream.
From S2P Require Import Framing LengthCodec.
Local Open Scope Z_scope.

(** ** The codec *)

Inductive ParseResult : Type := kError | kSuccess | kContinue.

(** The result, the strings [cmd], [topic] and [content], and the buffer. *)
Definition parseMessage (buf : Buffer) : outcome (ParseResult * (text * text * text) * Buffer) :=
  match findCRLF buf with
  | None => Ok (kContinue, ([], [], []), buf)
  | Some crlf =>
      match find_char SP (range buf (peek buf) crlf) with
      | None => Ok (kError, ([], [], []), buf)
      | Some (cmd, topic) =>
          if decide (cmd = bytes "pub") then
            let start := crlf + 2 in
            end_ ← findCRLF_from buf start;
            match end_ with
            | Some crlf =>
                let content := range buf start crlf in
                buf ← retrieveUntil buf (crlf + 2);
                Ok (kSuccess, (cmd, topic, content), buf)
            | None => Ok (kContinue, (cmd, topic, []), buf)
            end
          else
            buf ← retrieveUntil buf (crlf + 2);
            Ok (kSuccess, (cmd, topic, []), buf)
      end
  end.

(** ** The server *)

Record Topic : Type := mkTopic {
  topic_ : text;
  content_ : text;
  lastPubTime_ : Timestamp;
  audiences_ : gset nat
}.

Definition new_Topic (topic : text) : Topic := mkTopic topic [] invalid ∅.

Definition makeMessage (t : Topic) : text := bytes "pub " ++ topic_ t ++ kCRLF ++ content_ t ++ kCRLF.

(** A connection and its context: the topics it subscribed to, once it is up. *)
Record HubConn : Type := mkHubConn { hc_tcp : TcpConnection; hc_subs : option (gset text) }.

Record Hub : Type := mkHub { hub_conns : list HubConn; topics_ : gmap text Topic }.

Section Server.
Context (write : nat -> nat -> list ascii -> write_result).

(** [conn->send(message)] of a [std::string]. *)
Definition hub_send (message : text) (j : nat) (x : HubConn) : outcome HubConn :=
  piece ← StringPiece.of_string message;
  c ← send (write j) (StringPiece.chars piece) (hc_tcp x);
  Ok (mkHubConn c (hc_subs x)).

Definition topic_add (i : nat) (t : Topic) (cs : list HubConn) : outcome (Topic * list HubConn) :=
  let t := mkTopic (topic_ t) (content_ t) (lastPubTime_ t) ({[i]} ∪ audiences_ t) in
  cs ← (if valid (lastPubTime_ t) then at_index (hub_send (makeMessage t)) cs i else Ok cs);
  Ok (t, cs).

Definition topic_remove (i : nat) (t : Topic) : Topic :=
  mkTopic (topic_ t) (content_ t) (lastPubTime_ t) (audiences_ t ∖ {[i]}).

Definition topic_publish (content : text) (time : Timestamp) (t : Topic) (cs : list HubConn)
  : outcome (Topic * list HubConn) :=
  let t := mkTopic (topic_ t) content time (audiences_ t) in
  cs ← for_each (at_index (hub_send (makeMessage t))) cs (elements (audiences_ t));
  Ok (t, cs).

Definition getTopic (topic : text) (st : Hub) : Topic := default (new_Topic topic) (topics_ st !! topic).

(** [any_cast] of an empty context gives a null pointer. *)
Definition update_subs (f : gset text -> gset text) (_ : nat) (x : HubConn) : outcome HubConn :=
  match hc_subs x with
  | None => Err OutOfBounds
  | Some subs => Ok (mkHubConn (hc_tcp x) (Some (f subs)))
  end.

Definition doSubscribe (i : nat) (topic : text) (st : Hub) : outcome Hub :=
  cs ← at_index (update_subs (fun s => {[topic]} ∪ s)) (hub_conns st) i;
  '(t, cs) ← topic_add i (getTopic topic st) cs;
  Ok (mkHub cs (<[topic := t]> (topics_ st))).

Definition doUnsubscribe (i : nat) (st : Hub) (topic : text) : outcome Hub :=
  let t := topic_remove i (getTopic topic st) in
  cs ← at_index (update_subs (fun s => s ∖ {[topic]})) (hub_conns st) i;
  Ok (mkHub cs (<[topic := t]> (topics_ st))).

Definition doPublish (topic content : text) (time : Timestamp) (st : Hub) : outcome Hub :=
  '(t, cs) ← topic_publish content time (getTopic topic st) (hub_conns st);
  Ok (mkHub cs (<[topic := t]> (topics_ st))).

(** [timePublish], once a second. *)
Definition timePublish (localtime_r : Z -> tm_fields) (now : Timestamp) (st : Hub) : outcome Hub :=
  doPublish (bytes "utc_time") (toFormattedString localtime_r true now) now st.

Definition hub_onConnection (i : nat) (st : Hub) : outcome Hub :=
  match hub_conns st !! i with
  | None => Err UseAfterFree
  | Some x =>
      if connected (hc_tcp x) then Ok (mkHub (<[i := mkHubConn (hc_tcp x) (Some ∅)]> (hub_conns st)) (topics_ st))
      else match hc_subs x with
           | None => Err OutOfBounds
           | Some subs => for_each (doUnsubscribe i) st (elements subs)
           end
  end.

(** Changes of connection [i]. *)
Definition hub_input (i : nat) (st : Hub) : Buffer :=
  match hub_conns st !! i with Some x => inputBuffer_ (hc_tcp x) | None => empty_buffer end.
Definition hub_update (i : nat) (f : TcpConnection -> TcpConnection) (st : Hub) : Hub :=
  mkHub (alter (fun x => mkHubConn (f (hc_tcp x)) (hc_subs x)) i (hub_conns st)) (topics_ st).

(** [onMessage]: one round of its loop per unit of fuel. *)
Fixpoint hub_loop (fuel : nat) (i : nat) (receiveTime : Timestamp) (st : Hub) : option (outcome Hub) :=
  match fuel with
  | O => None
  | S fuel =>
      match parseMessage (hub_input i st) with
      | Err f => Some (Err f)
      | Ok (result, (cmd, topic, content), buf) =>
          let st := hub_update i (set_input buf) st in
          let continue r := match r with Ok st => hub_loop fuel i receiveTime st | Err f => Some (Err f) end in
          match result with
          | kSuccess =>
              if decide (cmd = bytes "pub") then continue (doPublish topic content receiveTime st)
              else if decide (cmd = bytes "sub") then continue (doSubscribe i topic st)
              else if decide (cmd = bytes "unsub") then continue (doUnsubscribe i st topic)
              else Some (Ok (hub_update i shutdown st))
          | kError => Some (Ok (hub_update i shutdown st))
          | kContinue => Some (Ok st)
          end
      end
  end.

Definition hub_onMessage (i : nat) (receiveTime : Timestamp) (st : Hub) : option (outcome Hub) :=
  hub_loop (S (length (content (hub_input i st)))) i receiveTime st.

(** [connectEstablished] and [handleClose] of connection [i], whose callback is [onConnection]. *)
Definition hub_tcp (f : nat -> TcpConnection -> outcome TcpConnection) (i : nat) (st : Hub) : outcome Hub :=
  cs ← at_index (fun i x => c ← f i (hc_tcp x); Ok (mkHubConn c (hc_subs x))) (hub_conns st) i;
  hub_onConnection i (mkHub cs (topics_ st)).

Definition hub_establish : nat -> Hub -> outcome Hub := hub_tcp (fun i => connectEstablished (write i) silent_user).
Definition hub_closed : nat -> Hub -> outcome Hub := hub_tcp (fun i => handleClose (write i) silent_user).

Definition hub_handleRead (i : nat) : (list Z -> readv_result) -> Timestamp -> Hub -> option (outcome Hub) :=
  stream_handleRead (hub_input i) (fun b => hub_update i (set_input b)) (hub_update i (record_call NMessage))
    (hub_onMessage i) (hub_closed i) Ok.
End Server.

(** ** The client *)

(** [PubSubClient]: its connection, whether [conn_] is set, and whether a callback
    was given to [subscribe]. *)
Record PubSubClient : Type := mkPubSub { ps_tcp : TcpConnection; ps_conn : bool; ps_callback : bool }.

Definition ps_connected (k : PubSubClient) : bool := ps_conn k && connected (ps_tcp k).

Definition ps_onConnection (k : PubSubClient) : PubSubClient :=
  mkPubSub (ps_tcp k) (connected (ps_tcp k)) (ps_callback k).

(** The messages its calls send. *)
Definition subscribe_message (topic : text) : text := bytes "sub" ++ topic ++ kCRLF.
Definition unsubscribe_message (topic : text) : text := bytes "unsbu" ++ topic ++ kCRLF.
Definition publish_message (topic content : text) : text := bytes "pub " ++ topic ++ kCRLF ++ content ++ kCRLF.

Section Client.
Context (write : nat -> list ascii -> write_result).

Definition ps_send (message : text) (k : PubSubClient) : outcome (bool * PubSubClient) :=
  if ps_connected k then
    piece ← StringPiece.of_string message;
    c ← send write (StringPiece.chars piece) (ps_tcp k);
    Ok (true, mkPubSub c (ps_conn k) (ps_callback k))
  else Ok (false, k).

Definition subscribe (topic : text) (k : PubSubClient) : outcome (bool * PubSubClient) :=
  ps_send (subscribe_message topic) (mkPubSub (ps_tcp k) (ps_conn k) true).

Definition unsubscribe (topic : text) (k : PubSubClient) : outcome PubSubClient :=
  '(_, k) ← ps_send (unsubscribe_message topic) k; Ok k.

Definition publish (topic content : text) (k : PubSubClient) : outcome (bool * PubSubClient) :=
  ps_send (publish_message topic content) k.
End Client.

(** ** The reference *)

(** What the codec cuts out of a stream: a command, its topic, and for a post its content. *)
Definition next_entry (s : text) : frame (text * text * text) :=
  match break_crlf s with
  | None => Wait
  | Some (line, rest) =>
      match find_char SP line with
      | None => Refuse
      | Some (cmd, topic) =>
          if decide (cmd = bytes "pub") then
            match break_crlf rest with
            | None => Wait
            | Some (content, rest) => Frame (cmd, topic, content) rest
            end
          else Frame (cmd, topic, []) rest
      end
  end.

(** What the hub makes of it. *)
Inductive command : Type :=
| Pub (topic content : text)
| Sub (topic : text)
| Unsub (topic : text).

Definition command_of (e : text * text * text) : option command :=
  let '(cmd, topic, content) := e in
  if decide (cmd = bytes "pub") then Some (Pub topic content)
  else if decide (cmd = bytes "sub") then Some (Sub topic)
  else if decide (cmd = bytes "unsub") then Some (Unsub topic)
  else None.

Definition next_command (s : text) : frame command :=
  match next_entry s with
  | Wait => Wait
  | Refuse => Refuse
  | Frame e rest => match command_of e with Some a => Frame a rest | None => Refuse end
  end.

Lemma break_crlf_shorter s line rest : break_crlf s = Some (line, rest) -> (length rest < length s)%nat.
Proof. intros H. apply break_crlf_len in H. unfold zlen in H. lia. Qed.

#[export] Instance next_entry_framing : Framing next_entry.
Proof.
  split; unfold next_entry.
  - intros s a rest. destruct (break_crlf s) as [[line r]|] eqn:E; [|done]. pose proof (break_crlf_shorter _ _ _ E).
    destruct (find_char SP line) as [[cmd topic]|]; [|done]. case_decide; [|by intros [= <- <-]].
    destruct (break_crlf r) as [[c r']|] eqn:E'; [|done]. pose proof (break_crlf_shorter _ _ _ E'). intros [= <- <-]. lia.
  - intros s a rest t. destruct (break_crlf s) as [[line r]|] eqn:E; [|done]. rewrite (break_crlf_app _ _ _ t E).
    destruct (find_char SP line) as [[cmd topic]|]; [|done]. case_decide; [|by intros [= <- <-]].
    destruct (break_crlf r) as [[c r']|] eqn:E'; [|done]. rewrite (break_crlf_app _ _ _ t E'). by intros [= <- <-].
  - intros s t. destruct (break_crlf s) as [[line r]|] eqn:E; [|done]. rewrite (break_crlf_app _ _ _ t E).
    destruct (find_char SP line) as [[cmd topic]|]; [|done]. case_decide; [|done].
    by destruct (break_crlf r) as [[c r']|].
Qed.

#[export] Instance next_command_framing : Framing next_command.
Proof.
  split; unfold next_command; intros s.
  - intros a rest. destruct (next_entry s) as [| |e r] eqn:E; [done..|]. apply next_shorter in E.
    destruct (command_of e); [|done]. by intros [= <- <-].
  - intros a rest t. destruct (next_entry s) as [| |e r] eqn:E; [done..|]. rewrite (next_app _ _ _ t E).
    destruct (command_of e); [|done]. by intros [= <- <-].
  - intros t. destruct (next_entry s) as [| |e r] eqn:E; [done|by rewrite (next_refuse _ t E)|]. rewrite (next_app _ _ _ t E).
    by destruct (command_of e).
Qed.

(** The codec on a buffer. *)
Lemma parseMessage_repr b s : repr b s ->
  match next_entry s with
  | Wait => exists strs, parseMessage b = Ok (kContinue, strs, b)
  | Refuse => exists strs, parseMessage b = Ok (kError, strs, b)
  | Frame e rest => exists b', repr b' rest /\ parseMessage b = Ok (kSuccess, e, b')
  end.
Proof.
  intros Hb. unfold parseMessage, next_entry. rewrite (findCRLF_repr b s Hb).
  destruct (break_crlf s) as [[line rest]|] eqn:E; [|by eexists].
  pose proof (break_crlf_len _ _ _ E) as Hlen. pose proof (break_crlf_Some _ _ _ E) as Hs.
  pose proof (zlen_nonneg line). pose proof (zlen_nonneg rest).
  assert (Hline : range b (peek b) (peek b + zlen line) = line).
  { rewrite (range_peek b s) by (try done; lia). rewrite Hs. by apply ztake_app_exact. }
  rewrite Hline. destruct (find_char SP line) as [[cmd topic]|]; [|by eexists].
  assert (Hrest : zdrop (zlen line + 2) s = rest).
  { rewrite Hs, app_assoc. apply zdrop_app_exact. rewrite zlen_app. reflexivity. }
  case_decide as Hcmd; cycle 1.
  { destruct (retrieveUntil_repr b s (zlen line + 2) Hb) as (b' & E' & Hb' & _); [lia|]. exists b'.
    rewrite <- Z.add_assoc, E'. by rewrite Hrest in Hb'. }
  rewrite <- Z.add_assoc, (findCRLF_from_repr b s (zlen line + 2) Hb), Hrest by lia.
  cbn [mbind outcome_bind]. destruct (break_crlf rest) as [[c rest']|] eqn:E'; [|by eexists].
  pose proof (break_crlf_len _ _ _ E') as Hlen'. pose proof (break_crlf_Some _ _ _ E') as Hs'.
  pose proof (zlen_nonneg c). pose proof (zlen_nonneg rest').
  rewrite (range_mid b s (zlen line + 2) (zlen c) Hb), Hrest, <- !Z.add_assoc by lia.
  destruct (retrieveUntil_repr b s (zlen line + (2 + (zlen c + 2))) Hb) as (b' & -> & Hb' & _); [lia|]. cbn [mbind outcome_bind].
  exists b'. split.
  - replace (zlen line + (2 + (zlen c + 2))) with (zlen line + 2 + (zlen c + 2)) in Hb' by lia.
    rewrite <- zdrop_zdrop, Hrest, Hs', app_assoc, zdrop_app_exact in Hb' by (rewrite ?zlen_app; first [lia|done]). done.
  - by rewrite Hs', ztake_app_exact.
Qed.

(** What the hub finds is the next command. *)
Definition parsed (b : Buffer) (s : text) (r : outcome (ParseResult * (text * text * text) * Buffer)) : Prop :=
  match next_command s with
  | Wait => exists strs, r = Ok (kContinue, strs, b)
  | Refuse => exists res strs b', r = Ok (res, strs, b') /\ wf b' /\
      (res = kError \/ (res = kSuccess /\ strs.1.1 <> bytes "pub" /\ strs.1.1 <> bytes "sub" /\ strs.1.1 <> bytes "unsub"))
  | Frame a rest => exists b' e, repr b' rest /\ r = Ok (kSuccess, e, b') /\ command_of e = Some a
  end.

Lemma parseMessage_command b s : repr b s -> parsed b s (parseMessage b).
Proof.
  intros Hb. pose proof (parseMessage_repr b s Hb) as Hp. unfold parsed, next_command.
  destruct (next_entry s) as [| |e rest]; [done|..].
  - destruct Hp as [strs ->]. do 3 eexists. split; [done|]. split; [apply Hb|by left].
  - destruct Hp as (b' & Hb' & ->). destruct (command_of e) as [a|] eqn:E; [by exists b', e|].
    do 3 eexists. split; [done|]. split; [apply Hb'|]. right. destruct e as [[cmd tp] c]. simpl in *. by repeat case_decide.
Qed.

(** ** The board *)

(** Who subscribed to what, and the last post of each topic. *)
Record Board : Type := mkBoard { subs : gset (nat * text); posts : gmap text text }.

Definition board_step (i : nat) (B : Board) (a : command) : Board :=
  match a with
  | Pub t c => mkBoard (subs B) (<[t := c]> (posts B))
  | Sub t => mkBoard ({[(i, t)]} ∪ subs B) (posts B)
  | Unsub t => mkBoard (subs B ∖ {[(i, t)]}) (posts B)
  end.

(** What connection [j] is sent when connection [i] gives a command: a post goes to
    the subscribers of its topic, and a new subscriber gets the last post. *)
Definition deliver (i : nat) (B : Board) (a : command) (j : nat) : text :=
  match a with
  | Pub t c => if bool_decide ((j, t) ∈ subs B) then StringPiece.until_nul (publish_message t c) else []
  | Sub t =>
      if bool_decide (j = i) then
        match posts B !! t with Some c => StringPiece.until_nul (publish_message t c) | None => [] end
      else []
  | Unsub _ => []
  end.

Definition board_run (i : nat) (B : Board) (log : list command) : Board := fold_left (board_step i) log B.

Fixpoint delivered (i : nat) (B : Board) (log : list command) (j : nat) : text :=
  match log with
  | [] => []
  | a :: log => deliver i B a j ++ delivered i (board_step i B a) log j
  end.

Lemma board_run_app i log log' B : board_run i B (log ++ log') = board_run i (board_run i B log) log'.
Proof. apply fold_left_app. Qed.

Lemma delivered_app i log log' j : forall B,
  delivered i B (log ++ log') j = delivered i B log j ++ delivered i (board_run i B log) log' j.
Proof. induction log as [|a log IH]; intros B; simpl; [done|]. by rewrite IH, app_assoc. Qed.

(** ** The server represents the board *)

Definition fits (t c : text) : Prop := zlen (publish_message t c) < 2 ^ 31.

Record HubRep (B : Board) (st : Hub) : Prop := mkHubRep {
  hr_conn : forall j x, hub_conns st !! j = Some x -> CInv 0 (hc_tcp x) /\
    (live (hc_tcp x) -> is_Some (hc_subs x)) /\
    forall t, (j, t) ∈ subs B <-> exists s, hc_subs x = Some s /\ t ∈ s;
  hr_exists : forall j t, (j, t) ∈ subs B -> exists x, hub_conns st !! j = Some x;
  hr_topic : forall t, topic_ (getTopic t st) = t /\
    (forall j, j ∈ audiences_ (getTopic t st) <-> (j, t) ∈ subs B) /\
    posts B !! t = if valid (lastPubTime_ (getTopic t st)) then Some (content_ (getTopic t st)) else None;
  hr_fits : forall t c, posts B !! t = Some c -> fits t c
}.

(** The connections were sent [d]. *)
Definition Sent (d : nat -> text) (cs cs' : list HubConn) : Prop :=
  length cs' = length cs /\
  forall j x x', cs !! j = Some x -> cs' !! j = Some x' -> sent_on (hc_tcp x) (hc_tcp x') (d j).

Section Refinement.
Context (write : nat -> nat -> list ascii -> write_result).
Hypothesis write_bounded : forall i k data n, write i k data = Wrote n -> 0 <= n <= zlen data.
Hypothesis write_no_fault : forall i, no_fault (write i).

Lemma hub_send_sends m j x : zlen m < 2 ^ 31 -> CInv 0 (hc_tcp x) ->
  unless too_long (hub_send write m j x) (fun x' =>
    sent_on (hc_tcp x) (hc_tcp x') (StringPiece.until_nul m) /\ hc_subs x' = hc_subs x).
Proof.
  intros Hm Hi. unfold hub_send. destruct (StringPiece.of_string_spec m Hm) as (p & -> & _ & Hch).
  cbn [mbind outcome_bind]. rewrite Hch.
  unfold sent_on, send. destruct (connected (hc_tcp x)) eqn:Ec; [|simpl; by rewrite app_nil_r].
  apply connected_spec in Ec. pose proof (until_nul_le m).
  eapply unless_bind; [apply (sendInLoop_started (write j) (write_bounded j)); [done|by rewrite Ec|unfold max_size; lia]|].
  intros c' _ (H1 & H2 & H3 & H4). simpl. split_and!; try done. unfold stream. rewrite <- app_assoc. apply H4; [by rewrite Ec|done].
Qed.

Lemma getTopic_insert t T t' cs st : getTopic t' (mkHub cs (<[t := T]> (topics_ st))) = if decide (t' = t) then T else getTopic t' st.
Proof.
  unfold getTopic. simpl. case_decide; [subst; by rewrite lookup_insert_eq|by rewrite lookup_insert_ne].
Qed.

Lemma sent_on_nil c : CInv 0 c -> sent_on c c [].
Proof. intros H. unfold sent_on. split_and!; try done. by destruct (connected c); rewrite app_nil_r. Qed.

Lemma live_sent c c' d : sent_on c c' d -> live c' <-> live c.
Proof. intros (_ & E & _). unfold live. by rewrite E. Qed.

(** Posts change neither the subscriptions nor who is up. *)
Lemma HubRep_sent B st d cs m :
  HubRep B st -> Sent d (hub_conns st) cs ->
  (forall j x x', hub_conns st !! j = Some x -> cs !! j = Some x' -> hc_subs x' = hc_subs x) ->
  (forall t, getTopic t (mkHub cs m) = getTopic t st) -> HubRep B (mkHub cs m).
Proof.
  intros [H1 H2 H3 H4] [Hlen Hs] Hsubs Ht.
  constructor; [| |intros t; rewrite Ht; apply H3|done].
  - intros j x' Hj. destruct (lookup_lt_is_Some_2 (hub_conns st) j) as [x Hx]; [rewrite <- Hlen; by eapply lookup_lt_Some|].
    destruct (H1 j x Hx) as (_ & K2 & K3). specialize (Hs j x x' Hx Hj). rewrite (Hsubs j x x' Hx Hj).
    split; [apply Hs|]. split; [|done]. rewrite (live_sent _ _ _ Hs). done.
  - intros j t Hj. destruct (H2 j t Hj) as (x & Hx). apply lookup_lt_is_Some_2. simpl. rewrite Hlen. by eapply lookup_lt_Some.
Qed.

(** A message to some of the connections that are up. *)
Lemma hub_send_each m l cs : zlen m < 2 ^ 31 -> NoDup l -> (forall j x, cs !! j = Some x -> CInv 0 (hc_tcp x)) ->
  (forall j, j ∈ l -> exists x, cs !! j = Some x) ->
  unless too_long (for_each (at_index (hub_send write m)) cs l) (fun cs' =>
    Sent (fun j => if bool_decide (j ∈ l) then StringPiece.until_nul m else []) cs cs' /\
    forall j x x', cs !! j = Some x -> cs' !! j = Some x' -> hc_subs x' = hc_subs x).
Proof.
  intros Hm Hnd Hi Hl. eapply unless_mono; [apply (at_each_index _ _ (fun _ x x' =>
    sent_on (hc_tcp x) (hc_tcp x') (StringPiece.until_nul m) /\ hc_subs x' = hc_subs x)); [done|]|].
  - intros j Hj. destruct (Hl j Hj) as (x & Hx). exists x. split; [done|]. apply hub_send_sends; [done|by eapply Hi].
  - intros cs' _ [Hlen Hcs]. split; [split; [done|]|]; intros j x x' Hx Hx'; specialize (Hcs j x x' Hx Hx');
      case_bool_decide; try apply Hcs; subst x'; [apply sent_on_nil; by eapply Hi|done].
Qed.

Lemma doPublish_rep i B st t c time : HubRep B st -> valid time = true -> fits t c ->
  unless too_long (doPublish write t c time st) (fun st' =>
    HubRep (board_step i B (Pub t c)) st' /\ Sent (deliver i B (Pub t c)) (hub_conns st) (hub_conns st')).
Proof.
  intros Hr Htime Hfit. destruct (hr_topic _ _ Hr t) as (Ht1 & Ht2 & _). unfold doPublish, topic_publish.
  set (T := mkTopic _ c time _). assert (Hm : makeMessage T = publish_message t c) by (unfold makeMessage; simpl; by rewrite Ht1).
  assert (Hcs : unless too_long (for_each (at_index (hub_send write (makeMessage T))) (hub_conns st) (elements (audiences_ T)))
    (fun cs' => Sent (deliver i B (Pub t c)) (hub_conns st) cs' /\
      forall j x x', hub_conns st !! j = Some x -> cs' !! j = Some x' -> hc_subs x' = hc_subs x)).
  { rewrite Hm. eapply unless_mono; [apply hub_send_each; [done|apply NoDup_elements| |]|].
    - intros j x Hx. by apply (hr_conn _ _ Hr j).
    - intros j Hj. apply elem_of_elements, Ht2 in Hj. exact (hr_exists _ _ Hr j t Hj).
    - intros cs' _ [[Hlen Hs] Hsubs]. split; [|done]. split; [done|]. intros j x x' Hx Hx'. specialize (Hs j x x' Hx Hx').
      simpl. rewrite (bool_decide_ext _ ((j, t) ∈ subs B)) in Hs; [done|]. rewrite elem_of_elements. apply Ht2. }
  destruct (for_each _ (hub_conns st) _) as [cs|f]; [|done]. destruct Hcs as [Hsent Hsubs]. split; [|done].
  destruct (HubRep_sent B st _ cs (topics_ st) Hr Hsent Hsubs ltac:(done)) as [K1 K2 K3 K4].
  constructor; [done..| |]; simpl.
  - intros t'. rewrite getTopic_insert. destruct (decide (t' = t)) as [->|Hne].
    + rewrite lookup_insert_eq. simpl. rewrite Htime. done.
    + rewrite lookup_insert_ne by done. apply (K3 t').
  - intros t' c'. destruct (decide (t' = t)) as [->|Hne]; [rewrite lookup_insert_eq; by intros [= <-]|].
    rewrite lookup_insert_ne by done. apply K4.
Qed.

(** The subscriptions of connection [i] change, with the audience of one topic. *)
Lemma HubRep_subs i B st cs t s x f T :
  HubRep B st -> hub_conns st !! i = Some x -> hc_subs x = Some s ->
  cs = <[i := mkHubConn (hc_tcp x) (Some (f s))]> (hub_conns st) ->
  topic_ T = t -> content_ T = content_ (getTopic t st) -> lastPubTime_ T = lastPubTime_ (getTopic t st) ->
  forall S' : gset (nat * text),
  (forall j t', (j, t') ∈ S' <-> if decide (j = i) then t' ∈ f s else (j, t') ∈ subs B) ->
  (forall t', t' <> t -> t' ∈ f s <-> t' ∈ s) ->
  (forall j, j ∈ audiences_ T <-> (j, t) ∈ S') ->
  HubRep (mkBoard S' (posts B)) (mkHub cs (<[t := T]> (topics_ st))).
Proof.
  intros [H1 H2 H3 H4] Hx Hs -> HT1 HT2 HT3 S' HS Hf HA. pose proof (lookup_lt_Some _ _ _ Hx) as Hlt.
  destruct (H1 i x Hx) as (Hi & _ & Hix). constructor; simpl; [| | |done].
  - intros j y. destruct (decide (j = i)) as [->|Hne].
    + rewrite list_lookup_insert_eq by done. intros [= <-]. simpl. split_and!; [done|by eexists|].
      intros t'. rewrite HS, decide_True by done. split; [by eexists|]. by intros (? & [= <-] & ?).
    + rewrite list_lookup_insert_ne by done. intros Hy. destruct (H1 j y Hy) as (? & ? & K). split_and!; [done..|].
      intros t'. rewrite HS, decide_False by done. apply K.
  - intros j t'. rewrite HS. destruct (decide (j = i)) as [->|Hne]; intros Hj.
    + rewrite list_lookup_insert_eq by done. by eexists.
    + rewrite list_lookup_insert_ne by done. by eapply H2.
  - intros t'. rewrite getTopic_insert. destruct (decide (t' = t)) as [->|Hne].
    + rewrite HT2, HT3. split_and!; [done..|]. by apply H3.
    + destruct (H3 t') as (K1 & K2 & K3). split_and!; [done| |done]. intros j. rewrite K2, HS. destruct (decide (j = i)) as [->|]; [|done].
      rewrite Hf by done. rewrite Hix, Hs. split; [by intros (? & [= <-] & ?)|by eexists].
Qed.

Lemma Sent_subs i x cs s' : (forall j y, cs !! j = Some y -> CInv 0 (hc_tcp y)) -> cs !! i = Some x ->
  Sent (fun _ => []) cs (<[i := mkHubConn (hc_tcp x) s']> cs).
Proof.
  intros Hi Hx. split; [by rewrite length_insert|]. intros j y y' Hy Hy'. destruct (decide (j = i)) as [->|Hne].
  - rewrite list_lookup_insert_eq in Hy' by (by eapply lookup_lt_Some). injection Hy' as <-. assert (y = x) as -> by congruence.
    simpl. apply sent_on_nil. by eapply Hi.
  - rewrite list_lookup_insert_ne in Hy' by done. assert (y' = y) as -> by congruence. apply sent_on_nil. by eapply Hi.
Qed.

Lemma doUnsubscribe_rep i B st t x s : HubRep B st -> hub_conns st !! i = Some x -> hc_subs x = Some s ->
  unless too_long (doUnsubscribe i st t) (fun st' =>
    HubRep (board_step i B (Unsub t)) st' /\ Sent (deliver i B (Unsub t)) (hub_conns st) (hub_conns st')).
Proof.
  intros Hr Hx Hs. destruct (hr_conn _ _ Hr i x Hx) as (Hi & _ & Hsub).
  destruct (hr_topic _ _ Hr t) as (Ht1 & Ht2 & _).
  unfold doUnsubscribe, at_index, update_subs. rewrite Hx, Hs. cbn [mbind outcome_bind unless hub_conns]. split.
  - eapply (HubRep_subs i B st _ t s x (fun s => s ∖ {[t]})); try done.
    + intros j t'. case_decide as Hj; [subst j|set_solver].
      rewrite elem_of_difference, not_elem_of_singleton, elem_of_difference, not_elem_of_singleton, Hsub, Hs.
      split; [intros [(? & [= <-] & ?) ?]; split; [done|congruence]|intros [? ?]; split; [by eexists|congruence]].
    + set_solver.
    + intros j. simpl. rewrite elem_of_difference, Ht2, not_elem_of_singleton, elem_of_difference, not_elem_of_singleton.
      split; intros [? ?]; (split; [done|congruence]).
  - apply Sent_subs; [|done]. intros j y Hy. by apply (hr_conn _ _ Hr j).
Qed.

Lemma sent_on_trans c0 c1 c2 d1 d2 : sent_on c0 c1 d1 -> sent_on c1 c2 d2 -> sent_on c0 c2 (d1 ++ d2).
Proof.
  intros (H1 & H2 & H3 & H4) (K1 & K2 & K3 & K4). unfold sent_on. split_and!; [done|congruence..|].
  rewrite K4, H4. unfold connected. rewrite H2. destruct (bool_decide _); [by rewrite app_assoc|by rewrite !app_nil_r].
Qed.

Lemma Sent_trans d1 d2 cs0 cs1 cs2 : Sent d1 cs0 cs1 -> Sent d2 cs1 cs2 -> Sent (fun j => d1 j ++ d2 j) cs0 cs2.
Proof.
  intros [H1 H2] [K1 K2]. split; [congruence|]. intros j x x' Hx Hx'.
  destruct (lookup_lt_is_Some_2 cs1 j) as [y Hy]; [rewrite H1; by eapply lookup_lt_Some|].
  exact (sent_on_trans _ _ _ _ _ (H2 j x y Hx Hy) (K2 j y x' Hy Hx')).
Qed.

Lemma Sent_ext d d' cs cs' : (forall j, d j = d' j) -> Sent d cs cs' -> Sent d' cs cs'.
Proof. intros E [H1 H2]. split; [done|]. intros j x x'. rewrite <- E. apply H2. Qed.

Lemma doSubscribe_rep i B st t x s : HubRep B st -> hub_conns st !! i = Some x -> hc_subs x = Some s ->
  unless too_long (doSubscribe write i t st) (fun st' =>
    HubRep (board_step i B (Sub t)) st' /\ Sent (deliver i B (Sub t)) (hub_conns st) (hub_conns st')).
Proof.
  intros Hr Hx Hs. destruct (hr_conn _ _ Hr i x Hx) as (Hi & _ & Hsub).
  destruct (hr_topic _ _ Hr t) as (Ht1 & Ht2 & Ht3).
  assert (Hall : forall j y, hub_conns st !! j = Some y -> CInv 0 (hc_tcp y)) by (intros j y Hy; by apply (hr_conn _ _ Hr j)).
  unfold doSubscribe. assert (E1 : at_index (update_subs (fun s => {[t]} ∪ s)) (hub_conns st) i =
    Ok (<[i := mkHubConn (hc_tcp x) (Some ({[t]} ∪ s))]> (hub_conns st))) by (unfold at_index, update_subs; by rewrite Hx, Hs).
  rewrite E1. clear E1. cbn [mbind outcome_bind]. set (cs1 := <[i := _]> (hub_conns st)).
  unfold topic_add. set (T := mkTopic _ _ _ _).
  pose proof (Sent_subs i x (hub_conns st) (Some ({[t]} ∪ s)) Hall Hx) as Hsent1. fold cs1 in Hsent1.
  assert (Hrep1 : HubRep (board_step i B (Sub t)) (mkHub cs1 (<[t := T]> (topics_ st)))).
  { eapply (HubRep_subs i B st _ t s x (fun s => {[t]} ∪ s)); try done.
    - intros j t'. case_decide as Hj; [subst j|set_solver]. rewrite !elem_of_union, !elem_of_singleton, Hsub, Hs.
      split; [intros [[= ->]|(? & [= <-] & ?)]; auto|intros [-> |?]; [by left|right; by eexists]].
    - set_solver.
    - intros j. simpl. rewrite !elem_of_union, !elem_of_singleton, Ht2. split; intros [E|?]; auto; left; congruence. }
  change (lastPubTime_ T) with (lastPubTime_ (getTopic t st)) in *. destruct (valid (lastPubTime_ (getTopic t st))); cycle 1.
  { cbn [mbind outcome_bind unless hub_conns]. split; [done|]. eapply Sent_ext; [|exact Hsent1].
    intros j. simpl. rewrite Ht3. by destruct (bool_decide _). }
  assert (Hm : makeMessage T = publish_message t (content_ (getTopic t st))) by (unfold makeMessage; simpl; by rewrite Ht1).
  pose proof (hr_fits _ _ Hr t _ Ht3) as Hfit. pose proof (lookup_lt_Some _ _ _ Hx) as Hlt.
  assert (Hone : forall j, j ∈ [i] -> exists y, cs1 !! j = Some y).
  { intros j ->%list_elem_of_singleton. unfold cs1. rewrite list_lookup_insert_eq by done. by eexists. }
  pose proof (hub_send_each (makeMessage T) [i] cs1) as Heach. cbn [for_each] in Heach. rewrite Hm in *.
  specialize (Heach Hfit (NoDup_singleton i) ltac:(intros j y Hy; by apply (hr_conn _ _ Hrep1 j)) Hone).
  destruct (at_index _ cs1 i) as [cs2|f]; cbn [mbind outcome_bind unless hub_conns] in *; [|done].
  destruct Heach as [Hsent2 Hsubs2]. split.
  - exact (HubRep_sent _ _ _ cs2 (<[t := T]> (topics_ st)) Hrep1 Hsent2 Hsubs2 ltac:(done)).
  - eapply Sent_ext; [|exact (Sent_trans _ _ _ _ _ Hsent1 Hsent2)]. intros j. simpl. rewrite Ht3.
    by rewrite (bool_decide_ext (j ∈ [i]) (j = i)) by apply list_elem_of_singleton.
Qed.

(** ** The loop serves the commands of a stream *)

Definition hub_command (i : nat) (time : Timestamp) (a : command) (st : Hub) : outcome Hub :=
  match a with
  | Pub t c => doPublish write t c time st
  | Sub t => doSubscribe write i t st
  | Unsub t => doUnsubscribe i st t
  end.

Definition command_fits (a : command) : Prop := match a with Pub t c => fits t c | _ => True end.

Lemma hub_command_rep i B st a time x : HubRep B st -> hub_conns st !! i = Some x -> live (hc_tcp x) ->
  valid time = true -> command_fits a ->
  unless too_long (hub_command i time a st) (fun st' =>
    HubRep (board_step i B a) st' /\ Sent (deliver i B a) (hub_conns st) (hub_conns st')).
Proof.
  intros Hr Hx Hl Ht Hf. destruct (hr_conn _ _ Hr i x Hx) as (_ & Hsome & _). destruct (Hsome Hl) as [s Hs].
  destruct a; [by apply doPublish_rep|by eapply doSubscribe_rep|by eapply doUnsubscribe_rep].
Qed.

Lemma HubRep_update i B f st : HubRep B st -> (forall c, CInv 0 c -> CInv 0 (f c)) ->
  (forall c, TcpConnection.state_ (f c) = TcpConnection.state_ c) -> HubRep B (hub_update i f st).
Proof.
  intros [H1 H2 H3 H4] Hf Hst.
  assert (Hlive : forall c, live (f c) <-> live c) by (intros c; unfold live; by rewrite Hst).
  constructor; simpl; [| |done..].
  - intros j y Hy. destruct (decide (j = i)) as [->|Hne]; [|rewrite list_lookup_alter_ne in Hy by done; by apply H1].
    rewrite list_lookup_alter_eq in Hy. destruct (hub_conns st !! i) as [x|] eqn:Hx; [|done]. injection Hy as <-.
    destruct (H1 i x Hx) as (K1 & K2 & K3). simpl. split_and!; [by apply Hf|by rewrite Hlive|done].
  - intros j t Hj. destruct (H2 j t Hj) as (x & Hx). apply lookup_lt_is_Some_2. rewrite length_alter. by eapply lookup_lt_Some.
Qed.

(** [st] is [st0] after connection [i] gave the commands [log]. *)
Record Served (i : nat) (B0 : Board) (st0 : Hub) (log : list command) (st : Hub) : Prop := mkServed {
  se_rep : HubRep (board_run i B0 log) st;
  se_length : length (hub_conns st) = length (hub_conns st0);
  se_conns : forall j x0 x, hub_conns st0 !! j = Some x0 -> hub_conns st !! j = Some x ->
    TcpConnection.state_ (hc_tcp x) = TcpConnection.state_ (hc_tcp x0) /\
    (j <> i -> inputBuffer_ (hc_tcp x) = inputBuffer_ (hc_tcp x0)) /\
    stream (hc_tcp x) = stream (hc_tcp x0) ++ (if connected (hc_tcp x0) then delivered i B0 log j else [])
}.

Lemma Served_refl i B st : HubRep B st -> Served i B st [] st.
Proof.
  intros H. constructor; [done..|]. intros j x0 x H0 H1. assert (x = x0) as -> by congruence. split_and!; [done..|].
  by destruct (connected _); rewrite app_nil_r.
Qed.

Lemma Served_update i B0 st0 log f st : Served i B0 st0 log st -> (forall c, CInv 0 c -> CInv 0 (f c)) ->
  (forall c, TcpConnection.state_ (f c) = TcpConnection.state_ c) -> (forall c, stream (f c) = stream c) ->
  Served i B0 st0 log (hub_update i f st).
Proof.
  intros [H1 H2 H3] Hf Hst Hstr. constructor; [by apply HubRep_update|simpl; by rewrite length_alter|].
  intros j x0 y H0 Hy. simpl in Hy. destruct (decide (j = i)) as [->|Hne]; [|rewrite list_lookup_alter_ne in Hy by done; by eapply H3].
  rewrite list_lookup_alter_eq in Hy. destruct (hub_conns st !! i) as [x|] eqn:Hx; [|done]. injection Hy as <-.
  simpl. rewrite Hst, Hstr. destruct (H3 i x0 x H0 Hx) as (? & _ & ?). done.
Qed.

Lemma Served_command i B0 st0 log st a st' : Served i B0 st0 log st ->
  HubRep (board_step i (board_run i B0 log) a) st' -> Sent (deliver i (board_run i B0 log) a) (hub_conns st) (hub_conns st') ->
  Served i B0 st0 (log ++ [a]) st'.
Proof.
  intros [H1 H2 H3] Hr [K1 K2]. constructor; [by rewrite board_run_app|congruence|].
  intros j x0 x' H0 H'. destruct (lookup_lt_is_Some_2 (hub_conns st) j) as [x Hx]; [rewrite H2; by eapply lookup_lt_Some|].
  destruct (H3 j x0 x H0 Hx) as (E1 & Ein & E2). destruct (K2 j x x' Hx H') as (_ & E3 & Ein' & E4).
  split; [congruence|]. split; [intros Hj; rewrite Ein'; auto|].
  rewrite E4, E2, delivered_app. simpl. unfold connected. rewrite E1, app_nil_r.
  destruct (bool_decide _); [by rewrite app_assoc|by rewrite !app_nil_r].
Qed.

(** The streams that are considered: no command is refused, none is too long. *)
Definition good_commands (ms : list command) (ok : bool) : Prop := ok = true /\ Forall command_fits ms.

Lemma hub_loop_serves i B0 st0 x0 t : hub_conns st0 !! i = Some x0 -> live (hc_tcp x0) -> valid t = true ->
  forall fuel log st txt, (length txt < fuel)%nat -> repr (hub_input i st) txt -> Served i B0 st0 log st ->
  good_commands (decode next_command txt).1.1 (decode next_command txt).2 ->
  exists r, hub_loop write fuel i t st = Some r /\
    unless too_long r (fun st' => let '(ms, rest, ok) := decode next_command txt in
      after_message (hub_input i) (Served i B0 st0) (fun _ _ _ => False) rest (log ++ ms) ok st').
Proof.
  intros Hx0 Hl0 Ht. induction fuel as [|fuel IH]; intros log st txt Hf Hin Hst Hgood; [lia|]. cbn [hub_loop].
  destruct (lookup_lt_is_Some_2 (hub_conns st) i) as [x Hx]; [rewrite (se_length _ _ _ _ _ Hst); by eapply lookup_lt_Some|].
  assert (Hset : forall b, wf b -> Served i B0 st0 log (hub_update i (set_input b) st)).
  { intros b Hb. apply Served_update; try done. intros c Hc. by apply CInv_input. }
  assert (Hget : forall b, hub_conns (hub_update i (set_input b) st) !! i =
    Some (mkHubConn (set_input b (hc_tcp x)) (hc_subs x))) by (intros b; simpl; by rewrite list_lookup_alter_eq, Hx).
  pose proof (parseMessage_command _ _ Hin) as Hp. unfold parsed in Hp. rewrite (decode_unfold next_command) in *.
  destruct (next_command txt) as [| |a rest] eqn:En; [..|pose proof (next_shorter (next := next_command) _ _ _ En) as Hlt].
  - destruct Hp as [[[cmd topic] cont] ->]. eexists. split; [done|]. rewrite app_nil_r. split; [|apply Hset; apply Hin].
    unfold hub_input at 1. by rewrite Hget.
  - by destruct Hgood.
  - destruct Hp as (b & [[cmd tp] c] & Hb & -> & Hcmd). specialize (Hset b (proj1 Hb)). specialize (Hget b).
    set (st1 := hub_update i (set_input b) st) in *.
    destruct (decode next_command rest) as [[ms rest'] ok] eqn:Ed. destruct Hgood as [Hok Hfits]. simpl in Hok, Hfits.
    apply Forall_cons in Hfits as [Hfit Hfits].
    assert (Hlive : live (set_input b (hc_tcp x))).
    { destruct (se_conns _ _ _ _ _ Hst i x0 x Hx0 Hx) as [E _]. unfold live in *. simpl. by rewrite E. }
    pose proof (hub_command_rep i _ st1 a t _ (se_rep _ _ _ _ _ Hset) Hget Hlive Ht Hfit) as Hc.
    assert (Hnext : forall st2, HubRep (board_step i (board_run i B0 log) a) st2 /\
        Sent (deliver i (board_run i B0 log) a) (hub_conns st1) (hub_conns st2) ->
      exists r, hub_loop write fuel i t st2 = Some r /\ unless too_long r (fun st' =>
        after_message (hub_input i) (Served i B0 st0) (fun _ _ _ => False) rest' (log ++ a :: ms) ok st')).
    { intros st2 [Hr2 Hs2]. destruct (IH (log ++ [a]) st2 rest) as (r & Er & Hr).
      - lia.
      - unfold hub_input. destruct Hs2 as [Hlen Hs2]. destruct (lookup_lt_is_Some_2 (hub_conns st2) i) as [x2 Hx2];
          [rewrite Hlen; by eapply lookup_lt_Some|]. rewrite Hx2. destruct (Hs2 i _ x2 Hget Hx2) as (_ & _ & -> & _). done.
      - by eapply Served_command.
      - rewrite Ed. done.
      - exists r. split; [done|]. rewrite Ed, <- app_assoc in Hr. exact Hr. }
    unfold command_of in Hcmd. unfold hub_command in Hc. repeat case_decide; simplify_eq/=.
    + destruct (doPublish write tp c t st1) as [st2|f]; [by apply Hnext|by eexists].
    + destruct (doSubscribe write i tp st1) as [st2|f]; [by apply Hnext|by eexists].
    + destruct (doUnsubscribe i st1 tp) as [st2|f]; [by apply Hnext|by eexists].
Qed.


(** ** One segment of a connection *)

Lemma hub_read_one i B st x t p seg ms rest : HubRep B st -> hub_conns st !! i = Some x -> live (hc_tcp x) ->
  repr (inputBuffer_ (hc_tcp x)) p -> valid t = true -> 0 < zlen seg <= sizeof_extrabuf ->
  decode next_command (p ++ seg) = (ms, rest, true) -> Forall command_fits ms ->
  exists r, hub_handleRead write i (fun _ => ReadData seg) t st = Some r /\
    unless too_long r (fun st' => repr (hub_input i st') rest /\ Served i B st ms st').
Proof.
  intros Hr Hx Hl Hin Ht Hseg Hd Hfits. unfold hub_handleRead, stream_handleRead.
  assert (Hi0 : hub_input i st = inputBuffer_ (hc_tcp x)) by (unfold hub_input; by rewrite Hx). rewrite Hi0.
  pose proof (iov_room _ _ Hin) as Hroom.
  destruct (readFd_cases _ p (fun _ => ReadData seg) seg Hin eq_refl ltac:(lia)) as [[-> _]|(b & -> & Hb)]; [by eexists|].
  rewrite (proj2 (Z.ltb_lt 0 _)) by lia. set (st1 := hub_update i (record_call NMessage) _).
  assert (Hi : hub_input i st1 = b) by (unfold hub_input, st1; simpl; by rewrite !list_lookup_alter_eq, Hx).
  assert (Hs : Served i B st [] st1).
  { apply Served_update; [apply Served_update; [by apply Served_refl|..]|..]; try done; intros c Hc; [|by apply CInv_record].
    apply CInv_input; [done|apply Hb]. }
  unfold hub_onMessage. destruct (hub_loop_serves i B st x t Hx Hl Ht (S (length (content (hub_input i st1)))) [] st1 (p ++ seg))
    as (r & E & Hr'); rewrite ?Hi; try done.
  - destruct Hb as [_ ->]. lia.
  - by rewrite Hd.
  - exists r. rewrite Hi in E. split; [done|]. by rewrite Hd in Hr'.
Qed.

(** ** Coming and going *)

Definition board_leave (i : nat) (B : Board) : Board := mkBoard (filter (fun p => p.1 <> i) (subs B)) (posts B).

Lemma unsubscribe_all i l : forall st B x s, HubRep B st -> hub_conns st !! i = Some x -> hc_subs x = Some s ->
  unless too_long (for_each (doUnsubscribe i) st l) (fun st' =>
    HubRep (board_run i B (map Unsub l)) st' /\ Sent (fun _ => []) (hub_conns st) (hub_conns st')).
Proof.
  induction l as [|t l IH]; intros st B x s Hr Hx Hs; cbn [for_each unless map].
  - split; [done|]. split; [done|]. intros j y y' Hy Hy'. assert (y' = y) as -> by congruence. apply sent_on_nil.
    by apply (hr_conn _ _ Hr j).
  - pose proof (doUnsubscribe_rep i B st t x s Hr Hx Hs) as H.
    assert (E : exists st1, doUnsubscribe i st t = Ok st1 /\ hub_conns st1 !! i = Some (mkHubConn (hc_tcp x) (Some (s ∖ {[t]})))).
    { unfold doUnsubscribe, at_index, update_subs. rewrite Hx, Hs. eexists. split; [done|]. simpl.
      rewrite list_lookup_insert_eq; [done|]. by eapply lookup_lt_Some. }
    destruct E as (st1 & E & Hx1). rewrite E in *. destruct H as [Hr1 Hs1]. cbn [mbind outcome_bind].
    eapply unless_mono; [by eapply IH; [exact Hr1|exact Hx1|]|].
    intros st' _ [Hr' Hs']. split; [done|]. exact (Sent_trans _ _ _ _ _ Hs1 Hs').
Qed.

Lemma unsub_subs i l : forall B, posts (board_run i B (map Unsub l)) = posts B /\
  forall j t, (j, t) ∈ subs (board_run i B (map Unsub l)) <-> (j, t) ∈ subs B /\ ~ (j = i /\ t ∈ l).
Proof.
  induction l as [|a l IH]; intros B; simpl; [split; [done|set_solver]|].
  destruct (IH (board_step i B (Unsub a))) as [E H]. split; [exact E|]. intros j t. unfold board_run in *. rewrite H. simpl.
  rewrite elem_of_difference, elem_of_singleton, elem_of_cons. split.
  - intros [[H1 H2] H3]. split; [done|]. intros [-> [-> |Ht]]; auto.
  - intros [H1 H2]. split; [split; [done|]|]; [intros [= -> ->]|intros [-> Ht]]; apply H2; auto.
Qed.

(** The connection of [i] changes its state, keeping its stream and input. *)
Lemma HubRep_tcp i B st x c : HubRep B st -> hub_conns st !! i = Some x -> CInv 0 c -> (live c -> is_Some (hc_subs x)) ->
  HubRep B (mkHub (<[i := mkHubConn c (hc_subs x)]> (hub_conns st)) (topics_ st)).
Proof.
  intros [H1 H2 H3 H4] Hx Hc Hl. pose proof (lookup_lt_Some _ _ _ Hx) as Hlt. constructor; simpl; [| |done..].
  - intros j y. destruct (decide (j = i)) as [->|Hne]; [|rewrite list_lookup_insert_ne by done; apply H1].
    rewrite list_lookup_insert_eq by done. intros [= <-]. destruct (H1 i x Hx) as (_ & _ & H). done.
  - intros j t Hj. destruct (H2 j t Hj) as [y Hy]. apply lookup_lt_is_Some_2. rewrite length_insert. by eapply lookup_lt_Some.
Qed.

Lemma hub_closed_rep i B st x : HubRep B st -> hub_conns st !! i = Some x -> live (hc_tcp x) ->
  unless too_long (hub_closed write i st) (fun st' => HubRep (board_leave i B) st' /\
    exists c, handleClose (write i) silent_user (hc_tcp x) = Ok c /\
      Sent (fun _ => []) (<[i := mkHubConn c (hc_subs x)]> (hub_conns st)) (hub_conns st')).
Proof.
  intros Hr Hx Hl. destruct (hr_conn _ _ Hr i x Hx) as (Hi & Hsome & Hsub). destruct (Hsome Hl) as [s Hs].
  unfold hub_closed, hub_tcp, at_index. rewrite Hx.
  pose proof (handleClose_inv (write i) silent_user (write_bounded i) (silent_well_behaved _) (hc_tcp x) Hi Hl) as Hc.
  destruct (handleClose (write i) silent_user (hc_tcp x)) as [c|f] eqn:Ec; [|done].
  assert (Est : TcpConnection.state_ c = kDisconnected).
  { unfold handleClose in Ec. obind. unfold notify in Hr1. simpl in Hr1. by injection Hr1 as <-. }
  cbn [mbind outcome_bind]. pose proof (lookup_lt_Some _ _ _ Hx) as Hlt.
  unfold hub_onConnection. simpl. rewrite list_lookup_insert_eq by done. cbn [hc_tcp hc_subs].
  destruct (connected c) eqn:Econ; [apply connected_spec in Econ; congruence|]. rewrite Hs.
  eapply unless_mono; [eapply (unsubscribe_all i (elements s) _ B (mkHubConn c (Some s)) s)|].
  - rewrite <- Hs. apply HubRep_tcp; [done..|]. intros [E|E]; congruence.
  - simpl. by rewrite list_lookup_insert_eq.
  - done.
  - intros st' _ [Hr' Hsent]. split; [|by exists c]. destruct (unsub_subs i (elements s) B) as [Ep Es].
    destruct (board_run i B (map Unsub (elements s))) as [S' P']. simpl in Ep, Es. subst P'.
    assert (S' = filter (fun p => p.1 <> i) (subs B)) as ->; [|done]. apply leibniz_equiv. intros [j t].
    rewrite Es, elem_of_filter, elem_of_elements. simpl. split; [|naive_solver].
    intros [H1 H2]. split; [|done]. intros ->. apply H2. split; [done|]. apply Hsub in H1 as (? & E & ?). congruence.
Qed.

Lemma hub_establish_rep i B st x : HubRep B st -> hub_conns st !! i = Some x -> TcpConnection.state_ (hc_tcp x) = kConnecting ->
  (forall t, (i, t) ∉ subs B) ->
  unless too_long (hub_establish write i st) (fun st' => HubRep B st' /\ topics_ st' = topics_ st /\
    exists c, connectEstablished (write i) silent_user (hc_tcp x) = Ok c /\
      hub_conns st' = <[i := mkHubConn c (Some ∅)]> (hub_conns st)).
Proof.
  intros Hr Hx Hst Hno. destruct (hr_conn _ _ Hr i x Hx) as (Hi & Hsome & Hsub).
  unfold hub_establish, hub_tcp, at_index. rewrite Hx.
  pose proof (connectEstablished_inv (write i) silent_user (write_bounded i) (silent_well_behaved _) (hc_tcp x) Hi Hst) as Hc.
  destruct (connectEstablished (write i) silent_user (hc_tcp x)) as [c|f] eqn:Ec; [|done].
  assert (Est : connected c = true).
  { unfold connectEstablished in Ec. obind. unfold notify in Ec. simpl in Ec. by injection Ec as <-. }
  cbn [mbind outcome_bind]. pose proof (lookup_lt_Some _ _ _ Hx) as Hlt.
  unfold hub_onConnection. simpl. rewrite list_lookup_insert_eq by done. cbn [hc_tcp hc_subs]. rewrite Est.
  rewrite list_insert_insert_eq. simpl. split; [|eauto]. destruct Hr as [H1 H2 H3 H4]. constructor; simpl; [| |done..].
  - intros j y. destruct (decide (j = i)) as [->|Hne]; [|rewrite list_lookup_insert_ne by done; apply H1].
    rewrite list_lookup_insert_eq by done. intros [= <-]. split_and!; [done|by eexists|]. intros t. split; [by intros ?%Hno|].
    by intros (? & [= <-] & ?).
  - intros j t Hj. destruct (H2 j t Hj) as [y Hy]. apply lookup_lt_is_Some_2. rewrite length_insert. by eapply lookup_lt_Some.
Qed.
End Refinement.

(** ** Clients *)

(** What a client publishes is what the hub reads. *)
Lemma next_entry_publish topic c rest : CR ∉ topic -> CR ∉ c ->
  next_entry (publish_message topic c ++ rest) = Frame (bytes "pub", topic, c) rest.
Proof.
  intros Ht Hc. unfold next_entry, publish_message.
  replace ((bytes "pub " ++ topic ++ kCRLF ++ c ++ kCRLF) ++ rest)
    with ((bytes "pub" ++ SP :: topic) ++ kCRLF ++ c ++ kCRLF ++ rest) by (rewrite <- !app_assoc; done).
  assert (H1 : CR ∉ bytes "pub") by by_compute. assert (H2 : SP ∉ bytes "pub") by by_compute. assert (H3 : CR <> SP) by done.
  rewrite break_crlf_line by (rewrite elem_of_app, elem_of_cons; intros [?|[?|?]]; done).
  by rewrite find_char_app, decide_True, break_crlf_line.
Qed.

Lemma next_command_publish topic c rest : CR ∉ topic -> CR ∉ c ->
  next_command (publish_message topic c ++ rest) = Frame (Pub topic c) rest.
Proof. intros Ht Hc. unfold next_command. rewrite next_entry_publish by done. done. Qed.

(** A line without a space is refused, and stops the connection. *)
Lemma refused_line write i t st x line rest : hub_conns st !! i = Some x -> TcpConnection.state_ (hc_tcp x) = kConnected ->
  CR ∉ line -> SP ∉ line -> repr (inputBuffer_ (hc_tcp x)) (line ++ kCRLF ++ rest) ->
  exists st' x', hub_onMessage write i t st = Some (Ok st') /\ topics_ st' = topics_ st /\ hub_conns st' !! i = Some x' /\
    hc_subs x' = hc_subs x /\ TcpConnection.state_ (hc_tcp x') = kDisconnecting.
Proof.
  intros Hx Hst Hcr Hsp Hin. assert (Hi : hub_input i st = inputBuffer_ (hc_tcp x)) by (unfold hub_input; by rewrite Hx).
  assert (Hp : parseMessage (inputBuffer_ (hc_tcp x)) = Ok (kError, ([], [], []), inputBuffer_ (hc_tcp x))).
  { unfold parseMessage. rewrite (findCRLF_repr _ _ Hin), break_crlf_line by done.
    rewrite (range_peek _ _ _ Hin) by (rewrite zlen_app; pose proof (zlen_nonneg line); pose proof (zlen_nonneg (kCRLF ++ rest)); lia).
    by rewrite ztake_app_exact, find_char_None. }
  unfold hub_onMessage. cbn [hub_loop]. rewrite Hi, Hp. do 2 eexists. split; [done|]. split; [done|]. simpl.
  rewrite !list_lookup_alter_eq, Hx. split; [done|]. split; [done|]. by apply shutdown_frame.
Qed.

(** The defect of [PubSubClient]: its [subscribe] and [unsubscribe] leave out the
    space after the command (and misspell it), so a client that subscribes to a
    topic sends a line the hub refuses: it is not subscribed to anything and its
    connection is shut down. *)
Theorem client_cannot_subscribe (write : nat -> nat -> list ascii -> write_result) (i : nat) (t : Timestamp) (st : Hub)
    (x : HubConn) (topic : text) (message : text) :
  message = subscribe_message topic \/ message = unsubscribe_message topic ->
  CR ∉ topic -> SP ∉ topic -> hub_conns st !! i = Some x -> TcpConnection.state_ (hc_tcp x) = kConnected ->
  repr (inputBuffer_ (hc_tcp x)) message ->
  exists st' x', hub_onMessage write i t st = Some (Ok st') /\ topics_ st' = topics_ st /\ hub_conns st' !! i = Some x' /\
    hc_subs x' = hc_subs x /\ TcpConnection.state_ (hc_tcp x') = kDisconnecting.
Proof.
  intros Hm Hcr Hsp Hx Hst Hin.
  assert (E : exists line, message = line ++ kCRLF ++ [] /\ (CR ∉ line) /\ (SP ∉ line)).
  { assert (Hword : forall w, CR ∉ w -> SP ∉ w -> message = w ++ topic ++ kCRLF ->
      exists line, message = line ++ kCRLF ++ [] /\ (CR ∉ line) /\ (SP ∉ line)).
    { intros w H1 H2 ->. exists (w ++ topic). rewrite !elem_of_app, <- !app_assoc. split_and!; [done|tauto..]. }
    destruct Hm as [Hm|Hm]; [apply (Hword (bytes "sub"))|apply (Hword (bytes "unsbu"))]; done || by_compute. }
  destruct E as (line & -> & H1 & H2). by eapply refused_line.
Qed.

Definition asking_hub : Hub :=
  mkHub [mkHubConn (set_input (buffer_of (subscribe_message (bytes "news"))) open_connection) (Some ∅)] ∅.

Lemma client_cannot_subscribe_witness :
  exists st' x', hub_onMessage (fun _ => full_write) 0 (mkTimestamp 1) asking_hub = Some (Ok st') /\
    topics_ st' = ∅ /\ hub_conns st' !! 0%nat = Some x' /\ hc_subs x' = Some ∅ /\ TcpConnection.state_ (hc_tcp x') = kDisconnecting.
Proof.
  destruct (client_cannot_subscribe (fun _ => full_write) 0 (mkTimestamp 1) asking_hub
    (mkHubConn (set_input (buffer_of (subscribe_message (bytes "news"))) open_connection) (Some ∅)) (bytes "news")
    (subscribe_message (bytes "news"))) as (st' & x' & H); [..|exists st', x'; exact H].
  - by left.
  - by_compute.
  - by_compute.
  - reflexivity.
  - reflexivity.
  - apply buffer_of_repr. vm_compute. discriminate.
Defined.
