(* ===== verification/HubSim.v ===== *)
(** * The hub over its histories (src/tests/hub/hub.cpp)

    Connections come up, send commands in segments that interleave in any way,
    and go, while a timer publishes the time: the server simulates a room that
    knows only the subscriptions, the last posts and the unfinished commands. *)

From S2P Require Import Prelude Endian StringPiece Buffer Lines Format Timestamp Channel Poller TcpConnection ConnStream.
From S2P Require Import Framing LengthCodec Hub.
Local Open Scope Z_scope.

(** ** Histories of the server *)

Inductive hub_label : Type :=
| UAccept (fd : Z)                           (** a connection is created *)
| UEstablish (i : nat)                       (** it is handed over to its loop *)
| USegment (i : nat) (t : Timestamp) (seg : text)   (** bytes arrive *)
| UHangup (i : nat) (t : Timestamp)          (** the peer closes *)
| UTick (now : Timestamp).                   (** the timer publishes the time *)

Section Histories.
Context (write : nat -> nat -> list ascii -> write_result) (localtime_r : Z -> tm_fields).

Definition hub_step (st : Hub) (l : hub_label) : outcome Hub :=
  match l with
  | UAccept fd =>
      input ← new_Buffer kInitialSize;
      output ← new_Buffer kInitialSize;
      Ok (mkHub (hub_conns st ++ [mkHubConn (new_TcpConnection fd input output false false) None]) (topics_ st))
  | UEstablish i => hub_establish write i st
  | USegment i t seg => ended (hub_handleRead write i (fun _ => ReadData seg) t st)
  | UHangup i t => ended (hub_handleRead write i (fun _ => ReadData []) t st)
  | UTick now => timePublish write localtime_r now st
  end.

(** The room: the board, the bytes of an unfinished command of each connection that
    is up, and all that was sent to each connection. *)
Record Room : Type := mkRoom { room_board : Board; room_pending : gmap nat text; room_out : nat -> text }.

Definition room_send (d : nat -> text) (R : Room) (j : nat) : text :=
  room_out R j ++ (if decide (is_Some (room_pending R !! j)) then d j else []).

Definition room_stream (R : Room) (i : nat) (seg : text) : text := default [] (room_pending R !! i) ++ seg.

Definition tick_command (now : Timestamp) : command := Pub (bytes "utc_time") (toFormattedString localtime_r true now).

Definition room_step (R : Room) (l : hub_label) : Room :=
  let B := room_board R in
  match l with
  | UAccept _ => R
  | UEstablish i => mkRoom B (<[i := []]> (room_pending R)) (room_out R)
  | USegment i _ seg =>
      let '(ms, rest, _) := decode next_command (room_stream R i seg) in
      mkRoom (board_run i B ms) (<[i := rest]> (room_pending R)) (room_send (delivered i B ms) R)
  | UHangup i _ => mkRoom (board_leave i B) (delete i (room_pending R)) (room_out R)
  | UTick now => mkRoom (board_step 0 B (tick_command now)) (room_pending R) (room_send (deliver 0 B (tick_command now)) R)
  end.

(** What the environment may do next: the kernel reads at most one buffer at a time,
    the clock is set, commands are known and of a size that fits. *)
Definition hub_permitted (p : Room * Hub) (l : hub_label) : Prop :=
  match l with
  | UAccept _ => True
  | UEstablish i => exists x, hub_conns p.2 !! i = Some x /\ TcpConnection.state_ (hc_tcp x) = kConnecting
  | USegment i t seg =>
      is_Some (room_pending p.1 !! i) /\ valid t = true /\ 0 < zlen seg <= sizeof_extrabuf /\
      (decode next_command (room_stream p.1 i seg)).2 = true /\
      Forall command_fits (decode next_command (room_stream p.1 i seg)).1.1
  | UHangup i t => is_Some (room_pending p.1 !! i)
  | UTick now => valid now = true
  end.

Definition both_step (p : Room * Hub) (l : hub_label) : outcome (Room * Hub) :=
  st ← hub_step p.2 l; Ok (room_step p.1 l, st).

(** The server is in the room. *)
Record Sim (R : Room) (st : Hub) : Prop := mkSim {
  sim_rep : HubRep (room_board R) st;
  sim_subs : forall j t, (j, t) ∈ subs (room_board R) -> is_Some (room_pending R !! j);
  sim_up : forall j p, room_pending R !! j = Some p -> exists x, hub_conns st !! j = Some x /\
    TcpConnection.state_ (hc_tcp x) = kConnected /\ repr (inputBuffer_ (hc_tcp x)) p;
  sim_down : forall j x, hub_conns st !! j = Some x -> room_pending R !! j = None ->
    TcpConnection.state_ (hc_tcp x) = kDisconnected \/
    (TcpConnection.state_ (hc_tcp x) = kConnecting /\ repr (inputBuffer_ (hc_tcp x)) []);
  sim_out : forall j x, hub_conns st !! j = Some x -> stream (hc_tcp x) = room_out R j;
  sim_fresh : forall j, hub_conns st !! j = None -> room_out R j = []
}.

Lemma both_steps labels : forall R st,
  for_each both_step (R, st) labels =
  st' ← for_each hub_step st labels; Ok (fold_left room_step labels R, st').
Proof.
  induction labels as [|l labels IH]; intros R st; cbn [for_each fold_left]; [done|].
  assert (E : both_step (R, st) l = st' ← hub_step st l; Ok (room_step R l, st')) by done. rewrite E.
  destruct (hub_step st l) as [st'|f]; cbn [mbind outcome_bind]; [apply IH|done].
Qed.

(** ** Every step is a step of the room *)

Hypothesis write_bounded : forall i k data n, write i k data = Wrote n -> 0 <= n <= zlen data.
Hypothesis write_no_fault : forall i, no_fault (write i).

Lemma establish_frame i c c' : connectEstablished (write i) silent_user c = Ok c' ->
  TcpConnection.state_ c' = kConnected /\ inputBuffer_ c' = inputBuffer_ c /\ stream c' = stream c.
Proof. unfold connectEstablished. intros H. obind. unfold notify in H. simpl in H. by injection H as <-. Qed.

Lemma close_frame i c c' : handleClose (write i) silent_user c = Ok c' ->
  TcpConnection.state_ c' = kDisconnected /\ stream c' = stream c.
Proof. unfold handleClose. intros H. obind. unfold notify in Hr0. simpl in Hr0. by injection Hr0 as <-. Qed.

Lemma up_connected R st j x : Sim R st -> hub_conns st !! j = Some x ->
  connected (hc_tcp x) = bool_decide (is_Some (room_pending R !! j)).
Proof.
  intros Hs Hx. destruct (room_pending R !! j) as [p|] eqn:E.
  - destruct (sim_up _ _ Hs j p E) as (y & Hy & Hst & _). assert (y = x) as -> by congruence.
    by rewrite (proj2 (connected_spec _) Hst), bool_decide_true by done.
  - rewrite bool_decide_false by (by intros [? ?]). apply not_true_iff_false. intros H%connected_spec.
    destruct (sim_down _ _ Hs j x Hx E) as [?|[? _]]; congruence.
Qed.

Lemma sim_accept R st fd : Sim R st -> unless too_long (hub_step st (UAccept fd)) (Sim (room_step R (UAccept fd))).
Proof.
  intros [H1 H2 H3 H4 H5 H6]. cbn [hub_step]. destruct new_Buffer_repr as (b & -> & Hb & _). cbn [mbind outcome_bind].
  set (x0 := mkHubConn _ None). simpl.
  assert (Hlk : forall j x, (hub_conns st ++ [x0]) !! j = Some x -> hub_conns st !! j = Some x \/ (hub_conns st !! j = None /\ x = x0)).
  { intros j x Hx. apply lookup_snoc_Some in Hx as [[_ Hx]|[-> ->]]; [by left|right]. split; [|done]. by apply lookup_ge_None_2. }
  assert (Hold : forall j x, hub_conns st !! j = Some x -> (hub_conns st ++ [x0]) !! j = Some x)
    by (intros j x Hx; rewrite lookup_app_l; [done|by eapply lookup_lt_Some]).
  constructor; [|done|..]; simpl.
  - destruct H1 as [K1 K2 K3 K4]. constructor; simpl; [| |done..].
    + intros j x [Hx|[Hn ->]]%Hlk; [by apply K1|]. simpl. split; [apply new_TcpConnection_inv; apply Hb|].
      split; [intros [[=]|[=]]|]. intros t. split; [|by intros (? & [=] & _)]. intros Hj. destruct (K2 j t Hj). congruence.
    + intros j t Hj. destruct (K2 j t Hj) as [x Hx]. eauto.
  - intros j p Hp. destruct (H3 j p Hp) as (x & Hx & ?). eauto.
  - intros j x [Hx|[Hn ->]]%Hlk Hp; [by apply (H4 j)|]. right. done.
  - intros j x [Hx|[Hn ->]]%Hlk; [by apply H5|]. rewrite H6 by done. unfold stream, pending_output. simpl. apply Hb.
  - intros j Hj. apply H6. apply lookup_ge_None. apply lookup_ge_None in Hj. rewrite length_app in Hj. simpl in Hj. lia.
Qed.

Lemma sim_establish R st i : Sim R st -> hub_permitted (R, st) (UEstablish i) ->
  unless too_long (hub_step st (UEstablish i)) (Sim (room_step R (UEstablish i))).
Proof.
  intros Hs (x & Hx & Hst). simpl in Hx. pose proof (lookup_lt_Some _ _ _ Hx) as Hlt.
  assert (Hnone : room_pending R !! i = None).
  { destruct (room_pending R !! i) as [p|] eqn:E; [|done]. destruct (sim_up _ _ Hs i p E) as (y & Hy & Hy' & _). congruence. }
  assert (Hin : repr (inputBuffer_ (hc_tcp x)) []) by (destruct (sim_down _ _ Hs i x Hx Hnone) as [?|[_ ?]]; [congruence|done]).
  cbn [hub_step]. eapply unless_mono; [apply (hub_establish_rep write write_bounded i _ st x (sim_rep _ _ Hs) Hx Hst)|].
  { intros t Ht. apply (sim_subs _ _ Hs) in Ht as [? Ht]. congruence. }
  intros st' _ (Hr & _ & c & Ec & Hcs). apply establish_frame in Ec as (E1 & E2 & E3).
  destruct Hs as [H1 H2 H3 H4 H5 H6]. constructor; simpl; [done|..]; rewrite ?Hcs.
  - intros j t Hj. destruct (decide (j = i)) as [->|]; [rewrite lookup_insert_eq; by eexists|].
    rewrite lookup_insert_ne by done. by eapply H2.
  - intros j p. destruct (decide (j = i)) as [->|Hne].
    + rewrite lookup_insert_eq, list_lookup_insert_eq by done. intros [= <-]. eexists. split; [done|]. simpl. by rewrite E2.
    + rewrite lookup_insert_ne, list_lookup_insert_ne by done. apply H3.
  - intros j y. destruct (decide (j = i)) as [->|Hne]; [by rewrite lookup_insert_eq|].
    rewrite lookup_insert_ne, list_lookup_insert_ne by done. apply H4.
  - intros j y. destruct (decide (j = i)) as [->|Hne]; [|rewrite list_lookup_insert_ne by done; apply H5].
    rewrite list_lookup_insert_eq by done. intros [= <-]. simpl. rewrite E3. by apply H5.
  - intros j Hj. apply H6. apply lookup_ge_None. apply lookup_ge_None in Hj. by rewrite length_insert in Hj.
Qed.

(** Commands and ticks: the connections stay up and are sent what the room says. *)
Lemma sim_sent R st B' (pend : gmap nat text) d st' : Sim R st -> HubRep B' st' ->
  length (hub_conns st') = length (hub_conns st) ->
  (forall j, is_Some (pend !! j) <-> is_Some (room_pending R !! j)) ->
  (forall j t, (j, t) ∈ subs B' -> is_Some (room_pending R !! j)) ->
  (forall j x x', hub_conns st !! j = Some x -> hub_conns st' !! j = Some x' ->
     TcpConnection.state_ (hc_tcp x') = TcpConnection.state_ (hc_tcp x) /\
     stream (hc_tcp x') = stream (hc_tcp x) ++ (if connected (hc_tcp x) then d j else []) /\
     match pend !! j with
     | Some p => repr (inputBuffer_ (hc_tcp x')) p
     | None => inputBuffer_ (hc_tcp x') = inputBuffer_ (hc_tcp x)
     end) ->
  Sim (mkRoom B' pend (room_send d R)) st'.
Proof.
  intros Hs Hr Hlen Hdom Hsubs Hj. pose proof Hs as [H1 H2 H3 H4 H5 H6].
  assert (Hback : forall j x', hub_conns st' !! j = Some x' -> exists x, hub_conns st !! j = Some x).
  { intros j x' Hx'. apply lookup_lt_is_Some_2. rewrite <- Hlen. by eapply lookup_lt_Some. }
  constructor; simpl; [done|..].
  - intros j t Ht. rewrite Hdom. by eapply Hsubs.
  - intros j p Hp. destruct (proj1 (Hdom j)) as [p0 Hp0]; [by eexists|]. destruct (H3 j p0 Hp0) as (x & Hx & Hst & _).
    destruct (lookup_lt_is_Some_2 (hub_conns st') j) as [x' Hx']; [rewrite Hlen; by eapply lookup_lt_Some|].
    destruct (Hj j x x' Hx Hx') as (E1 & _ & E3). rewrite Hp in E3. exists x'. split_and!; [done|congruence|done].
  - intros j x' Hx' Hp. destruct (Hback j x' Hx') as [x Hx]. destruct (Hj j x x' Hx Hx') as (E1 & _ & E3).
    rewrite Hp in E3. rewrite E1, E3. apply (H4 j x Hx). apply eq_None_not_Some. rewrite <- Hdom, Hp. by intros [? ?].
  - intros j x' Hx'. destruct (Hback j x' Hx') as [x Hx]. destruct (Hj j x x' Hx Hx') as (_ & E2 & _).
    rewrite E2, (up_connected R st j x Hs Hx), (H5 j x Hx). unfold room_send. by case_bool_decide; case_decide.
  - intros j Hn. assert (Hn' : hub_conns st !! j = None) by (apply lookup_ge_None; rewrite <- Hlen; by apply lookup_ge_None).
    unfold room_send. rewrite H6, decide_False by done || (intros [p Hp]; destruct (H3 j p Hp) as (x & Hx & _); congruence). done.
Qed.

Lemma board_run_subs i ms : forall B j t, (j, t) ∈ subs (board_run i B ms) -> (j, t) ∈ subs B \/ j = i.
Proof.
  induction ms as [|a ms IH]; intros B j t; [by left|]. intros [H|H]%(IH (board_step i B a)); [|by right].
  destruct a; simpl in H; set_solver.
Qed.

Lemma sim_segment R st i t seg : Sim R st -> hub_permitted (R, st) (USegment i t seg) ->
  unless too_long (hub_step st (USegment i t seg)) (Sim (room_step R (USegment i t seg))).
Proof.
  intros Hs ([p Hp] & Ht & Hseg & Hok & Hfits). simpl in Hp, Hok, Hfits. destruct (sim_up _ _ Hs i p Hp) as (x & Hx & Hst & Hin).
  cbn [hub_step room_step]. unfold room_stream in *. rewrite Hp in *. simpl default in *.
  destruct (decode next_command (p ++ seg)) as [[ms rest] ok] eqn:Ed. simpl in Hok, Hfits. subst ok.
  destruct (hub_read_one write write_bounded write_no_fault i _ st x t p seg ms rest (sim_rep _ _ Hs) Hx) as (r & -> & Hr);
    try done; [by left|]. cbn [ended]. eapply unless_mono; [exact Hr|]. intros st' _ [Hrest [K1 K2 K3]].
  apply (sim_sent R st); try done.
  - intros j. destruct (decide (j = i)) as [->|]; [rewrite lookup_insert_eq, Hp; by split|by rewrite lookup_insert_ne].
  - intros j tp [Hj| ->]%board_run_subs; [by eapply (sim_subs _ _ Hs)|by eexists].
  - intros j y y' Hy Hy'. destruct (K3 j y y' Hy Hy') as (E1 & E2 & E3). split_and!; [done..|].
    destruct (decide (j = i)) as [->|Hne].
    + rewrite lookup_insert_eq. unfold hub_input in Hrest. by rewrite Hy' in Hrest.
    + rewrite lookup_insert_ne by done. specialize (E2 Hne). destruct (room_pending R !! j) as [q|] eqn:Eq; [|done].
      destruct (sim_up _ _ Hs j q Eq) as (z & Hz & _ & Hzin). assert (z = y) as -> by congruence. by rewrite E2.
Qed.

Lemma zlen_ztake_le {A} n (l : list A) : 0 <= n -> zlen (ztake n l) <= n.
Proof. intros Hn. unfold zlen, ztake. rewrite length_take. lia. Qed.

(** The time is a short text. *)
Lemma tick_fits now : command_fits (tick_command now).
Proof.
  change (fits (bytes "utc_time") (toFormattedString localtime_r true now)). unfold fits, publish_message. rewrite !zlen_app.
  assert (Hf : zlen (toFormattedString localtime_r true now) <= 63) by (unfold toFormattedString, snprintf; by apply zlen_ztake_le).
  change (zlen (bytes "pub ")) with 4. change (zlen (bytes "utc_time")) with 8. change (zlen kCRLF) with 2. lia.
Qed.

Lemma sim_tick R st now : Sim R st -> valid now = true ->
  unless too_long (hub_step st (UTick now)) (Sim (room_step R (UTick now))).
Proof.
  intros Hs Hnow. cbn [hub_step room_step]. unfold timePublish.
  eapply unless_mono; [exact (doPublish_rep write write_bounded write_no_fault 0 _ st _ _ now (sim_rep _ _ Hs) Hnow (tick_fits now))|].
  intros st' _ [Hr [Hlen Hsent]]. apply (sim_sent R st); try done; [apply (sim_subs _ _ Hs)|].
  intros j x x' Hx Hx'. destruct (Hsent j x x' Hx Hx') as (_ & E1 & E2 & E3). split_and!; [done..|].
  destruct (room_pending R !! j) as [q|] eqn:Eq; [|done]. destruct (sim_up _ _ Hs j q Eq) as (z & Hz & _ & Hzin).
  assert (z = x) as -> by congruence. by rewrite E2.
Qed.

Lemma sim_hangup R st i t : Sim R st -> is_Some (room_pending R !! i) ->
  unless too_long (hub_step st (UHangup i t)) (Sim (room_step R (UHangup i t))).
Proof.
  intros Hs [p Hp]. destruct (sim_up _ _ Hs i p Hp) as (x & Hx & Hst & Hin). cbn [hub_step room_step].
  unfold hub_handleRead, stream_handleRead.
  assert (Hi0 : hub_input i st = inputBuffer_ (hc_tcp x)) by (unfold hub_input; by rewrite Hx). rewrite Hi0.
  pose proof (iov_room _ _ Hin) as Hroom.
  destruct (readFd_cases _ p (fun _ => ReadData []) [] Hin eq_refl) as [[-> _]|(b & -> & Hb)];
    [unfold sizeof_extrabuf in Hroom; rewrite zlen_nil; lia|done|].
  cbn [zlen length Z.of_nat Z.ltb Z.compare Z.eqb ended]. set (st1 := hub_update i (set_input b) st).
  assert (Hx1 : hub_conns st1 !! i = Some (mkHubConn (set_input b (hc_tcp x)) (hc_subs x))) by (simpl; by rewrite list_lookup_alter_eq, Hx).
  assert (Hr1 : HubRep (room_board R) st1).
  { apply HubRep_update; [apply (sim_rep _ _ Hs)| |done]. intros c Hc. apply CInv_input; [done|apply Hb]. }
  eapply unless_mono; [apply (hub_closed_rep write write_bounded write_no_fault i _ st1 _ Hr1 Hx1); by left|].
  intros st' _ (Hr & c & Ec & Hlen & Hsent). apply close_frame in Ec as [E1 E2]. cbn [hc_tcp hc_subs] in *.
  rewrite length_insert in Hlen. pose proof (lookup_lt_Some _ _ _ Hx1) as Hlt1.
  destruct Hs as [H1 H2 H3 H4 H5 H6]. assert (Hlen' : length (hub_conns st') = length (hub_conns st)).
  { rewrite Hlen. simpl. by rewrite length_alter. }
  assert (Hother : forall j y', j <> i -> hub_conns st' !! j = Some y' -> exists y, hub_conns st !! j = Some y /\
    TcpConnection.state_ (hc_tcp y') = TcpConnection.state_ (hc_tcp y) /\ inputBuffer_ (hc_tcp y') = inputBuffer_ (hc_tcp y) /\
    stream (hc_tcp y') = stream (hc_tcp y)).
  { intros j y' Hne Hy'. destruct (lookup_lt_is_Some_2 (hub_conns st) j) as [y Hy]; [rewrite <- Hlen'; by eapply lookup_lt_Some|].
    destruct (Hsent j y y') as (_ & K1 & K2 & K3); [simpl; by rewrite list_lookup_insert_ne, list_lookup_alter_ne|done|].
    exists y. split_and!; try done. rewrite K3. by destruct (connected _); rewrite app_nil_r. }
  assert (Hself : forall y', hub_conns st' !! i = Some y' -> TcpConnection.state_ (hc_tcp y') = kDisconnected /\ stream (hc_tcp y') = room_out R i).
  { intros y' Hy'. destruct (Hsent i (mkHubConn c (hc_subs x)) y') as (_ & K1 & _ & K3); [by rewrite list_lookup_insert_eq|done|].
    simpl in K1, K3. split; [congruence|]. rewrite K3, E2, <- (H5 i x Hx). by destruct (connected c); rewrite app_nil_r. }
  constructor; simpl; [done|..].
  - intros j tp [Hne Hj]%elem_of_filter. simpl in Hne. rewrite lookup_delete_ne by done. by eapply H2.
  - intros j q. destruct (decide (j = i)) as [->|Hne]; [by rewrite lookup_delete_eq|]. rewrite lookup_delete_ne by done. intros Hq.
    destruct (H3 j q Hq) as (y & Hy & Hyst & Hyin). destruct (lookup_lt_is_Some_2 (hub_conns st') j) as [y' Hy'];
      [rewrite Hlen'; by eapply lookup_lt_Some|]. destruct (Hother j y' Hne Hy') as (z & Hz & K1 & K2 & _).
    assert (z = y) as -> by congruence. exists y'. split_and!; [done|congruence|by rewrite K2].
  - intros j y' Hy'. destruct (decide (j = i)) as [->|Hne]; [intros _; left; by apply Hself|]. rewrite lookup_delete_ne by done.
    destruct (Hother j y' Hne Hy') as (z & Hz & K1 & K2 & _). rewrite K1, K2. by apply H4.
  - intros j y' Hy'. destruct (decide (j = i)) as [->|Hne]; [by apply Hself|]. destruct (Hother j y' Hne Hy') as (z & Hz & _ & _ & ->).
    by apply H5.
  - intros j Hn. apply H6. apply lookup_ge_None. rewrite <- Hlen'. by apply lookup_ge_None.
Qed.

Lemma sim_step p l : Sim p.1 p.2 -> hub_permitted p l -> unless too_long (both_step p l) (fun p' => Sim p'.1 p'.2).
Proof.
  destruct p as [R st]. cbn [fst snd]. intros Hs Hp. unfold both_step. cbn [fst snd].
  eapply unless_bind; [|intros st' _ Hs'; exact Hs'].
  destruct l as [fd|i|i t seg|i t|now]; [by apply sim_accept|by apply sim_establish|by apply sim_segment|by apply sim_hangup|by apply sim_tick].
Qed.

Definition empty_room : Room := mkRoom (mkBoard ∅ ∅) ∅ (fun _ => []).
Definition new_Hub : Hub := mkHub [] ∅.

Lemma sim_empty : Sim empty_room new_Hub.
Proof.
  by constructor.
Qed.
End Histories.

(** ** Properties *)


(** One client subscribes, in two segments; the other publishes; the first one leaves. *)
Definition sample_hub_history : list hub_label :=
  [UAccept 9; UAccept 10; UEstablish 0; UEstablish 1;
   USegment 0 (mkTimestamp 1) (bytes "sub ne"); USegment 1 (mkTimestamp 2) (publish_message (bytes "news") (bytes "old"));
   USegment 0 (mkTimestamp 3) (bytes "ws" ++ kCRLF); USegment 1 (mkTimestamp 4) (publish_message (bytes "news") (bytes "new"));
   UHangup 0 (mkTimestamp 5)].

Definition epoch (_ : Z) : tm_fields := mkTm 70 0 1 0 0 0.

Definition room_after (k : nat) : Room := fold_left (room_step epoch) (firstn k sample_hub_history) empty_room.
Definition hub_after (k : nat) : Hub :=
  match for_each (hub_step (fun _ => full_write) epoch) new_Hub (firstn k sample_hub_history) with
  | Ok st => st | Err _ => new_Hub end.

Lemma guarded_both write localtime_r R st st' l ls : hub_permitted (R, st) l -> hub_step write localtime_r st l = Ok st' ->
  guarded (both_step write localtime_r) hub_permitted (room_step localtime_r R l, st') ls ->
  guarded (both_step write localtime_r) hub_permitted (R, st) (l :: ls).
Proof.
  intros Hp E Hg. eapply guarded_step; [exact Hp| |exact Hg]. unfold both_step. cbn [fst snd]. by rewrite E.
Qed.

(** The next step of a history, up to its state, and the conditions on a segment. *)
#[local] Ltac next k := apply (guarded_both _ _ _ _ (hub_after k)); [|vm_compute; reflexivity|].
#[local] Ltac segment := split; [vm_compute; eexists; reflexivity|]; split; [reflexivity|];
    split; [vm_compute; split; [reflexivity|discriminate]|]; split; [vm_compute; reflexivity|];
    match goal with |- Forall _ ?l => let l' := eval vm_compute in l in
      assert (El : l = l') by (vm_compute; reflexivity); rewrite El; clear El end;
    repeat (apply Forall_cons; split; [first [exact I | vm_compute; reflexivity]|]); apply Forall_nil; exact I.

Lemma sample_hub_guarded :
  guarded (both_step (fun _ => full_write) epoch) hub_permitted (room_after 0, hub_after 0) sample_hub_history.
Proof.
  next 1%nat; [exact I|]. next 2%nat; [exact I|].
  next 3%nat; [eexists; split; vm_compute; reflexivity|]. next 4%nat; [eexists; split; vm_compute; reflexivity|].
  next 5%nat; [segment|]. next 6%nat; [segment|]. next 7%nat; [segment|]. next 8%nat; [segment|].
  next 9%nat; [vm_compute; eexists; reflexivity|exact I].
Qed.

