(* ===== verification/HubClient.v ===== *)
(** * The client of the hub (src/tests/hub/pubsub.cpp)

    [PubSubClient::onMessage] over the segments of the stream the hub sends: the
    subscriber's callback gets the posts of the stream, each once and in order,
    however the stream is cut. *)

From S2P Require Import Prelude Endian StringPiece Buffer Lines Format Timestamp Channel TcpConnection ConnStream Framing Hub.
Local Open Scope Z_scope.

(** The client and the calls of [subscribeCallback_]. *)
Record Listener : Type := mkListener { ps_client : PubSubClient; received : list (text * text) }.

Definition ps_update (f : TcpConnection -> TcpConnection) (k : Listener) : Listener :=
  let c := ps_client k in mkListener (mkPubSub (f (ps_tcp c)) (ps_conn c) (ps_callback c)) (received k).
Definition ps_input (k : Listener) : Buffer := inputBuffer_ (ps_tcp (ps_client k)).

(** The post of an entry, if it is one. *)
Definition post_of (e : text * text * text) : option (text * text) :=
  let '(cmd, topic, content) := e in if decide (cmd = bytes "pub") then Some (topic, content) else None.

Definition ps_post (e : text * text * text) (k : Listener) : Listener :=
  match post_of e with
  | Some p => if ps_callback (ps_client k) then mkListener (ps_client k) (received k ++ [p]) else k
  | None => k
  end.

(** [onMessage]: one round of its loop per unit of fuel. *)
Fixpoint ps_loop (fuel : nat) (receiveTime : Timestamp) (k : Listener) : option (outcome Listener) :=
  match fuel with
  | O => None
  | S fuel =>
      match parseMessage (ps_input k) with
      | Err f => Some (Err f)
      | Ok (result, e, buf) =>
          let k := ps_update (set_input buf) k in
          match result with
          | kSuccess => ps_loop fuel receiveTime (ps_post e k)
          | kError => Some (Ok (ps_update shutdown k))
          | kContinue => Some (Ok k)
          end
      end
  end.

Definition ps_onMessage (receiveTime : Timestamp) (k : Listener) : option (outcome Listener) :=
  ps_loop (S (length (content (ps_input k)))) receiveTime k.

Definition ps_closed (write : nat -> list ascii -> write_result) (k : Listener) : outcome Listener :=
  c ← handleClose write silent_user (ps_tcp (ps_client k));
  let k := ps_update (fun _ => c) k in Ok (mkListener (ps_onConnection (ps_client k)) (received k)).

Definition ps_read_all (write : nat -> list ascii -> write_result)
  : list (Timestamp * text) -> Listener -> option (outcome Listener) :=
  stream_read_all ps_input (fun b => ps_update (set_input b)) (ps_update (record_call NMessage))
    ps_onMessage (ps_closed write) Ok.

(** ** What the callback gets *)

Section Listening.
Context (k0 : Listener).

(** The client after the entries [log]. *)
Record Heard (log : list (text * text * text)) (k : Listener) : Prop := mkHeard {
  he_conn : CInv 0 (ps_tcp (ps_client k));
  he_callback : ps_callback (ps_client k) = ps_callback (ps_client k0);
  he_received : received k = received k0 ++ (if ps_callback (ps_client k0) then omap post_of log else [])
}.

Definition Stopped (rest : text) (log : list (text * text * text)) (k : Listener) : Prop :=
  Heard log k /\ repr (ps_input k) rest.

Lemma Heard_update f log k : Heard log k -> (CInv 0 (ps_tcp (ps_client k)) -> CInv 0 (f (ps_tcp (ps_client k)))) ->
  Heard log (ps_update f k).
Proof. intros [H1 H2 H3] Hf. by constructor; [apply Hf|..]. Qed.

(** The call of [onMessage] with what was read. *)
Lemma Heard_read log b k : Heard log k -> wf b -> Heard log (ps_update (record_call NMessage) (ps_update (set_input b) k)).
Proof.
  intros Hk Hb. apply Heard_update; [apply Heard_update; [done|]|]; intros H; [by apply CInv_input|by apply CInv_record].
Qed.

Lemma Heard_post log e k : Heard log k -> Heard (log ++ [e]) (ps_post e k) /\ ps_input (ps_post e k) = ps_input k.
Proof.
  intros [H1 H2 H3].
  assert (Hsame : ps_client (ps_post e k) = ps_client k) by (unfold ps_post; by repeat case_match).
  split; [|unfold ps_input; by rewrite Hsame]. constructor; rewrite ?Hsame; try done.
  rewrite omap_app. unfold ps_post. rewrite H2. simpl.
  destruct (post_of e) as [p|], (ps_callback (ps_client k0)); simpl; rewrite H3, ?app_nil_r; by rewrite ?app_assoc.
Qed.

Lemma ps_loop_hears t : forall fuel log k txt, (length txt < fuel)%nat -> repr (ps_input k) txt -> Heard log k ->
  exists k', ps_loop fuel t k = Some (Ok k') /\
    let '(ms, rest, ok) := decode next_entry txt in after_message ps_input Heard Stopped rest (log ++ ms) ok k'.
Proof.
  induction fuel as [|fuel IH]; intros log k txt Hf Hin Hk; [lia|]. cbn [ps_loop].
  assert (Hset : forall b, wf b -> Heard log (ps_update (set_input b) k)).
  { intros b Hb. apply Heard_update; [done|]. intros Hc. by apply CInv_input. }
  pose proof (parseMessage_repr _ _ Hin) as Hp. rewrite (decode_unfold next_entry).
  destruct (next_entry txt) as [| |e rest] eqn:En; [..|pose proof (next_shorter (next := next_entry) _ _ _ En) as Hlt].
  - destruct Hp as [[[cmd tp] c] ->]. eexists. split; [done|]. rewrite app_nil_r. split; [exact Hin|apply Hset; apply Hin].
  - destruct Hp as [[[cmd tp] c] ->]. eexists. split; [done|]. rewrite app_nil_r. split.
    + apply Heard_update; [apply Hset; apply Hin|]. intros Hc. by destruct (shutdown_inv _ Hc).
    + change (repr (inputBuffer_ (shutdown (set_input (ps_input k) (ps_tcp (ps_client k))))) txt).
      by rewrite (proj1 (shutdown_frame _)).
  - destruct Hp as (b & Hb & ->). destruct (Heard_post log e _ (Hset b (proj1 Hb))) as [Hk2 Hi2].
    destruct (IH (log ++ [e]) (ps_post e (ps_update (set_input b) k)) rest) as (k' & E & Hr); [lia|by rewrite Hi2|done|].
    exists k'. split; [done|]. destruct (decode next_entry rest) as [[ms r] ok]. by rewrite <- app_assoc in Hr.
Qed.
End Listening.

(** The posts of a stream of the hub. *)
Definition post_stream (posts : list (text * text)) : text := concat (map (fun p => publish_message p.1 p.2) posts).

Lemma decode_posts posts : Forall (fun p => (CR ∉ p.1) /\ (CR ∉ p.2)) posts ->
  decode next_entry (post_stream posts) = (map (fun p => (bytes "pub", p.1, p.2)) posts, [], true).
Proof.
  intros H. induction H as [|p posts [H1 H2] _ IH]; [done|]. unfold post_stream in *. cbn [map concat].
  rewrite (decode_unfold next_entry), next_entry_publish by done. by rewrite IH.
Qed.

Lemma omap_posts posts : omap post_of (map (fun p => (bytes "pub", p.1, p.2)) posts) = posts.
Proof. induction posts as [|[t c] posts IH]; [done|]. unfold omap in *. cbn. f_equal. exact IH. Qed.

(** ** Properties *)

(** What a subscriber hears: the bytes of any posts, in any segments, make the
    callback run exactly once for each post, in order, with its topic and its
    content; every call ends and no assertion fails. *)
Theorem subscriber_hears (write : nat -> list ascii -> write_result) (k : Listener) (posts : list (text * text))
    (segs : list (Timestamp * text)) :
  CInv 0 (ps_tcp (ps_client k)) -> repr (ps_input k) [] -> ps_callback (ps_client k) = true ->
  Forall (fun p => (CR ∉ p.1) /\ (CR ∉ p.2)) posts ->
  Forall (fun m => 0 < zlen m.2 <= sizeof_extrabuf) segs -> concat (map snd segs) = post_stream posts ->
  exists r, ps_read_all write segs k = Some r /\ unless too_long r (fun k' =>
    received k' = received k ++ posts /\ repr (ps_input k') [] /\ CInv 0 (ps_tcp (ps_client k'))).
Proof.
  intros Hc Hin Hcb Hposts Hsegs Hcat.
  destruct (stream_read_all_decodes ps_input (fun b => ps_update (set_input b)) (ps_update (record_call NMessage))
    ps_onMessage (ps_closed write) Ok next_entry too_long (Heard k) (Stopped k)) with (segs := segs) (all := @nil ascii) (s := k)
    as (r & Er & Hr); try done.
  - intros t ms k1 txt b Hk1 Hb.
    pose proof (Heard_read k ms b k1 Hk1 (proj1 Hb)) as Hk2.
    destruct (ps_loop_hears k t (S (length (content b))) ms (ps_update (record_call NMessage) (ps_update (set_input b) k1)) txt ltac:(rewrite (proj2 Hb); lia) Hb Hk2) as (k' & E & Hk').
    exists (Ok k'). split; [exact E|exact Hk'].
  - intros rest ms k1 [Hk1 Hrest] Href. exists rest. split; [done|]. intros t b seg Hb.
    pose proof (Heard_read k ms b k1 Hk1 (proj1 Hb)) as Hk2.
    destruct (ps_loop_hears k t (S (length (content b))) ms (ps_update (record_call NMessage) (ps_update (set_input b) k1)) (rest ++ seg) ltac:(rewrite (proj2 Hb); lia) Hb Hk2) as (k' & E & Hk').
    exists (Ok k'). split; [exact E|]. rewrite (decode_unfold next_entry), (next_refuse _ seg Href), app_nil_r in Hk'. exact Hk'.
  - split; [done|]. constructor; [done..|]. by rewrite Hcb, app_nil_r.
  - exists r. split; [exact Er|]. eapply unless_mono; [exact Hr|]. intros k' _. unfold after_bytes. cbn [app].
    rewrite Hcat, decode_posts by done. intros [H1 [H2 _ H3]]. by rewrite Hcb, omap_posts in H3.
Qed.

Definition two_posts : list (text * text) := [(bytes "news", bytes "one"); (bytes "sport", bytes "two")].
Definition sample_listener : Listener := mkListener (mkPubSub open_connection true true) [].
Definition two_posts_segments : list (Timestamp * text) :=
  [(mkTimestamp 1, ztake 7 (post_stream two_posts)); (mkTimestamp 2, zdrop 7 (post_stream two_posts))].

Lemma subscriber_hears_witness :
  exists r, ps_read_all full_write two_posts_segments sample_listener = Some r /\
    unless too_long r (fun k' => received k' = two_posts).
Proof.
  destruct (subscriber_hears full_write sample_listener two_posts two_posts_segments) as (r & E & Hr).
  - apply open_connection_inv.
  - apply empty_buffer_repr.
  - reflexivity.
  - repeat (apply Forall_cons; split; [split; by_compute|]). by apply Forall_nil.
  - repeat (apply Forall_cons; split; [vm_compute; split; [reflexivity|discriminate]|]). by apply Forall_nil.
  - vm_compute. reflexivity.
  - exists r. split; [exact E|]. eapply unless_mono; [exact Hr|]. by intros k' _ [-> _].
Defined.
