(* ===== verification/IdleWheel.v ===== *)
(** * The timing wheel of the idle-connection server (src/tests/idleconnection/echo.h, echo.cpp)

    An echo server that shuts a connection down when it has been silent for a
    number of seconds.  Every connection that comes up has an entry, which the
    buckets of a ring hold; a timer pushes an empty bucket and so drops the
    oldest one, and an entry that no bucket holds any more is destroyed, which
    shuts the connection down. *)

From S2P Require Import Prelude Endian StringPiece Buffer Format Timestamp Channel Poller TcpConnection ConnStream Framing LengthCodec.
Local Open Scope Z_scope.

(** The connections by creation; the buckets, oldest first, of the entries (one per
    connection, so named by it); the connections whose context is set.  The
    ring is full from the start: its size is its capacity. *)
Record EchoServer : Type := mkEcho {
  echo_conns : list TcpConnection;
  connectionBuckets_ : list (gset nat);
  with_context : gset nat
}.

Definition new_EchoServer (idleSeconds : nat) : EchoServer := mkEcho [] (replicate idleSeconds ∅) ∅.

(** [connectionBuckets_.back().insert(entry)]. *)
Definition back_insert (i : nat) (bs : list (gset nat)) : outcome (list (gset nat)) :=
  match last bs with
  | None => Err OutOfBounds
  | Some b => Ok (<[pred (length bs) := {[i]} ∪ b]> bs)
  end.

(** [weakEntry.lock()] succeeds while some bucket holds the entry. *)
Definition entry_alive (i : nat) (bs : list (gset nat)) : bool := bool_decide (i ∈ ⋃ bs).

Section Server.
Context (write : nat -> nat -> list ascii -> write_result).

Definition echo_onConnection (i : nat) (st : EchoServer) : outcome EchoServer :=
  match echo_conns st !! i with
  | None => Err UseAfterFree
  | Some c =>
      if connected c then
        bs ← back_insert i (connectionBuckets_ st);
        Ok (mkEcho (echo_conns st) bs ({[i]} ∪ with_context st))
      else assert_ (bool_decide (i ∈ with_context st));; Ok st
  end.

Definition echo_onMessage (i : nat) (_ : Timestamp) (st : EchoServer) : outcome EchoServer :=
  match echo_conns st !! i with
  | None => Err UseAfterFree
  | Some c =>
      '(msg, b) ← retrieveAllAsString (inputBuffer_ c);
      piece ← StringPiece.of_string msg;
      c ← send (write i) (StringPiece.chars piece) (set_input b c);
      assert_ (bool_decide (i ∈ with_context st));;
      bs ← (if entry_alive i (connectionBuckets_ st) then back_insert i (connectionBuckets_ st) else Ok (connectionBuckets_ st));
      Ok (mkEcho (<[i := c]> (echo_conns st)) bs (with_context st))
  end.

(** [~Entry] of the entries only the dropped bucket held. *)
Definition echo_onTimer (st : EchoServer) : EchoServer :=
  match connectionBuckets_ st with
  | [] => st
  | front :: bs =>
      let bs := bs ++ [∅] in
      mkEcho (fold_left (fun cs i => alter shutdown i cs) (elements (front ∖ ⋃ bs)) (echo_conns st)) bs (with_context st)
  end.

(** The events of connection [i]: it is created, comes up, is readable. *)
Definition echo_input (i : nat) (st : EchoServer) : Buffer :=
  match echo_conns st !! i with Some c => inputBuffer_ c | None => empty_buffer end.
Definition echo_update (i : nat) (f : TcpConnection -> TcpConnection) (st : EchoServer) : EchoServer :=
  mkEcho (alter f i (echo_conns st)) (connectionBuckets_ st) (with_context st).

Definition echo_tcp (f : nat -> TcpConnection -> outcome TcpConnection) (i : nat) (st : EchoServer) : outcome EchoServer :=
  cs ← at_index f (echo_conns st) i;
  echo_onConnection i (mkEcho cs (connectionBuckets_ st) (with_context st)).

Definition echo_handleRead (i : nat) : (list Z -> readv_result) -> Timestamp -> EchoServer -> option (outcome EchoServer) :=
  stream_handleRead (echo_input i) (fun b => echo_update i (set_input b)) (echo_update i (record_call NMessage))
    (fun t st => Some (echo_onMessage i t st)) (echo_tcp (fun i => handleClose (write i) silent_user) i) Ok.

Inductive echo_label : Type :=
| EAccept (fd : Z)
| EUp (i : nat)
| EData (i : nat) (t : Timestamp) (seg : text)
| EHangup (i : nat) (t : Timestamp)
| ETick.

Definition echo_step (st : EchoServer) (l : echo_label) : outcome EchoServer :=
  match l with
  | EAccept fd =>
      input ← new_Buffer kInitialSize;
      output ← new_Buffer kInitialSize;
      Ok (mkEcho (echo_conns st ++ [new_TcpConnection fd input output false false]) (connectionBuckets_ st) (with_context st))
  | EUp i => echo_tcp (fun i => connectEstablished (write i) silent_user) i st
  | EData i t seg => ended (echo_handleRead i (fun _ => ReadData seg) t st)
  | EHangup i t => ended (echo_handleRead i (fun _ => ReadData []) t st)
  | ETick => Ok (echo_onTimer st)
  end.
End Server.

(** ** The reference: how long each connection has been silent *)

(** For each connection that has come up: the ticks since its last data (at most the
    limit; data that comes later does not count), and whether it is still there. *)
Definition silence_step (limit : nat) (m : gmap nat (nat * bool)) (l : echo_label) : gmap nat (nat * bool) :=
  match l with
  | EAccept _ => m
  | EUp i => <[i := (0%nat, true)]> m
  | EData i _ _ => alter (fun p => if (p.1 <? limit)%nat then (0%nat, p.2) else p) i m
  | EHangup i _ => alter (fun p => (p.1, false)) i m
  | ETick => (fun p => (Nat.min (S p.1) limit, p.2)) <$> m
  end.

Definition expected_state (limit : nat) (p : nat * bool) : StateE :=
  if p.2 then (if (p.1 <? limit)%nat then kConnected else kDisconnecting) else kDisconnected.

(** What the environment may do next. *)
Definition echo_permitted (limit : nat) (p : gmap nat (nat * bool) * EchoServer) (l : echo_label) : Prop :=
  match l with
  | EAccept _ => True
  | EUp i => exists c, echo_conns p.2 !! i = Some c /\ TcpConnection.state_ c = kConnecting
  | EData i t seg => (exists a, p.1 !! i = Some (a, true)) /\ 0 < zlen seg <= sizeof_extrabuf
  | EHangup i t => exists a, p.1 !! i = Some (a, true)
  | ETick => True
  end.

(** ** The ring holds an entry for as long as its connection may be silent *)

Section Wheel.
Context (limit : nat).

(** A connection that has been silent for [a] ticks is in the bucket [a] before the
    last one and in none after it. *)
Record Ring (m : gmap nat (nat * bool)) (bs : list (gset nat)) : Prop := mkRing {
  ring_length : length bs = limit;
  ring_old : forall k b i, bs !! k = Some b -> i ∈ b -> exists a u, m !! i = Some (a, u) /\ (k + a < limit)%nat;
  ring_last : forall i a u, m !! i = Some (a, u) -> (a < limit)%nat -> exists b, bs !! (limit - S a)%nat = Some b /\ i ∈ b;
  ring_bound : forall i a u, m !! i = Some (a, u) -> (a <= limit)%nat
}.

Lemma elem_of_union_lookup (i : nat) (bs : list (gset nat)) : i ∈ ⋃ bs <-> exists k b, bs !! k = Some b /\ i ∈ b.
Proof.
  rewrite elem_of_union_list. split.
  - intros (b & Hb & Hi). apply list_elem_of_lookup in Hb as [k Hk]. eauto.
  - intros (k & b & Hk & Hi). exists b. split; [|done]. by eapply list_elem_of_lookup_2.
Qed.

Lemma ring_alive m bs i a u : Ring m bs -> m !! i = Some (a, u) -> entry_alive i bs = (a <? limit)%nat.
Proof.
  intros [H1 H2 H3 H4] Hi. unfold entry_alive. destruct (Nat.ltb_spec a limit) as [Hlt|Hge].
  - apply bool_decide_true, elem_of_union_lookup. destruct (H3 i a u Hi Hlt) as (b & ? & ?). eauto.
  - apply bool_decide_false. rewrite elem_of_union_lookup. intros (k & b & Hk & Hb).
    destruct (H2 k b i Hk Hb) as (a' & u' & Hi' & ?). assert (a' = a) as -> by congruence. lia.
Qed.

(** A refreshed entry goes to the last bucket. *)
Lemma ring_refresh m bs i u : Ring m bs -> (0 < limit)%nat ->
  exists bs', back_insert i bs = Ok bs' /\ Ring (<[i := (0%nat, u)]> m) bs'.
Proof.
  intros [H1 H2 H3 H4] Hl. unfold back_insert.
  destruct (last bs) as [b|] eqn:Eb; [|apply last_None in Eb; subst bs; simpl in H1; lia]. eexists; split; [done|].
  rewrite last_lookup in Eb. constructor.
  - by rewrite length_insert.
  - intros k b' j Hk Hj. destruct (decide (k = pred (length bs))) as [->|Hne].
    + rewrite list_lookup_insert_eq in Hk by lia. injection Hk as <-. apply elem_of_union in Hj as [->%elem_of_singleton|Hj].
      * rewrite lookup_insert_eq. do 2 eexists. split; [done|lia].
      * destruct (decide (j = i)) as [->|]; [rewrite lookup_insert_eq; do 2 eexists; split; [done|lia]|].
        rewrite lookup_insert_ne by done. by eapply H2.
    + rewrite list_lookup_insert_ne in Hk by done. destruct (decide (j = i)) as [->|].
      * rewrite lookup_insert_eq. apply lookup_lt_Some in Hk. do 2 eexists. split; [done|lia].
      * rewrite lookup_insert_ne by done. by eapply H2.
  - intros j a v. destruct (decide (j = i)) as [->|Hne].
    + rewrite lookup_insert_eq. intros [= <- <-] _. replace (limit - 1)%nat with (pred (length bs)) by lia.
      rewrite list_lookup_insert_eq by lia. eexists. split; [done|set_solver].
    + rewrite lookup_insert_ne by done. intros Hj Ha. destruct (H3 j a v Hj Ha) as (b' & Hb' & Hjb).
      destruct (decide ((limit - S a)%nat = pred (length bs))) as [E|E].
      * rewrite E in *. rewrite list_lookup_insert_eq by lia. eexists. split; [done|]. assert (b' = b) as -> by congruence. set_solver.
      * rewrite list_lookup_insert_ne by done. eauto.
  - intros j a v. destruct (decide (j = i)) as [->|]; [rewrite lookup_insert_eq; intros [= <- <-]; lia|].
    rewrite lookup_insert_ne by done. apply H4.
Qed.

(** A tick drops the entries of exactly the connections whose silence reaches the limit. *)
Lemma ring_tick m front bs : Ring m (front :: bs) ->
  Ring ((fun p => (Nat.min (S p.1) limit, p.2)) <$> m) (bs ++ [∅]) /\
  forall i a u, m !! i = Some (a, u) -> i ∈ front ∖ ⋃ (bs ++ [∅]) <-> S a = limit.
Proof.
  intros [H1 H2 H3 H4]. simpl in H1.
  assert (Hnew : forall k b i, (bs ++ [∅]) !! k = Some b -> i ∈ b -> bs !! k = Some b).
  { intros k b i Hk Hi. apply lookup_snoc_Some in Hk as [[_ Hk]|[_ <-]]; [done|set_solver]. }
  split.
  - constructor.
    + rewrite length_app. simpl. lia.
    + intros k b i Hk Hi. pose proof (Hnew k b i Hk Hi) as Hk'. destruct (H2 (S k) b i Hk' Hi) as (a & u & Hm & Hlt).
      rewrite lookup_fmap, Hm. exists (Nat.min (S a) limit), u. split; [done|lia].
    + intros i a u. rewrite lookup_fmap. destruct (m !! i) as [[a0 u0]|] eqn:Em; [|done]. intros E Hlt.
      assert (a = Nat.min (S a0) limit) as -> by (symmetry; exact (f_equal (fun o => (default (0%nat, false) o).1) E)).
      destruct (H3 i a0 u0 Em ltac:(lia)) as (b & Hb & Hi). exists b. split; [|done].
      replace (limit - S (Nat.min (S a0) limit))%nat with (limit - S a0 - 1)%nat by lia.
      destruct (limit - S a0)%nat as [|k] eqn:Ek; [lia|]. cbn [lookup list_lookup] in Hb. replace (S k - 1)%nat with k by lia.
      rewrite lookup_app_l; [done|]. by eapply lookup_lt_Some.
    + intros i a u. rewrite lookup_fmap. destruct (m !! i) as [[a0 u0]|]; [|done]. intros E.
      assert (a = Nat.min (S a0) limit) as -> by (symmetry; exact (f_equal (fun o => (default (0%nat, false) o).1) E)). lia.
  - intros i a u Hm. rewrite elem_of_difference, elem_of_union_lookup. split.
    + intros [Hf Hno]. destruct (H2 0%nat front i eq_refl Hf) as (a' & u' & Hm' & Hlt). assert (a' = a) as -> by congruence.
      destruct (decide (S a = limit)); [done|]. exfalso. destruct (H3 i a u Hm ltac:(lia)) as (b & Hb & Hi). apply Hno.
      destruct (limit - S a)%nat as [|k] eqn:E; [lia|]. exists k, b. split; [|done].
      rewrite lookup_app_l; [done|]. by eapply lookup_lt_Some.
    + intros Ha. destruct (H3 i a u Hm ltac:(lia)) as (b & Hb & Hi). replace (limit - S a)%nat with 0%nat in Hb by lia.
      injection Hb as ->. split; [done|]. intros (k & b' & Hk & Hi'). pose proof (Hnew k b' i Hk Hi') as Hk'.
      destruct (H2 (S k) b' i Hk' Hi') as (a' & u' & Hm' & Hlt). assert (a' = a) as -> by congruence. lia.
Qed.

Lemma ring_up m bs i f : Ring m bs -> (forall p, (f p).1 = p.1) -> Ring (alter f i m) bs.
Proof.
  intros [H1 H2 H3 H4] Hf. assert (Hlk : forall j a u, alter f i m !! j = Some (a, u) -> exists u', m !! j = Some (a, u')).
  { intros j a u. rewrite lookup_alter. case_decide; [subst|eauto]. destruct (m !! j) as [[a0 u0]|]; [|done]. simpl. intros [= E].
    exists u0. pose proof (Hf (a0, u0)) as E'. rewrite E in E'. simpl in E'. by subst. }
  constructor; [done|..].
  - intros k b j Hk Hj. destruct (H2 k b j Hk Hj) as (a & u & Hm & Hlt). rewrite lookup_alter. case_decide as E; [subst j; rewrite Hm; simpl|eauto].
    specialize (Hf (a, u)). destruct (f (a, u)) as [a' u']. simpl in Hf. subst a'. eauto.
  - intros j a u Hj Ha. apply Hlk in Hj as [u' Hj]. eauto.
  - intros j a u Hj. apply Hlk in Hj as [u' Hj]. eauto.
Qed.
End Wheel.

(** ** The server follows the silence of its connections *)

Section Follows.
Context (write : nat -> nat -> list ascii -> write_result) (limit : nat).
Hypothesis write_bounded : forall i k data n, write i k data = Wrote n -> 0 <= n <= zlen data.
Hypothesis limit_positive : (0 < limit)%nat.

Record EchoInv (m : gmap nat (nat * bool)) (st : EchoServer) : Prop := mkEchoInv {
  ei_ring : Ring limit m (connectionBuckets_ st);
  ei_context : forall i, i ∈ with_context st <-> is_Some (m !! i);
  ei_exists : forall i, is_Some (m !! i) -> exists c, echo_conns st !! i = Some c;
  ei_conns : forall i c, echo_conns st !! i = Some c -> CInv 0 c /\ repr (inputBuffer_ c) [] /\
    TcpConnection.state_ c = match m !! i with Some p => expected_state limit p | None => kConnecting end
}.

(** Connection [i] is replaced, and what is expected of it. *)
Lemma echo_replace m m' st i c bs ctx : EchoInv m st -> is_Some (echo_conns st !! i) ->
  (forall j, j <> i -> m' !! j = m !! j) -> is_Some (m' !! i) ->
  Ring limit m' bs -> ctx = {[i]} ∪ with_context st ->
  CInv 0 c -> repr (inputBuffer_ c) [] ->
  (forall p, m' !! i = Some p -> TcpConnection.state_ c = expected_state limit p) ->
  EchoInv m' (mkEcho (<[i := c]> (echo_conns st)) bs ctx).
Proof.
  intros [H1 H2 H3 H4] [c0 Hc0] Hm Hi Hr -> Hc Hin Hst. pose proof (lookup_lt_Some _ _ _ Hc0) as Hlt. constructor; simpl; [done|..].
  - intros j. rewrite elem_of_union, elem_of_singleton, H2. destruct (decide (j = i)) as [->|]; [naive_solver|]. rewrite Hm by done. naive_solver.
  - intros j Hj. apply lookup_lt_is_Some_2. rewrite length_insert. destruct (decide (j = i)) as [->|]; [done|]. rewrite Hm in Hj by done.
    destruct (H3 j Hj) as [cj Hcj]. by eapply lookup_lt_Some.
  - intros j cj. destruct (decide (j = i)) as [->|Hne].
    + rewrite list_lookup_insert_eq by done. intros [= <-]. split_and!; [done..|]. destruct Hi as [p Hp]. rewrite Hp. auto.
    + rewrite list_lookup_insert_ne by done. intros Hcj. rewrite Hm by done. by apply H4.
Qed.

Lemma echo_accept_inv m st fd : EchoInv m st -> unless too_long (echo_step write st (EAccept fd)) (EchoInv m).
Proof.
  intros [H1 H2 H3 H4]. cbn [echo_step]. destruct new_Buffer_repr as (b & -> & Hb & _). cbn [mbind outcome_bind unless].
  constructor; simpl; [done..| |].
  - intros i Hi. destruct (H3 i Hi) as [c Hc]. exists c. rewrite lookup_app_l; [done|]. by eapply lookup_lt_Some.
  - intros i c Hc. apply lookup_snoc_Some in Hc as [[_ Hc]|[-> <-]]; [by apply H4|].
    split; [apply new_TcpConnection_inv; apply Hb|]. split; [done|].
    destruct (m !! length (echo_conns st)) as [p|] eqn:E; [|done]. destruct (H3 (length (echo_conns st))) as [c Hc]; [by eexists|].
    apply lookup_lt_Some in Hc. lia.
Qed.

Lemma echo_up_inv m st i : EchoInv m st -> echo_permitted limit (m, st) (EUp i) ->
  unless too_long (echo_step write st (EUp i)) (EchoInv (silence_step limit m (EUp i))).
Proof.
  intros Hi (c & Hc & Hst). simpl in Hc. destruct (ei_conns _ _ Hi i c Hc) as (Hci & Hin & _).
  cbn [echo_step silence_step]. unfold echo_tcp, at_index. rewrite Hc.
  pose proof (connectEstablished_inv (write i) silent_user (write_bounded i) (silent_well_behaved _) c Hci Hst) as Hc'.
  destruct (connectEstablished (write i) silent_user c) as [c'|f] eqn:E; [|done].
  assert (Hfr : TcpConnection.state_ c' = kConnected /\ inputBuffer_ c' = inputBuffer_ c).
  { unfold connectEstablished in E. obind. unfold notify in E. simpl in E. by injection E as <-. }
  destruct Hfr as [E1 E2]. cbn [mbind outcome_bind]. unfold echo_onConnection. simpl.
  rewrite list_lookup_insert_eq by (by eapply lookup_lt_Some). rewrite (proj2 (connected_spec c') E1).
  destruct (ring_refresh limit m _ i true (ei_ring _ _ Hi) limit_positive) as (bs & -> & Hr). cbn [mbind outcome_bind unless].
  apply (echo_replace m); try done; [by intros j Hj; rewrite lookup_insert_ne|rewrite lookup_insert_eq; by eexists|by rewrite E2|].
  intros p. rewrite lookup_insert_eq. intros [= <-]. rewrite E1. unfold expected_state. simpl.
  by destruct (Nat.ltb_spec 0 limit); [|lia].
Qed.

Lemma alter_known (f : nat * bool -> nat * bool) i p (m : gmap nat (nat * bool)) : m !! i = Some p -> alter f i m = <[i := f p]> m.
Proof.
  intros Hp. apply map_eq. intros j. rewrite lookup_alter. case_decide as E; [subst j|by rewrite lookup_insert_ne].
  by rewrite lookup_insert_eq, Hp.
Qed.

Lemma send_keeps w data c : (forall k d n, w k d = Wrote n -> 0 <= n <= zlen d) -> CInv 0 c -> zlen data <= max_size ->
  unless too_long (send w data c) (fun c' => CInv 0 c' /\ TcpConnection.state_ c' = TcpConnection.state_ c /\
    inputBuffer_ c' = inputBuffer_ c).
Proof.
  intros Hw Hi Hd. unfold send. destruct (connected c) eqn:E; [|done]. apply connected_spec in E.
  eapply unless_mono; [apply (sendInLoop_started w Hw data c Hi); [by rewrite E|done]|]. intros c' _ (H1 & H2 & H3 & _). done.
Qed.

(** Connection [i] while its readable event is handled: [b] is its input. *)
Lemma echo_message_inv m st i c b seg a t : EchoInv m st -> echo_conns st !! i = Some c -> m !! i = Some (a, true) ->
  repr b seg -> zlen seg < 2 ^ 31 ->
  unless too_long (echo_onMessage write i t (echo_update i (record_call NMessage) (echo_update i (set_input b) st)))
    (EchoInv (silence_step limit m (EData i t seg))).
Proof.
  intros Hi Hc Hm Hb Hseg. destruct (ei_conns _ _ Hi i c Hc) as (Hci & _ & Hst). rewrite Hm in Hst.
  unfold echo_onMessage. simpl. rewrite !list_lookup_alter_eq, Hc. cbn [fmap option_fmap option_map].
  change (inputBuffer_ (record_call NMessage (set_input b c))) with b.
  destruct (retrieveAllAsString_repr b seg Hb) as (b' & -> & Hb'). cbn [mbind outcome_bind].
  destruct (StringPiece.of_string_spec seg Hseg) as (p & -> & _ & Hch). cbn [mbind outcome_bind]. rewrite Hch.
  set (c1 := set_input b' _). assert (Hc1 : CInv 0 c1).
  { apply CInv_input; [apply CInv_record; [done|]; apply CInv_input; [done|apply Hb]|apply Hb']. }
  pose proof (until_nul_le seg) as Hle.
  eapply unless_bind; [apply (send_keeps (write i) _ c1 (write_bounded i) Hc1); unfold max_size; lia|].
  intros c2 _ (H1 & H2 & H3). rewrite bool_decide_true by (apply (ei_context _ _ Hi); by eexists). cbn [assert_ mbind outcome_bind].
  rewrite (ring_alive limit m _ i a true (ei_ring _ _ Hi) Hm), (alter_known _ i _ m Hm). cbn [fst snd].
  assert (Hctx : with_context st = {[i]} ∪ with_context st).
  { apply leibniz_equiv. intros j. assert (i ∈ with_context st) by (apply (ei_context _ _ Hi); by eexists). set_solver. }
  assert (Hdone : forall p bs, Ring limit (<[i := p]> m) bs -> TcpConnection.state_ c = expected_state limit p ->
    EchoInv (<[i := p]> m) (mkEcho (<[i := c2]> (echo_conns st)) bs (with_context st))).
  { intros q bs Hr Hq. rewrite Hctx. apply (echo_replace m); try done; [by intros j Hj; rewrite lookup_insert_ne|
      rewrite lookup_insert_eq; by eexists|rewrite H3; exact Hb'|]. intros q'. rewrite lookup_insert_eq. intros [= <-]. by rewrite H2. }
  destruct (Nat.ltb_spec a limit) as [Hlt|Hge].
  - destruct (ring_refresh limit m _ i true (ei_ring _ _ Hi) limit_positive) as (bs & -> & Hr). cbn [mbind outcome_bind unless].
    rewrite !list_insert_alter. apply Hdone; [done|]. rewrite Hst. unfold expected_state. simpl.
    by destruct (Nat.ltb_spec a limit), (Nat.ltb_spec 0 limit); try lia.
  - cbn [mbind outcome_bind unless]. rewrite !list_insert_alter. apply Hdone; [|done]. rewrite insert_id by done. apply Hi.
Qed.

Lemma echo_data_inv m st i t seg : EchoInv m st -> echo_permitted limit (m, st) (EData i t seg) ->
  unless too_long (echo_step write st (EData i t seg)) (EchoInv (silence_step limit m (EData i t seg))).
Proof.
  intros Hi [[a Hm] Hseg]. simpl in Hm. destruct (ei_exists _ _ Hi i ltac:(by eexists)) as [c Hc].
  destruct (ei_conns _ _ Hi i c Hc) as (Hci & Hin & _). cbn [echo_step]. unfold echo_handleRead, stream_handleRead.
  assert (Hi0 : echo_input i st = inputBuffer_ c) by (unfold echo_input; by rewrite Hc). rewrite Hi0.
  pose proof (iov_room _ _ Hin) as Hroom.
  destruct (readFd_cases _ [] (fun _ => ReadData seg) seg Hin eq_refl ltac:(lia)) as [[-> _]|(b & -> & Hb)]; [done|].
  rewrite (proj2 (Z.ltb_lt 0 _)) by lia. cbn [ended]. unfold sizeof_extrabuf in Hseg.
  apply (echo_message_inv m st i c b seg a t); try done. lia.
Qed.

Lemma echo_hangup_inv m st i t : EchoInv m st -> echo_permitted limit (m, st) (EHangup i t) ->
  unless too_long (echo_step write st (EHangup i t)) (EchoInv (silence_step limit m (EHangup i t))).
Proof.
  intros Hi [a Hm]. simpl in Hm. destruct (ei_exists _ _ Hi i ltac:(by eexists)) as [c Hc].
  destruct (ei_conns _ _ Hi i c Hc) as (Hci & Hin & Hst). rewrite Hm in Hst. cbn [echo_step]. unfold echo_handleRead, stream_handleRead.
  assert (Hi0 : echo_input i st = inputBuffer_ c) by (unfold echo_input; by rewrite Hc). rewrite Hi0.
  pose proof (iov_room _ _ Hin) as Hroom.
  destruct (readFd_cases _ [] (fun _ => ReadData []) [] Hin eq_refl) as [[-> _]|(b & -> & Hb)];
    [unfold sizeof_extrabuf in Hroom; rewrite zlen_nil; lia|done|].
  cbn [zlen length Z.of_nat Z.ltb Z.compare Z.eqb ended]. unfold echo_tcp, at_index. simpl. rewrite list_lookup_alter_eq, Hc.
  cbn [fmap option_fmap option_map]. assert (Hcb : CInv 0 (set_input b c)) by (apply CInv_input; [done|apply Hb]).
  assert (Hl : live (set_input b c)).
  { unfold live. simpl. rewrite Hst. unfold expected_state. simpl. by destruct (a <? limit)%nat; [left|right]. }
  pose proof (handleClose_inv (write i) silent_user (write_bounded i) (silent_well_behaved _) _ Hcb Hl) as Hc'.
  destruct (handleClose (write i) silent_user (set_input b c)) as [c'|f] eqn:E; [|done].
  assert (Hfr : TcpConnection.state_ c' = kDisconnected /\ inputBuffer_ c' = b).
  { unfold handleClose in E. obind. unfold notify in Hr0. simpl in Hr0. by injection Hr0 as <-. }
  destruct Hfr as [E1 E2]. cbn [mbind outcome_bind]. unfold echo_onConnection. simpl.
  pose proof (lookup_lt_Some _ _ _ Hc) as Hlt. rewrite list_lookup_insert_eq by (by rewrite length_alter).
  destruct (connected c') eqn:Ec; [apply connected_spec in Ec; congruence|].
  rewrite bool_decide_true by (apply (ei_context _ _ Hi); by eexists). cbn [assert_ mbind outcome_bind unless].
  assert (Hctx : with_context st = {[i]} ∪ with_context st).
  { apply leibniz_equiv. intros j. assert (i ∈ with_context st) by (apply (ei_context _ _ Hi); by eexists). set_solver. }
  rewrite list_insert_alter, Hctx. apply (echo_replace m); try done.
  - intros j Hj. by rewrite lookup_alter_ne.
  - rewrite lookup_alter_eq, Hm. by eexists.
  - by apply ring_up; [apply Hi|].
  - by rewrite E2.
  - intros p. rewrite lookup_alter_eq, Hm. intros [= <-]. by rewrite E1.
Qed.

Lemma lookup_fold_alter (f : TcpConnection -> TcpConnection) (l : list nat) : NoDup l -> forall (cs : list TcpConnection) j,
  fold_left (fun cs i => alter f i cs) l cs !! j = (if bool_decide (j ∈ l) then f else id) <$> cs !! j.
Proof.
  induction 1 as [|i l Hi _ IH]; intros cs j; cbn [fold_left].
  - rewrite bool_decide_false by set_solver. by destruct (cs !! j).
  - rewrite IH. destruct (decide (j = i)) as [->|Hne].
    + rewrite list_lookup_alter_eq, (bool_decide_false (i ∈ l)), bool_decide_true by (done || left). by destruct (cs !! i).
    + rewrite list_lookup_alter_ne by done. by rewrite (bool_decide_ext (j ∈ i :: l) (j ∈ l)) by set_solver.
Qed.

Lemma echo_tick_inv m st : EchoInv m st -> EchoInv (silence_step limit m ETick) (echo_onTimer st).
Proof.
  intros [H1 H2 H3 H4]. unfold echo_onTimer. pose proof (ring_length _ _ _ H1) as Hlen.
  destruct (connectionBuckets_ st) as [|front bs] eqn:Eb; [simpl in Hlen; lia|].
  destruct (ring_tick limit m front bs H1) as [Hr Hd]. cbn [silence_step].
  set (gone := front ∖ ⋃ (bs ++ [∅])) in *. set (g := fun p => (Nat.min (S p.1) limit, p.2)) in *.
  assert (Hlk : forall j, (g <$> m) !! j = g <$> m !! j) by (intros j; apply lookup_fmap).
  constructor; cbn [connectionBuckets_ with_context echo_conns]; [done|..].
  - intros i. rewrite H2, Hlk. by destruct (m !! i); split; intros [? ?].
  - intros i Hi. rewrite Hlk in Hi. destruct (H3 i) as [c Hc]; [by destruct (m !! i); [eexists|destruct Hi]|].
    rewrite lookup_fold_alter by apply NoDup_elements. rewrite Hc. by eexists.
  - intros i c. rewrite lookup_fold_alter by apply NoDup_elements. destruct (echo_conns st !! i) as [c0|] eqn:Ec; [|done].
    intros E. injection E as <-. rewrite Hlk.
    destruct (H4 i c0 Ec) as (K1 & K2 & K3).
    rewrite (bool_decide_ext _ (i ∈ gone)) by (by rewrite elem_of_elements).
    destruct (m !! i) as [[a u]|] eqn:Em; cycle 1.
    { assert (i ∉ gone). { intros Hg. apply elem_of_difference in Hg as [Hf _]. destruct (ring_old _ _ _ H1 0%nat front i eq_refl Hf) as (? & ? & ? & _).
        congruence. } rewrite bool_decide_false by done. done. }
    specialize (Hd i a u Em). pose proof (ring_bound _ _ _ H1 i a u Em) as Hab. unfold expected_state in *. cbn [fmap option_fmap option_map g fst snd] in *.
    case_bool_decide as Hg.
    + apply Hd in Hg. destruct (shutdown_inv c0 K1) as (L1 & _ & _). destruct (shutdown_frame c0) as (L2 & _ & _ & L3).
      split; [done|]. split; [by rewrite L2|]. destruct (Nat.ltb_spec a limit); [|lia].
      destruct (Nat.ltb_spec (Nat.min (S a) limit) limit); [lia|]. destruct u; [by apply L3|].
      unfold shutdown. destruct (connected c0) eqn:E; [apply connected_spec in E; congruence|done].
    + unfold id. split; [done|]. split; [done|]. rewrite K3. destruct u; [|done].
      assert (S a <> limit) by (intros E; apply Hg; by apply Hd).
      by destruct (Nat.ltb_spec a limit), (Nat.ltb_spec (Nat.min (S a) limit) limit); try lia.
Qed.

Definition echo_both (p : gmap nat (nat * bool) * EchoServer) (l : echo_label) : outcome (gmap nat (nat * bool) * EchoServer) :=
  st ← echo_step write p.2 l; Ok (silence_step limit p.1 l, st).

Lemma echo_both_inv p l : EchoInv p.1 p.2 -> echo_permitted limit p l -> unless too_long (echo_both p l) (fun p' => EchoInv p'.1 p'.2).
Proof.
  destruct p as [m st]. cbn [fst snd]. intros Hi Hp. unfold echo_both. cbn [fst snd].
  eapply unless_bind; [|intros st' _ Hs'; exact Hs'].
  destruct l as [fd|i|i t seg|i t|]; [by apply echo_accept_inv|by apply echo_up_inv|by apply echo_data_inv|by apply echo_hangup_inv|].
  by apply echo_tick_inv.
Qed.

Lemma echo_both_runs labels : forall m st,
  for_each echo_both (m, st) labels =
  st' ← for_each (echo_step write) st labels; Ok (fold_left (silence_step limit) labels m, st').
Proof.
  induction labels as [|l labels IH]; intros m st; cbn [for_each fold_left]; [done|].
  assert (E : echo_both (m, st) l = st' ← echo_step write st l; Ok (silence_step limit m l, st')) by done. rewrite E.
  destruct (echo_step write st l) as [st'|f]; cbn [mbind outcome_bind]; [apply IH|done].
Qed.
End Follows.

Lemma new_EchoServer_inv limit : EchoInv limit ∅ (new_EchoServer limit).
Proof.
  constructor; simpl.
  - constructor; [by rewrite length_replicate|..|intros i a u; by rewrite lookup_empty].
    + intros k b i Hk Hi. apply lookup_replicate in Hk as [-> _]. set_solver.
    + intros i a u. by rewrite lookup_empty.
  - intros i. rewrite lookup_empty. split; [set_solver|by intros [? ?]].
  - intros i. rewrite lookup_empty. by intros [? ?].
  - intros i c Hc. by rewrite lookup_nil in Hc.
Qed.

(** ** Properties *)

(** C18. The timing wheel measures silence exactly: over every history of accepts,
    data, hang-ups and ticks, no assertion fails, and a connection that has come
    up is shut down by the tick at which it has been silent for the configured
    number of ticks, and not before: after the history its state is the one that
    the number of ticks since its last data says (data that arrives after the
    shutdown does not revive it). *)
Theorem idle_wheel_exact (write : nat -> nat -> list ascii -> write_result) (idleSeconds : nat) (labels : list echo_label) :
  (forall i k data n, write i k data = Wrote n -> 0 <= n <= zlen data) -> (0 < idleSeconds)%nat ->
  guarded (echo_both write idleSeconds) (echo_permitted idleSeconds) (∅, new_EchoServer idleSeconds) labels ->
  unless too_long (for_each (echo_step write) (new_EchoServer idleSeconds) labels) (fun st =>
    forall i c, echo_conns st !! i = Some c -> CInv 0 c /\
      TcpConnection.state_ c =
        match fold_left (silence_step idleSeconds) labels ∅ !! i with
        | Some (silent, there) =>
            if there : bool then (if (silent <? idleSeconds)%nat then kConnected else kDisconnecting) else kDisconnected
        | None => kConnecting
        end).
Proof.
  intros Hw Hl Hg.
  pose proof (unless_guarded too_long (echo_both write idleSeconds) (echo_permitted idleSeconds)
    (fun p => EchoInv idleSeconds p.1 p.2) labels (fun p l Hi Hp => echo_both_inv write idleSeconds Hw Hl p l Hi Hp)
    (∅, new_EchoServer idleSeconds) (new_EchoServer_inv idleSeconds) Hg) as H.
  rewrite echo_both_runs in H. destruct (for_each (echo_step write) _ labels) as [st|f]; [|done].
  intros i c Hc. destruct (ei_conns _ _ _ H i c Hc) as (H1 & _ & H2). split; [done|]. rewrite H2. cbn [fst].
  by destruct (fold_left (silence_step idleSeconds) labels ∅ !! i) as [[a u]|].
Qed.

(** With a limit of two ticks: the first connection is refreshed once, the second one
    is silent. *)
Definition sample_echo_history : list echo_label :=
  [EAccept 9; EAccept 10; EUp 0; EUp 1; ETick; EData 0 (mkTimestamp 1) (bytes "hi"); ETick].

Definition echo_after (k : nat) : EchoServer :=
  match for_each (echo_step (fun _ => full_write)) (new_EchoServer 2) (firstn k sample_echo_history) with
  | Ok st => st | Err _ => new_EchoServer 2 end.

Lemma idle_wheel_exact_witness :
  for_each (echo_step (fun _ => full_write)) (new_EchoServer 2) sample_echo_history = Ok (echo_after 7) /\
  map TcpConnection.state_ (echo_conns (echo_after 7)) = [kConnected; kDisconnecting] /\
  unless too_long (for_each (echo_step (fun _ => full_write)) (new_EchoServer 2) sample_echo_history) (fun st =>
    forall i c, echo_conns st !! i = Some c -> CInv 0 c /\
      TcpConnection.state_ c =
        match fold_left (silence_step 2) sample_echo_history ∅ !! i with
        | Some (silent, there) =>
            if there : bool then (if (silent <? 2)%nat then kConnected else kDisconnecting) else kDisconnected
        | None => kConnecting
        end).
Proof.
  do 2 (split; [vm_compute; reflexivity|]).
  apply (idle_wheel_exact (fun _ => full_write) 2 sample_echo_history).
  - intros _. apply full_write_bounded.
  - lia.
  - pose (m := fun k => fold_left (silence_step 2) (firstn k sample_echo_history) (∅ : gmap nat (nat * bool))).
    apply (guarded_step _ _ _ (m 1%nat, echo_after 1)); [exact I|vm_compute; reflexivity|].
    apply (guarded_step _ _ _ (m 2%nat, echo_after 2)); [exact I|vm_compute; reflexivity|].
    apply (guarded_step _ _ _ (m 3%nat, echo_after 3)); [eexists; split; vm_compute; reflexivity|vm_compute; reflexivity|].
    apply (guarded_step _ _ _ (m 4%nat, echo_after 4)); [eexists; split; vm_compute; reflexivity|vm_compute; reflexivity|].
    apply (guarded_step _ _ _ (m 5%nat, echo_after 5)); [exact I|vm_compute; reflexivity|].
    apply (guarded_step _ _ _ (m 6%nat, echo_after 6)); [|vm_compute; reflexivity|].
    { split; [exists 1%nat; vm_compute; reflexivity|]. vm_compute. split; [reflexivity|discriminate]. }
    apply (guarded_step _ _ _ (m 7%nat, echo_after 7)); [exact I|vm_compute; reflexivity|exact I].
Defined.
