(* ===== verification/Connector.v ===== *)
(** * The connector (src/src/Connector.h, src/src/Connector.cpp)

    The active side of a connection: a non-blocking connect(2), a channel that
    waits for the socket to become writable, and retries with exponential
    back-off.  The model keeps every socket ever created, so that leaks and
    double closes are visible: a socket is named by the number of its creation.
    The kernel (the error of connect, SO_ERROR, the self-connection test) is a
    parameter; queued functors and timers are part of the state. *)

From S2P Require Import Prelude Format Timestamp Channel Poller.
Local Open Scope Z_scope.

Inductive States : Type := kDisconnected | kConnecting | kConnected.

#[export] Instance States_eq_dec : EqDecision States.
Proof. solve_decision. Defined.

Definition kMaxRetryDelayMs : Z := 30 * 1000.
Definition kInitRetryDelayMs : Z := 500.

(** errno.h *)
Definition EPERM : Z := 1.
Definition EINTR : Z := 4.
Definition EBADF : Z := 9.
Definition EAGAIN : Z := 11.
Definition EACCES : Z := 13.
Definition EFAULT : Z := 14.
Definition ENOTSOCK : Z := 88.
Definition EAFNOSUPPORT : Z := 97.
Definition EADDRINUSE : Z := 98.
Definition EADDRNOTAVAIL : Z := 99.
Definition ENETUNREACH : Z := 101.
Definition EISCONN : Z := 106.
Definition ECONNREFUSED : Z := 111.
Definition EALREADY : Z := 114.
Definition EINPROGRESS : Z := 115.

Inductive functor : Type := FStart | FStop | FReset.

#[export] Instance functor_eq_dec : EqDecision functor.
Proof. solve_decision. Defined.

(** What the poller knows of the current channel: watched with a mask, or
    disabled and removed, waiting to be destroyed. *)
Inductive registration_state : Type := Watched (mask : Z) | Removed.

Record Connector : Type := mkConnector {
  connect_ : bool;
  state_ : States;
  channel_ : option (nat * registration_state);
  retryDelayMs_ : Z;
  queue : list functor;
  timers : list Z;            (** the delays of the pending [startInLoop] timers *)
  created : nat;              (** sockets created so far *)
  closed : list nat;          (** sockets closed, in order *)
  delivered : list nat        (** sockets given to [newConnectionCallback_] *)
}.

Definition new_Connector : Connector := mkConnector false kDisconnected None kInitRetryDelayMs [] [] 0 [] [].

Definition setState (s : States) (c : Connector) : Connector :=
  mkConnector (connect_ c) s (channel_ c) (retryDelayMs_ c) (queue c) (timers c) (created c) (closed c) (delivered c).
Definition set_connect (b : bool) (c : Connector) : Connector :=
  mkConnector b (state_ c) (channel_ c) (retryDelayMs_ c) (queue c) (timers c) (created c) (closed c) (delivered c).
Definition set_channel (ch : option (nat * registration_state)) (c : Connector) : Connector :=
  mkConnector (connect_ c) (state_ c) ch (retryDelayMs_ c) (queue c) (timers c) (created c) (closed c) (delivered c).
Definition set_delay (d : Z) (ts : list Z) (c : Connector) : Connector :=
  mkConnector (connect_ c) (state_ c) (channel_ c) d (queue c) ts (created c) (closed c) (delivered c).
Definition set_queue (q : list functor) (c : Connector) : Connector :=
  mkConnector (connect_ c) (state_ c) (channel_ c) (retryDelayMs_ c) q (timers c) (created c) (closed c) (delivered c).
Definition close_socket (n : nat) (c : Connector) : Connector :=
  mkConnector (connect_ c) (state_ c) (channel_ c) (retryDelayMs_ c) (queue c) (timers c) (created c)
    (closed c ++ [n]) (delivered c).
Definition deliver (n : nat) (c : Connector) : Connector :=
  mkConnector (connect_ c) (state_ c) (channel_ c) (retryDelayMs_ c) (queue c) (timers c) (created c)
    (closed c) (delivered c ++ [n]).

(** [sockets::createNonblockingOrDie]. *)
Definition create_socket (c : Connector) : nat * Connector :=
  (created c,
   mkConnector (connect_ c) (state_ c) (channel_ c) (retryDelayMs_ c) (queue c) (timers c) (S (created c))
     (closed c) (delivered c)).

(** ** The operations *)

(** The timer's delay is recorded in milliseconds; the code passes seconds. *)
Definition retry (sockfd : nat) (c : Connector) : Connector :=
  let c := setState kDisconnected (close_socket sockfd c) in
  if connect_ c then
    set_delay (Z.min (i32 (retryDelayMs_ c * 2)) kMaxRetryDelayMs) (timers c ++ [retryDelayMs_ c]) c
  else c.

Definition connecting (sockfd : nat) (c : Connector) : outcome Connector :=
  let c := setState kConnecting c in
  assert_ (bool_decide (channel_ c = None));;
  Ok (set_channel (Some (sockfd, Watched kWriteEvent)) c).

Definition removeAndResetChannel (c : Connector) : outcome (nat * Connector) :=
  match channel_ c with
  | None => Err UseAfterFree
  | Some (sockfd, r) =>
      (* [disableAll] and [remove]: allowed by the poller on a watched channel *)
      assert_ (match r with Watched _ => true | _ => false end);;
      Ok (sockfd, set_queue (queue c ++ [FReset]) (set_channel (Some (sockfd, Removed)) c))
  end.

(** [resetChannel] destroys the channel, which must not be registered. *)
Definition resetChannel (c : Connector) : outcome Connector :=
  assert_ (match channel_ c with Some (_, Watched _) => false | _ => true end);;
  Ok (set_channel None c).

Inductive connect_class : Type := CProgress | CRetry | CFail.

(** The [switch] of [connect]. *)
Definition classify (savedErrno : Z) : connect_class :=
  if bool_decide (savedErrno ∈ [0; EINPROGRESS; EINTR; EISCONN]) then CProgress
  else if bool_decide (savedErrno ∈ [EAGAIN; EADDRINUSE; EADDRNOTAVAIL; ECONNREFUSED; ENETUNREACH]) then CRetry
  else CFail.

Section Connector.
(** The kernel: the errno of the connect(2) of a socket (0 for success), its
    SO_ERROR when it is writable, and whether it is connected to itself. *)
Context (connect_errno so_error : nat -> Z) (self_connect : nat -> bool).

Definition connect (c : Connector) : outcome Connector :=
  let '(sockfd, c) := create_socket c in
  match classify (connect_errno sockfd) with
  | CProgress => connecting sockfd c
  | CRetry => Ok (retry sockfd c)
  | CFail => Ok (close_socket sockfd c)
  end.

Definition startInLoop (c : Connector) : outcome Connector :=
  assert_ (bool_decide (state_ c = kDisconnected));;
  if connect_ c then connect c else Ok c.

Definition start (c : Connector) : outcome Connector := startInLoop (set_connect true c).
Definition start_foreign (c : Connector) : Connector :=
  let c := set_connect true c in set_queue (queue c ++ [FStart]) c.

Definition stop (c : Connector) : Connector :=
  let c := set_connect false c in set_queue (queue c ++ [FStop]) c.

Definition stopInLoop (c : Connector) : outcome Connector :=
  if bool_decide (state_ c = kConnecting) then
    '(sockfd, c) ← removeAndResetChannel (setState kDisconnected c);
    Ok (retry sockfd c)
  else Ok c.

Definition restart (c : Connector) : outcome Connector :=
  let c := setState kDisconnected c in
  let c := set_delay kInitRetryDelayMs (timers c) c in
  startInLoop (set_connect true c).

Definition handleWrite (c : Connector) : outcome Connector :=
  if bool_decide (state_ c = kConnecting) then
    '(sockfd, c) ← removeAndResetChannel c;
    if negb (so_error sockfd =? 0) then Ok (retry sockfd c)
    else if self_connect sockfd then Ok (retry sockfd c)
    else
      let c := setState kConnected c in
      Ok (if connect_ c then deliver sockfd c else close_socket sockfd c)
  else
    assert_ (bool_decide (state_ c = kDisconnected));;
    Ok c.

Definition handleError (c : Connector) : outcome Connector :=
  if bool_decide (state_ c = kConnecting) then
    '(sockfd, c) ← removeAndResetChannel c;
    Ok (retry sockfd c)
  else Ok c.

(** The channel has no read and no close callback. *)
Definition run_callback (c : Connector) (k : callback) : outcome Connector :=
  match k with
  | writeCallback => handleWrite c
  | errorCallback => handleError c
  | _ => Ok c
  end.

(** The destructor. *)
Definition delete_Connector (c : Connector) : outcome unit := assert_ (bool_decide (channel_ c = None)).

(** ** Histories *)

Inductive label : Type :=
| LStart | LForeignStart | LStop | LRestart
| LEvent (mask : Z)
| LFunctor
| LTimer.

Definition step (c : Connector) (l : label) : outcome Connector :=
  match l with
  | LStart => start c
  | LForeignStart => Ok (start_foreign c)
  | LStop => Ok (stop c)
  | LRestart => restart c
  | LEvent mask => for_each run_callback c (selected mask)
  | LFunctor =>
      match queue c with
      | [] => Ok c
      | FStart :: q => startInLoop (set_queue q c)
      | FStop :: q => stopInLoop (set_queue q c)
      | FReset :: q => resetChannel (set_queue q c)
      end
  | LTimer =>
      match timers c with
      | [] => Ok c
      | _ :: ts => startInLoop (set_delay (retryDelayMs_ c) ts c)
      end
  end.

(** No attempt is under way and the last channel has been reset. *)
Definition at_rest (c : Connector) : Prop := state_ c = kDisconnected /\ channel_ c = None.

(** The use the code expects: an attempt is started only at rest, restarted
    only once connected, and events come only for a watched channel. *)
Definition permitted (c : Connector) (l : label) : Prop :=
  match l with
  | LStart => at_rest c
  | LForeignStart | LStop => True
  | LRestart => state_ c = kConnected /\ channel_ c = None
  | LEvent mask => exists n m, channel_ c = Some (n, Watched m)
  | LFunctor => head (queue c) = Some FStart -> at_rest c
  | LTimer => timers c <> [] -> at_rest c
  end.

(** ** The invariant *)

Definition resets (c : Connector) : nat := length (List.filter (fun f => bool_decide (f = FReset)) (queue c)).

(** The socket whose connection is in progress. *)
Definition in_progress (c : Connector) : list nat :=
  match state_ c, channel_ c with kConnecting, Some (n, _) => [n] | _, _ => [] end.

Record CoInv (c : Connector) : Prop := mkCoInv {
  co_channel : match state_ c with
    | kConnecting => exists n, channel_ c = Some (n, Watched kWriteEvent) /\ resets c = 0%nat
    | _ => (channel_ c = None /\ resets c = 0%nat) \/
           (exists n, channel_ c = Some (n, Removed) /\ resets c = 1%nat)
    end;
  co_sockets : closed c ++ delivered c ++ in_progress c ≡ₚ seq 0 (created c);
  co_delay : kInitRetryDelayMs <= retryDelayMs_ c <= kMaxRetryDelayMs
}.
(** No connection attempt is under way. *)
Definition quiet (c : Connector) : Prop :=
  (channel_ c = None /\ resets c = 0%nat) \/ (exists n, channel_ c = Some (n, Removed) /\ resets c = 1%nat).

Lemma retry_delay d : kInitRetryDelayMs <= d <= kMaxRetryDelayMs ->
  kInitRetryDelayMs <= Z.min (i32 (d * 2)) kMaxRetryDelayMs <= kMaxRetryDelayMs /\
  Z.min (i32 (d * 2)) kMaxRetryDelayMs = Z.min (d * 2) kMaxRetryDelayMs.
Proof.
  unfold kInitRetryDelayMs, kMaxRetryDelayMs. intros H. unfold i32.
  rewrite swrap_small by (unfold in_s; lia). lia.
Qed.

Lemma retry_inv n c :
  quiet c -> closed c ++ delivered c ++ [n] ≡ₚ seq 0 (created c) ->
  kInitRetryDelayMs <= retryDelayMs_ c <= kMaxRetryDelayMs -> CoInv (retry n c) /\ state_ (retry n c) = kDisconnected.
Proof.
  intros Hq Hs Hd. destruct (retry_delay _ Hd) as [Hd' _].
  assert (Hs' : (closed c ++ [n]) ++ delivered c ++ [] ≡ₚ seq 0 (created c))
    by (rewrite <- Hs, app_nil_r; solve_Permutation).
  unfold retry. cbn [connect_ setState close_socket]. destruct (connect_ c); (split; [|done]); by constructor.
Qed.

(** The end of an attempt: the channel is removed and the socket is free. *)
Lemma remove_ok c n :
  CoInv c -> channel_ c = Some (n, Watched kWriteEvent) -> state_ c = kConnecting ->
  exists c', removeAndResetChannel c = Ok (n, c') /\ quiet c' /\
    closed c' ++ delivered c' ++ [n] ≡ₚ seq 0 (created c') /\
    kInitRetryDelayMs <= retryDelayMs_ c' <= kMaxRetryDelayMs /\ connect_ c' = connect_ c /\
    closed c' = closed c /\ delivered c' = delivered c.
Proof.
  intros [Hch Hs Hd] Hc Hst. rewrite Hst in Hch. destruct Hch as (n' & Hc' & Hr).
  unfold removeAndResetChannel. rewrite Hc. simpl. eexists; split; [done|].
  split; [right; exists n; split; [done|]|].
  - unfold resets in *. simpl. rewrite List.filter_app, length_app. simpl. lia.
  - simpl. split_and!; try done; try lia. unfold in_progress in Hs. by rewrite Hst, Hc in Hs.
Qed.

Lemma stop_attempt c n s :
  CoInv c -> channel_ c = Some (n, Watched kWriteEvent) -> state_ c = kConnecting ->
  exists c', ('(sockfd, c) ← removeAndResetChannel (setState s c); Ok (retry sockfd c)) = Ok c' /\
    CoInv c' /\ state_ c' = kDisconnected.
Proof.
  intros Hi Hc Hst. destruct (remove_ok c n Hi Hc Hst) as (c' & E & Hq & Hs & Hd & _).
  assert (E' : removeAndResetChannel (setState s c) = Ok (n, setState s c')).
  { unfold removeAndResetChannel in *. simpl. rewrite Hc in *. simpl in *. by simplify_eq. }
  rewrite E'. cbn [mbind outcome_bind]. eexists; split; [done|]. by apply retry_inv.
Qed.

Lemma connecting_state c : CoInv c -> state_ c = kConnecting -> exists n, channel_ c = Some (n, Watched kWriteEvent).
Proof. intros [Hch _ _] Hst. rewrite Hst in Hch. destruct Hch as (n & ? & _). eauto. Qed.

Lemma CoInv_quiet c : CoInv c -> state_ c <> kConnecting -> quiet c.
Proof. intros [Hch _ _] Hst. by destruct (state_ c). Qed.

Lemma handleError_inv c :
  CoInv c -> state_ c = kConnecting ->
  exists c', handleError c = Ok c' /\ CoInv c' /\ state_ c' = kDisconnected.
Proof.
  intros Hi Hst. unfold handleError. rewrite bool_decide_true by done.
  destruct (connecting_state c Hi Hst) as [n Hn].
  destruct (stop_attempt c n kConnecting Hi Hn Hst) as (c' & E & Hi' & Hs').
  replace (setState kConnecting c) with c in E by (destruct c; simpl in *; by subst).
  exists c'. done.
Qed.

Lemma connector_handleWrite_inv c : CoInv c -> state_ c <> kConnected -> exists c', handleWrite c = Ok c' /\ CoInv c'.
Proof.
  intros Hi Hnc. unfold handleWrite. case_bool_decide as Hst.
  - destruct (connecting_state c Hi Hst) as [n Hn].
    destruct (remove_ok c n Hi Hn Hst) as (c' & -> & Hq & Hs & Hd & Hcon & _). cbn [mbind outcome_bind].
    assert (Hretry : CoInv (retry n c')) by by apply retry_inv.
    destruct (negb (so_error n =? 0)); [by eexists|]. destruct (self_connect n); [by eexists|].
    eexists; split; [done|]. cbn [connect_ setState]. destruct (connect_ c').
    + constructor; [done| |done]. simpl. by rewrite app_nil_r.
    + constructor; [done| |done]. simpl. rewrite <- Hs, app_nil_r. solve_Permutation.
  - rewrite bool_decide_true by (by destruct (state_ c)). by exists c.
Qed.

Lemma startInLoop_inv c : CoInv c -> at_rest c -> exists c', startInLoop c = Ok c' /\ CoInv c'.
Proof.
  intros Hi [Hst Hch]. unfold startInLoop. rewrite bool_decide_true by done. cbn [assert_ mbind outcome_bind].
  destruct (connect_ c); [|by exists c]. unfold connect.
  cbn [create_socket]. set (c1 := mkConnector _ _ _ _ _ _ _ _ _).
  destruct Hi as [Hco Hs Hd]. unfold in_progress in Hs. rewrite Hst, Hch in *.
  assert (Hres : resets c = 0%nat) by (destruct Hco as [[_ ?]|(? & ? & _)]; done).
  assert (Hs1 : closed c1 ++ delivered c1 ++ [created c] ≡ₚ seq 0 (created c1)).
  { unfold c1. simpl created. rewrite seq_S, <- Hs. simpl. rewrite app_nil_r. solve_Permutation. }
  destruct (classify (connect_errno (created c))).
  - unfold connecting. simpl. rewrite bool_decide_true by done. simpl. eexists; split; [done|].
    constructor; [by exists (created c)| |done]. exact Hs1.
  - eexists; split; [done|]. apply retry_inv; [by left|done|done].
  - eexists; split; [done|]. constructor; simpl; [rewrite Hst; by left| |done].
    transitivity (closed c1 ++ delivered c1 ++ [created c]); [|exact Hs1].
    unfold in_progress. simpl. rewrite Hst, app_nil_r. solve_Permutation.
Qed.

Lemma CoInv_queue c q d :
  CoInv c -> length (List.filter (fun f => bool_decide (f = FReset)) q) = resets c ->
  kInitRetryDelayMs <= d <= kMaxRetryDelayMs -> forall b ts,
  CoInv (mkConnector b (state_ c) (channel_ c) d q ts (created c) (closed c) (delivered c)).
Proof.
  intros [Hch Hs Hd] Hq Hd' b ts. constructor; simpl; [|done|done].
  unfold resets in *. simpl. rewrite Hq. exact Hch.
Qed.

Lemma connector_event_inv c mask :
  CoInv c -> (exists n m, channel_ c = Some (n, Watched m)) ->
  exists c', for_each run_callback c (selected mask) = Ok c' /\ CoInv c'.
Proof.
  intros Hi (n & m & Hch). assert (Hst : state_ c = kConnecting).
  { destruct Hi as [Hco _ _]. destruct (state_ c); [|done|];
      destruct Hco as [[? _]|(? & ? & _)]; congruence. }
  unfold selected. rewrite !for_each_app.
  assert (Hskip : forall c0 k (b : bool), k = closeCallback \/ k = readCallback ->
    for_each run_callback c0 (if b then [k] else []) = Ok c0)
    by (intros c0 k [] [-> | ->]; done).
  rewrite Hskip by auto. cbn [mbind outcome_bind]. rewrite for_each_app.
  assert (Hw : forall c0 (b : bool), CoInv c0 -> state_ c0 <> kConnected -> exists c',
    for_each run_callback c0 (if b then [writeCallback] else []) = Ok c' /\ CoInv c').
  { intros c0 [] Hi0 Hn0; [|by exists c0]. simpl.
    destruct (connector_handleWrite_inv c0 Hi0 Hn0) as (c' & -> & Hi'). by exists c'. }
  destruct (has mask (Z.lor POLLERR POLLNVAL)); cbn [for_each mbind outcome_bind run_callback].
  - destruct (handleError_inv c Hi Hst) as (c1 & -> & Hi1 & Hs1). cbn [mbind outcome_bind].
    rewrite for_each_app, Hskip by auto. cbn [mbind outcome_bind]. apply Hw; [done|by rewrite Hs1].
  - rewrite for_each_app, Hskip by auto. cbn [mbind outcome_bind]. apply Hw; [done|by rewrite Hst].
Qed.

Lemma step_inv c l : CoInv c -> permitted c l -> exists c', step c l = Ok c' /\ CoInv c'.
Proof.
  intros Hi Hp. pose proof (co_delay _ Hi) as Hd.
  destruct l as [| | | |mask| |]; cbn [step].
  - unfold start. apply startInLoop_inv; [|done]. by apply (CoInv_queue c).
  - eexists; split; [done|]. apply (CoInv_queue c); [done| |done]. simpl.
    rewrite List.filter_app, length_app. simpl. unfold resets. lia.
  - eexists; split; [done|]. apply (CoInv_queue c); [done| |done]. simpl.
    rewrite List.filter_app, length_app. simpl. unfold resets. lia.
  - destruct Hp as [Hst Hch]. unfold restart. apply startInLoop_inv; [|done].
    destruct Hi as [Hco Hs _]. rewrite Hst in Hco. constructor; simpl; [done| |].
    + unfold in_progress in *. by rewrite Hst in Hs.
    + unfold kInitRetryDelayMs, kMaxRetryDelayMs. lia.
  - by apply connector_event_inv.
  - destruct (queue c) as [|[] q] eqn:Eq; [by exists c| | |].
    + simpl in Hp. rewrite Eq in Hp. apply startInLoop_inv; [|exact (Hp eq_refl)].
      apply (CoInv_queue c); [done|unfold resets; by rewrite Eq|done].
    + assert (Hi' : CoInv (set_queue q c)) by (apply (CoInv_queue c); [done|unfold resets; by rewrite Eq|done]).
      unfold stopInLoop. case_bool_decide as Hst; [|by eexists].
      destruct (connecting_state _ Hi' Hst) as [n Hn].
      destruct (stop_attempt _ n kDisconnected Hi' Hn Hst) as (c' & E & Hc' & _). by exists c'.
    + assert (Hr : resets c = S (length (List.filter (fun f => bool_decide (f = FReset)) q)))
        by (unfold resets; by rewrite Eq).
      assert (Hst : state_ c <> kConnecting).
      { intros E. destruct Hi as [Hco _ _]. rewrite E in Hco. destruct Hco as (n & _ & H0). lia. }
      destruct (CoInv_quiet c Hi Hst) as [[_ H0]|(n & Hch & H1)]; [lia|].
      unfold resetChannel. simpl. rewrite Hch. simpl. eexists; split; [done|].
      destruct Hi as [Hco Hs _]. constructor; simpl; [| |done].
      * unfold resets. simpl. assert (length (List.filter (fun f => bool_decide (f = FReset)) q) = 0%nat) by lia.
        destruct (state_ c); [by left|done|by left].
      * unfold in_progress in *. simpl. by destruct (state_ c).
  - destruct (timers c) as [|t ts] eqn:Et; [by exists c|]. simpl in Hp. rewrite Et in Hp.
    apply startInLoop_inv; [|by apply Hp].
    by apply (CoInv_queue c).
Qed.

Lemma connector_life ls c :
  CoInv c -> guarded step permitted c ls -> exists c', for_each step c ls = Ok c' /\ CoInv c'.
Proof.
  revert c. induction ls as [|l ls IH]; intros c Hi Hg; simpl; [by exists c|]. destruct Hg as [Hl Hg].
  destruct (step_inv c l Hi Hl) as (c1 & E1 & Hi1). rewrite E1. simpl. apply IH; auto.
Qed.

Lemma new_Connector_inv : CoInv new_Connector.
Proof.
  constructor; simpl; [by left|done|]. unfold kInitRetryDelayMs, kMaxRetryDelayMs. lia.
Qed.

(** ** Back-off *)

(** The delay before the [k]-th retry in a row. *)
Definition backoff (k : nat) : Z := Z.min (kInitRetryDelayMs * 2 ^ Z.of_nat k) kMaxRetryDelayMs.

Lemma backoff_S k : Z.min (backoff k * 2) kMaxRetryDelayMs = backoff (S k).
Proof.
  unfold backoff. rewrite Nat2Z.inj_succ, Z.pow_succ_r by lia. unfold kInitRetryDelayMs, kMaxRetryDelayMs. lia.
Qed.

Lemma backoff_range k : kInitRetryDelayMs <= backoff k <= kMaxRetryDelayMs.
Proof.
  unfold backoff, kInitRetryDelayMs, kMaxRetryDelayMs.
  pose proof (Z.pow_pos_nonneg 2 (Z.of_nat k) ltac:(lia) ltac:(lia)). lia.
Qed.

Lemma retries_backoff ns : forall k c,
  connect_ c = true -> retryDelayMs_ c = backoff k ->
  let c' := foldl (fun c n => retry n c) c ns in
  timers c' = timers c ++ map backoff (seq k (length ns)) /\ retryDelayMs_ c' = backoff (k + length ns) /\
  connect_ c' = true.
Proof.
  induction ns as [|n ns IH]; intros k c Hc Hd; simpl.
  - rewrite app_nil_r, Nat.add_0_r. done.
  - destruct (retry_delay (backoff k) (backoff_range k)) as [_ E].
    destruct (IH (S k) (retry n c)) as (H1 & H2 & H3).
    + unfold retry. cbn [connect_ setState close_socket]. by rewrite Hc.
    + unfold retry. cbn [connect_ setState close_socket]. rewrite Hc. simpl. by rewrite Hd, E, backoff_S.
    + rewrite H1, H2, H3. unfold retry. cbn [connect_ setState close_socket]. rewrite Hc. simpl.
      rewrite Hd, <- app_assoc. split; [done|]. split; [|done]. f_equal. lia.
Qed.

End Connector.

(** ** Properties *)

(** The first connection is refused, the second succeeds. *)
Definition sample_errno (n : nat) : Z := match n with O => ECONNREFUSED | _ => EINPROGRESS end.
Definition sample_history : list label := [LStart; LTimer; LEvent POLLOUT; LFunctor].

Lemma sample_guarded : guarded (step sample_errno (fun _ => 0) (fun _ => false)) permitted new_Connector sample_history.
Proof.
  split; [done|]. intros c1 H1. vm_compute in H1. injection H1 as <-.
  split; [done|]. intros c2 H2. vm_compute in H2. injection H2 as <-.
  split; [by eexists _, _|]. intros c3 H3. vm_compute in H3. injection H3 as <-.
  split; [|done]. intros H. discriminate H.
Qed.



(** Back-off: while connecting is wanted, the delays of consecutive retries
    double from 500 ms and stay at 30 s, without overflow. *)
Theorem retry_backoff (ns : list nat) (c : Connector) :
  connect_ c = true -> retryDelayMs_ c = kInitRetryDelayMs ->
  timers (foldl (fun c n => retry n c) c ns) = timers c ++ map backoff (seq 0 (length ns)) /\
  Forall (fun d => 500 <= d <= 30000) (map backoff (seq 0 (length ns))).
Proof.
  intros Hc Hd. destruct (retries_backoff ns 0 c Hc) as (H1 & _ & _); [done|]. split; [done|].
  apply Forall_forall. intros d Hin. apply list_elem_of_In, in_map_iff in Hin as (k & <- & _).
  apply (backoff_range k).
Qed.

Lemma retry_backoff_witness :
  timers (foldl (fun c n => retry n c) (set_connect true new_Connector) (seq 0 8)) =
    [500; 1000; 2000; 4000; 8000; 16000; 30000; 30000].
Proof.
  rewrite (proj1 (retry_backoff (seq 0 8) (set_connect true new_Connector) eq_refl eq_refl)). reflexivity.
Defined.
