(* ===== verification/Http.v ===== *)
(** * HTTP (src/src/HttpRequest.h, HttpContext.h/.cpp, HttpResponse.h/.cpp, HttpServer.h/.cpp)

    The request parser is an incremental state machine over the input buffer
    of a connection.  The model follows the code on the buffer; a pure parser
    over byte strings is its specification, and the properties (independence
    of segmentation, round trip) are proved of it. *)

From S2P Require Import Prelude Endian StringPiece Buffer Lines Format Timestamp.
Local Open Scope Z_scope.

(** ** Ordered maps from strings to strings ([std::map]) *)

Abbreviation smap := (list (text * text)).

Fixpoint smap_insert (k v : text) (m : smap) : smap :=
  match m with
  | [] => [(k, v)]
  | (k', v') :: m' =>
      match StringPiece.lex k k' with
      | Eq => (k, v) :: m'
      | Lt => (k, v) :: m
      | Gt => (k', v') :: smap_insert k v m'
      end
  end.

Fixpoint smap_find (k : text) (m : smap) : option text :=
  match m with
  | [] => None
  | (k', v') :: m' => if decide (k = k') then Some v' else smap_find k m'
  end.

(** ** HttpRequest *)

Inductive Method : Type := kInvalid | kGet | kPost | kHead | kPut | kDelete.
Inductive Version : Type := kUnknown | kHttp10 | kHttp11.

#[export] Instance Method_eq_dec : EqDecision Method.
Proof. solve_decision. Defined.
#[export] Instance Version_eq_dec : EqDecision Version.
Proof. solve_decision. Defined.

Record HttpRequest : Type := mkRequest {
  method_ : Method;
  version_ : Version;
  path_ : text;
  query_ : text;
  receiveTime_ : Timestamp;
  headers_ : smap
}.

Definition new_HttpRequest : HttpRequest := mkRequest kInvalid kUnknown [] [] invalid [].

Definition setVersion (v : Version) (r : HttpRequest) : HttpRequest :=
  mkRequest (method_ r) v (path_ r) (query_ r) (receiveTime_ r) (headers_ r).

Definition parse_method (m : text) : Method :=
  if decide (m = bytes "GET") then kGet
  else if decide (m = bytes "POST") then kPost
  else if decide (m = bytes "HEAD") then kHead
  else if decide (m = bytes "PUT") then kPut
  else if decide (m = bytes "DELETE") then kDelete
  else kInvalid.

Definition setMethod (m : text) (r : HttpRequest) : outcome (bool * HttpRequest) :=
  assert_ (bool_decide (method_ r = kInvalid));;
  let r := mkRequest (parse_method m) (version_ r) (path_ r) (query_ r) (receiveTime_ r) (headers_ r) in
  Ok (negb (bool_decide (method_ r = kInvalid)), r).

Definition methodString (r : HttpRequest) : text :=
  match method_ r with
  | kGet => bytes "GET"
  | kPost => bytes "POST"
  | kHead => bytes "HEAD"
  | kPut => bytes "PUT"
  | kDelete => bytes "DELETE"
  | kInvalid => bytes "UNKNOWN"
  end.

Definition setPath (p : text) (r : HttpRequest) : HttpRequest :=
  mkRequest (method_ r) (version_ r) p (query_ r) (receiveTime_ r) (headers_ r).
Definition setQuery (q : text) (r : HttpRequest) : HttpRequest :=
  mkRequest (method_ r) (version_ r) (path_ r) q (receiveTime_ r) (headers_ r).
Definition setReceiveTime (t : Timestamp) (r : HttpRequest) : HttpRequest :=
  mkRequest (method_ r) (version_ r) (path_ r) (query_ r) t (headers_ r).

Fixpoint drop_spaces (s : text) : text :=
  match s with
  | [] => []
  | c :: s' => if isspace c then drop_spaces s' else s
  end.

Definition drop_trailing_spaces (s : text) : text := rev (drop_spaces (rev s)).

(** [addHeader(start, colon, end)]: the text before the colon and after it. *)
Definition addHeader (field after : text) (r : HttpRequest) : HttpRequest :=
  mkRequest (method_ r) (version_ r) (path_ r) (query_ r) (receiveTime_ r)
    (smap_insert field (drop_trailing_spaces (drop_spaces after)) (headers_ r)).

Definition getHeader (field : text) (r : HttpRequest) : text :=
  match smap_find field (headers_ r) with Some v => v | None => [] end.

(** ** HttpContext *)

Inductive HttpRequestParseState : Type := kExpectRequestLine | kExpectHeaders | kExpectBody | kGotAll.

#[export] Instance HttpRequestParseState_eq_dec : EqDecision HttpRequestParseState.
Proof. solve_decision. Defined.

Record HttpContext : Type := mkContext { state_ : HttpRequestParseState; request_ : HttpRequest }.

Definition new_HttpContext : HttpContext := mkContext kExpectRequestLine new_HttpRequest.
Definition gotAll (c : HttpContext) : bool := bool_decide (state_ c = kGotAll).
Definition reset (c : HttpContext) : HttpContext := new_HttpContext.

Definition COLON : ascii := ":".
Definition QUESTION : ascii := "?".

(** The version at the end of the request line. *)
Definition parse_version (v : text) : option Version :=
  if (zlen v =? 8) && bool_decide (ztake 7 v = bytes "HTTP/1.") then
    match zdrop 7 v with
    | ["1"%char] => Some kHttp11
    | ["0"%char] => Some kHttp10
    | _ => None
    end
  else None.

Definition processRequestLine (line : text) (r : HttpRequest) : outcome (bool * HttpRequest) :=
  match find_char SP line with
  | None => Ok (false, r)
  | Some (m, rest) =>
      '(known, r) ← setMethod m r;
      if (known : bool) then
        match find_char SP rest with
        | None => Ok (false, r)
        | Some (target, v) =>
            let r := match find_char QUESTION target with
                     | Some (path, q) => setQuery (QUESTION :: q) (setPath path r)
                     | None => setPath target r
                     end in
            match parse_version v with
            | Some ver => Ok (true, setVersion ver r)
            | None => Ok (false, r)
            end
        end
      else Ok (false, r)
  end.

(** What one pass of the loop of [parseRequest] leads to. *)
Inductive pass : Type :=
| More (c : HttpContext) (b : Buffer)              (** another pass *)
| Done (ok : bool) (c : HttpContext) (b : Buffer). (** [hasMore] is false *)

Definition one_pass (now : Timestamp) (c : HttpContext) (b : Buffer) : outcome pass :=
  match state_ c with
  | kExpectRequestLine =>
      match findCRLF b with
      | None => Ok (Done true c b)
      | Some crlf =>
          '(ok, r) ← processRequestLine (range b (peek b) crlf) (request_ c);
          if (ok : bool) then
            b ← retrieveUntil b (crlf + 2);
            Ok (More (mkContext kExpectHeaders (setReceiveTime now r)) b)
          else Ok (Done false (mkContext (state_ c) r) b)
      end
  | kExpectHeaders =>
      match findCRLF b with
      | None => Ok (Done true c b)
      | Some crlf =>
          match find_char COLON (range b (peek b) crlf) with
          | Some (field, after) =>
              b ← retrieveUntil b (crlf + 2);
              Ok (More (mkContext kExpectHeaders (addHeader field after (request_ c))) b)
          | None =>
              b ← retrieveUntil b (crlf + 2);
              Ok (Done true (mkContext kGotAll (request_ c)) b)
          end
      end
  | kExpectBody | kGotAll => Ok (More c b)
  end.

(** [parseRequest], with fuel for its loop: [None] when the fuel runs out. *)
Fixpoint parseRequest (fuel : nat) (now : Timestamp) (c : HttpContext) (b : Buffer)
  : option (outcome (bool * HttpContext * Buffer)) :=
  match fuel with
  | O => None
  | S fuel' =>
      match one_pass now c b with
      | Err f => Some (Err f)
      | Ok (Done ok c b) => Some (Ok (ok, c, b))
      | Ok (More c b) => parseRequest fuel' now c b
      end
  end.

(** ** The specification: a parser over byte strings *)

Inductive spass : Type :=
| SMore (c : HttpContext) (s : text)
| SDone (ok : bool) (c : HttpContext) (s : text).

Definition spec_pass (now : Timestamp) (c : HttpContext) (s : text) : outcome spass :=
  match state_ c with
  | kExpectRequestLine =>
      match break_crlf s with
      | None => Ok (SDone true c s)
      | Some (line, rest) =>
          '(ok, r) ← processRequestLine line (request_ c);
          if (ok : bool) then Ok (SMore (mkContext kExpectHeaders (setReceiveTime now r)) rest)
          else Ok (SDone false (mkContext (state_ c) r) s)
      end
  | kExpectHeaders =>
      match break_crlf s with
      | None => Ok (SDone true c s)
      | Some (line, rest) =>
          match find_char COLON line with
          | Some (field, after) => Ok (SMore (mkContext kExpectHeaders (addHeader field after (request_ c))) rest)
          | None => Ok (SDone true (mkContext kGotAll (request_ c)) rest)
          end
      end
  | kExpectBody | kGotAll => Ok (SMore c s)
  end.

Fixpoint spec_parse (fuel : nat) (now : Timestamp) (c : HttpContext) (s : text)
  : option (outcome (bool * HttpContext * text)) :=
  match fuel with
  | O => None
  | S fuel' =>
      match spec_pass now c s with
      | Err f => Some (Err f)
      | Ok (SDone ok c s) => Some (Ok (ok, c, s))
      | Ok (SMore c s) => spec_parse fuel' now c s
      end
  end.

(** ** Refinement *)

Definition pass_refines (x : outcome pass) (y : outcome spass) : Prop :=
  match x, y with
  | Err f, Err g => f = g
  | Ok (More c b), Ok (SMore c' s) => c = c' /\ repr b s
  | Ok (Done ok c b), Ok (SDone ok' c' s) => ok = ok' /\ c = c' /\ repr b s
  | _, _ => False
  end.

Lemma line_repr b s line rest :
  repr b s -> break_crlf s = Some (line, rest) ->
  range b (peek b) (peek b + zlen line) = line /\
  exists b', retrieveUntil b (peek b + zlen line + 2) = Ok b' /\ repr b' rest.
Proof.
  intros Hb E. pose proof (break_crlf_len _ _ _ E) as Hlen. pose proof (break_crlf_Some _ _ _ E) as Hs.
  pose proof (zlen_nonneg line). pose proof (zlen_nonneg rest). split.
  - rewrite (range_peek b s) by (done || lia). rewrite Hs. by apply ztake_app_exact.
  - rewrite <- Z.add_assoc.
    destruct (retrieveUntil_repr b s (zlen line + 2) Hb) as (b' & Hb' & Hr & _); [lia|].
    exists b'. split; [done|]. rewrite Hs, app_assoc in Hr.
    by rewrite zdrop_app_exact in Hr by (rewrite zlen_app; done).
Qed.

Lemma one_pass_refines now c b s : repr b s -> pass_refines (one_pass now c b) (spec_pass now c s).
Proof.
  intros Hb. unfold one_pass, spec_pass. rewrite (findCRLF_repr b s Hb).
  destruct (state_ c); try done.
  - destruct (break_crlf s) as [[line rest]|] eqn:E; [|done].
    destruct (line_repr b s line rest Hb E) as [-> (b' & Hb' & Hr)].
    destruct (processRequestLine line (request_ c)) as [[ok r]|f]; [|done]. cbn [mbind outcome_bind].
    destruct ok; [|done]. rewrite Hb'. done.
  - destruct (break_crlf s) as [[line rest]|] eqn:E; [|done].
    destruct (line_repr b s line rest Hb E) as [-> (b' & Hb' & Hr)].
    destruct (find_char COLON line) as [[field after]|]; rewrite Hb'; done.
Qed.

Lemma parseRequest_refines fuel now : forall c b s, repr b s ->
  match parseRequest fuel now c b, spec_parse fuel now c s with
  | None, None => True
  | Some (Err f), Some (Err g) => f = g
  | Some (Ok (ok, c1, b1)), Some (Ok (ok2, c2, s2)) => ok = ok2 /\ c1 = c2 /\ repr b1 s2
  | _, _ => False
  end.
Proof.
  induction fuel as [|fuel IH]; intros c b s Hb; simpl; [done|].
  pose proof (one_pass_refines now c b s Hb) as Hp.
  destruct (one_pass now c b) as [[c1 b1|ok c1 b1]|f], (spec_pass now c s) as [[c2 s2|ok2 c2 s2]|g]; try done.
  destruct Hp as [-> Hb1]. by apply IH.
Qed.

(** ** Termination and fuel *)

(** The states in which the loop makes progress. *)
Definition active (c : HttpContext) : bool :=
  match state_ c with kExpectRequestLine | kExpectHeaders => true | _ => false end.

Lemma spec_pass_progress now c s c' s' :
  active c = true -> spec_pass now c s = Ok (SMore c' s') -> active c' = true /\ (length s' < length s)%nat.
Proof.
  unfold active, spec_pass. intros Ha H.
  assert (Hlen : forall line rest, break_crlf s = Some (line, rest) -> (length rest < length s)%nat).
  { intros line rest E. apply break_crlf_Some in E. subst s.
    rewrite !length_app. simpl. lia. }
  destruct (state_ c); try done; destruct (break_crlf s) as [[line rest]|] eqn:E; try done.
  - destruct (processRequestLine line (request_ c)) as [[[] r]|f]; try done. simpl in H.
    simplify_eq. split; [done|eauto].
  - destruct (find_char COLON line) as [[field after]|]; [|done]. simplify_eq. split; [done|eauto].
Qed.

(** The pure parser, with enough fuel for any active context. *)
Definition parse (now : Timestamp) (c : HttpContext) (s : text) : option (outcome (bool * HttpContext * text)) :=
  spec_parse (S (length s)) now c s.

Lemma spec_parse_total fuel now : forall c s,
  active c = true -> (length s < fuel)%nat -> is_Some (spec_parse fuel now c s).
Proof.
  induction fuel as [|fuel IH]; intros c s Ha Hl; [lia|]. simpl.
  destruct (spec_pass now c s) as [[c' s'|ok c' s']|f] eqn:E; [|eauto..].
  destruct (spec_pass_progress now c s c' s' Ha E) as [Ha' Hl']. apply IH; [done|lia].
Qed.

Lemma spec_parse_mono fuel now : forall fuel' c s r,
  (fuel <= fuel')%nat -> spec_parse fuel now c s = Some r -> spec_parse fuel' now c s = Some r.
Proof.
  induction fuel as [|fuel IH]; intros fuel' c s r Hle H; [done|].
  destruct fuel' as [|fuel']; [lia|]. simpl in *.
  destruct (spec_pass now c s) as [[c' s'|ok c' s']|f]; [|done..]. apply IH; [lia|done].
Qed.

Lemma parse_unique fuel now c s r : spec_parse fuel now c s = Some r -> active c = true -> parse now c s = Some r.
Proof.
  intros H Ha. destruct (spec_parse_total (S (length s)) now c s Ha ltac:(lia)) as [r' Hr'].
  unfold parse. rewrite Hr'. f_equal.
  pose proof (spec_parse_mono fuel now (fuel `max` S (length s))%nat c s r ltac:(lia) H).
  pose proof (spec_parse_mono (S (length s)) now (fuel `max` S (length s))%nat c s r' ltac:(lia) Hr'). congruence.
Qed.

Lemma parse_step now c s c' s' :
  active c = true -> spec_pass now c s = Ok (SMore c' s') -> parse now c s = parse now c' s'.
Proof.
  intros Ha E. destruct (spec_pass_progress now c s c' s' Ha E) as [Ha' Hl].
  destruct (spec_parse_total (S (length s')) now c' s' Ha' ltac:(lia)) as [r Hr].
  unfold parse at 2. rewrite Hr. apply (parse_unique (S (S (length s')))); [|done].
  simpl. by rewrite E.
Qed.

(** In the other two states the loop never ends. *)
Lemma parse_stuck fuel now c b : active c = false -> parseRequest fuel now c b = None.
Proof.
  intros Ha. revert c b Ha. induction fuel as [|fuel IH]; intros c b Ha; [done|]. simpl.
  unfold one_pass. unfold active in *. destruct (state_ c) eqn:E; try done; (apply IH; by rewrite E).
Qed.

(** ** Segmentation *)

(** A pass that made progress on a prefix makes the same progress on the whole. *)
Lemma spec_pass_app_more now c s t c' s' :
  active c = true -> spec_pass now c s = Ok (SMore c' s') -> spec_pass now c (s ++ t) = Ok (SMore c' (s' ++ t)).
Proof.
  unfold active, spec_pass. intros Ha H.
  destruct (state_ c); try done; destruct (break_crlf s) as [[line rest]|] eqn:E; try done;
    rewrite (break_crlf_app _ _ _ t E).
  - destruct (processRequestLine line (request_ c)) as [[[] r]|f]; try done. simpl in *. by simplify_eq.
  - destruct (find_char COLON line) as [[field after]|]; [|done]. by simplify_eq.
Qed.

Lemma spec_pass_app_done now c s t ok c' s' :
  active c = true -> spec_pass now c s = Ok (SDone ok c' s') ->
  (ok = true /\ active c' = true /\ c' = c /\ s' = s) \/
  ((ok = false \/ active c' = false) /\ spec_pass now c (s ++ t) = Ok (SDone ok c' (s' ++ t))).
Proof.
  unfold active, spec_pass. intros Ha H.
  destruct (state_ c) eqn:Est; try done; destruct (break_crlf s) as [[line rest]|] eqn:E;
    try (rewrite (break_crlf_app _ _ _ t E)); simplify_eq.
  - destruct (processRequestLine line (request_ c)) as [[[] r]|f]; try done. simpl in *. simplify_eq. right. auto.
  - left. by rewrite Est.
  - destruct (find_char COLON line) as [[field after]|]; [done|]. simplify_eq. right. auto.
  - left. by rewrite Est.
Qed.

Lemma spec_pass_app_err now c s t f :
  active c = true -> spec_pass now c s = Err f -> spec_pass now c (s ++ t) = Err f.
Proof.
  unfold active, spec_pass. intros Ha H.
  destruct (state_ c); try done; destruct (break_crlf s) as [[line rest]|] eqn:E; try done;
    rewrite (break_crlf_app _ _ _ t E).
  - by destruct (processRequestLine line (request_ c)) as [[[] r]|g].
  - by destruct (find_char COLON line) as [[field after]|].
Qed.

(** What parsing [s ++ t] gives, from the result of parsing [s] alone. *)
Definition resume (now : Timestamp) (t : text) (r : option (outcome (bool * HttpContext * text)))
  : option (outcome (bool * HttpContext * text)) :=
  match r with
  | Some (Ok (ok, c, rest)) => if ok && active c then parse now c (rest ++ t) else Some (Ok (ok, c, rest ++ t))
  | r => r
  end.

Lemma parse_app now : forall n c s t, (length s < n)%nat -> active c = true ->
  parse now c (s ++ t) = resume now t (parse now c s).
Proof.
  induction n as [|n IH]; intros c s t Hn Ha; [lia|].
  destruct (spec_pass now c s) as [[c' s'|ok c' s']|f] eqn:E.
  - destruct (spec_pass_progress now c s c' s' Ha E) as [Ha' Hl].
    rewrite (parse_step now c s c' s' Ha E).
    rewrite (parse_step now c (s ++ t) c' (s' ++ t) Ha); [apply IH; [lia|done]|].
    by apply spec_pass_app_more.
  - assert (Hp : parse now c s = Some (Ok (ok, c', s'))) by (unfold parse; simpl; by rewrite E).
    rewrite Hp. simpl. destruct (spec_pass_app_done now c s t ok c' s' Ha E)
      as [(-> & Hac & -> & ->)|[Hstop Et]].
    + by rewrite Hac.
    + replace (ok && active c') with false by (symmetry; apply andb_false_iff; tauto).
      unfold parse. simpl. by rewrite Et.
  - assert (Hp : parse now c s = Some (Err f)) by (unfold parse; simpl; by rewrite E).
    rewrite Hp. simpl. unfold parse. simpl. by rewrite (spec_pass_app_err now c s t f Ha E).
Qed.

(** [parseRequest] with the fuel that is enough for an active context. *)
Definition run_parse (now : Timestamp) (c : HttpContext) (b : Buffer) : option (outcome (bool * HttpContext * Buffer)) :=
  parseRequest (S (Z.to_nat (readableBytes b))) now c b.

Lemma run_parse_spec now c b s : repr b s -> active c = true ->
  exists r, parse now c s = Some r /\
  match r with
  | Ok (ok, c', rest) => exists b', run_parse now c b = Some (Ok (ok, c', b')) /\ repr b' rest
  | Err f => run_parse now c b = Some (Err f)
  end.
Proof.
  intros Hb Ha. destruct (spec_parse_total (S (length s)) now c s Ha ltac:(lia)) as [r Hr].
  exists r. split; [done|]. unfold run_parse. rewrite (readable_repr b s Hb). unfold zlen. rewrite Nat2Z.id.
  pose proof (parseRequest_refines (S (length s)) now c b s Hb) as H. rewrite Hr in H.
  destruct (parseRequest (S (length s)) now c b) as [[[[ok c1] b1]|f]|], r as [[[ok2 c2] s2]|g]; try done.
  - destruct H as (-> & -> & H). eauto.
  - by rewrite H.
Qed.

(** The handler's loop over the segments of a stream: each is appended to the
    input buffer and the parser resumes, until a request is complete or bad.
    The result also has the segments not consumed. *)
Fixpoint feed (now : Timestamp) (c : HttpContext) (b : Buffer) (segs : list text)
  : option (outcome (bool * HttpContext * Buffer * list text)) :=
  match segs with
  | [] => Some (Ok (true, c, b, []))
  | seg :: segs =>
      match append_bytes b seg with
      | Err f => Some (Err f)
      | Ok b =>
          match run_parse now c b with
          | Some (Ok (ok, c, b)) =>
              if ok && active c then feed now c b segs else Some (Ok (ok, c, b, segs))
          | Some (Err f) => Some (Err f)
          | None => None
          end
      end
  end.

(** Nothing can be parsed until more input arrives. *)
Definition waiting (now : Timestamp) (c : HttpContext) (s : text) : Prop :=
  active c = true /\ parse now c s = Some (Ok (true, c, s)).

Lemma parse_waiting now c s c' rest :
  active c = true -> parse now c s = Some (Ok (true, c', rest)) -> active c' = true -> waiting now c' rest.
Proof.
  intros Ha Hp Ha'. split; [done|].
  pose proof (parse_app now (S (length s)) c s [] ltac:(lia) Ha) as H. rewrite Hp in H. simpl in H.
  rewrite Ha' in H. simpl in H. rewrite !app_nil_r in H. congruence.
Qed.

Lemma append_bytes_cases b s d : repr b s -> zlen d <= max_size ->
  append_bytes b d = Err LengthError \/ exists b', append_bytes b d = Ok b' /\ repr b' (s ++ d).
Proof.
  intros H Hd. unfold append_bytes. pose proof (zlen_nonneg d).
  destruct (append_cases b s d (zlen d)) as [[Hc _]|(b' & Hb' & Hr & _)]; [done|lia..|by left|].
  rewrite ztake_all in Hr by lia. eauto.
Qed.

Lemma feed_spec now segs : forall c b s, repr b s -> waiting now c s ->
  Forall (fun seg => zlen seg <= max_size) segs ->
  match feed now c b segs with
  | None => False
  | Some (Err f) => f = LengthError \/ parse now c (s ++ concat segs) = Some (Err f)
  | Some (Ok (ok, c', b', unread)) =>
      exists rest, repr b' rest /\ parse now c (s ++ concat segs) = Some (Ok (ok, c', rest ++ concat unread))
  end.
Proof.
  induction segs as [|seg segs IH]; intros c b s Hb [Ha Hw] Hsegs; simpl.
  { exists s. rewrite !app_nil_r. done. }
  apply Forall_cons in Hsegs as [Hseg Hsegs].
  destruct (append_bytes_cases b s seg Hb Hseg) as [->|(b1 & -> & Hb1)]; [by left|].
  destruct (run_parse_spec now c b1 (s ++ seg) Hb1 Ha) as (r & Hp & Hr).
  assert (Happ : parse now c (s ++ seg ++ concat segs) = resume now (concat segs) (Some r)).
  { rewrite app_assoc, <- Hp. apply (parse_app now (S (length (s ++ seg)))); [lia|done]. }
  rewrite Happ. destruct r as [[[ok c1] rest]|f]; [|rewrite Hr; by right].
  destruct Hr as (b2 & -> & Hb2). simpl. destruct (ok && active c1) eqn:E; [|eauto].
  apply andb_true_iff in E as [-> Ha1]. apply IH; [done|exact (parse_waiting now c _ c1 rest Ha Hp Ha1)|done].
Qed.

(** ** HttpResponse *)

Inductive HttpStatusCode : Type :=
| kUnknownStatus | k200OK | k301MovedPermanently | k400BadRequest | k404NotFound.

(** The values of the enumerators. *)
Definition status_value (code : HttpStatusCode) : Z :=
  match code with
  | kUnknownStatus => 0
  | k200OK => 200
  | k301MovedPermanently => 301
  | k400BadRequest => 400
  | k404NotFound => 400
  end.

Record HttpResponse : Type := mkResponse {
  resp_headers : smap;
  statusCode_ : HttpStatusCode;
  statusMessage_ : text;
  closeConnection_ : bool;
  body_ : text
}.

Definition new_HttpResponse (close : bool) : HttpResponse := mkResponse [] kUnknownStatus [] close [].

Definition setStatusCode (code : HttpStatusCode) (r : HttpResponse) : HttpResponse :=
  mkResponse (resp_headers r) code (statusMessage_ r) (closeConnection_ r) (body_ r).
Definition setStatusMessage (message : text) (r : HttpResponse) : HttpResponse :=
  mkResponse (resp_headers r) (statusCode_ r) message (closeConnection_ r) (body_ r).
Definition setCloseConnection (on : bool) (r : HttpResponse) : HttpResponse :=
  mkResponse (resp_headers r) (statusCode_ r) (statusMessage_ r) on (body_ r).
Definition resp_addHeader (key value : text) (r : HttpResponse) : HttpResponse :=
  mkResponse (smap_insert key value (resp_headers r)) (statusCode_ r) (statusMessage_ r)
    (closeConnection_ r) (body_ r).
Definition setContentType (contentType : text) (r : HttpResponse) : HttpResponse :=
  resp_addHeader (bytes "Content-Type") contentType r.
Definition setBody (body : text) (r : HttpResponse) : HttpResponse :=
  mkResponse (resp_headers r) (statusCode_ r) (statusMessage_ r) (closeConnection_ r) body.

(** [output->append(const StringPiece&)] of a literal or a char array, and of a
    [std::string]: both go through a constructor of [StringPiece]. *)
Definition append_cstr (b : Buffer) (s : text) : outcome Buffer :=
  p ← StringPiece.of_cstr (StringPiece.c_str s); append_piece b p.
Definition append_string (b : Buffer) (s : text) : outcome Buffer :=
  p ← StringPiece.of_string s; append_piece b p.

Definition append_header (b : Buffer) (h : text * text) : outcome Buffer :=
  b ← append_string b h.1;
  b ← append_cstr b (bytes ": ");
  b ← append_string b h.2;
  append_cstr b kCRLF.

Definition appendToBuffer (r : HttpResponse) (output : Buffer) : outcome Buffer :=
  b ← append_cstr output (snprintf 32 (bytes "HTTP/1.1 " ++ fmt_d (status_value (statusCode_ r)) ++ bytes " "));
  b ← append_string b (statusMessage_ r);
  b ← append_cstr b kCRLF;
  b ← (if closeConnection_ r then append_cstr b (bytes "Connection: close" ++ kCRLF)
       else
         b ← append_cstr b (snprintf 32 (bytes "Content-Length: " ++ fmt_d (zlen (body_ r)) ++ kCRLF));
         append_cstr b (bytes "Connection: Keep-Alive" ++ kCRLF));
  b ← for_each append_header b (resp_headers r);
  b ← append_cstr b kCRLF;
  append_string b (body_ r).

Lemma append_string_repr b s d : repr b s -> zlen d < 2 ^ 31 ->
  unless too_long (append_string b d) (fun b' => repr b' (s ++ StringPiece.until_nul d)).
Proof.
  intros Hb Hd. unfold append_string, append_piece.
  destruct (StringPiece.of_string_spec d Hd) as (p & -> & [Hp1 Hp2] & Hc). cbn [mbind outcome_bind].
  unfold StringPiece.size, StringPiece.data. rewrite StringPiece.u64_nonneg_i32 by lia.
  destruct (append_cases b s (StringPiece.ptr_ p) (StringPiece.length_ p)) as [[-> _]|(b' & -> & Hr & _)];
    [done|lia|unfold max_size; lia|done|].
  unfold unless. by rewrite <- Hc.
Qed.

Lemma append_cstr_repr b s d : repr b s -> zlen d < 2 ^ 31 -> StringPiece.NUL ∉ d ->
  unless too_long (append_cstr b d) (fun b' => repr b' (s ++ d)).
Proof.
  intros Hb Hd Hn. pose proof (append_string_repr b s d Hb Hd) as H.
  by rewrite (StringPiece.until_nul_id d Hn) in H.
Qed.

(** The bytes of a response.  Every string of the user stops at its first NUL;
    the declared length is that of the whole body. *)
Definition header_text (h : text * text) : text :=
  StringPiece.until_nul h.1 ++ bytes ": " ++ StringPiece.until_nul h.2 ++ kCRLF.

Definition response_text (r : HttpResponse) : text :=
  bytes "HTTP/1.1 " ++ fmt_d (status_value (statusCode_ r)) ++ bytes " " ++
  StringPiece.until_nul (statusMessage_ r) ++ kCRLF ++
  (if closeConnection_ r then bytes "Connection: close" ++ kCRLF
   else bytes "Content-Length: " ++ fmt_d (zlen (body_ r)) ++ kCRLF ++ bytes "Connection: Keep-Alive" ++ kCRLF) ++
  concat (map header_text (resp_headers r)) ++ kCRLF ++ StringPiece.until_nul (body_ r).

Definition response_fits (r : HttpResponse) : Prop :=
  zlen (statusMessage_ r) < 2 ^ 31 /\ zlen (body_ r) < 2 ^ 31 /\
  Forall (fun h => zlen h.1 < 2 ^ 31 /\ zlen h.2 < 2 ^ 31) (resp_headers r).

(** A literal without NUL. *)
Lemma append_literal b s d : repr b s -> bool_decide (zlen d < 2 ^ 31 /\ Forall (fun c => c <> StringPiece.NUL) d) = true ->
  unless too_long (append_cstr b d) (fun b' => repr b' (s ++ d)).
Proof.
  intros Hb Hd%bool_decide_eq_true. destruct Hd as [Hlen Hnul]. apply append_cstr_repr; [done..|].
  intros Hin. rewrite Forall_forall in Hnul. by apply (Hnul StringPiece.NUL).
Qed.

Lemma append_header_repr b s h : repr b s -> zlen h.1 < 2 ^ 31 /\ zlen h.2 < 2 ^ 31 ->
  unless too_long (append_header b h) (fun b' => repr b' (s ++ header_text h)).
Proof.
  intros Hb [H1 H2]. unfold append_header, header_text.
  eapply unless_bind; [apply (append_string_repr _ _ _ Hb H1)|]. intros b1 _ Hb1.
  eapply unless_bind; [by apply (append_literal _ _ _ Hb1)|]. intros b2 _ Hb2.
  eapply unless_bind; [apply (append_string_repr _ _ _ Hb2 H2)|]. intros b3 _ Hb3.
  eapply unless_mono; [by apply (append_literal _ _ _ Hb3)|]. intros b4 _ Hb4.
  by rewrite <- !app_assoc in Hb4.
Qed.

Lemma append_headers_repr hs : forall b s, repr b s ->
  Forall (fun h => zlen h.1 < 2 ^ 31 /\ zlen h.2 < 2 ^ 31) hs ->
  unless too_long (for_each append_header b hs) (fun b' => repr b' (s ++ concat (map header_text hs))).
Proof.
  induction hs as [|h hs IH]; intros b s Hb Hhs; simpl; [by rewrite app_nil_r|].
  apply Forall_cons in Hhs as [Hh Hhs].
  eapply unless_bind; [apply (append_header_repr _ _ _ Hb Hh)|]. intros b1 _ Hb1.
  rewrite app_assoc. by apply IH.
Qed.

Lemma content_length_line n : 0 <= n < 2 ^ 31 ->
  let line := bytes "Content-Length: " ++ fmt_d n ++ kCRLF in
  snprintf 32 line = line /\ zlen line < 2 ^ 31 /\ StringPiece.NUL ∉ line.
Proof.
  intros Hn line.
  assert (Hl : zlen line <= 28).
  { unfold line. rewrite !zlen_app. change (zlen (bytes "Content-Length: ")) with 16. change (zlen kCRLF) with 2.
    pose proof (zlen_fmt_d 10 n ltac:(lia) ltac:(simpl; lia)). lia. }
  split; [apply snprintf_fits; lia|]. split; [lia|].
  unfold line. rewrite !elem_of_app. intros [H|[H|H]].
  - by vm_compute in H; repeat (apply elem_of_cons in H as [?|H]; [done|]); apply elem_of_nil in H.
  - apply fmt_d_digits in H. done.
  - by vm_compute in H; repeat (apply elem_of_cons in H as [?|H]; [done|]); apply elem_of_nil in H.
Qed.

Lemma status_line code :
  let line := bytes "HTTP/1.1 " ++ fmt_d (status_value code) ++ bytes " " in
  snprintf 32 line = line /\ bool_decide (zlen line < 2 ^ 31 /\ Forall (fun c => c <> StringPiece.NUL) line) = true.
Proof. destruct code; split; vm_compute; reflexivity. Qed.

Lemma connection_lines_repr (r : HttpResponse) b s : repr b s -> zlen (body_ r) < 2 ^ 31 ->
  unless too_long
    (if closeConnection_ r then append_cstr b (bytes "Connection: close" ++ kCRLF)
     else
       b ← append_cstr b (snprintf 32 (bytes "Content-Length: " ++ fmt_d (zlen (body_ r)) ++ kCRLF));
       append_cstr b (bytes "Connection: Keep-Alive" ++ kCRLF))
    (fun b' => repr b' (s ++
      (if closeConnection_ r then bytes "Connection: close" ++ kCRLF
       else bytes "Content-Length: " ++ fmt_d (zlen (body_ r)) ++ kCRLF ++ bytes "Connection: Keep-Alive" ++ kCRLF))).
Proof.
  intros Hb Hlen. destruct (closeConnection_ r); [by apply append_literal|].
  destruct (content_length_line (zlen (body_ r))) as (-> & Hl & Hn); [split; [apply zlen_nonneg|done]|].
  eapply unless_bind; [apply (append_cstr_repr _ _ _ Hb Hl Hn)|]. intros b1 _ Hb1.
  eapply unless_mono; [by apply (append_literal _ _ _ Hb1)|]. intros b2 _ Hb2.
  by rewrite <- !app_assoc in Hb2.
Qed.

Lemma appendToBuffer_repr (r : HttpResponse) (output : Buffer) (s : text) :
  repr output s -> response_fits r ->
  unless too_long (appendToBuffer r output) (fun b => repr b (s ++ response_text r)).
Proof.
  intros Hb (Hm & Hbody & Hh). unfold appendToBuffer, response_text.
  destruct (status_line (statusCode_ r)) as [-> Hst].
  eapply unless_bind; [apply (append_literal _ _ _ Hb Hst)|]. intros b1 _ Hb1.
  eapply unless_bind; [apply (append_string_repr _ _ _ Hb1 Hm)|]. intros b2 _ Hb2.
  eapply unless_bind; [by apply (append_literal _ _ _ Hb2)|]. intros b3 _ Hb3.
  eapply unless_bind; [apply (connection_lines_repr r _ _ Hb3 Hbody)|]. intros b4 _ Hb4.
  eapply unless_bind; [apply (append_headers_repr _ _ _ Hb4 Hh)|]. intros b5 _ Hb5.
  eapply unless_bind; [by apply (append_literal _ _ _ Hb5)|]. intros b6 _ Hb6.
  eapply unless_mono; [apply (append_string_repr _ _ _ Hb6 Hbody)|]. intros b7 _ Hb7.
  by rewrite <- !app_assoc in Hb7.
Qed.

(** ** Printing a request *)

Lemma lex_eq a : forall b, StringPiece.lex a b = Eq -> a = b.
Proof.
  induction a as [|x a IH]; intros [|y b]; simpl; try done.
  destruct (Z_of_byte x ?= Z_of_byte y) eqn:E; try done. intros H. apply IH in H as ->.
  apply Z.compare_eq in E. f_equal.
  by rewrite <- (byte_of_Z_of_byte x), E, byte_of_Z_of_byte.
Qed.

Lemma lex_refl a : StringPiece.lex a a = Eq.
Proof. induction a as [|x a IH]; simpl; [done|]. by rewrite Z.compare_refl. Qed.

Lemma smap_find_insert k v m j :
  smap_find j (smap_insert k v m) = if decide (j = k) then Some v else smap_find j m.
Proof.
  induction m as [|[k' v'] m IH]; simpl; [done|].
  destruct (StringPiece.lex k k') eqn:E; simpl; [|done|].
  - apply lex_eq in E as ->. by case_decide.
  - rewrite IH. repeat case_decide; subst; try done. by rewrite lex_refl in E.
Qed.

(** The value a list of header lines gives to a field: the last one. *)
Definition last_value (f : text) (hs : list (text * text)) : option text :=
  foldl (fun v h => if decide (f = h.1) then Some h.2 else v) None hs.

Lemma smap_find_fold f hs : forall m,
  smap_find f (foldl (fun m h => smap_insert h.1 h.2 m) m hs) =
  foldl (fun v h => if decide (f = h.1) then Some h.2 else v) (smap_find f m) hs.
Proof. induction hs as [|h hs IH]; intros m; simpl; [done|]. by rewrite IH, smap_find_insert. Qed.

Record request_line : Type := mkLine {
  l_method : Method;
  l_path : text;
  l_query : text;        (** empty, or with its question mark *)
  l_version : Version
}.

Definition method_text (m : Method) : text :=
  methodString (mkRequest m kUnknown [] [] invalid []).

Definition version_text (v : Version) : text :=
  bytes "HTTP/1." ++ match v with kHttp11 => ["1"%char] | _ => ["0"%char] end.

Definition print_line (l : request_line) : text :=
  method_text (l_method l) ++ [SP] ++ (l_path l ++ l_query l) ++ [SP] ++ version_text (l_version l).

Definition print_header (h : text * text) : text := h.1 ++ bytes ": " ++ h.2.

Definition print_request (l : request_line) (hs : list (text * text)) : text :=
  print_line l ++ kCRLF ++ concat (map (fun h => print_header h ++ kCRLF) hs) ++ kCRLF.


Definition line_ok (l : request_line) : Prop :=
  l_method l <> kInvalid /\ l_version l <> kUnknown /\
  ((SP ∉ l_path l) /\ (QUESTION ∉ l_path l) /\ (CR ∉ l_path l)) /\
  (l_query l = [] \/ exists q, l_query l = QUESTION :: q) /\ (SP ∉ l_query l) /\ (CR ∉ l_query l).

(** A value without blanks at its ends. *)
Definition trimmed (v : text) : Prop := drop_spaces v = v /\ drop_trailing_spaces v = v.

Definition header_ok (h : text * text) : Prop :=
  ((COLON ∉ h.1) /\ (CR ∉ h.1)) /\ (CR ∉ h.2) /\ trimmed h.2.

Lemma methodString_parse m : m <> kInvalid -> parse_method (method_text m) = m /\ (SP ∉ method_text m) /\ (CR ∉ method_text m).
Proof.
  intros H. destruct m; [done|..]; (split; [done|]);
    split; (intros Hin; vm_compute in Hin; repeat (apply elem_of_cons in Hin as [?|Hin]; [done|]); by apply elem_of_nil in Hin).
Qed.

Lemma parse_version_text v : v <> kUnknown -> parse_version (version_text v) = Some v /\ (CR ∉ version_text v).
Proof.
  intros H. destruct v; [done|..]; (split; [done|]);
    (intros Hin; vm_compute in Hin; repeat (apply elem_of_cons in Hin as [?|Hin]; [done|]); by apply elem_of_nil in Hin).
Qed.

Lemma processRequestLine_print l r : line_ok l -> method_ r = kInvalid ->
  processRequestLine (print_line l) r =
  Ok (true, mkRequest (l_method l) (l_version l) (l_path l)
              (match l_query l with [] => query_ r | q => q end) (receiveTime_ r) (headers_ r)).
Proof.
  intros (Hm & Hv & (Hp1 & Hp2 & _) & Hq & Hqs & _) Hr.
  destruct (methodString_parse _ Hm) as (Hpm & Hsp & _). destruct (parse_version_text _ Hv) as [Hpv _].
  unfold processRequestLine, print_line. simpl app. rewrite find_char_app by done.
  unfold setMethod. rewrite Hr, Hpm, (bool_decide_true (kInvalid = kInvalid)) by done.
  cbn [mbind outcome_bind assert_ method_]. rewrite bool_decide_false by done. cbn [negb].
  rewrite find_char_app by (rewrite elem_of_app; tauto). rewrite Hpv.
  destruct Hq as [->|[q ->]].
  - rewrite app_nil_r, find_char_None by done. done.
  - rewrite find_char_app by done. done.
Qed.

Lemma print_line_no_CR l : line_ok l -> CR ∉ print_line l.
Proof.
  intros (Hm & Hv & (_ & _ & Hp) & _ & _ & Hq).
  destruct (methodString_parse _ Hm) as (_ & _ & H1). destruct (parse_version_text _ Hv) as [_ H2].
  unfold print_line. rewrite !elem_of_app. intros [?|[H|[[?|?]|[H|?]]]]; try done;
    by apply list_elem_of_singleton in H.
Qed.

Lemma parse_header now r h s : header_ok h ->
  parse now (mkContext kExpectHeaders r) (print_header h ++ kCRLF ++ s) =
  parse now (mkContext kExpectHeaders (mkRequest (method_ r) (version_ r) (path_ r) (query_ r) (receiveTime_ r)
    (smap_insert h.1 h.2 (headers_ r)))) s.
Proof.
  intros ((Hc & Hcr1) & Hcr2 & Ht1 & Ht2). apply parse_step; [done|].
  unfold spec_pass. cbn [state_ request_]. rewrite break_crlf_line.
  - unfold print_header. change (bytes ": ") with [COLON; SP]. simpl app.
    rewrite find_char_app by done. unfold addHeader. cbn [drop_spaces]. change (isspace SP) with true. cbn iota.
    by rewrite Ht1, Ht2.
  - unfold print_header. rewrite !elem_of_app. intros [?|[H|?]]; [done| |done].
    apply elem_of_cons in H as [H|H]; [done|]. by apply list_elem_of_singleton in H.
Qed.

Lemma parse_headers now hs : forall r rest, Forall header_ok hs ->
  parse now (mkContext kExpectHeaders r)
    (concat (map (fun h => print_header h ++ kCRLF) hs) ++ kCRLF ++ rest) =
  Some (Ok (true, mkContext kGotAll (mkRequest (method_ r) (version_ r) (path_ r) (query_ r) (receiveTime_ r)
    (foldl (fun m h => smap_insert h.1 h.2 m) (headers_ r) hs)), rest)).
Proof.
  induction hs as [|h hs IH]; intros r rest Hhs.
  - simpl. by destruct r.
  - apply Forall_cons in Hhs as [Hh Hhs]. simpl concat. rewrite <- !app_assoc, parse_header by done.
    by rewrite IH.
Qed.

Lemma parse_print now l hs rest : line_ok l -> Forall header_ok hs ->
  parse now new_HttpContext (print_request l hs ++ rest) =
  Some (Ok (true, mkContext kGotAll (mkRequest (l_method l) (l_version l) (l_path l) (l_query l) now
    (foldl (fun m h => smap_insert h.1 h.2 m) [] hs)), rest)).
Proof.
  intros Hl Hhs. unfold print_request. rewrite <- !app_assoc.
  rewrite (parse_step now new_HttpContext _ (mkContext kExpectHeaders
    (mkRequest (l_method l) (l_version l) (l_path l) (l_query l) now []))
    (concat (map (fun h => print_header h ++ kCRLF) hs) ++ kCRLF ++ rest)); [by rewrite parse_headers|done|].
  unfold spec_pass. cbn [state_ new_HttpContext request_].
  rewrite break_crlf_line by (by apply print_line_no_CR).
  rewrite processRequestLine_print by done. cbn [mbind outcome_bind].
  unfold setReceiveTime. simpl. by destruct (l_query l).
Qed.

(** ** Properties *)

(** C23. The parser inverts printing: fed the text of any well-formed request
    (method, path, query, version, header lines) followed by other bytes, it
    ends with every part of the request, the last value of each header and the
    receive time, and leaves exactly the following bytes in the buffer. *)
Theorem request_roundtrip (now : Timestamp) (l : request_line) (hs : list (text * text)) (rest : text) (b : Buffer)
    (Hl : line_ok l) (Hhs : Forall header_ok hs) (Hb : repr b (print_request l hs ++ rest)) :
  exists req b', run_parse now new_HttpContext b = Some (Ok (true, mkContext kGotAll req, b')) /\
    repr b' rest /\
    (method_ req, version_ req, path_ req, query_ req, receiveTime_ req) =
      (l_method l, l_version l, l_path l, l_query l, now) /\
    forall f, smap_find f (headers_ req) = last_value f hs.
Proof.
  destruct (run_parse_spec now new_HttpContext b _ Hb eq_refl) as (r & Hp & Hr).
  rewrite parse_print in Hp by done. injection Hp as <-. destruct Hr as (b' & Hr & Hb').
  eexists _, b'. split; [exact Hr|]. split; [done|]. split; [done|].
  intros f. apply smap_find_fold.
Qed.

Definition sample_line : request_line := mkLine kGet (bytes "/index") (bytes "?q=1") kHttp11.
Definition sample_headers : list (text * text) := [(bytes "Host", bytes "a b"); (bytes "Connection", bytes "close")].

(** A buffer that holds a given text. *)
Lemma sample_line_ok : line_ok sample_line.
Proof. unfold line_ok. split_and!; try done; try (by apply (bool_decide_unpack _)). right. by eexists. Qed.

Lemma sample_headers_ok : Forall header_ok sample_headers.
Proof. repeat constructor; try done; by apply (bool_decide_unpack _). Qed.

Lemma request_roundtrip_witness :
  exists req b', run_parse invalid new_HttpContext (buffer_of (print_request sample_line sample_headers ++ bytes "xyz"))
      = Some (Ok (true, mkContext kGotAll req, b')) /\
    repr b' (bytes "xyz") /\
    (method_ req, version_ req, path_ req, query_ req, receiveTime_ req) =
      (kGet, kHttp11, bytes "/index", bytes "?q=1", invalid) /\
    forall f, smap_find f (headers_ req) = last_value f sample_headers.
Proof.
  apply (request_roundtrip invalid sample_line sample_headers (bytes "xyz")).
  - apply sample_line_ok.
  - apply sample_headers_ok.
  - apply buffer_of_repr. vm_compute. discriminate.
Defined.

(** C22. How the network cuts the stream does not matter: from a context that
    waits for input, appending the segments one at a time and resuming the
    parser after each gives the verdict, the context and the unread bytes of a
    single call on all of them; it never fails in another way than by the limit
    on the size of a buffer. *)
Theorem parse_segmentation (now : Timestamp) (c : HttpContext) (b whole : Buffer) (s : text) (segs : list text)
    (Hb : repr b s) (Hw : waiting now c s) (Hsegs : Forall (fun seg => zlen seg <= max_size) segs)
    (Hwhole : repr whole (s ++ concat segs)) :
  match feed now c b segs with
  | None => False
  | Some (Err f) => f = LengthError \/ run_parse now c whole = Some (Err f)
  | Some (Ok (ok, c', b', unread)) =>
      exists rest whole', repr b' rest /\ run_parse now c whole = Some (Ok (ok, c', whole')) /\
        repr whole' (rest ++ concat unread)
  end.
Proof.
  pose proof (feed_spec now segs c b s Hb Hw Hsegs) as H. destruct Hw as [Ha _].
  destruct (run_parse_spec now c whole _ Hwhole Ha) as (r & Hp & Hr). rewrite Hp in H.
  destruct (feed now c b segs) as [[[[[ok c'] b'] unread]|f]|]; [|..|done].
  - destruct H as (rest & Hb' & [= ->]). destruct Hr as (w' & Hr & Hw'). eauto 6.
  - destruct H as [H|[= ->]]; [by left|by right].
Qed.

Definition sample_segments : list text :=
  [bytes "GET / HT"; bytes "TP/1.1" ++ [CR]; ["010"%char] ++ bytes "Host: x" ++ kCRLF; kCRLF ++ bytes "next"; bytes "!"].

Lemma parse_segmentation_witness :
  match feed invalid new_HttpContext empty_buffer sample_segments with
  | None => False
  | Some (Err f) => f = LengthError \/
      run_parse invalid new_HttpContext (buffer_of (concat sample_segments)) = Some (Err f)
  | Some (Ok (ok, c', b', unread)) =>
      exists rest whole', repr b' rest /\
        run_parse invalid new_HttpContext (buffer_of (concat sample_segments)) = Some (Ok (ok, c', whole')) /\
        repr whole' (rest ++ concat unread)
  end.
Proof.
  apply (parse_segmentation invalid new_HttpContext empty_buffer (buffer_of (concat sample_segments)) [] sample_segments).
  - apply empty_buffer_repr.
  - split; vm_compute; reflexivity.
  - repeat constructor; vm_compute; discriminate.
  - apply buffer_of_repr. vm_compute. discriminate.
Defined.

(** C32. The loop of [parseRequest] ends, for every input, after at most one pass
    per readable byte and one more, when the context expects a request line or
    headers; called in any other state it never ends, whatever the input. *)
Theorem parseRequest_termination (now : Timestamp) (c : HttpContext) (b : Buffer) (s : text) (Hb : repr b s) :
  if active c then is_Some (parseRequest (S (length s)) now c b)
  else forall fuel, parseRequest fuel now c b = None.
Proof.
  destruct (active c) eqn:Ha; [|intros; by apply parse_stuck].
  destruct (run_parse_spec now c b s Hb Ha) as (r & _ & Hr). unfold run_parse in Hr.
  rewrite (readable_repr b s Hb) in Hr. unfold zlen in Hr. rewrite Nat2Z.id in Hr.
  destruct r as [[[ok c'] rest]|f]; [destruct Hr as (b' & -> & _)|rewrite Hr]; eauto.
Qed.

Lemma parseRequest_termination_witness :
  is_Some (parseRequest 11 invalid new_HttpContext (buffer_of (bytes "GET / HTTP"))) /\
  forall fuel, parseRequest fuel invalid (mkContext kGotAll new_HttpRequest) (buffer_of (bytes "GET / HTTP")) = None.
Proof.
  split.
  - apply (parseRequest_termination invalid new_HttpContext (buffer_of (bytes "GET / HTTP")) (bytes "GET / HTTP")).
    apply buffer_of_repr. vm_compute. discriminate.
  - apply (parseRequest_termination invalid (mkContext kGotAll new_HttpRequest) (buffer_of (bytes "GET / HTTP"))
      (bytes "GET / HTTP")). apply buffer_of_repr. vm_compute. discriminate.
Defined.

(** The bytes of a response, exactly: status line, connection headers, the
    user's headers in the order of the map, an empty line and the body.  Every
    string stops at its first NUL, while Content-Length counts the whole body,
    so a body with a NUL is announced longer than it is sent. *)
Theorem appendToBuffer_bytes (r : HttpResponse) (output : Buffer) (s : text)
    (Hb : repr output s) (Hfit : response_fits r) :
  unless too_long (appendToBuffer r output) (fun b => repr b (s ++ response_text r)).
Proof. by apply appendToBuffer_repr. Qed.

Definition binary_response : HttpResponse :=
  setBody (bytes "ab" ++ [StringPiece.NUL] ++ bytes "cd")
    (setContentType (bytes "text/plain") (setStatusMessage (bytes "OK") (setStatusCode k200OK (new_HttpResponse false)))).

Lemma appendToBuffer_bytes_witness :
  unless too_long (appendToBuffer binary_response empty_buffer) (fun b => repr b (
    bytes "HTTP/1.1 200 OK" ++ kCRLF ++ bytes "Content-Length: 5" ++ kCRLF ++
    bytes "Connection: Keep-Alive" ++ kCRLF ++ bytes "Content-Type: text/plain" ++ kCRLF ++ kCRLF ++ bytes "ab")).
Proof.
  apply (appendToBuffer_bytes binary_response empty_buffer []).
  - apply empty_buffer_repr.
  - repeat constructor; vm_compute; discriminate.
Defined.
