(* ===== verification/HttpTypes.v ===== *)
(** * The well-formedness of requests (src/src/HttpRequest.h, HttpContext.h/.cpp)

    What every request and context built by the code satisfies, whatever bytes
    arrive: the headers are an ordered map without duplicate fields, with
    trimmed values; the path has no query; the parsing state tells which
    fields are set.  A typing invariant over the contexts that can be reached,
    by rule induction. *)

From Stdlib Require Import Sorting.Sorted.
From S2P Require Import Prelude Endian StringPiece Buffer Lines Format Timestamp Http.
Local Open Scope Z_scope.

(** [HttpRequest::swap]: all six fields. *)
Definition request_swap (a b : HttpRequest) : HttpRequest * HttpRequest :=
  let '(m, m') := (method_ b, method_ a) in
  let '(v, v') := (version_ b, version_ a) in
  let '(p, p') := (path_ b, path_ a) in
  let '(q, q') := (query_ b, query_ a) in
  let '(t, t') := Timestamp_swap (receiveTime_ a) (receiveTime_ b) in
  let '(h, h') := (headers_ b, headers_ a) in
  (mkRequest m v p q t h, mkRequest m' v' p' q' t' h').

(** ** Ordered maps *)

Definition key_lt (a b : text * text) : Prop := StringPiece.lex a.1 b.1 = Lt.

Lemma lex_trans a : forall b c, StringPiece.lex a b = Lt -> StringPiece.lex b c = Lt -> StringPiece.lex a c = Lt.
Proof.
  induction a as [|x a IH]; intros [|y b] [|z c]; simpl; try done.
  destruct (Z.compare_spec (Z_of_byte x) (Z_of_byte y)), (Z.compare_spec (Z_of_byte y) (Z_of_byte z)),
    (Z.compare_spec (Z_of_byte x) (Z_of_byte z)); try done; try lia. apply IH.
Qed.

Lemma lex_flip a : forall b, StringPiece.lex a b = CompOpp (StringPiece.lex b a).
Proof.
  induction a as [|x a IH]; intros [|y b]; simpl; try done.
  rewrite (Z.compare_antisym (Z_of_byte y)). destruct (Z_of_byte y ?= Z_of_byte x); simpl; auto.
Qed.

Lemma smap_insert_in k v m h : h ∈ smap_insert k v m -> h = (k, v) \/ h ∈ m.
Proof.
  induction m as [|[k' v'] m IH]; simpl; [set_solver|].
  destruct (StringPiece.lex k k'); rewrite !elem_of_cons; tauto.
Qed.

Lemma smap_insert_sorted k v m : StronglySorted key_lt m -> StronglySorted key_lt (smap_insert k v m).
Proof.
  induction 1 as [|[k' v'] m Hm IH Hk]; simpl; [by repeat constructor|].
  destruct (StringPiece.lex k k') eqn:E.
  - apply lex_eq in E as ->. by constructor.
  - constructor; [by constructor|]. constructor; [done|]. eapply Forall_impl; [exact Hk|].
    intros h Hh. by apply (lex_trans k k').
  - constructor; [done|]. apply Forall_forall. intros h [-> |Hh]%smap_insert_in.
    + unfold key_lt. simpl. by rewrite lex_flip, E.
    + by apply (proj1 (Forall_forall _ _) Hk).
Qed.

(** An ordered map has each key once. *)
Lemma sorted_keys m : StronglySorted key_lt m -> NoDup (map fst m).
Proof.
  induction 1 as [|[k v] m Hm IH Hk]; simpl; [constructor|]. constructor; [|done].
  intros ([k' v'] & E & Hin)%list_elem_of_fmap. simpl in E. subst k'.
  apply (proj1 (Forall_forall _ _) Hk) in Hin. unfold key_lt in Hin. simpl in Hin. by rewrite lex_refl in Hin.
Qed.

Lemma smap_find_in m field value : NoDup (map fst m) -> (field, value) ∈ m -> smap_find field m = Some value.
Proof.
  induction m as [|[k v] m IH]; simpl; intros Hnd Hin; [set_solver|]. apply NoDup_cons in Hnd as [Hk Hnd].
  apply elem_of_cons in Hin as [[= -> ->]|Hin]; [by rewrite decide_True|].
  rewrite decide_False; [by apply IH|]. intros ->. apply Hk. by apply (list_elem_of_fmap_2 fst m (k, value)).
Qed.

(** ** Trimmed values *)

Lemma drop_spaces_idem s : drop_spaces (drop_spaces s) = drop_spaces s.
Proof. induction s as [|c s IH]; simpl; [done|]. destruct (isspace c) eqn:E; [done|]. simpl. by rewrite E. Qed.

Lemma drop_spaces_snoc s c : isspace c = false -> exists s', drop_spaces (s ++ [c]) = s' ++ [c].
Proof.
  intros Hc. induction s as [|x s (s' & IH)]; simpl; [exists []; by rewrite Hc|].
  destruct (isspace x); [by exists s'|]. by exists (x :: s).
Qed.

(** Dropping the trailing spaces leaves the first character. *)
Lemma trim_trimmed s : trimmed (drop_trailing_spaces (drop_spaces s)).
Proof.
  unfold trimmed, drop_trailing_spaces. split; [|by rewrite rev_involutive, drop_spaces_idem].
  destruct (drop_spaces s) as [|c t] eqn:E; [done|].
  assert (Hc : isspace c = false).
  { pose proof (drop_spaces_idem s) as H. rewrite E in H. simpl in H. destruct (isspace c) eqn:Ec; [|done].
    exfalso. clear E. assert (length (drop_spaces t) <= length t)%nat.
    { clear. induction t as [|x t IH]; simpl; [lia|]. destruct (isspace x); simpl; lia. }
    rewrite H in *. simpl in *. lia. }
  simpl. destruct (drop_spaces_snoc (rev t) c Hc) as (s' & ->). rewrite rev_app_distr. simpl. by rewrite Hc.
Qed.

(** ** Typing *)

Record request_typed (r : HttpRequest) : Prop := mkRequestTyped {
  rt_sorted : StronglySorted key_lt (headers_ r);
  rt_headers : Forall (fun h => (COLON ∉ h.1) /\ trimmed h.2) (headers_ r);
  rt_path : QUESTION ∉ path_ r;
  rt_query : query_ r = [] \/ exists q, query_ r = QUESTION :: q
}.

(** The fields each parsing state promises; [kExpectBody] is never entered. *)
Definition state_typed (c : HttpContext) : Prop :=
  match state_ c with
  | kExpectRequestLine => headers_ (request_ c) = [] /\ version_ (request_ c) = kUnknown
  | kExpectHeaders | kGotAll => method_ (request_ c) <> kInvalid /\ version_ (request_ c) <> kUnknown
  | kExpectBody => False
  end.

Definition context_typed (c : HttpContext) : Prop := request_typed (request_ c) /\ state_typed c.

Lemma setMethod_spec m r ok r' : setMethod m r = Ok (ok, r') ->
  r' = mkRequest (parse_method m) (version_ r) (path_ r) (query_ r) (receiveTime_ r) (headers_ r) /\
  (ok = true -> method_ r' <> kInvalid).
Proof.
  unfold setMethod. intros H. obind. simplify_eq. split; [done|]. simpl. intros Hn.
  by destruct (parse_method m).
Qed.

Lemma parse_version_known v ver : parse_version v = Some ver -> ver <> kUnknown.
Proof. unfold parse_version. intros H. repeat case_match; by simplify_eq. Qed.

Lemma processRequestLine_typed line r ok r' : request_typed r -> headers_ r = [] -> version_ r = kUnknown ->
  processRequestLine line r = Ok (ok, r') ->
  request_typed r' /\ headers_ r' = [] /\
  (ok = true -> method_ r' <> kInvalid /\ version_ r' <> kUnknown) /\ (ok = false -> version_ r' = kUnknown).
Proof.
  intros [Hs Hh Hp Hq] Hn Hv. unfold processRequestLine.
  destruct (find_char SP line) as [[m rest]|]; [|by intros [= <- <-]; split_and!].
  intros H. obind. destruct r0 as [known r1]. destruct (setMethod_spec _ _ _ _ Hr) as [-> Hm]. simpl in *.
  destruct known; [|by simplify_eq; split_and!].
  destruct (find_char SP rest) as [[target v]|]; [|by simplify_eq; split_and!].
  destruct (find_char QUESTION target) as [[path q]|] eqn:Eq.
  - apply find_char_spec in Eq as [_ Hpath].
    destruct (parse_version v) as [ver|] eqn:Ev; simplify_eq; simpl; (split; [constructor; simpl; eauto|]);
      split_and!; try done. intros _. split; [auto|]. by eapply parse_version_known.
  - apply find_char_absent in Eq.
    destruct (parse_version v) as [ver|] eqn:Ev; simplify_eq; simpl; (split; [constructor; simpl; eauto|]);
      split_and!; try done. intros _. split; [auto|]. by eapply parse_version_known.
Qed.

Lemma addHeader_typed field after r : request_typed r -> (COLON ∉ field) -> request_typed (addHeader field after r).
Proof.
  intros [Hs Hh Hp Hq] Hf. constructor; simpl; try done; [by apply smap_insert_sorted|].
  apply Forall_forall. intros h [-> |Hin]%smap_insert_in; [split; [done|apply trim_trimmed]|].
  by apply (proj1 (Forall_forall _ _) Hh).
Qed.

Definition pass_context (p : pass) : HttpContext := match p with More c _ => c | Done _ c _ => c end.

Lemma one_pass_typed now c b p : context_typed c -> one_pass now c b = Ok p -> context_typed (pass_context p).
Proof.
  intros [Hr Hs] H. unfold one_pass in H. unfold state_typed in Hs. destruct (state_ c) eqn:Est.
  - destruct Hs as [Hh Hv]. destruct (findCRLF b) as [crlf|]; [|simplify_eq; by split; [|unfold state_typed; simpl; rewrite Est]].
    obind. destruct r as [ok r]. destruct (processRequestLine_typed _ _ _ _ Hr Hh Hv Hr0) as (Hr' & Hh' & Ht & Hf).
    destruct ok; obind; simpl; [split; [by destruct Hr'|by apply Ht]|split; [done|]].
    unfold state_typed. simpl. auto.
  - destruct (findCRLF b) as [crlf|]; [|simplify_eq; by split; [|unfold state_typed; simpl; rewrite Est]].
    destruct (find_char COLON _) as [[field after]|] eqn:Ef; obind; simpl; split; try done.
    apply addHeader_typed; [done|]. by apply find_char_spec in Ef as [_ ?].
  - done.
  - simplify_eq. split; [done|]. unfold state_typed. simpl. by rewrite Est.
Qed.

Lemma parseRequest_typed fuel now : forall c b ok c' b', context_typed c ->
  parseRequest fuel now c b = Some (Ok (ok, c', b')) -> context_typed c'.
Proof.
  induction fuel as [|fuel IH]; intros c b ok c' b' Hc H; [done|]. simpl in H.
  destruct (one_pass now c b) as [p|f] eqn:E; [|done]. pose proof (one_pass_typed _ _ _ _ Hc E) as Hp.
  destruct p as [c1 b1|ok1 c1 b1]; [by eapply IH|]. by injection H as _ <- _.
Qed.

Lemma new_context_typed : context_typed new_HttpContext.
Proof. split; [|done]. constructor; simpl; auto; try constructor. set_solver. Qed.

(** ** Reachable contexts *)

(** The contexts of a session: a new one, one after parsing whatever the buffer
    holds, and one after [reset]. *)
Inductive context_reachable : HttpContext -> Prop :=
| reach_new : context_reachable new_HttpContext
| reach_parse fuel now c b ok c' b' :
    context_reachable c -> parseRequest fuel now c b = Some (Ok (ok, c', b')) -> context_reachable c'
| reach_reset c : context_reachable c -> context_reachable (reset c).

(** C24. Every context a session can reach is well typed, whatever bytes were
    received: the headers are in the order of the map with no field twice, no
    field has a colon and every value is trimmed on both sides, so [getHeader]
    finds each stored value; the path has no query part and the query starts
    with a question mark; once the request line is accepted method and version
    are known, before it there are no headers; the state [kExpectBody] is never
    entered. *)
Theorem context_types (c : HttpContext) : context_reachable c ->
  context_typed c /\ state_ c <> kExpectBody /\ NoDup (map fst (headers_ (request_ c))) /\
  forall field value, (field, value) ∈ headers_ (request_ c) -> getHeader field (request_ c) = value.
Proof.
  intros Hreach. assert (Hc : context_typed c).
  { induction Hreach; [apply new_context_typed|by eapply parseRequest_typed|apply new_context_typed]. }
  pose proof (sorted_keys _ (rt_sorted _ (proj1 Hc))) as Hnd. split; [done|]. split; [|split; [done|]].
  - destruct Hc as [_ Hs]. unfold state_typed in Hs. by destruct (state_ c).
  - intros field value Hin. unfold getHeader. by rewrite (smap_find_in _ _ _ Hnd Hin).
Qed.

Definition sample_input : text :=
  bytes "GET /a?x HTTP/1.1" ++ kCRLF ++ bytes "B: 2 " ++ kCRLF ++ bytes "A:1" ++ kCRLF ++ bytes "B:3" ++ kCRLF.

Definition sample_parsed : bool * HttpContext * Buffer :=
  match parseRequest 10 invalid new_HttpContext (buffer_of sample_input) with
  | Some (Ok r) => r | _ => (false, new_HttpContext, buffer_of []) end.

Lemma context_types_witness :
  headers_ (request_ sample_parsed.1.2) = [(bytes "A", bytes "1"); (bytes "B", bytes "3")] /\
  context_typed sample_parsed.1.2.
Proof.
  split; [vm_compute; reflexivity|].
  apply (context_types sample_parsed.1.2).
  apply (reach_parse 10 invalid new_HttpContext (buffer_of sample_input) true sample_parsed.1.2 sample_parsed.2
           reach_new).
  vm_compute. reflexivity.
Defined.
