(* ===== verification/HttpServer.v ===== *)
(** * HttpServer (src/src/HttpServer.h, HttpServer.cpp)

    The handlers of the HTTP server on one connection: the parser of [Http]
    runs on the input buffer of a [TcpConnection], whose operations carry the
    answers.  The server's callback is a parameter. *)

From S2P Require Import Prelude Endian StringPiece Buffer Lines Format Timestamp Channel Poller TcpConnection ConnStream Http.
Local Open Scope Z_scope.

(** A connection and the [boost::any] of its context: empty, or an [HttpContext]. *)
Record Session : Type := mkSession { conn : TcpConnection; context : option HttpContext }.

Definition defaultHttpCallback (req : HttpRequest) (resp : HttpResponse) : HttpResponse :=
  setCloseConnection true (setStatusMessage (bytes "Not Found") (setStatusCode k404NotFound resp)).

Definition bad_request : text := bytes "HTTP/1.1 400 Bad Request" ++ kCRLF ++ kCRLF.

Section Server.
Context (write : nat -> list ascii -> write_result).
Context (httpCallback_ : HttpRequest -> HttpResponse -> HttpResponse).

Definition onConnection (s : Session) : Session :=
  if connected (conn s) then mkSession (conn s) (Some new_HttpContext) else s.

Definition wants_close (req : HttpRequest) : bool :=
  let connection := getHeader (bytes "Connection") req in
  bool_decide (connection = bytes "close")
  || (bool_decide (version_ req = kHttp10) && negb (bool_decide (connection = bytes "Keep-Alive"))).

Definition onRequest (c : TcpConnection) (req : HttpRequest) : outcome TcpConnection :=
  let response := httpCallback_ req (new_HttpResponse (wants_close req)) in
  buf ← new_Buffer kInitialSize;
  buf ← appendToBuffer response buf;
  '(_, c) ← send_buffer write buf c;
  Ok (if closeConnection_ response then shutdown c else c).

(** [onMessage]; [None] when the loop of [parseRequest] does not end.  A null
    context is dereferenced. *)
Definition onMessage (receiveTime : Timestamp) (s : Session) : option (outcome Session) :=
  match context s with
  | None => Some (Err OutOfBounds)
  | Some ctx =>
      match run_parse receiveTime ctx (inputBuffer_ (conn s)) with
      | None => None
      | Some (Err f) => Some (Err f)
      | Some (Ok (ok, ctx, buf)) => Some (
          let c := set_input buf (conn s) in
          c ← (if (ok : bool) then Ok c else c ← send write bad_request c; Ok (shutdown c));
          if gotAll ctx then c ← onRequest c (request_ ctx); Ok (mkSession c (Some (reset ctx)))
          else Ok (mkSession c (Some ctx)))
      end
  end.

(** ** Which contexts a server meets *)

(** A context that waits for a request line has no method yet. *)
Definition healthy (c : HttpContext) : Prop :=
  active c = true /\ (Http.state_ c = kExpectRequestLine -> method_ (request_ c) = kInvalid).

Lemma processRequestLine_fresh line r : method_ r = kInvalid -> exists p, processRequestLine line r = Ok p.
Proof.
  intros Hr. unfold processRequestLine, setMethod. rewrite Hr.
  destruct (find_char SP line) as [[m rest]|]; [|eauto]. cbn.
  destruct (negb _); [|eauto]. destruct (find_char SP rest) as [[target v]|]; [|eauto].
  destruct (parse_version v); eauto.
Qed.

Lemma spec_pass_healthy now c s : healthy c ->
  match spec_pass now c s with
  | Err _ => False
  | Ok (SMore c' _) => healthy c'
  | Ok (SDone ok c' _) => (ok = true /\ (healthy c' \/ Http.state_ c' = kGotAll)) \/ (ok = false /\ active c' = true)
  end.
Proof.
  intros [Ha Hm]. unfold spec_pass. unfold active in Ha. destruct (Http.state_ c) eqn:E; try done.
  - destruct (break_crlf s) as [[line rest]|].
    + destruct (processRequestLine_fresh line (request_ c) (Hm eq_refl)) as [[[] r] ->]; cbn.
      * done.
      * right. unfold active. simpl. done.
    + left. split; [done|]. left. split; [unfold active; by rewrite E|auto].
  - destruct (break_crlf s) as [[line rest]|].
    + destruct (find_char COLON line) as [[field after]|]; [done|]. left. auto.
    + left. split; [done|]. left. split; [unfold active; by rewrite E|]. by rewrite E.
Qed.

Lemma spec_parse_healthy fuel now : forall c s, healthy c ->
  match spec_parse fuel now c s with
  | None => True
  | Some (Err _) => False
  | Some (Ok (ok, c', _)) => (ok = true /\ (healthy c' \/ Http.state_ c' = kGotAll)) \/ (ok = false /\ active c' = true)
  end.
Proof.
  induction fuel as [|fuel IH]; intros c s Hc; simpl; [done|].
  pose proof (spec_pass_healthy now c s Hc) as H. destruct (spec_pass now c s) as [[c' s'|ok c' s']|f]; [by apply IH|done..].
Qed.

Lemma run_parse_healthy now c b : wf b -> healthy c ->
  exists ok c' b', run_parse now c b = Some (Ok (ok, c', b')) /\ wf b' /\
    ((ok = true /\ (healthy c' \/ Http.state_ c' = kGotAll)) \/ (ok = false /\ active c' = true)).
Proof.
  intros Hb Hc. destruct (run_parse_spec now c b _ (repr_wf b Hb) (proj1 Hc)) as (r & Hp & Hr).
  pose proof (spec_parse_healthy (S (length (content b))) now c (content b) Hc) as H.
  unfold parse in Hp. rewrite Hp in H. destruct r as [[[ok c'] rest]|f]; [|done].
  destruct Hr as (b' & Hr & [Hb' _]). eauto 6.
Qed.

(** ** The invariant of a session *)

Hypothesis write_bounded : forall k data n, write k data = Wrote n -> 0 <= n <= zlen data.
Hypothesis callback_fits : forall req close, response_fits (httpCallback_ req (new_HttpResponse close)).

Record SInv (s : Session) : Prop := mkSInv {
  si_conn : CInv 0 (conn s);
  si_started : TcpConnection.state_ (conn s) <> kConnecting;
  si_context : exists ctx, context s = Some ctx /\ healthy ctx
}.

(** A connection on which the server gave up: no more output is accepted. *)
Definition refused (s : Session) : Prop :=
  CInv 0 (conn s) /\ connected (conn s) = false /\ exists ctx, context s = Some ctx /\ active ctx = true.

Lemma response_buffer resp : response_fits resp ->
  unless too_long (b ← new_Buffer kInitialSize; appendToBuffer resp b) (fun b => repr b (response_text resp)).
Proof.
  intros Hf. destruct new_Buffer_repr as (b & -> & Hb & _). cbn [mbind outcome_bind].
  exact (appendToBuffer_repr resp b [] Hb Hf).
Qed.

Definition answer (req : HttpRequest) : HttpResponse := httpCallback_ req (new_HttpResponse (wants_close req)).

Lemma onRequest_answers c req : CInv 0 c -> TcpConnection.state_ c <> kConnecting ->
  unless too_long (onRequest c req) (fun c' =>
    CInv 0 c' /\ TcpConnection.state_ c' <> kConnecting /\ inputBuffer_ c' = inputBuffer_ c /\
    (TcpConnection.state_ c = kConnected -> no_fault write ->
     sent c' ++ pending_output c' = sent c ++ pending_output c ++ response_text (answer req) /\
     TcpConnection.state_ c' = if closeConnection_ (answer req) then kDisconnecting else kConnected)).
Proof.
  intros Hi Hst. unfold onRequest. fold (answer req).
  pose proof (response_buffer (answer req) (callback_fits _ _)) as Hresp.
  destruct new_Buffer_repr as (b0 & E0 & _). rewrite E0 in *. cbn [mbind outcome_bind] in *.
  eapply unless_bind; [exact Hresp|]. intros buf _ Hbuf.
  eapply unless_bind; [apply (send_buffer_started write write_bounded buf _ c Hbuf Hi Hst)|].
  intros [b1 c1] _ (Hi1 & Hs1 & Hin1 & Hsent1). cbn [snd unless] in *. clear Hresp Hbuf E0.
  destruct (closeConnection_ (answer req)).
  - destruct (shutdown_inv c1 Hi1) as (Hi2 & _ & Hst2).
    destruct (shutdown_frame c1) as (F1 & F2 & F3 & F4).
    split; [done|]. split; [apply Hst2; congruence|]. split; [congruence|].
    intros Hc Hnf. split; [|apply F4; congruence]. unfold pending_output in *. rewrite F2, F3. by apply Hsent1.
  - split; [exact Hi1|]. split; [by rewrite Hs1|]. split; [exact Hin1|].
    intros Hc Hnf. split; [exact (Hsent1 Hc Hnf)|by rewrite Hs1].
Qed.

Lemma onMessage_inv now s : SInv s ->
  exists r, onMessage now s = Some r /\ unless too_long r (fun s' => SInv s' \/ refused s').
Proof.
  intros [Hc Hst (ctx & Hctx & Hh)]. unfold onMessage. rewrite Hctx.
  destruct (run_parse_healthy now ctx (inputBuffer_ (conn s)) (ci_in _ _ Hc) Hh)
    as (ok & ctx' & b' & -> & Hb' & Hcase). eexists; split; [done|].
  pose proof (CInv_input 0 (conn s) b' Hc Hb') as Hci.
  destruct Hcase as [[-> Hok]|[-> Hact]]; cbn [mbind outcome_bind].
  - destruct (gotAll ctx') eqn:Eg.
    + eapply unless_bind; [apply (onRequest_answers _ (request_ ctx') Hci Hst)|].
      intros c' _ (Hi' & Hst' & _). left. constructor; [done..|]. exists new_HttpContext. done.
    + destruct Hok as [Hok|Hok]; [|unfold gotAll in Eg; by rewrite bool_decide_true in Eg].
      left. constructor; [done..|eauto].
  - assert (Eg : gotAll ctx' = false)
      by (unfold gotAll, active in *; apply bool_decide_false; intros E; by rewrite E in Hact).
    rewrite Eg. eapply unless_bind; [|intros c' _ Hc'; right; exact (conj (proj1 Hc') (conj (proj2 Hc')
      (ex_intro _ ctx' (conj eq_refl Hact))))].
    eapply unless_bind; [exact (run_user_inv write write_bounded 0 _ (USend bad_request) Hci eq_refl)|].
    intros c1 _ Hi1. simpl. destruct (shutdown_inv c1 Hi1) as (? & ? & _). done.
Qed.
End Server.

(** ** Properties *)

(** A session never crashes or hangs while the server accepts its input:
    for any bytes received, in any state of the parser, [onMessage] ends, no
    assertion fails (of the parser, of the buffers or of the connection), and
    the session is again in such a state or the server has stopped the
    connection. *)
Theorem http_session_safe (write : nat -> list ascii -> write_result)
    (httpCallback_ : HttpRequest -> HttpResponse -> HttpResponse) (now : Timestamp) (s : Session)
    (Hwrite : forall k data n, write k data = Wrote n -> 0 <= n <= zlen data)
    (Hcb : forall req close, response_fits (httpCallback_ req (new_HttpResponse close)))
    (Hs : SInv s) :
  exists r, onMessage write httpCallback_ now s = Some r /\
    unless too_long r (fun s' => SInv s' \/ refused s').
Proof. by apply onMessage_inv. Qed.

Lemma default_fits req close : response_fits (defaultHttpCallback req (new_HttpResponse close)).
Proof. repeat constructor. Qed.

(** A connection that has just read some bytes. *)
Definition session_with (input : text) : Session :=
  onConnection (mkSession (set_input (buffer_of input) open_connection) None).

Lemma session_with_inv input : zlen input <= 1000000 -> SInv (session_with input).
Proof.
  intros H. constructor; [|done|by exists new_HttpContext].
  apply CInv_input; [apply open_connection_inv|apply (buffer_of_repr input H)].
Qed.

Lemma http_session_safe_witness :
  exists r, onMessage full_write defaultHttpCallback invalid (session_with (bytes "GET / HTTP/1.1" ++ kCRLF)) = Some r /\
    unless too_long r (fun s' => SInv s' \/ refused s').
Proof.
  apply http_session_safe.
  - apply full_write_bounded.
  - apply default_fits.
  - apply session_with_inv. vm_compute. discriminate.
Defined.

(** A request is answered: when the text of a well-formed request has
    arrived on a connected connection, the bytes sent (or left to send) grow by
    exactly the response of the callback, the bytes after the request stay in
    the buffer, the context is ready for the next request, and the connection
    is shut down exactly when the response says so. *)
Theorem request_answered (write : nat -> list ascii -> write_result)
    (httpCallback_ : HttpRequest -> HttpResponse -> HttpResponse) (now : Timestamp) (s : Session)
    (l : request_line) (hs : list (text * text)) (rest : text)
    (Hwrite : forall k data n, write k data = Wrote n -> 0 <= n <= zlen data)
    (Hcb : forall req close, response_fits (httpCallback_ req (new_HttpResponse close)))
    (Hnf : no_fault write) (Hl : line_ok l) (Hhs : Forall header_ok hs)
    (Hs : CInv 0 (conn s)) (Hst : TcpConnection.state_ (conn s) = kConnected)
    (Hctx : context s = Some new_HttpContext)
    (Hin : repr (inputBuffer_ (conn s)) (print_request l hs ++ rest)) :
  exists r req, onMessage write httpCallback_ now s = Some r /\
    (method_ req, path_ req, query_ req, version_ req) = (l_method l, l_path l, l_query l, l_version l) /\
    unless too_long r (fun s' =>
      let resp := answer httpCallback_ req in
      sent (conn s') ++ pending_output (conn s') = sent (conn s) ++ pending_output (conn s) ++ response_text resp /\
      repr (inputBuffer_ (conn s')) rest /\ context s' = Some new_HttpContext /\
      TcpConnection.state_ (conn s') = if closeConnection_ resp then kDisconnecting else kConnected).
Proof.
  unfold onMessage. rewrite Hctx.
  destruct (run_parse_spec now new_HttpContext _ _ Hin eq_refl) as (r & Hp & Hr).
  rewrite parse_print in Hp by done. injection Hp as <-. destruct Hr as (b' & -> & Hb').
  eexists _, (mkRequest (l_method l) (l_version l) (l_path l) (l_query l) now
    (foldl (fun m h => smap_insert h.1 h.2 m) [] hs)). split; [done|]. split; [done|]. cbn [mbind outcome_bind]. change (gotAll _) with true. cbn iota.
  eapply unless_bind; [eapply (onRequest_answers write httpCallback_ Hwrite Hcb)|].
  - apply CInv_input; [exact Hs|apply Hb'].
  - cbn. by rewrite Hst.
  - intros c' _ (_ & _ & Hi' & Hsent). destruct (Hsent Hst Hnf) as [E1 E2].
    cbn. split; [exact E1|]. split; [by rewrite Hi'|]. split; [done|exact E2].
Qed.

Lemma request_answered_witness :
  exists r req, onMessage full_write defaultHttpCallback invalid
      (session_with (print_request sample_line sample_headers ++ bytes "GET")) = Some r /\
    (method_ req, path_ req, query_ req, version_ req) = (kGet, bytes "/index", bytes "?q=1", kHttp11) /\
    unless too_long r (fun s' =>
      let resp := answer defaultHttpCallback req in
      sent (conn s') ++ pending_output (conn s') = response_text resp /\
      repr (inputBuffer_ (conn s')) (bytes "GET") /\ context s' = Some new_HttpContext /\
      TcpConnection.state_ (conn s') = if closeConnection_ resp then kDisconnecting else kConnected).
Proof.
  apply (request_answered full_write defaultHttpCallback invalid
    (session_with (print_request sample_line sample_headers ++ bytes "GET")) sample_line sample_headers (bytes "GET")).
  - apply full_write_bounded.
  - apply default_fits.
  - intros k data. done.
  - apply sample_line_ok.
  - apply sample_headers_ok.
  - apply session_with_inv. vm_compute. discriminate.
  - reflexivity.
  - reflexivity.
  - apply buffer_of_repr. vm_compute. discriminate.
Defined.

(** C40. A request line whose method is known but whose rest is not accepted is
    answered with 400 and a shutdown of the output; the line stays in the
    buffer and the method in the request, so the next bytes from the peer make
    the parser set the method twice, which fails an assertion and ends the
    process. *)
Theorem bad_request_then_abort (write : nat -> list ascii -> write_result)
    (httpCallback_ : HttpRequest -> HttpResponse -> HttpResponse) (now now' : Timestamp) (s s' : Session)
    (input line rest more : text) (req : HttpRequest) (b : Buffer)
    (Hctx : context s = Some new_HttpContext) (Hin : repr (inputBuffer_ (conn s)) input)
    (Hline : break_crlf input = Some (line, rest))
    (Hbad : processRequestLine line new_HttpRequest = Ok (false, req)) (Hm : method_ req <> kInvalid)
    (Hs' : onMessage write httpCallback_ now s = Some (Ok s')) (Hb : repr b (input ++ more)) :
  connected (conn s') = false /\
  onMessage write httpCallback_ now' (mkSession (set_input b (conn s')) (context s')) = Some (Err AssertFailed).
Proof.
  assert (Hp : parse now new_HttpContext input = Some (Ok (false, mkContext kExpectRequestLine req, input)))
    by (unfold parse; simpl; unfold spec_pass; simpl; rewrite Hline, Hbad; done).
  assert (Hp' : parse now' (mkContext kExpectRequestLine req) (input ++ more) = Some (Err AssertFailed)).
  { unfold parse; simpl. unfold spec_pass. simpl. rewrite (break_crlf_app _ _ _ more Hline). revert Hbad.
    unfold processRequestLine. destruct (find_char SP line) as [[m tl]|]; [|intros [= <-]; done].
    intros _. unfold setMethod. by rewrite (bool_decide_false (method_ req = kInvalid)). }
  revert Hs'. unfold onMessage at 1. rewrite Hctx.
  destruct (run_parse_spec now new_HttpContext _ _ Hin eq_refl) as (r & Hr & Hrun). rewrite Hp in Hr.
  injection Hr as <-. destruct Hrun as (b1 & -> & Hb1). intros [= H]. revert H.
  destruct (send write bad_request _) as [c1|f]; [|done]. cbn. intros [= <-]. split.
  - cbn. unfold shutdown, shutdownInLoop. destruct (connected c1) eqn:E; [|done].
    cbn [channel_ setState]. by destruct (isWriting (channel_ c1)).
  - unfold onMessage. cbn [context conn inputBuffer_ set_input].
    destruct (run_parse_spec now' (mkContext kExpectRequestLine req) _ _ Hb eq_refl) as (r & Hr & Hrun).
    rewrite Hp' in Hr. injection Hr as <-. by rewrite Hrun.
Qed.

Definition http2_line : text := bytes "GET / HTTP/2.0" ++ kCRLF.
Definition after_http2 : Session :=
  match onMessage full_write defaultHttpCallback invalid (session_with http2_line) with
  | Some (Ok s) => s | _ => session_with [] end.

Lemma bad_request_then_abort_witness :
  connected (conn after_http2) = false /\
  onMessage full_write defaultHttpCallback invalid
    (mkSession (set_input (buffer_of (http2_line ++ bytes "x")) (conn after_http2)) (context after_http2))
  = Some (Err AssertFailed).
Proof.
  apply (bad_request_then_abort full_write defaultHttpCallback invalid invalid (session_with http2_line) after_http2
    http2_line (bytes "GET / HTTP/2.0") [] (bytes "x")
    (mkRequest kGet kUnknown (bytes "/") [] invalid [])).
  - reflexivity.
  - apply buffer_of_repr. vm_compute. discriminate.
  - vm_compute. reflexivity.
  - vm_compute. reflexivity.
  - discriminate.
  - vm_compute. reflexivity.
  - apply buffer_of_repr. vm_compute. discriminate.
Defined.
