(* ===== verification/EventLoopThreadPool.v ===== *)
(** * EventLoopThreadPool (src/src/EventLoopThreadPool.h, EventLoopThreadPool.cpp)

    A pool of loops, one per thread, handed out in turn.  A loop is named by
    the address of its object; what starting a thread gives is a parameter. *)

From S2P Require Import Prelude Endian StringPiece Format.
Local Open Scope Z_scope.

(** [threads_] by the names of the threads. *)
Record Pool : Type := mkPool {
  baseLoop_ : Z;
  pool_name : list ascii;
  pool_started : bool;
  numThreads_ : Z;
  next_ : Z;
  threads_ : list (list ascii);
  loops_ : list Z
}.

Definition new_Pool (baseLoop : Z) (nameArg : list ascii) : Pool :=
  mkPool baseLoop nameArg false 0 0 [] [].

Definition pool_setThreadNum (numThreads : Z) (p : Pool) : Pool :=
  mkPool (baseLoop_ p) (pool_name p) (pool_started p) numThreads (next_ p) (threads_ p) (loops_ p).

(** The name of the [i]-th thread, through an array of [name_.size() + 32]. *)
Definition thread_name (name : list ascii) (i : Z) : list ascii :=
  snprintf (zlen name + 32) (StringPiece.until_nul name ++ fmt_d i).

(** [start]: the pool, and whether the callback ran on the base loop.
    [startLoop i] is the loop of the [i]-th thread. *)
Definition pool_start (startLoop : Z -> Z) (cb : bool) (p : Pool) : outcome (Pool * bool) :=
  assert_ (negb (pool_started p));;
  let idx := map Z.of_nat (seq 0 (Z.to_nat (numThreads_ p))) in
  Ok (mkPool (baseLoop_ p) (pool_name p) true (numThreads_ p) (next_ p)
        (threads_ p ++ map (thread_name (pool_name p)) idx) (loops_ p ++ map startLoop idx),
      (numThreads_ p =? 0) && cb).

(** [v[i]]: undefined outside the vector. *)
Definition vector_at (v : list Z) (i : Z) : outcome Z :=
  if i <? 0 then Err OutOfBounds
  else match v !! Z.to_nat i with Some x => Ok x | None => Err OutOfBounds end.

Definition getNextLoop (p : Pool) : outcome (Z * Pool) :=
  assert_ (pool_started p);;
  match loops_ p with
  | [] => Ok (baseLoop_ p, p)
  | _ =>
      loop ← vector_at (loops_ p) (next_ p);
      let next := next_ p + 1 in
      let next := if zlen (loops_ p) <=? u64 next then 0 else next in
      Ok (loop, mkPool (baseLoop_ p) (pool_name p) (pool_started p) (numThreads_ p) next (threads_ p) (loops_ p))
  end.

Definition getLoopForHash (hashCode : Z) (p : Pool) : outcome Z :=
  match loops_ p with
  | [] => Ok (baseLoop_ p)
  | _ => vector_at (loops_ p) (hashCode `mod` zlen (loops_ p))
  end.

Definition getAllLoops (p : Pool) : outcome (list Z) :=
  assert_ (pool_started p);;
  Ok (match loops_ p with [] => [baseLoop_ p] | loops => loops end).

(** ** Turns *)

(** [k] calls of [getNextLoop] in a row. *)
Fixpoint take_turns (k : nat) (p : Pool) : outcome (list Z * Pool) :=
  match k with
  | O => Ok ([], p)
  | S k' => '(l, p) ← getNextLoop p; '(ls, p) ← take_turns k' p; Ok (l :: ls, p)
  end.

(** The loops that serve, in order. *)
Definition workers (p : Pool) : list Z := match loops_ p with [] => [baseLoop_ p] | loops => loops end.

Definition worker (p : Pool) (k : Z) : Z := nth (Z.to_nat (k `mod` zlen (workers p))) (workers p) 0.

Record pool_ok (p : Pool) : Prop := mkPoolOk {
  po_started : pool_started p = true;
  po_next : 0 <= next_ p < zlen (workers p);
  po_size : zlen (loops_ p) < 2 ^ 31;
  po_base : loops_ p = [] -> next_ p = 0
}.

Lemma vector_at_nth v i : 0 <= i < zlen v -> vector_at v i = Ok (nth (Z.to_nat i) v 0).
Proof.
  intros H. unfold vector_at. zguard. unfold zlen in H.
  destruct (lookup_lt_is_Some_2 v (Z.to_nat i)) as [x Hx]; [lia|]. rewrite Hx.
  by rewrite (nth_lookup_Some v _ 0 x Hx).
Qed.

Lemma mod_succ k n : 0 < n -> (k + 1) `mod` n = if n <=? k `mod` n + 1 then 0 else k `mod` n + 1.
Proof.
  intros Hn. pose proof (Z.mod_pos_bound k n Hn). rewrite <- Z.add_mod_idemp_l by lia.
  destruct (Z.leb_spec n (k `mod` n + 1)).
  - replace (k `mod` n + 1) with n by lia. by apply Z_mod_same_full.
  - apply Z.mod_small. lia.
Qed.

(** One call: the loop at [next_], which then stands at the next one in turn. *)
Lemma getNextLoop_turn p : pool_ok p ->
  exists p', getNextLoop p = Ok (nth (Z.to_nat (next_ p)) (workers p) 0, p') /\ pool_ok p' /\
    workers p' = workers p /\ next_ p' = (next_ p + 1) `mod` zlen (workers p).
Proof.
  intros [Hst Hn Hs Hb]. unfold getNextLoop, workers in *. rewrite Hst. cbn [assert_ mbind outcome_bind].
  destruct (loops_ p) as [|x l] eqn:El.
  - rewrite (Hb eq_refl). exists p. split; [done|]. rewrite El. split; [|split; [done|by rewrite (Hb eq_refl)]].
    constructor; unfold workers; rewrite ?El; auto.
  - rewrite vector_at_nth by done. cbn [mbind outcome_bind].
    rewrite (uwrap_small 64) by (unfold in_u; lia).
    assert (Hm : (if zlen (x :: l) <=? next_ p + 1 then 0 else next_ p + 1) = (next_ p + 1) `mod` zlen (x :: l)).
    { rewrite mod_succ by lia. by rewrite (Z.mod_small (next_ p)) by lia. }
    eexists; split; [done|]. split; [|split; [done|exact Hm]].
    constructor; unfold workers; simpl; rewrite ?El; try done.
    rewrite Hm. apply Z.mod_pos_bound. lia.
Qed.

Lemma take_turns_spec k : forall p, pool_ok p ->
  exists p', take_turns k p = Ok (map (fun i => worker p (next_ p + Z.of_nat i)) (seq 0 k), p') /\ pool_ok p' /\
    workers p' = workers p /\ next_ p' = (next_ p + Z.of_nat k) `mod` zlen (workers p).
Proof.
  induction k as [|k IH]; intros p Hp; cbn [take_turns].
  - exists p. split; [done|]. split; [done|]. split; [done|]. rewrite Z.add_0_r.
    symmetry. apply Z.mod_small. apply Hp.
  - destruct (getNextLoop_turn p Hp) as (p1 & -> & Hp1 & Hw & Hn). cbn [mbind outcome_bind].
    destruct (IH p1 Hp1) as (p2 & -> & Hp2 & Hw2 & Hn2). cbn [mbind outcome_bind].
    pose proof (po_next _ Hp) as Hr. exists p2. split.
    + f_equal. f_equal. cbn [seq map]. f_equal.
      * unfold worker. rewrite Z.add_0_r, Z.mod_small; done.
      * rewrite <- seq_shift, map_map. apply map_ext. intros i. unfold worker. rewrite Hw, Hn.
        f_equal. f_equal. rewrite Z.add_mod_idemp_l by lia. f_equal. lia.
    + split; [done|]. split; [congruence|]. rewrite Hn2, Hw, Hn, Z.add_mod_idemp_l by lia. f_equal. lia.
Qed.

Lemma pool_start_ok startLoop cb p p' b :
  pool_start startLoop cb p = Ok (p', b) -> loops_ p = [] -> next_ p = 0 -> numThreads_ p < 2 ^ 31 -> pool_ok p'.
Proof.
  unfold pool_start. destruct (negb (pool_started p)); [|done]. cbn [assert_ mbind outcome_bind].
  intros [= <- _] El En Hn. rewrite El. simpl app.
  assert (Hz : zlen (map startLoop (map Z.of_nat (seq 0 (Z.to_nat (numThreads_ p))))) = Z.max 0 (numThreads_ p))
    by (unfold zlen; rewrite !length_map, length_seq; lia).
  constructor; cbn [pool_started next_ loops_]; rewrite ?En; try done; [|lia].
  unfold workers; cbn [loops_ baseLoop_].
  destruct (map startLoop _) as [|x l]; [done|]. rewrite zlen_cons. pose proof (zlen_nonneg l). lia.
Qed.

(** ** Properties *)

(** Round robin: after [start], the calls of [getNextLoop] hand out the
    loops of the threads in the order of their creation, over and over: the
    [k]-th call gives loop [k mod n] (the base loop when there are no
    threads), and no call reads outside the vector. *)
Theorem round_robin (startLoop : Z -> Z) (cb : bool) (baseLoop n : Z) (name : list ascii) (k : nat)
    (Hn : 0 <= n < 2 ^ 31) :
  exists p b, pool_start startLoop cb (pool_setThreadNum n (new_Pool baseLoop name)) = Ok (p, b) /\
    workers p = (if n =? 0 then [baseLoop] else map (fun i => startLoop (Z.of_nat i)) (seq 0 (Z.to_nat n))) /\
    exists p', take_turns k p = Ok (map (fun i => worker p (Z.of_nat i)) (seq 0 k), p').
Proof.
  eexists _, _. split; [done|]. split.
  - unfold workers. cbn [loops_ app numThreads_ pool_setThreadNum baseLoop_ new_Pool]. rewrite map_map. destruct (Z.eqb_spec n 0) as [->|Hz]; [done|].
    destruct (Z.to_nat n) eqn:E; [lia|done].
  - edestruct (take_turns_spec k) as (p' & Hp' & _); [|exists p'; exact Hp'].
    eapply (pool_start_ok startLoop cb (pool_setThreadNum n (new_Pool baseLoop name))); [done..|]. simpl. lia.
Qed.

Lemma round_robin_witness :
  exists p b, pool_start (fun i => 100 + i) true (pool_setThreadNum 3 (new_Pool 7 (bytes "pool"))) = Ok (p, b) /\
    workers p = [100; 101; 102] /\
    exists p', take_turns 5 p = Ok (map (fun i => worker p (Z.of_nat i)) (seq 0 5), p').
Proof. apply (round_robin (fun i => 100 + i) true 7 3 (bytes "pool") 5). lia. Defined.
