(* ===== verification/InetAddress.v ===== *)
(** * Addresses (src/src/InetAddress.h, InetAddress.cpp and the address functions of SocketsOps.cpp)

    An [InetAddress] is a union of [sockaddr_in] and [sockaddr_in6]: 28 bytes of
    memory, of which the IPv4 constructor writes the first sixteen.  The text
    conversions of the system ([inet_ntop], [inet_pton]) are an interface. *)

From S2P Require Import Prelude Endian StringPiece Format.
Local Open Scope Z_scope.

Definition AF_INET : Z := 2.
Definition AF_INET6 : Z := 10.
Definition kInaddrAny : Z := 0.
Definition kInaddrLoopback : Z := 2130706433.   (* 127.0.0.1 *)

(** The bytes of the object. *)
Record InetAddress : Type := mkAddr { mem : list ascii }.

(** The bytes at an offset, and the memory after a store. *)
Definition load (off n : Z) (m : list ascii) : list ascii := zslice off (off + n) m.
Definition store (off : Z) (bs m : list ascii) : list ascii := ztake off m ++ bs ++ zdrop (off + zlen bs) m.

(** The fields: [sin_family] and [sin6_family] share offset 0, [sin_port] and
    [sin6_port] offset 2; [sin_addr] is at 4, [sin6_addr] at 8, [sin6_scope_id] at 24. *)
Definition family (a : InetAddress) : Z := le_value (load 0 2 (mem a)).
Definition portNetEndian (a : InetAddress) : Z := le_value (load 2 2 (mem a)).
Definition sin_addr (a : InetAddress) : list ascii := load 4 4 (mem a).
Definition sin6_addr (a : InetAddress) : list ascii := load 8 16 (mem a).
Definition sin6_scope_id (a : InetAddress) : Z := le_value (load 24 4 (mem a)).

Definition sizeof_in : Z := 16.
Definition sizeof_in6 : Z := 28.

Definition memZero (n : Z) (m : list ascii) : list ascii := store 0 (replicate (Z.to_nat n) StringPiece.NUL) m.

(** [in6addr_loopback] and [in6addr_any]. *)
Definition in6addr_loopback : list ascii := replicate 15 StringPiece.NUL ++ ["001"%char].
Definition in6addr_any : list ascii := replicate 16 StringPiece.NUL.

(** The constructor from a port, in uninitialised memory [m]. *)
Definition new_InetAddress (m : list ascii) (port : Z) (loopbackOnly ipv6 : bool) : InetAddress :=
  mkAddr (
    if ipv6 then
      let m := memZero sizeof_in6 m in
      let m := store 0 (le_bytes 2 AF_INET6) m in
      let m := store 8 (if loopbackOnly then in6addr_loopback else in6addr_any) m in
      store 2 (le_bytes 2 (hostToNetwork16 port)) m
    else
      let m := memZero sizeof_in m in
      let m := store 0 (le_bytes 2 AF_INET) m in
      let m := store 4 (le_bytes 4 (hostToNetwork32 (if loopbackOnly then kInaddrLoopback else kInaddrAny))) m in
      store 2 (le_bytes 2 (hostToNetwork16 port)) m).

Definition setSockAddrInet6 (addr6 : list ascii) (a : InetAddress) : InetAddress := mkAddr addr6.

Definition toPort (a : InetAddress) : Z := networkToHost16 (portNetEndian a).

Definition ipNetEndian (a : InetAddress) : outcome Z :=
  assert_ (family a =? AF_INET);; Ok (le_value (sin_addr a)).

Definition setScopeId (scope_id : Z) (a : InetAddress) : InetAddress :=
  if family a =? AF_INET6 then mkAddr (store 24 (le_bytes 4 scope_id) (mem a)) else a.

(** ** Text *)

(** What the system promises of its conversions: the text of an address is
    short and has no NUL, and is read back as the same address. *)
Class InetText : Type := {
  inet_ntop : Z -> list ascii -> list ascii;
  inet_pton : Z -> list ascii -> option (list ascii)
}.

Definition addr_len (af : Z) : Z := if af =? AF_INET6 then 16 else 4.
Definition text_len (af : Z) : Z := if af =? AF_INET6 then 45 else 15.

Class InetTextSpec `{InetText} : Prop := {
  ntop_len : forall af bs, af = AF_INET \/ af = AF_INET6 -> zlen bs = addr_len af ->
    zlen (inet_ntop af bs) <= text_len af /\ (StringPiece.NUL ∉ inet_ntop af bs);
  pton_len : forall af ip bs, af = AF_INET \/ af = AF_INET6 -> inet_pton af ip = Some bs -> zlen bs = addr_len af;
  pton_ntop : forall af bs, af = AF_INET \/ af = AF_INET6 -> zlen bs = addr_len af ->
    inet_pton af (inet_ntop af bs) = Some bs
}.

Section Text.
Context `{InetText}.

(** [sockets::toIp(buf, size, addr)] on a zeroed array, as the C string it holds. *)
Definition sockets_toIp (size : Z) (a : InetAddress) : outcome (list ascii) :=
  if family a =? AF_INET then
    assert_ (16 <=? size);; Ok (inet_ntop AF_INET (sin_addr a))
  else if family a =? AF_INET6 then
    assert_ (46 <=? size);; Ok (inet_ntop AF_INET6 (sin6_addr a))
  else Ok [].

Definition sockets_toIpPort (size : Z) (a : InetAddress) : outcome (list ascii) :=
  buf ← sockets_toIp size a;
  let end_ := zlen buf in
  let port := networkToHost16 (portNetEndian a) in
  assert_ (end_ <? size);;
  Ok (buf ++ snprintf (size - end_) (":"%char :: fmt_d port)).

Definition toIp (a : InetAddress) : outcome (list ascii) := sockets_toIp 64 a.
Definition toIpPort (a : InetAddress) : outcome (list ascii) := sockets_toIpPort 64 a.

(** [sockets::fromIpPort], its two overloads. *)
Definition fromIpPort4 (ip : list ascii) (port : Z) (m : list ascii) : outcome (list ascii) :=
  let m := store 0 (le_bytes 2 AF_INET) m in
  let m := store 2 (le_bytes 2 (hostToNetwork16 port)) m in
  match inet_pton AF_INET ip with
  | Some bs => Ok (store 4 bs m)
  | None => Err AssertFailed
  end.

Definition fromIpPort6 (ip : list ascii) (port : Z) (m : list ascii) : outcome (list ascii) :=
  let m := store 0 (le_bytes 2 AF_INET6) m in
  let m := store 2 (le_bytes 2 (hostToNetwork16 port)) m in
  match inet_pton AF_INET6 ip with
  | Some bs => Ok (store 8 bs m)
  | None => Err AssertFailed
  end.

(** The constructor from a text and a port. *)
Definition new_InetAddress_ip (m ip : list ascii) (port : Z) (ipv6 : bool) : outcome InetAddress :=
  if ipv6 then m ← fromIpPort6 ip port (memZero sizeof_in6 m); Ok (mkAddr m)
  else m ← fromIpPort4 ip port (memZero sizeof_in m); Ok (mkAddr m).

(** The answer of [gethostbyname_r]: type, length and bytes of the first address. *)
Definition resolve (answer : option (Z * Z * list ascii)) (out : InetAddress) : outcome (bool * InetAddress) :=
  match answer with
  | Some (h_addrtype, h_length, h_addr) =>
      assert_ ((h_addrtype =? AF_INET) && (h_length =? 4));;
      Ok (true, mkAddr (store 4 h_addr (mem out)))
  | None => Ok (false, out)
  end.
End Text.

(** [sockets::isSelfConnect], from the two addresses of the socket. *)
Definition isSelfConnect (localaddr peeraddr : InetAddress) : bool :=
  if family localaddr =? AF_INET then
    (portNetEndian localaddr =? portNetEndian peeraddr)
    && (le_value (sin_addr localaddr) =? le_value (sin_addr peeraddr))
  else if family localaddr =? AF_INET6 then
    (portNetEndian localaddr =? portNetEndian peeraddr)
    && bool_decide (sin6_addr localaddr = sin6_addr peeraddr)
  else false.

(** ** Loads and stores *)

Lemma zlen_store off bs m : 0 <= off -> off + zlen bs <= zlen m -> zlen (store off bs m) = zlen m.
Proof.
  intros. pose proof (zlen_nonneg bs). unfold store. rewrite !zlen_app, zlen_ztake, zlen_zdrop; lia.
Qed.

Lemma load_store_same off n bs m : 0 <= off -> n = zlen bs -> off + n <= zlen m -> load off n (store off bs m) = bs.
Proof.
  intros Ho -> Hm. pose proof (zlen_nonneg bs). unfold load, store.
  apply zslice_mid; rewrite zlen_ztake; lia.
Qed.

Lemma load_store_before off n o bs m :
  0 <= off -> 0 <= n -> off + n <= o -> o <= zlen m -> load off n (store o bs m) = load off n m.
Proof.
  intros. unfold load, store, zslice, ztake, zdrop. rewrite !drop_app_le by (rewrite length_take; unfold zlen in *; lia).
  rewrite take_app_le by (rewrite length_drop, length_take; unfold zlen in *; lia).
  rewrite !take_drop_commute, take_take. do 2 f_equal. lia.
Qed.

Lemma load_store_after off n o bs m :
  0 <= o -> o + zlen bs <= off -> 0 <= n -> off + n <= zlen m -> load off n (store o bs m) = load off n m.
Proof.
  intros. pose proof (zlen_nonneg bs). unfold load, store, zslice. f_equal.
  rewrite app_assoc, zdrop_app_ge; rewrite zlen_app, zlen_ztake by lia; [|lia].
  rewrite zdrop_zdrop by lia. f_equal. lia.
Qed.

(** ** Lemmas on the constructors *)

Lemma zlen_memZero n m : 0 <= n <= zlen m -> zlen (memZero n m) = zlen m.
Proof. intros. unfold memZero. apply zlen_store; rewrite ?zlen_replicate; lia. Qed.

(** Lengths of memory after stores, and loads from it. *)
Ltac addr_len :=
  repeat first [rewrite zlen_le_bytes | rewrite zlen_memZero by addr_len | rewrite zlen_store by addr_len]; lia.
Ltac address :=
  repeat first
    [ rewrite load_store_same by addr_len
    | rewrite load_store_before by addr_len
    | rewrite load_store_after by addr_len ]; try done.

(** The fields of an address written by a constructor: the family, the port
    and, at the offset of the family, the address. *)
Lemma fields_written m af port off bs :
  zlen m = sizeof_in6 -> 4 <= off -> off + zlen bs <= sizeof_in6 -> in_u 16 port -> in_u 16 af ->
  let a := mkAddr (store 2 (le_bytes 2 (hostToNetwork16 port)) (store off bs (store 0 (le_bytes 2 af) m))) in
  let a' := mkAddr (store off bs (store 2 (le_bytes 2 (hostToNetwork16 port)) (store 0 (le_bytes 2 af) m))) in
  (family a = af /\ toPort a = port /\ load off (zlen bs) (mem a) = bs) /\
  (family a' = af /\ toPort a' = port /\ load off (zlen bs) (mem a') = bs).
Proof.
  unfold sizeof_in6. intros Hm Ho Hb Hport Haf. pose proof (zlen_nonneg bs).
  unfold family, toPort, portNetEndian, hostToNetwork16, networkToHost16. cbn [mem].
  assert (Hport' : bswap 2 (le_value (le_bytes 2 (bswap 2 port))) = port).
  { rewrite le_value_bytes. change (width 2) with 16. rewrite uwrap_small by apply (bswap_range 2).
    rewrite bswap_involutive. by apply uwrap_small. }
  assert (Haf' : le_value (le_bytes 2 af) = af) by (rewrite le_value_bytes; by apply uwrap_small).
  split_and!; address.
Qed.

Lemma toIpPort_text `{InetTextSpec} a ip :
  toIp a = Ok ip -> family a = AF_INET \/ family a = AF_INET6 -> zlen (mem a) = sizeof_in6 -> in_u 16 (toPort a) ->
  toIpPort a = Ok (ip ++ ":"%char :: fmt_d (toPort a)) /\ zlen (ip ++ ":"%char :: fmt_d (toPort a)) <= 51.
Proof.
  unfold toIp, toIpPort, sockets_toIpPort, in_u, toPort. intros Hip Haf Hmem Hport. rewrite Hip.
  assert (Hl : zlen ip <= 45).
  { revert Hip. unfold sockets_toIp, sizeof_in6 in *.
    destruct Haf as [Haf|Haf]; rewrite Haf; simpl; intros [= <-].
    - destruct (ntop_len AF_INET (sin_addr a)) as [Hl _]; [by left| |change (text_len AF_INET) with 15 in Hl; lia].
      unfold sin_addr, load. rewrite zlen_zslice; [done|lia..].
    - destruct (ntop_len AF_INET6 (sin6_addr a)) as [Hl _]; [by right| |exact Hl].
      unfold sin6_addr, load. rewrite zlen_zslice; [done|lia..]. }
  pose proof (zlen_fmt_d 5 (networkToHost16 (portNetEndian a)) ltac:(lia) ltac:(simpl; lia)) as Hd.
  pose proof (zlen_nonneg ip). cbn [mbind outcome_bind]. zguard. rewrite snprintf_fits by (rewrite zlen_cons; lia).
  split; [done|]. rewrite zlen_app, zlen_cons. lia.
Qed.

(** ** Properties *)

(** C33. An endpoint survives the trip through its text: the address built from
    the text of an IPv4 or IPv6 address and a port has that family and port,
    prints as the same text, and prints with its port as the text, a colon and
    the decimal port, which always fits the arrays of the callers. *)
Theorem endpoint_roundtrip `{InetTextSpec} (m bs : list ascii) (port : Z) (ipv6 : bool) :
  let af := if ipv6 then AF_INET6 else AF_INET in
  zlen m = sizeof_in6 -> zlen bs = addr_len af -> in_u 16 port ->
  exists a, new_InetAddress_ip m (inet_ntop af bs) port ipv6 = Ok a /\
    family a = af /\ toPort a = port /\ toIp a = Ok (inet_ntop af bs) /\
    toIpPort a = Ok (inet_ntop af bs ++ ":"%char :: fmt_d port) /\
    zlen (inet_ntop af bs ++ ":"%char :: fmt_d port) <= 51.
Proof.
  intros af Hm Hbs Hport.
  assert (Haf : af = AF_INET \/ af = AF_INET6) by (unfold af; destruct ipv6; auto).
  assert (Hbuild : exists a, new_InetAddress_ip m (inet_ntop af bs) port ipv6 = Ok a /\
    family a = af /\ toPort a = port /\ toIp a = Ok (inet_ntop af bs) /\ zlen (mem a) = sizeof_in6).
  { pose proof (pton_ntop af bs Haf Hbs) as Hp. unfold new_InetAddress_ip, fromIpPort4, fromIpPort6, toIp, sockets_toIp.
    subst af. destruct ipv6; rewrite Hp; cbn [mbind outcome_bind]; eexists; (split; [reflexivity|]).
    - destruct (fields_written (memZero sizeof_in6 m) AF_INET6 port 8 bs) as (_ & F & P & A);
        rewrite ?zlen_memZero by (unfold sizeof_in6 in *; lia); rewrite ?Hbs; try done.
      rewrite F, P. unfold sin6_addr. rewrite Hbs in A. change (addr_len AF_INET6) with 16 in *. rewrite A.
      unfold sizeof_in, sizeof_in6 in *. cbn [mem]. split_and!; try done; addr_len.
    - destruct (fields_written (memZero sizeof_in m) AF_INET port 4 bs) as (_ & F & P & A);
        rewrite ?zlen_memZero by (unfold sizeof_in, sizeof_in6 in *; lia); rewrite ?Hbs; try done.
      rewrite F, P. unfold sin_addr. rewrite Hbs in A. change (addr_len AF_INET) with 4 in *. rewrite A.
      unfold sizeof_in, sizeof_in6 in *. cbn [mem]. split_and!; try done; addr_len. }
  destruct Hbuild as (a & Ha & Hf & Hp & Hi & Hl). exists a. split_and!; try done; rewrite <- Hp;
    apply toIpPort_text; rewrite ?Hf, ?Hp; auto.
Qed.

(** A simple text form: two letters for each byte. *)
Definition letters (c : ascii) : list ascii :=
  [byte_of_Z (97 + Z_of_byte c / 16); byte_of_Z (97 + Z_of_byte c mod 16)].

Fixpoint unletters (s : list ascii) : option (list ascii) :=
  match s with
  | [] => Some []
  | hi :: lo :: s' =>
      match unletters s' with
      | Some r => Some (byte_of_Z (16 * (Z_of_byte hi - 97) + (Z_of_byte lo - 97)) :: r)
      | None => None
      end
  | _ => None
  end.

#[export] Instance letter_text : InetText := {
  inet_ntop := fun _ bs => concat (map letters bs);
  inet_pton := fun af s => match unletters s with
                           | Some bs => if zlen bs =? addr_len af then Some bs else None
                           | None => None
                           end
}.

Lemma letters_byte c :
  byte_of_Z (16 * (Z_of_byte (byte_of_Z (97 + Z_of_byte c / 16)) - 97) +
             (Z_of_byte (byte_of_Z (97 + Z_of_byte c mod 16)) - 97)) = c /\ (StringPiece.NUL ∉ letters c).
Proof.
  split; [by destruct c as [[] [] [] [] [] [] [] []]|].
  assert (H : forallb (fun x => negb (bool_decide (StringPiece.NUL = x))) (letters c) = true)
    by (by destruct c as [[] [] [] [] [] [] [] []]).
  intros Hin. rewrite forallb_forall in H. apply list_elem_of_In, H in Hin.
  by rewrite bool_decide_true in Hin.
Qed.

#[export] Instance letter_text_spec : InetTextSpec.
Proof.
  assert (Hback : forall bs, unletters (concat (map letters bs)) = Some bs).
  { induction bs as [|c bs IH]; [done|]. simpl. rewrite IH. by rewrite (proj1 (letters_byte c)). }
  assert (Hlen : forall bs, zlen (concat (map letters bs)) = 2 * zlen bs).
  { induction bs as [|c bs IH]; [done|]. simpl. rewrite !zlen_cons, IH. lia. }
  split; unfold inet_ntop, inet_pton, letter_text.
  - intros af bs Haf Hbs. rewrite Hlen, Hbs. split; [by destruct Haf as [-> | ->]|].
    clear. induction bs as [|c bs IH]; [apply not_elem_of_nil|]. cbn [map concat]. rewrite elem_of_app.
    intros [?|?]; [by apply (letters_byte c)|done].
  - intros af ip bs _. destruct (unletters ip) as [r|]; [|done].
    destruct (Z.eqb_spec (zlen r) (addr_len af)); [|done]. by intros [= <-].
  - intros af bs _ Hbs. rewrite Hback. by rewrite (proj2 (Z.eqb_eq _ _) Hbs).
Qed.

Lemma endpoint_roundtrip_witness :
  exists a, new_InetAddress_ip (replicate 28 "x"%char) (inet_ntop AF_INET (bytes "abcd")) 8080 false = Ok a /\
    family a = AF_INET /\ toPort a = 8080 /\ toIp a = Ok (inet_ntop AF_INET (bytes "abcd")) /\
    toIpPort a = Ok (inet_ntop AF_INET (bytes "abcd") ++ ":"%char :: fmt_d 8080) /\
    zlen (inet_ntop AF_INET (bytes "abcd") ++ ":"%char :: fmt_d 8080) <= 51.
Proof.
  apply (endpoint_roundtrip (replicate 28 "x"%char) (bytes "abcd") 8080 false).
  - reflexivity.
  - reflexivity.
  - unfold in_u. lia.
Defined.
