(* ===== verification/Acceptor.v ===== *)
(** * Acceptor (src/src/Acceptor.h, Acceptor.cpp, Socket.cpp and the system calls of SocketsOps.cpp)

    The kernel is a parameter: each system call gives a value or an error, and
    the new state of the kernel.  [errno] is part of the state of the process,
    as the code saves, tests and overwrites it. *)

From S2P Require Import Prelude Endian StringPiece Format InetAddress Channel Poller.
Local Open Scope Z_scope.

Definition EPERM : Z := 1.
Definition EINTR : Z := 4.
Definition EBADF : Z := 9.
Definition EAGAIN : Z := 11.
Definition EMFILE : Z := 24.
Definition EPROTO : Z := 71.
Definition ECONNABORTED : Z := 103.

Definition O_NONBLOCK : Z := 2048.
Definition FD_CLOEXEC : Z := 1.

Inductive fcntl_cmd : Type := F_GETFL | F_SETFL | F_GETFD | F_SETFD.

(** The answer of a system call. *)
Inductive sysret (A : Type) : Type := Ret (a : A) | Fail (errno : Z).
Arguments Ret {A}. Arguments Fail {A}.

(** The calls this component makes. *)
Class Sockets (K : Type) : Type := {
  sys_socket : Z -> K -> sysret Z * K;
  sys_bind : Z -> list ascii -> K -> sysret Z * K;
  sys_listen : Z -> K -> sysret Z * K;
  sys_accept : Z -> K -> sysret (Z * list ascii) * K;
  sys_fcntl : Z -> fcntl_cmd -> Z -> K -> sysret Z * K;
  sys_setsockopt : Z -> Z -> Z -> K -> sysret Z * K;
  sys_open_null : K -> sysret Z * K;
  sys_close : Z -> K -> sysret Z * K
}.

Definition SO_REUSEADDR : Z := 2.
Definition SO_REUSEPORT : Z := 15.
Definition SO_KEEPALIVE : Z := 9.
Definition TCP_NODELAY : Z := 1.

(** What the code relies on: descriptors given out are not negative, and
    fcntl(2) of a negative descriptor fails with EBADF and changes nothing. *)
Class SocketsSpec (K : Type) `{Sockets K} : Prop := {
  fcntl_negative : forall fd cmd arg k, fd < 0 -> sys_fcntl fd cmd arg k = (Fail EBADF, k);
  accept_nonneg : forall fd k connfd addr k', sys_accept fd k = (Ret (connfd, addr), k') -> 0 <= connfd
}.

(** The process: the kernel and [errno]. *)
Record Os (K : Type) : Type := mkOs { kernel : K; errno : Z }.
Arguments mkOs {K}. Arguments kernel {K}. Arguments errno {K}.

Section Accept.
Context {K : Type} `{Sockets K}.

(** A call returns its value, or -1 and sets [errno]. *)
Definition syscall {A} (failed : A) (f : K -> sysret A * K) (o : Os K) : A * Os K :=
  match f (kernel o) with
  | (Ret a, k) => (a, mkOs k (errno o))
  | (Fail e, k) => (failed, mkOs k e)
  end.

(** ** SocketsOps *)

Definition setNonBlockAndCloseOnExec (sockfd : Z) (o : Os K) : Os K :=
  let '(flags, o) := syscall (-1) (sys_fcntl sockfd F_GETFL 0) o in
  let '(_, o) := syscall (-1) (sys_fcntl sockfd F_SETFL (Z.lor flags O_NONBLOCK)) o in
  let '(flags, o) := syscall (-1) (sys_fcntl sockfd F_GETFD 0) o in
  let '(_, o) := syscall (-1) (sys_fcntl sockfd F_SETFD (Z.lor flags FD_CLOEXEC)) o in
  o.

(** The errors after which [accept] restores [errno]. *)
Definition transient (e : Z) : bool :=
  (e =? EAGAIN) || (e =? ECONNABORTED) || (e =? EINTR) || (e =? EPROTO) || (e =? EPERM) || (e =? EMFILE).

Definition sockets_accept (sockfd : Z) (addr : list ascii) (o : Os K) : Z * list ascii * Os K :=
  let '((connfd, addr), o) := syscall (-1, addr) (sys_accept sockfd) o in
  let o := setNonBlockAndCloseOnExec connfd o in
  if connfd <? 0 then
    let savedErrno := errno o in
    (connfd, addr, if transient savedErrno then mkOs (kernel o) savedErrno else o)
  else (connfd, addr, o).

Definition createNonblockingOrDie (family : Z) (o : Os K) : outcome (Z * Os K) :=
  let '(sockfd, o) := syscall (-1) (sys_socket family) o in
  assert_ (0 <? sockfd);; Ok (sockfd, o).

Definition bindOrDie (sockfd : Z) (addr : list ascii) (o : Os K) : outcome (Os K) :=
  let '(ret, o) := syscall (-1) (sys_bind sockfd addr) o in
  assert_ (negb (ret =? -1));; Ok o.

Definition listenOrDie (sockfd : Z) (o : Os K) : outcome (Os K) :=
  let '(ret, o) := syscall (-1) (sys_listen sockfd) o in
  assert_ (negb (ret =? -1));; Ok o.

(** The call is inside the assertion. *)
Definition sockets_close (sockfd : Z) (o : Os K) : outcome (Os K) :=
  let '(ret, o) := syscall (-1) (sys_close sockfd) o in
  assert_ (ret =? 0);; Ok o.

(** ** Socket: a descriptor and its options *)

Definition set_option (sockfd opt : Z) (on : bool) (o : Os K) : Os K :=
  snd (syscall (-1) (sys_setsockopt sockfd opt (if on then 1 else 0)) o).

Definition setTcpNoDelay (sockfd : Z) (on : bool) (o : Os K) : Os K := set_option sockfd TCP_NODELAY on o.
Definition setReuseAddr (sockfd : Z) (on : bool) (o : Os K) : Os K := set_option sockfd SO_REUSEADDR on o.
Definition setReusePort (sockfd : Z) (on : bool) (o : Os K) : Os K := set_option sockfd SO_REUSEPORT on o.
Definition setKeepAlive (sockfd : Z) (on : bool) (o : Os K) : Os K := set_option sockfd SO_KEEPALIVE on o.

(** [Socket::accept]: the peer address is written only on success. *)
Definition socket_accept (sockfd : Z) (peeraddr : InetAddress) (o : Os K) : Z * InetAddress * Os K :=
  let '(connfd, addr, o) := sockets_accept sockfd (replicate 28 StringPiece.NUL) o in
  (connfd, if 0 <=? connfd then setSockAddrInet6 addr peeraddr else peeraddr, o).

(** ** The object *)

(** [acc_reg] is what the poller knows of the channel (see TcpConnection), and
    [acc_protocol] whether the calls kept to the contract of Poller.v. *)
Record Acceptor : Type := mkAcceptor {
  acceptSocket_ : Z;
  acceptChannel_ : Channel;
  acc_reg : option (option Z);
  acc_protocol : bool;
  hasCallback : bool;      (** [newConnectionCallback_] is set *)
  listenning_ : bool;
  idleFd_ : Z
}.

Definition new_Acceptor (listenAddr : InetAddress) (reuseport : bool) (o : Os K) : outcome (Acceptor * Os K) :=
  '(fd, o) ← createNonblockingOrDie (family listenAddr) o;
  let '(idle, o) := syscall (-1) sys_open_null o in
  assert_ (0 <=? idle);;
  let o := setReuseAddr fd true o in
  let o := setReusePort fd reuseport o in
  o ← bindOrDie fd (mem listenAddr) o;
  Ok (mkAcceptor fd (new_Channel fd) None true false false idle, o).

Definition setNewConnectionCallback (a : Acceptor) : Acceptor :=
  mkAcceptor (acceptSocket_ a) (acceptChannel_ a) (acc_reg a) (acc_protocol a) true (listenning_ a) (idleFd_ a).

(** A change of the interest of the channel. *)
Definition acc_interest (op : interest_op) (a : Acceptor) : Acceptor :=
  let ch := set_added (apply_interest op (acceptChannel_ a)) true in
  let mask := events_ ch in
  let r := match acc_reg a with
           | Some _ => if mask =? 0 then None else Some mask
           | None => Some mask
           end in
  let fine := match acc_reg a with Some None => negb (mask =? 0) | _ => true end in
  mkAcceptor (acceptSocket_ a) ch (Some r) (acc_protocol a && fine) (hasCallback a) (listenning_ a) (idleFd_ a).

Definition acc_remove (a : Acceptor) : outcome Acceptor :=
  assert_ (isNoneEvent (acceptChannel_ a));;
  Ok (mkAcceptor (acceptSocket_ a) (set_added (acceptChannel_ a) false) None
        (acc_protocol a && bool_decide (acc_reg a = Some None)) (hasCallback a) (listenning_ a) (idleFd_ a)).

Definition listen (a : Acceptor) (o : Os K) : outcome (Acceptor * Os K) :=
  let a := mkAcceptor (acceptSocket_ a) (acceptChannel_ a) (acc_reg a) (acc_protocol a) (hasCallback a) true (idleFd_ a) in
  o ← listenOrDie (acceptSocket_ a) o;
  Ok (acc_interest enableReading a, o).

(** [handleRead]: the acceptor, the process, and the descriptor and address
    given to the callback of the server, if it is called. *)
Definition handleRead (a : Acceptor) (peerAddr : InetAddress) (o : Os K)
  : outcome (Acceptor * Os K * option (Z * InetAddress)) :=
  let '(connfd, peerAddr, o) := socket_accept (acceptSocket_ a) peerAddr o in
  if 0 <=? connfd then
    if hasCallback a then Ok (a, o, Some (connfd, peerAddr))
    else o ← sockets_close connfd o; Ok (a, o, None)
  else if errno o =? EMFILE then
    let '(_, o) := syscall (-1) (sys_close (idleFd_ a)) o in
    let '((idle, _), o) := syscall (-1, []) (sys_accept (acceptSocket_ a)) o in
    let '(_, o) := syscall (-1) (sys_close idle) o in
    let '(idle, o) := syscall (-1) sys_open_null o in
    Ok (mkAcceptor (acceptSocket_ a) (acceptChannel_ a) (acc_reg a) (acc_protocol a) (hasCallback a)
          (listenning_ a) idle, o, None)
  else Ok (a, o, None).

(** The destructor, with those of its members. *)
Definition delete_Acceptor (a : Acceptor) (o : Os K) : outcome (Acceptor * Os K) :=
  a ← acc_remove (acc_interest disableAll a);
  let '(_, o) := syscall (-1) (sys_close (idleFd_ a)) o in
  o ← sockets_close (acceptSocket_ a) o;
  Ok (a, o).

(** ** Lemmas *)

Context `{!SocketsSpec K}.

Lemma syscall_fcntl_negative fd cmd arg o : fd < 0 ->
  syscall (-1) (sys_fcntl fd cmd arg) o = (-1, mkOs (kernel o) EBADF).
Proof. intros Hfd. unfold syscall. by rewrite fcntl_negative. Qed.

Lemma setNonBlock_negative fd o : fd < 0 -> setNonBlockAndCloseOnExec fd o = mkOs (kernel o) EBADF.
Proof. intros Hfd. unfold setNonBlockAndCloseOnExec. by rewrite !syscall_fcntl_negative by done. Qed.

(** On success the callback gets the descriptor and the peer's address, and
    the acceptor is unchanged. *)
Lemma handleRead_success a peer o connfd addr k :
  hasCallback a = true -> sys_accept (acceptSocket_ a) (kernel o) = (Ret (connfd, addr), k) ->
  exists o', handleRead a peer o = Ok (a, o', Some (connfd, mkAddr addr)).
Proof.
  intros Hcb Hacc. pose proof (accept_nonneg _ _ _ _ _ Hacc) as Hfd.
  unfold handleRead, socket_accept, sockets_accept. unfold syscall at 1. rewrite Hacc. zguard.
  rewrite Hcb. eauto.
Qed.

(** The contract with the poller holds if the acceptor listened. *)
Lemma listen_then_delete_protocol a o a1 o1 o' :
  acc_protocol a = true -> acc_reg a = None -> listen a o = Ok (a1, o1) ->
  unless (fun _ => True) (delete_Acceptor a1 o') (fun p => acc_protocol p.1 = true).
Proof.
  intros Hp Hr. unfold listen, listenOrDie. destruct (syscall _ _ o) as [ret o2].
  destruct (negb (ret =? -1)); [|done]. cbn [assert_ mbind outcome_bind]. intros [= <- _].
  unfold delete_Acceptor, acc_interest, acc_remove, sockets_close. simpl. rewrite Hp, Hr. simpl.
  repeat match goal with |- context [syscall ?x ?y ?z] => destruct (syscall x y z) end.
  by destruct (_ =? 0).
Qed.
End Accept.

(** ** Properties *)

(** The reserve descriptor is never used: when accept(2) fails, with whatever
    error (in particular when the process has no descriptor left), [errno] is
    EBADF by the time it is tested, because the flags of descriptor -1 are set
    first.  The handler then returns with the acceptor unchanged and the kernel
    as accept(2) left it, the waiting connection included. *)
Theorem accept_failure_ignored {K : Type} `{SocketsSpec K} (a : Acceptor) (peer : InetAddress) (o : Os K) (e : Z) (k : K)
    (Hfail : sys_accept (acceptSocket_ a) (kernel o) = (Fail e, k)) :
  handleRead a peer o = Ok (a, mkOs k EBADF, None).
Proof.
  unfold handleRead, socket_accept, sockets_accept, syscall. rewrite Hfail.
  by rewrite setNonBlock_negative by lia.
Qed.

(** A small kernel: a table of descriptors with a limit, and a queue of clients. *)
Record table : Type := mkTable { limit : nat; used : list Z; backlog : nat }.

Definition lowest (t : table) : option Z :=
  List.find (fun fd => negb (existsb (Z.eqb fd) (used t))) (map Z.of_nat (seq 0 (limit t))).

Definition give (t : table) (n : nat) : sysret Z * table :=
  match lowest t with
  | Some fd => (Ret fd, mkTable (limit t) (fd :: used t) n)
  | None => (Fail EMFILE, t)
  end.

#[export] Instance table_sockets : Sockets table := {
  sys_socket := fun _ t => give t (backlog t);
  sys_bind := fun _ _ t => (Ret 0, t);
  sys_listen := fun _ t => (Ret 0, t);
  sys_accept := fun _ t =>
    match backlog t with
    | O => (Fail EAGAIN, t)
    | S n => match give t n with
             | (Ret fd, t') => (Ret (fd, replicate 28 StringPiece.NUL), t')
             | (Fail e, t') => (Fail e, t')
             end
    end;
  sys_fcntl := fun fd _ _ t => if existsb (Z.eqb fd) (filter (fun x => 0 <= x) (used t)) then (Ret 0, t) else (Fail EBADF, t);
  sys_setsockopt := fun _ _ _ t => (Ret 0, t);
  sys_open_null := fun t => give t (backlog t);
  sys_close := fun fd t => if existsb (Z.eqb fd) (used t)
                           then (Ret 0, mkTable (limit t) (filter (fun x => x <> fd) (used t)) (backlog t))
                           else (Fail EBADF, t)
}.

#[export] Instance table_sockets_spec : SocketsSpec table.
Proof.
  split.
  - intros fd cmd arg k Hfd. simpl. destruct (existsb _ _) eqn:E; [|done].
    apply existsb_exists in E as (x & Hin & ->%Z.eqb_eq). apply list_elem_of_In, list_elem_of_filter in Hin. lia.
  - intros fd k connfd addr k'. simpl. destruct (backlog k); [done|]. unfold give, lowest.
    destruct (List.find _ _) eqn:E; [|done]. intros [= <- <- <-].
    apply List.find_some in E as [Hin _]. apply in_map_iff in Hin as (i & <- & _). lia.
Qed.

Definition full_table : table := mkTable 3 [0; 1; 2] 4.
Definition listener : Acceptor := mkAcceptor 1 (new_Channel 1) (Some (Some kReadEvent)) true true true 2.

Lemma accept_failure_ignored_witness :
  sys_accept 1 full_table = (Fail EMFILE, full_table) /\
  handleRead listener (mkAddr []) (mkOs full_table 0) = Ok (listener, mkOs full_table EBADF, None).
Proof.
  split; [reflexivity|]. apply (accept_failure_ignored listener (mkAddr []) (mkOs full_table 0) EMFILE full_table).
  reflexivity.
Defined.
