(* ===== verification/TcpServer.v ===== *)
(** * TcpServer (src/src/TcpServer.h, TcpServer.cpp)

    The server accepts connections, names them, gives each to a loop of its
    pool and keeps the live ones in a map.  The state has the map and every
    connection object created so far (they outlive their entry while functors
    hold them); the connections take the steps of TcpConnection.v in any
    interleaving. *)

From S2P Require Import Prelude Endian StringPiece Buffer Format Timestamp Channel Poller TcpConnection ConnFrame.
From S2P Require Import InetAddress Acceptor EventLoopThreadPool.
Local Open Scope Z_scope.

Inductive Option_ : Type := kNoReusePort | kReusePort.

#[export] Instance Option_eq_dec : EqDecision Option_.
Proof. solve_decision. Defined.

(** A connection object: its name, its loop and its state. *)
Record ServerConn : Type := mkServerConn {
  sc_name : list ascii;
  sc_loop : Z;
  sc_tcp : TcpConnection
}.

(** [objects] lists the connections by creation, [connections_] maps names to
    positions in it; [listens] counts the queued calls of [Acceptor::listen]. *)
Record TcpServer : Type := mkServer {
  srv_loop : Z;
  ipPort_ : list ascii;
  srv_name : list ascii;
  acceptor_ : Acceptor;
  threadPool_ : Pool;
  srv_writeComplete : bool;
  started_ : Z;
  nextConnId_ : Z;
  connections_ : gmap (list ascii) nat;
  objects : list ServerConn;
  listens : nat
}.

Definition set_pool (p : Pool) (s : TcpServer) : TcpServer :=
  mkServer (srv_loop s) (ipPort_ s) (srv_name s) (acceptor_ s) p (srv_writeComplete s) (started_ s) (nextConnId_ s)
    (connections_ s) (objects s) (listens s).
Definition set_acceptor (a : Acceptor) (n : nat) (s : TcpServer) : TcpServer :=
  mkServer (srv_loop s) (ipPort_ s) (srv_name s) a (threadPool_ s) (srv_writeComplete s) (started_ s) (nextConnId_ s)
    (connections_ s) (objects s) n.
Definition set_started (v : Z) (s : TcpServer) : TcpServer :=
  mkServer (srv_loop s) (ipPort_ s) (srv_name s) (acceptor_ s) (threadPool_ s) (srv_writeComplete s) v (nextConnId_ s)
    (connections_ s) (objects s) (listens s).
Definition set_conns (p : Pool) (next : Z) (m : gmap (list ascii) nat) (os : list ServerConn) (s : TcpServer) : TcpServer :=
  mkServer (srv_loop s) (ipPort_ s) (srv_name s) (acceptor_ s) p (srv_writeComplete s) (started_ s) next m os (listens s).

Definition server_setWriteCompleteCallback (s : TcpServer) : TcpServer :=
  mkServer (srv_loop s) (ipPort_ s) (srv_name s) (acceptor_ s) (threadPool_ s) true (started_ s) (nextConnId_ s)
    (connections_ s) (objects s) (listens s).

(** ** Starting *)

Section Start.
Context {K : Type} `{Sockets K} `{InetText}.

Definition new_TcpServer (loop : Z) (listenAddr : InetAddress) (nameArg : list ascii) (option : Option_) (o : Os K)
  : outcome (TcpServer * Os K) :=
  ipPort ← toIpPort listenAddr;
  '(acc, o) ← new_Acceptor listenAddr (bool_decide (option = kReusePort)) o;
  Ok (mkServer loop ipPort nameArg (setNewConnectionCallback acc) (new_Pool loop nameArg) false 0 1 ∅ [] 0, o).

Definition setThreadNum (numThreads : Z) (s : TcpServer) : outcome TcpServer :=
  assert_ (0 <=? numThreads);;
  Ok (set_pool (pool_setThreadNum numThreads (threadPool_ s)) s).

(** [start], called on the thread of the loop or on another one: there the
    call of [listen] waits in the loop. *)
Definition start (in_loop : bool) (startLoop : Z -> Z) (cb : bool) (s : TcpServer) (o : Os K)
  : outcome (TcpServer * Os K) :=
  let old := started_ s in
  let s := set_started 1 s in
  if old =? 0 then
    '(pool, _) ← pool_start startLoop cb (threadPool_ s);
    let s := set_pool pool s in
    assert_ (negb (listenning_ (acceptor_ s)));;
    if in_loop then '(a, o) ← listen (acceptor_ s) o; Ok (set_acceptor a (listens s) s, o)
    else Ok (set_acceptor (acceptor_ s) (S (listens s)) s, o)
  else Ok (s, o).

(** Calling it again does nothing. *)
Lemma start_again in_loop startLoop cb s o : started_ s = 1 -> start in_loop startLoop cb s o = Ok (s, o).
Proof. intros Hs. unfold start. rewrite Hs. simpl. destruct s. simpl in Hs. by subst. Qed.
End Start.

(** ** Connections *)

(** The name: the server's name and an array of 64 bytes. *)
Definition conn_name (s : TcpServer) (id : Z) : list ascii :=
  srv_name s ++ snprintf 64 ("-"%char :: StringPiece.until_nul (ipPort_ s) ++ "#"%char :: fmt_d id).

Section Connections.
(** The kernel's answers to write(2) on each connection, the user's callbacks,
    and whether getsockname(2) succeeds on a descriptor. *)
Context (write : nat -> nat -> list ascii -> write_result).
Context (user : nat -> notification -> TcpConnection -> list user_op).
Context (getsockname_ok : Z -> bool).

Definition newConnection (sockfd : Z) (s : TcpServer) : outcome TcpServer :=
  '(ioLoop, pool) ← getNextLoop (threadPool_ s);
  let connName := conn_name s (nextConnId_ s) in
  let next := i32 (nextConnId_ s + 1) in
  assert_ (getsockname_ok sockfd);;
  input ← new_Buffer kInitialSize;
  output ← new_Buffer kInitialSize;
  let conn := new_TcpConnection sockfd input output (srv_writeComplete s) false in
  Ok (set_conns pool next (<[connName := length (objects s)]> (connections_ s))
        (objects s ++ [mkServerConn connName ioLoop conn]) s).

Definition with_tcp (c : ServerConn) (t : TcpConnection) : ServerConn := mkServerConn (sc_name c) (sc_loop c) t.

(** A step of connection [i] on its own loop or on another thread. *)
Definition conn_event (i : nat) (l : label) (s : TcpServer) : outcome TcpServer :=
  match objects s !! i with
  | None => Err UseAfterFree
  | Some c =>
      t ← conn_step (write i) (user i) (sc_tcp c) l;
      Ok (set_conns (threadPool_ s) (nextConnId_ s) (connections_ s) (<[i := with_tcp c t]> (objects s)) s)
  end.

(** [removeConnectionInLoop(conn)]: [LRemove] queues [connectDestroyed]. *)
Definition removeConnectionInLoop (i : nat) (s : TcpServer) : outcome TcpServer :=
  match objects s !! i with
  | None => Err UseAfterFree
  | Some c =>
      let n := if decide (is_Some (connections_ s !! sc_name c)) then 1 else 0 in
      let s := set_conns (threadPool_ s) (nextConnId_ s) (delete (sc_name c) (connections_ s)) (objects s) s in
      assert_ (n =? 1);;
      conn_event i LRemove s
  end.

(** The destructor: every connection of the map is destroyed, at once if its
    loop is the server's own, else by a functor in its loop. *)
Definition destroy_one (s : TcpServer) (item : list ascii * nat) : outcome TcpServer :=
  match objects s !! item.2 with
  | None => Err UseAfterFree
  | Some c =>
      t ← (if sc_loop c =? srv_loop s
           then run_functor (write item.2) (user item.2) FConnectDestroyed (sc_tcp c)
           else Ok (queueInLoop FConnectDestroyed (sc_tcp c)));
      Ok (set_conns (threadPool_ s) (nextConnId_ s) (connections_ s) (<[item.2 := with_tcp c t]> (objects s)) s)
  end.

Definition delete_TcpServer (s : TcpServer) : outcome TcpServer :=
  s ← for_each destroy_one s (map_to_list (connections_ s));
  Ok (set_conns (threadPool_ s) (nextConnId_ s) ∅ (objects s) s).

Inductive server_label : Type :=
| SAccept (sockfd : Z)               (** the acceptor's callback *)
| SConn (i : nat) (l : label)        (** a connection takes a step *)
| SRemove (i : nat).                 (** the loop runs the functor of a close callback *)

Definition server_step (s : TcpServer) (l : server_label) : outcome TcpServer :=
  match l with
  | SAccept sockfd => newConnection sockfd s
  | SConn i l => conn_event i l s
  | SRemove i => removeConnectionInLoop i s
  end.
End Connections.

(** ** The invariant of the server *)

Section Invariant.
Context (write : nat -> nat -> list ascii -> write_result).
Context (user : nat -> notification -> TcpConnection -> list user_op).
Context (getsockname_ok : Z -> bool).
Hypothesis write_bounded : forall i k data n, write i k data = Wrote n -> 0 <= n <= zlen data.
Hypothesis user_ok : forall i, well_behaved (write i) (user i).

Definition live_entry (o : ServerConn) : Prop := removals (sc_tcp o) = 0.

Record SrvInv (ls : list Z) (s : TcpServer) : Prop := mkSrvInv {
  sv_pool : pool_ok (threadPool_ s);
  sv_loops : workers (threadPool_ s) = ls;
  sv_turn : next_ (threadPool_ s) = Z.of_nat (length (objects s)) `mod` zlen ls;
  sv_ip : zlen (ipPort_ s) <= 51;
  sv_next : nextConnId_ s = Z.of_nat (length (objects s)) + 1 /\ nextConnId_ s < 2 ^ 31;
  sv_objects : forall i o, objects s !! i = Some o ->
    CInv 0 (sc_tcp o) /\ sc_name o = conn_name s (Z.of_nat i + 1) /\
    sc_loop o = nth (Z.to_nat (Z.of_nat i `mod` zlen ls)) ls 0;
  sv_map : forall name i, connections_ s !! name = Some i <->
    exists o, objects s !! i = Some o /\ sc_name o = name /\ live_entry o
}.

(** What the environment may do next. *)
Definition server_permitted (s : TcpServer) (l : server_label) : Prop :=
  match l with
  | SAccept sockfd => getsockname_ok sockfd = true /\ nextConnId_ s < 2 ^ 31 - 1
  | SConn i l => l <> LRemove /\ exists o, objects s !! i = Some o /\ permitted_label (sc_tcp o) l
  | SRemove i => exists o, objects s !! i = Some o /\ closing (sc_tcp o) <> 0%nat
  end.

Lemma conn_name_inj s a b : zlen (ipPort_ s) <= 51 -> 1 <= a < 2 ^ 31 -> 1 <= b < 2 ^ 31 ->
  conn_name s a = conn_name s b -> a = b.
Proof.
  intros Hip Ha Hb. unfold conn_name.
  assert (Hfit : forall n, 1 <= n < 2 ^ 31 ->
    zlen ("-"%char :: StringPiece.until_nul (ipPort_ s) ++ "#"%char :: fmt_d n) < 64).
  { intros n Hn. rewrite zlen_cons, zlen_app, zlen_cons.
    pose proof (zlen_fmt_d 10 n ltac:(lia) ltac:(simpl; lia)). pose proof (until_nul_le (ipPort_ s)). lia. }
  rewrite !snprintf_fits by auto. intros H%app_inv_head. injection H as H%app_inv_head.
  injection H as H. by apply fmt_d_inj.
Qed.

(** Names tell the objects apart. *)
Lemma names_distinct ls s i j oi oj : SrvInv ls s ->
  objects s !! i = Some oi -> objects s !! j = Some oj -> sc_name oi = sc_name oj -> i = j.
Proof.
  intros Hs Hi Hj Hn. pose proof (sv_next _ _ Hs) as [Hn1 Hn2].
  destruct (sv_objects _ _ Hs i oi Hi) as (_ & Ei & _). destruct (sv_objects _ _ Hs j oj Hj) as (_ & Ej & _).
  pose proof (lookup_lt_Some _ _ _ Hi). pose proof (lookup_lt_Some _ _ _ Hj).
  rewrite Ei, Ej in Hn. apply (conn_name_inj s) in Hn; [lia|apply Hs|lia..].
Qed.

(** Replacing an object by one with the same name, loop and number of removals. *)
Lemma update_object_inv ls s i o t :
  SrvInv ls s -> objects s !! i = Some o -> CInv 0 t -> removals t = removals (sc_tcp o) ->
  SrvInv ls (set_conns (threadPool_ s) (nextConnId_ s) (connections_ s) (<[i := with_tcp o t]> (objects s)) s).
Proof.
  intros [H1 H2 H3 H4 H5 H6 H7] Hi Ht Hr.
  assert (Hlt : (i < length (objects s))%nat) by (by eapply lookup_lt_Some).
  constructor; simpl; rewrite ?length_insert; try done.
  - intros j o' Hj. destruct (decide (j = i)) as [->|Hne].
    + rewrite list_lookup_insert_eq in Hj by done. injection Hj as <-. destruct (H6 i o Hi) as (_ & ? & ?). done.
    + rewrite list_lookup_insert_ne in Hj by done. by apply H6.
  - intros name j. rewrite H7. destruct (decide (j = i)) as [->|Hne].
    + rewrite list_lookup_insert_eq by done. rewrite Hi. unfold live_entry.
      split; intros (o' & [= <-] & ? & ?); eexists; (split; [done|]); simpl in *; split; congruence.
    + by rewrite list_lookup_insert_ne by done.
Qed.

Lemma conn_event_inv ls s i l : SrvInv ls s -> server_permitted s (SConn i l) ->
  unless too_long (conn_event write user i l s) (SrvInv ls).
Proof.
  intros Hs [Hl (o & Hi & Hp)]. unfold conn_event. rewrite Hi.
  destruct (sv_objects _ _ Hs i o Hi) as (Hc & _).
  pose proof (conn_step_inv (write i) (user i) (write_bounded i) (user_ok i) (sc_tcp o) l Hc Hp) as H.
  destruct (conn_step (write i) (user i) (sc_tcp o) l) as [t|f] eqn:E; [|done]. simpl.
  apply update_object_inv; [done..|]. by eapply removals_conn_step.
Qed.

Lemma newConnection_inv ls s sockfd : SrvInv ls s -> server_permitted s (SAccept sockfd) ->
  unless too_long (newConnection getsockname_ok sockfd s) (SrvInv ls).
Proof.
  intros [H1 H2 H3 H4 [H5 H5'] H6 H7] [Hok Hid]. unfold newConnection. rewrite Hok.
  destruct (getNextLoop_turn _ H1) as (p & -> & Hp & Hw & Hn). cbn [mbind outcome_bind assert_].
  destruct new_Buffer_repr as (b & -> & Hb & _). cbn [mbind outcome_bind].
  rewrite (swrap_small 32) by (unfold in_s; lia).
  set (s' := set_conns _ _ _ _ _). unfold unless.
  assert (Hname : forall j, conn_name s' j = conn_name s j) by done.
  assert (Hfresh : forall j o, objects s !! j = Some o -> sc_name o <> conn_name s (nextConnId_ s)).
  { intros j o Hj E. destruct (H6 j o Hj) as (_ & En & _). rewrite En in E.
    pose proof (lookup_lt_Some _ _ _ Hj). apply conn_name_inj in E; [lia|done|lia..]. }
  constructor; cbn [s' set_conns threadPool_ objects nextConnId_ connections_ ipPort_]; try done.
  - congruence.
  - rewrite Hn, H2, H3, length_app. simpl. rewrite Z.add_mod_idemp_l by (pose proof (po_next _ H1); rewrite H2 in *; lia).
    f_equal. lia.
  - rewrite length_app. simpl. lia.
  - intros j o Hj. rewrite Hname. apply lookup_app_Some in Hj as [Hj|[Hlen Hj]]; [by apply H6|].
    destruct (j - length (objects s))%nat eqn:Ej; [|done]. injection Hj as <-. simpl.
    replace (Z.of_nat j) with (Z.of_nat (length (objects s))) by lia.
    split; [apply new_TcpConnection_inv; [apply Hb|done]|]. split; [by rewrite H5|]. by rewrite <- H3, H2.
  - intros name j. destruct (decide (name = conn_name s (nextConnId_ s))) as [->|Hne].
    + rewrite lookup_insert_eq. split.
      * intros [= <-]. eexists. rewrite list_lookup_middle by done. done.
      * intros (o & Hj & En & _). apply lookup_app_Some in Hj as [Hj|[Hlen Hj]]; [by apply Hfresh in Hj|].
        f_equal. destruct (j - length (objects s))%nat eqn:Ej; [lia|done].
    + rewrite lookup_insert_ne, H7 by done. split; intros (o & Hj & En & Hl); exists o; (split; [|done]).
      * apply lookup_app_Some. by left.
      * apply lookup_app_Some in Hj as [Hj|[Hlen Hj]]; [done|].
        destruct (j - length (objects s))%nat; [|done]. injection Hj as <-. by subst name.
Qed.

Lemma removeConnection_inv ls s i : SrvInv ls s -> server_permitted s (SRemove i) ->
  unless too_long (removeConnectionInLoop write user i s) (SrvInv ls).
Proof.
  intros Hs (o & Hi & Hcl). pose proof Hs as [H1 H2 H3 H4 H5 H6 H7].
  destruct (H6 i o Hi) as (Hc & Hn & Hloop). destruct (removals_CInv _ Hc) as [_ Hr].
  destruct (Hr Hcl) as [Hr0 Hc1].
  assert (Hm : connections_ s !! sc_name o = Some i) by (apply H7; eauto).
  unfold removeConnectionInLoop. rewrite Hi, decide_True by eauto. cbn [Z.eqb Pos.eqb assert_ mbind outcome_bind].
  unfold conn_event. simpl. rewrite Hi.
  pose proof (conn_step_inv (write i) (user i) (write_bounded i) (user_ok i) (sc_tcp o) LRemove Hc I) as Hstep.
  simpl in Hstep. rewrite Hc1 in *. cbn [mbind outcome_bind]. simpl in Hstep. unfold unless.
  assert (Hlt : (i < length (objects s))%nat) by (by eapply lookup_lt_Some).
  constructor; simpl; rewrite ?length_insert; try done.
  - intros j o' Hj. destruct (decide (j = i)) as [->|Hne].
    + rewrite list_lookup_insert_eq in Hj by done. by injection Hj as <-.
    + rewrite list_lookup_insert_ne in Hj by done. by apply H6.
  - intros name j. destruct (decide (name = sc_name o)) as [->|Hne].
    + rewrite lookup_delete_eq. split; [done|]. intros (o' & Hj & En & Hl). exfalso.
      destruct (decide (j = i)) as [->|Hne].
      * rewrite list_lookup_insert_eq in Hj by done. injection Hj as <-.
        unfold live_entry, removals in *. simpl in Hl. lia.
      * rewrite list_lookup_insert_ne in Hj by done. apply Hne. by eapply (names_distinct ls s j i o' o).
    + rewrite lookup_delete_ne, H7 by done. destruct (decide (j = i)) as [->|Hji].
      * rewrite list_lookup_insert_eq, Hi by done. split; intros (o' & [= <-] & En & _); by subst name.
      * by rewrite list_lookup_insert_ne by done.
Qed.

Lemma server_step_inv ls s l : SrvInv ls s -> server_permitted s l ->
  unless too_long (server_step write user getsockname_ok s l) (SrvInv ls).
Proof.
  destruct l; simpl; [apply newConnection_inv|apply conn_event_inv|apply removeConnection_inv].
Qed.

Lemma server_run_inv ls s labels : SrvInv ls s ->
  guarded (server_step write user getsockname_ok) server_permitted s labels ->
  unless too_long (for_each (server_step write user getsockname_ok) s labels) (SrvInv ls).
Proof. intros Hs Hg. eapply unless_guarded; [|exact Hs|exact Hg]. intros. by apply server_step_inv. Qed.


End Invariant.

(** ** The server after [start] *)

Lemma toIpPort_bound `{InetTextSpec} a ip : family a = AF_INET \/ family a = AF_INET6 -> zlen (mem a) = sizeof_in6 ->
  toIpPort a = Ok ip -> zlen ip <= 51.
Proof.
  intros Haf Hm Hip.
  assert (Hi : exists t, toIp a = Ok t).
  { unfold toIp, sockets_toIp. destruct Haf as [-> | ->]; simpl; eauto. }
  destruct Hi as [t Ht]. destruct (toIpPort_text a t Ht Haf Hm) as [Hp Hl]; [apply (bswap_range 2)|]. congruence.
Qed.

Lemma started_server_inv {K} `{Sockets K} `{InetTextSpec} (loop n : Z) (addr : InetAddress) (name : list ascii)
    (opt : Option_) (in_loop cb : bool) (startLoop : Z -> Z) (o o0 o1 : Os K) (s0 s1 s : TcpServer) :
  family addr = AF_INET \/ family addr = AF_INET6 -> zlen (mem addr) = sizeof_in6 -> n < 2 ^ 31 ->
  new_TcpServer loop addr name opt o = Ok (s0, o0) -> setThreadNum n s0 = Ok s1 ->
  start in_loop startLoop cb s1 o0 = Ok (s, o1) ->
  SrvInv (workers (threadPool_ s)) s /\
  workers (threadPool_ s) = (if n =? 0 then [loop] else map (fun i => startLoop (Z.of_nat i)) (seq 0 (Z.to_nat n))).
Proof.
  intros Haf Hm Hn. unfold new_TcpServer, setThreadNum. intros E0. obind. destruct r0 as [acc o2].
  injection E0 as <- <-. intros E1. obind. apply Z.leb_le in Hr1. intros E2. unfold start in E2. simpl in E2.
  assert (Hpool : forall p b, pool_start startLoop cb (pool_setThreadNum n (new_Pool loop name)) = Ok (p, b) ->
    pool_ok p /\ next_ p = 0 /\
    workers p = (if n =? 0 then [loop] else map (fun i => startLoop (Z.of_nat i)) (seq 0 (Z.to_nat n)))).
  { intros p b Hp. split; [by eapply pool_start_ok|]. unfold pool_start in Hp. simpl in Hp. injection Hp as <- <-.
    split; [done|]. unfold workers. simpl. rewrite map_map.
    destruct (Z.eqb_spec n 0) as [->|Hz]; [done|]. by destruct (Z.to_nat n) eqn:E; [lia|]. }
  pose proof (toIpPort_bound addr r Haf Hm Hr) as Hip. unfold pool_start in *. simpl in *.
  destruct (Hpool _ _ eq_refl) as (Hok & Hnext & Hw). clear Hpool.
  destruct (negb (listenning_ acc)); [|done]. cbn [assert_ mbind outcome_bind] in E2.
  destruct in_loop; [destruct (listen _ o2) as [[a o3]|]; [|done]|]; cbn [mbind outcome_bind] in E2;
    injection E2 as <- <-.
  all: simpl; split; [|exact Hw]; constructor; simpl; try done.
  all: intros; split; [done|]; intros (? & [=] & _).
Qed.

(** ** Properties *)


Definition sample_addr : InetAddress := new_InetAddress (replicate 28 "x"%char) 80 false false.
Definition sample_os : Os table := mkOs (mkTable 64 [0; 1; 2] 0) 0.
Definition sample_new : TcpServer * Os table :=
  match new_TcpServer 7 sample_addr (bytes "srv") kNoReusePort sample_os with Ok p => p | Err _ => (mkServer 0 [] [] listener (new_Pool 0 []) false 0 0 ∅ [] 0, sample_os) end.
Definition sample_sized : TcpServer := match setThreadNum 2 sample_new.1 with Ok s => s | Err _ => sample_new.1 end.
Definition sample_started : TcpServer * Os table :=
  match start true (fun i => 100 + i) false sample_sized sample_new.2 with Ok p => p | Err _ => sample_new end.

Definition first_accept : TcpServer :=
  match newConnection (fun _ => true) 9 sample_started.1 with Ok s => s | Err _ => sample_started.1 end.

