(* ===== verification/Date.v ===== *)
(** * Dates and time zones (src/src/Date.h, Date.cpp, TimeZone.h, TimeZone.cpp)

    The Gregorian calendar by Julian day numbers, UTC time, the transition
    tables of a zone and the reader of zone files.  Division is C's, which
    rounds towards zero. *)

From S2P Require Import Prelude Endian StringPiece Format.
From stdpp Require Import sorting.
From Stdlib Require Import PreOmega.
Local Open Scope Z_scope.

Infix "÷" := Z.quot (at level 40, left associativity) : ev_scope.
Local Open Scope ev_scope.

(** ** Date *)

Record YearMonthDay : Type := mkYMD { year : Z; month : Z; day : Z }.

Definition getJulianDayNumber (year month day : Z) : Z :=
  let a := (14 - month) ÷ 12 in
  let y := year + 4800 - a in
  let m := month + 12 * a - 3 in
  day + (153 * m + 2) ÷ 5 + y * 365 + y ÷ 4 - y ÷ 100 + y ÷ 400 - 32045.

Definition getYearMonthDay (julianDayNumber : Z) : YearMonthDay :=
  let a := julianDayNumber + 32044 in
  let b := (4 * a + 3) ÷ 146097 in
  let c := a - (b * 146097) ÷ 4 in
  let d := (4 * c + 3) ÷ 1461 in
  let e := c - (1461 * d) ÷ 4 in
  let m := (5 * e + 2) ÷ 153 in
  mkYMD (b * 100 + d - 4800 + m ÷ 10) (m + 3 - 12 * (m ÷ 10)) (e - (153 * m + 2) ÷ 5 + 1).

Definition kDaysPerWeek : Z := 7.
Definition kJulianDayOf1970_01_01 : Z := getJulianDayNumber 1970 1 1.

(** A [Date] is its day number. *)
Definition date_valid (julianDayNumber : Z) : bool := 0 <? julianDayNumber.
Definition weekDay (julianDayNumber : Z) : Z := Z.rem (julianDayNumber + 1) kDaysPerWeek.

Definition toIsoString (julianDayNumber : Z) : list ascii :=
  let ymd := getYearMonthDay julianDayNumber in
  snprintf 32 (fmt_sd 4 (year ymd) ++ "-"%char :: fmt_0d 2 (month ymd) ++ "-"%char :: fmt_0d 2 (day ymd)).

(** ** The calendar *)

Definition leap (y : Z) : bool := (y mod 4 =? 0) && (negb (y mod 100 =? 0) || (y mod 400 =? 0)).

Definition days_in_month (y m : Z) : Z :=
  if m =? 2 then (if leap y then 29 else 28)
  else if (m =? 4) || (m =? 6) || (m =? 9) || (m =? 11) then 30 else 31.

Definition valid_ymd (d : YearMonthDay) : bool :=
  (1 <=? month d) && (month d <=? 12) && (1 <=? day d) && (day d <=? days_in_month (year d) (month d)).

(** The first day of the proleptic calendar the formulas handle: 1 March -4800. *)
Definition first_day : Z := -32044.

(** ** Centuries, years and days

    Years start in March.  A day is a century, a year of the century and a day
    of the year. *)

Ltac divlia := Z.to_euclidean_division_equations; lia.

Lemma quot_div a b : 0 <= a -> 0 < b -> a ÷ b = a / b.
Proof. intros. by apply Z.quot_div_nonneg. Qed.

(** The last day of a year that is not followed by a leap day does not exist. *)
Definition slot (b d e : Z) : Prop :=
  0 <= b /\ 0 <= d < 100 /\ 0 <= e <= 365 /\ (e = 365 -> d mod 4 = 3 /\ (d = 99 -> b mod 4 = 3)).

Definition slot_day (b d e : Z) : Z := 146097 * b / 4 + 1461 * d / 4 + e.

Lemma slot_decode a : 0 <= a ->
  let b := (4 * a + 3) / 146097 in
  let c := a - 146097 * b / 4 in
  let d := (4 * c + 3) / 1461 in
  let e := c - 1461 * d / 4 in
  slot b d e /\ slot_day b d e = a.
Proof.
  intros Ha b c d e. unfold slot, slot_day.
  assert (Hb : 0 <= b /\ 146097 * b <= 4 * a + 3 < 146097 * (b + 1)) by (unfold b; divlia).
  assert (Hc : 0 <= c <= 36524 /\ (c = 36524 -> b mod 4 = 3)) by (unfold c; clearbody b; divlia).
  assert (Hd : 0 <= d < 100 /\ 1461 * d <= 4 * c + 3 < 1461 * (d + 1)) by (unfold d; clearbody c; divlia).
  assert (He : 0 <= e <= 365 /\ (e = 365 -> d mod 4 = 3 /\ (d = 99 -> c = 36524)))
    by (unfold e; clearbody c d; divlia).
  split; [|unfold e, c; lia]. split; [lia|]. split; [lia|]. split; [lia|]. intros E. split; [tauto|].
  intros E9. apply Hc. tauto.
Qed.

Lemma slot_encode b d e : slot b d e ->
  let a := slot_day b d e in
  let c := a - 146097 * b / 4 in
  (4 * a + 3) / 146097 = b /\ (4 * c + 3) / 1461 = d /\ c - 1461 * d / 4 = e.
Proof.
  intros (Hb & Hd & He & H365) a c.
  assert (Hc : c = 1461 * d / 4 + e) by (unfold c, a, slot_day; lia).
  assert (Hlast : 0 <= c <= 36524 /\ (c = 36524 -> b mod 4 = 3)).
  { rewrite Hc. assert (e = 365 \/ e <= 364) as [He'|He'] by lia; [specialize (H365 He')|clear H365]; divlia. }
  split_and!; [|rewrite Hc..].
  - symmetry. apply (Z.div_unique_pos _ _ _ (4 * a + 3 - 146097 * b)); [|lia].
    assert (Ha : a = 146097 * b / 4 + c) by (unfold c; lia). rewrite Ha. clear Hc Ha. clearbody c. clear a. divlia.
  - assert (e = 365 \/ e <= 364) as [He'|He'] by lia; [specialize (H365 He')|clear H365]; divlia.
  - lia.
Qed.

(** ** Months *)

(** The months from March to February, by the day of the year. *)
Definition month_of (e : Z) : Z := (5 * e + 2) / 153.
Definition month_start (m : Z) : Z := (153 * m + 2) / 5.

Lemma month_of_bounds e : 0 <= e <= 365 ->
  0 <= month_of e <= 11 /\ month_start (month_of e) <= e < month_start (month_of e + 1).
Proof.
  intros He. unfold month_of, month_start.
  assert (H : 0 <= (5 * e + 2) / 153 <= 11) by divlia. split; [done|]. revert H.
  set (m := (5 * e + 2) / 153). assert (153 * m <= 5 * e + 2 < 153 * (m + 1)) by (unfold m; divlia).
  clearbody m. intros Hm. divlia.
Qed.

Lemma month_of_unique m e : 0 <= m <= 11 -> month_start m <= e < month_start (m + 1) -> month_of e = m.
Proof. intros Hm He. unfold month_of, month_start in *. divlia. Qed.

(** A date of the calendar as a slot: the March-based year and the day in it. *)
Definition shift (m : Z) : Z := if m <=? 2 then 1 else 0.
Definition march_year (d : YearMonthDay) : Z := year d + 4800 - shift (month d).
Definition march_day (d : YearMonthDay) : Z := month_start (month d + 12 * shift (month d) - 3) + day d - 1.

Lemma year_split y : 0 <= y ->
  365 * y + y / 4 - y / 100 + y / 400 = 146097 * (y / 100) / 4 + 1461 * (y mod 100) / 4.
Proof. intros. divlia. Qed.

Lemma getJulianDayNumber_slot d : 1 <= month d <= 12 -> 0 <= march_year d ->
  getJulianDayNumber (year d) (month d) (day d) =
  slot_day (march_year d / 100) (march_year d mod 100) (march_day d) + first_day.
Proof.
  intros Hm Hy. unfold getJulianDayNumber, slot_day, march_day, march_year, first_day, month_start in *.
  assert (Hs : (14 - month d) ÷ 12 = shift (month d)).
  { rewrite quot_div by lia. unfold shift. destruct (Z.leb_spec (month d) 2); divlia. }
  rewrite Hs. unfold shift in *. set (y := year d + 4800 - _) in *.
  rewrite !quot_div; try lia; [|destruct (Z.leb_spec (month d) 2); lia].
  pose proof (year_split y Hy). lia.
Qed.

Lemma getYearMonthDay_slot b d e : slot b d e ->
  getYearMonthDay (slot_day b d e + first_day) =
  mkYMD (b * 100 + d - 4800 + month_of e / 10) (month_of e + 3 - 12 * (month_of e / 10))
    (e - month_start (month_of e) + 1).
Proof.
  intros Hs. pose proof Hs as (Hb & Hd & He & _). destruct (slot_encode b d e Hs) as (Eb & Ed & Ee).
  destruct (month_of_bounds e He) as [Hm _].
  unfold getYearMonthDay, first_day. replace (slot_day b d e + -32044 + 32044) with (slot_day b d e) by lia.
  assert (0 <= slot_day b d e) by (unfold slot_day; divlia).
  rewrite (quot_div _ 146097), Eb by lia. rewrite (quot_div (b * 146097)), (Z.mul_comm b 146097) by lia.
  assert (0 <= slot_day b d e - 146097 * b / 4) by (unfold slot_day; divlia).
  rewrite (quot_div _ 1461), Ed by lia. rewrite (quot_div (1461 * d)), Ee by lia.
  rewrite (quot_div _ 153) by lia. fold (month_of e).
  rewrite (quot_div (month_of e)), (quot_div (153 * _ + 2)) by lia. done.
Qed.

(** A date of the calendar is a slot, and conversely. *)
Lemma valid_ymd_spec d : valid_ymd d = true <->
  1 <= month d <= 12 /\ 1 <= day d <= days_in_month (year d) (month d).
Proof. unfold valid_ymd. rewrite !andb_true_iff, !Z.leb_le. lia. Qed.

Lemma leap_spec y : leap y = true <-> y mod 4 = 0 /\ (y mod 100 <> 0 \/ y mod 400 = 0).
Proof. unfold leap. rewrite andb_true_iff, orb_true_iff, negb_true_iff, !Z.eqb_eq, Z.eqb_neq. done. Qed.

(** The twelve months, one case at a time. *)
Ltac each_month m :=
  let H := fresh in
  assert (H : m = 1 \/ m = 2 \/ m = 3 \/ m = 4 \/ m = 5 \/ m = 6 \/ m = 7 \/ m = 8 \/ m = 9 \/ m = 10 \/ m = 11 \/ m = 12)
    by lia;
  repeat destruct H as [H|H]; rewrite H in *.

Lemma date_slot d : valid_ymd d = true -> 0 <= march_year d ->
  slot (march_year d / 100) (march_year d mod 100) (march_day d) /\
  month_of (march_day d) = month d + 12 * shift (month d) - 3.
Proof.
  intros [Hm Hd]%valid_ymd_spec Hy. unfold slot, march_day in *. revert Hd Hy.
  unfold march_year, days_in_month. destruct d as [y m dd]. cbn [year month day] in *.
  assert (Hl : leap y = true -> y mod 4 = 0 /\ (y mod 100 <> 0 \/ y mod 400 = 0)) by apply leap_spec.
  destruct (leap y); [specialize (Hl eq_refl)|clear Hl];
    each_month m; unfold month_start, month_of, shift; cbn -[Z.div Z.modulo Z.mul Z.add Z.sub];
    intros Hd Hy; split_and!; intros; try divlia.
Qed.

Lemma ymd_of_jdn d : valid_ymd d = true -> 0 <= march_year d ->
  getYearMonthDay (getJulianDayNumber (year d) (month d) (day d)) = d.
Proof.
  intros Hv Hy. destruct (date_slot d Hv Hy) as [Hs Hm]. apply valid_ymd_spec in Hv as [Hr _].
  rewrite getJulianDayNumber_slot, getYearMonthDay_slot, Hm by (done || lia).
  assert (H10 : (month d + 12 * shift (month d) - 3) / 10 = shift (month d)).
  { unfold shift. destruct (Z.leb_spec (month d) 2); divlia. }
  rewrite H10. unfold march_day, march_year. destruct d as [y m dd]. cbn [year month day] in *.
  f_equal; [|lia..]. divlia.
Qed.

(** Evaluate the closed arithmetic of the goal. *)
Ltac numeral z := match z with Z0 => idtac | Zpos _ => idtac | Zneg _ => idtac end.
Ltac closed_Z :=
  repeat match goal with
  | |- context [?op ?a ?b] =>
      numeral a; numeral b;
      match type of (op a b) with Z => idtac | bool => idtac end;
      let v := eval vm_compute in (op a b) in change (op a b) with v
  end; cbn iota beta; cbn [orb].

Lemma slot_date b d e : slot b d e ->
  let ymd := getYearMonthDay (slot_day b d e + first_day) in
  valid_ymd ymd = true /\ march_year ymd = b * 100 + d /\ march_day ymd = e.
Proof.
  intros Hs. cbv zeta. rewrite getYearMonthDay_slot by done. destruct Hs as (Hb & Hd & He & H365).
  destruct (month_of_bounds e He) as [Hm Hr]. rewrite valid_ymd_spec.
  unfold march_year, march_day, days_in_month. cbn [year month day]. revert Hr. generalize (month_of e) Hm. intros m Hm' Hr.
  set (y := b * 100 + d - 4800 + m / 10).
  assert (Hl : leap y = false -> m = 11 -> e < 365).
  { intros Hl Hm11. subst m. assert (e = 365 \/ e < 365) as [E|E]; [|exfalso|done].
    { unfold month_start in Hr. divlia. }
    apply not_true_iff_false in Hl. apply Hl, leap_spec. unfold y. specialize (H365 E). divlia. }
  unfold month_start in *.
  assert (H : m = 0 \/ m = 1 \/ m = 2 \/ m = 3 \/ m = 4 \/ m = 5 \/ m = 6 \/ m = 7 \/ m = 8 \/ m = 9 \/ m = 10 \/ m = 11)
    by lia.
  revert Hr Hl. unfold shift, y. clear y Hm Hm'.
  repeat destruct H as [H|H]; subst m; closed_Z; closed_Z; intros Hr Hl; try lia.
  destruct (leap _); [lia|]. specialize (Hl eq_refl eq_refl). lia.
Qed.

Lemma jdn_of_ymd j : first_day <= j ->
  let d := getYearMonthDay j in
  valid_ymd d = true /\ 0 <= march_year d /\ getJulianDayNumber (year d) (month d) (day d) = j.
Proof.
  intros Hj. unfold first_day in Hj. destruct (slot_decode (j + 32044) ltac:(lia)) as [Hs Ha].
  revert Hs Ha. set (b := _ / 146097). set (d := _ / 1461). set (e := _ - _ / 4). intros Hs Ha.
  destruct (slot_date b d e Hs) as (Hv & Hy & He). rewrite Ha in *.
  replace (j + 32044 + first_day) with j in * by (unfold first_day; lia). cbv zeta.
  assert (Hy0 : 0 <= march_year (getYearMonthDay j)) by (destruct Hs as (? & ? & _); lia).
  split; [done|]. split; [done|]. apply valid_ymd_spec in Hv as [Hm _].
  rewrite getJulianDayNumber_slot, Hy, He by done.
  replace ((b * 100 + d) / 100) with b by (destruct Hs as (? & ? & _); clear -H H0; divlia).
  replace ((b * 100 + d) mod 100) with d by (destruct Hs as (? & ? & _); clear -H H0; divlia).
  unfold first_day. lia.
Qed.

(** ** UTC time (TimeZone.cpp) *)

Definition kSecondsPerDay : Z := 24 * 60 * 60.

Record tm : Type := mkTm {
  tm_sec : Z; tm_min : Z; tm_hour : Z;
  tm_mday : Z; tm_mon : Z; tm_year : Z; tm_wday : Z; tm_yday : Z
}.

(** [fillHMS], of an unsigned number of seconds: seconds, minutes, hours. *)
Definition fillHMS (seconds : Z) : Z * Z * Z :=
  let minutes := seconds ÷ 60 in
  (Z.rem seconds 60, Z.rem minutes 60, minutes ÷ 60).

Definition toUtcTime (secondsSinceEpoch : Z) (yday : bool) : tm :=
  let seconds := i32 (Z.rem secondsSinceEpoch kSecondsPerDay) in
  let days := i32 (secondsSinceEpoch ÷ kSecondsPerDay) in
  let '(seconds, days) := if seconds <? 0 then (seconds + kSecondsPerDay, days - 1) else (seconds, days) in
  let '(s, mi, h) := fillHMS seconds in
  let date := days + kJulianDayOf1970_01_01 in
  let ymd := getYearMonthDay date in
  mkTm s mi h (day ymd) (month ymd - 1) (year ymd - 1900) (weekDay date)
    (if yday then date - getJulianDayNumber (year ymd) 1 1 else 0).

Definition fromUtcTime (year month day hour minute seconds : Z) : Z :=
  let secondsInDay := hour * 3600 + minute * 50 + seconds in
  let days := getJulianDayNumber year month day - kJulianDayOf1970_01_01 in
  days * kSecondsPerDay + secondsInDay.

Definition fromUtcTime_tm (utc : tm) : Z :=
  fromUtcTime (tm_year utc + 1900) (tm_mon utc + 1) (tm_mday utc) (tm_hour utc) (tm_min utc) (tm_sec utc).

(** The range of seconds whose day number is not negative (from 24 November
    -4713) and fits an [int]. *)
Definition utc_range (t : Z) : Prop := -210866803200 <= t < 2 ^ 31 * 86400 - 86400 * 2500000.

Lemma epoch_day : kJulianDayOf1970_01_01 = 2440588.
Proof. reflexivity. Qed.

(** The seconds and days of [toUtcTime], with floor division. *)
Lemma split_seconds t : utc_range t ->
  (let seconds := i32 (Z.rem t kSecondsPerDay) in
   let days := i32 (t ÷ kSecondsPerDay) in
   if seconds <? 0 then (seconds + kSecondsPerDay, days - 1) else (seconds, days))
  = (t mod 86400, t / 86400).
Proof.
  unfold utc_range, kSecondsPerDay. change (24 * 60 * 60) with 86400. intros Ht. cbv zeta.
  assert (Hq : - 2 ^ 31 <= t ÷ 86400 < 2 ^ 31) by divlia.
  assert (Hr : -86400 < Z.rem t 86400 < 86400) by divlia.
  unfold i32. rewrite !(swrap_small 32) by (unfold in_s; simpl; lia).
  destruct (Z.ltb_spec (Z.rem t 86400) 0); f_equal; divlia.
Qed.

Lemma toUtcTime_spec t yd : utc_range t ->
  let utc := toUtcTime t yd in
  let d := mkYMD (tm_year utc + 1900) (tm_mon utc + 1) (tm_mday utc) in
  valid_ymd d = true /\
  (getJulianDayNumber (year d) (month d) (day d) - kJulianDayOf1970_01_01) * 86400 +
    tm_hour utc * 3600 + tm_min utc * 60 + tm_sec utc = t /\
  0 <= tm_hour utc < 24 /\ 0 <= tm_min utc < 60 /\ 0 <= tm_sec utc < 60 /\
  tm_wday utc = (t / 86400 + 4) mod 7.
Proof.
  intros Ht. unfold toUtcTime. pose proof (split_seconds t Ht) as Hs. cbv zeta in *. rewrite Hs. unfold fillHMS.
  unfold utc_range in Ht. assert (Hm : 0 <= t mod 86400 < 86400) by (apply Z.mod_pos_bound; lia).
  assert (Hj : first_day <= t / 86400 + kJulianDayOf1970_01_01) by (rewrite epoch_day; unfold first_day; divlia).
  destruct (jdn_of_ymd _ Hj) as (Hv & _ & Hjd). cbn [tm_year tm_mon tm_mday tm_hour tm_min tm_sec tm_wday year month day].
  set (d := getYearMonthDay _) in *.
  replace (year d - 1900 + 1900) with (year d) by lia. replace (month d - 1 + 1) with (month d) by lia.
  split; [by destruct d|]. rewrite Hjd. split_and!; try divlia.
  unfold weekDay, kDaysPerWeek. rewrite epoch_day in *. unfold first_day in Hj. divlia.
Qed.

(** ** Transitions of a zone *)

Record Transition : Type := mkTransition { gmttime : Z; localtime : Z; localtimeIdx : Z }.
Record Localtime : Type := mkLocaltime { gmtOffset : Z; isDst : bool; arrbIdx : Z }.
Record Data : Type := mkData { transitions : list Transition; localtimes : list Localtime; abbreviation : list ascii }.

(** The key [Comp] compares: UTC or local time. *)
Definition comp_key (compareGmt : bool) (t : Transition) : Z := if compareGmt then gmttime t else localtime t.
Definition comp_less (g : bool) (lhs rhs : Transition) : bool := comp_key g lhs <? comp_key g rhs.
Definition comp_equal (g : bool) (lhs rhs : Transition) : bool := comp_key g lhs =? comp_key g rhs.

(** [std::lower_bound] on a sorted range: the number of elements before the
    first one that is not less than the sentry. *)
Fixpoint lower_bound (g : bool) (sentry : Transition) (l : list Transition) : nat :=
  match l with
  | [] => 0
  | t :: l' => if comp_less g t sentry then S (lower_bound g sentry l') else 0
  end.

(** [localtimes[i]]: undefined outside the vector. *)
Definition localtime_at (d : Data) (i : Z) : outcome Localtime :=
  if i <? 0 then Err OutOfBounds
  else match localtimes d !! Z.to_nat i with Some l => Ok l | None => Err OutOfBounds end.

Definition findLocaltime (d : Data) (sentry : Transition) (g : bool) : outcome Localtime :=
  match transitions d with
  | [] => localtime_at d 0
  | front :: _ =>
      if comp_less g sentry front then localtime_at d 0
      else
        let i := lower_bound g sentry (transitions d) in
        match transitions d !! i with
        | Some t =>
            if comp_equal g sentry t then localtime_at d (localtimeIdx t)
            else
              assert_ (negb (Nat.eqb i 0));;
              match transitions d !! (i - 1)%nat with
              | Some t => localtime_at d (localtimeIdx t)
              | None => Err OutOfBounds
              end
        | None =>
            match last (transitions d) with
            | Some t => localtime_at d (localtimeIdx t)
            | None => Err OutOfBounds
            end
        end
  end.

(** A zone of fixed offset. *)
Definition new_TimeZone (eastOfUtc : Z) (name : list ascii) : Data :=
  mkData [] [mkLocaltime eastOfUtc false 0] (StringPiece.until_nul name).

(** Reference: the type in force is that of the last transition not after the
    sentry; before the first transition, the first type. *)
Definition in_force (d : Data) (g : bool) (x : Z) : Z :=
  match last (filter (fun t => comp_key g t <= x) (transitions d)) with
  | Some t => localtimeIdx t
  | None => 0
  end.

Definition sorted_zone (g : bool) (l : list Transition) : Prop :=
  StronglySorted (fun a b => comp_key g a < comp_key g b) l.

Lemma filter_none g x l : Forall (fun t => x < comp_key g t) l -> filter (fun t => comp_key g t <= x) l = [].
Proof.
  induction 1 as [|t l Ht _ IH]; [done|]. rewrite filter_cons_False by lia. done.
Qed.

Lemma lower_bound_spec g s l : sorted_zone g l ->
  Forall (fun t => comp_key g t < comp_key g s) (take (lower_bound g s l) l) /\
  Forall (fun t => comp_key g s <= comp_key g t) (drop (lower_bound g s l) l).
Proof.
  induction 1 as [|t l Hs IH Hall]; [done|]. simpl. unfold comp_less.
  destruct (Z.ltb_spec (comp_key g t) (comp_key g s)); simpl.
  - destruct IH. by split; [constructor|].
  - split; [done|]. constructor; [done|]. eapply Forall_impl; [exact Hall|]. simpl. lia.
Qed.

(** The filter keeps a prefix: the elements before the bound and the one at
    the bound if it is equal. *)
Lemma filter_prefix g s l : sorted_zone g l ->
  let i := lower_bound g s l in
  filter (fun t => comp_key g t <= comp_key g s) l =
  take i l ++ match l !! i with Some t => if comp_equal g s t then [t] else [] | None => [] end.
Proof.
  intros Hs i. destruct (lower_bound_spec g s l Hs) as [Hlt Hge]. fold i in Hlt, Hge.
  rewrite <- (take_drop i l) at 1. rewrite filter_app. f_equal.
  - clear -Hlt. induction Hlt as [|t k Ht _ IH]; [done|]. rewrite filter_cons_True by lia. by rewrite IH.
  - destruct (l !! i) as [t|] eqn:E.
    + rewrite (drop_S l t i E) in *. apply Forall_cons in Hge as [Ht _]. unfold comp_equal.
      assert (Hrest : Forall (fun u => comp_key g s < comp_key g u) (drop (S i) l)).
      { assert (Hd : sorted_zone g (t :: drop (S i) l)).
        { rewrite <- (drop_S l t i E). unfold sorted_zone in *. rewrite <- (take_drop i l) in Hs.
          by apply StronglySorted_app_1_r in Hs. }
        apply StronglySorted_inv in Hd as [_ Hd]. eapply Forall_impl; [exact Hd|]. simpl. lia. }
      destruct (Z.eqb_spec (comp_key g s) (comp_key g t)).
      * rewrite filter_cons_True by lia. by rewrite filter_none.
      * rewrite filter_cons_False by lia. by rewrite filter_none.
    + rewrite drop_ge; [done|]. by apply lookup_ge_None.
Qed.

Lemma findLocaltime_in_force d g s : sorted_zone g (transitions d) ->
  findLocaltime d s g = localtime_at d (in_force d g (comp_key g s)).
Proof.
  intros Hs. unfold findLocaltime, in_force. rewrite (filter_prefix g s _ Hs).
  destruct (transitions d) as [|f l] eqn:El; [done|]. rewrite <- El in *.
  destruct (comp_less g s f) eqn:Ef.
  - unfold comp_less in Ef. apply Z.ltb_lt in Ef.
    assert (Hi : lower_bound g s (transitions d) = 0%nat).
    { rewrite El. simpl. unfold comp_less. by rewrite (proj2 (Z.ltb_ge _ _)) by lia. }
    rewrite Hi, El. simpl. unfold comp_equal. by rewrite (proj2 (Z.eqb_neq _ _)) by lia.
  - set (i := lower_bound g s (transitions d)). destruct (transitions d !! i) as [t|] eqn:Ei.
    + destruct (comp_equal g s t) eqn:Eq.
      * rewrite last_snoc. done.
      * rewrite app_nil_r. destruct i as [|k] eqn:Hi.
        { rewrite El in Ei. injection Ei as <-. exfalso.
          unfold comp_less, comp_equal in *. apply Z.ltb_ge in Ef. apply Z.eqb_neq in Eq.
          unfold i in Hi. rewrite El in Hi. simpl in Hi. unfold comp_less in Hi.
          by rewrite (proj2 (Z.ltb_lt _ _)) in Hi by lia. }
        assert (Hk : is_Some (transitions d !! k)) by (apply lookup_lt_is_Some; apply lookup_lt_Some in Ei; lia).
        destruct Hk as [u Hu]. simpl. rewrite Nat.sub_0_r, Hu.
        rewrite (take_S_r _ _ _ Hu), last_snoc. done.
    + rewrite app_nil_r, take_ge by (by apply lookup_ge_None). rewrite El.
      destruct (last (f :: l)) eqn:E; [done|]. apply last_None in E. done.
Qed.

(** ** Properties *)


(** The UTC time of a number of seconds is right (a date of the calendar, a
    time of the day and a weekday that denote exactly that second), but going
    back loses ten seconds for each minute of the hour, since [fromUtcTime]
    counts fifty seconds to the minute. *)
Theorem utc_time (t : Z) (yd : bool) (Ht : utc_range t) :
  let utc := toUtcTime t yd in
  let d := mkYMD (tm_year utc + 1900) (tm_mon utc + 1) (tm_mday utc) in
  valid_ymd d = true /\
  (getJulianDayNumber (year d) (month d) (day d) - kJulianDayOf1970_01_01) * 86400 +
    tm_hour utc * 3600 + tm_min utc * 60 + tm_sec utc = t /\
  0 <= tm_hour utc < 24 /\ 0 <= tm_min utc < 60 /\ 0 <= tm_sec utc < 60 /\
  tm_wday utc = (t / 86400 + 4) mod 7 /\
  fromUtcTime_tm utc = t - 10 * tm_min utc.
Proof.
  destruct (toUtcTime_spec t yd Ht) as (H1 & H2 & H3 & H4 & H5 & H6). cbv zeta.
  split_and!; try done; try lia. unfold fromUtcTime_tm, fromUtcTime, kSecondsPerDay. cbn [year month day] in *. lia.
Qed.

Lemma utc_time_witness :
  valid_ymd (mkYMD 2001 9 9) = true /\
  (tm_hour (toUtcTime 1000000000 true), tm_min (toUtcTime 1000000000 true)) = (1, 46) /\
  fromUtcTime_tm (toUtcTime 1000000000 true) = 1000000000 - 10 * 46.
Proof.
  split; [reflexivity|]. split; [vm_compute; reflexivity|].
  apply (utc_time 1000000000 true). unfold utc_range. lia.
Defined.

(** [findLocaltime] finds the rule in force: on a table sorted by the time it
    compares (UTC or local), it gives the type of the last transition not after
    the given time, and the first type before the first transition; it reads
    outside the vector of types only if that index is outside. *)
Theorem zone_lookup (d : Data) (g : bool) (s : Transition) (Hs : sorted_zone g (transitions d)) :
  findLocaltime d s g = localtime_at d (in_force d g (comp_key g s)).
Proof. by apply findLocaltime_in_force. Qed.

Definition sample_zone : Data :=
  mkData [mkTransition 100 3700 1; mkTransition 200 200 0] [mkLocaltime 0 false 0; mkLocaltime 3600 true 4] [].

Lemma zone_lookup_witness :
  findLocaltime sample_zone (mkTransition 150 0 0) true = Ok (mkLocaltime 3600 true 4) /\
  findLocaltime sample_zone (mkTransition 150 0 0) true = localtime_at sample_zone 1.
Proof.
  split; [vm_compute; reflexivity|]. apply (zone_lookup sample_zone true (mkTransition 150 0 0)).
  repeat constructor.
Defined.
