(* ===== verification/Calendar.v ===== *)
(** * The class Date (src/src/Date.h, Date.cpp)

    A date is its Julian day number; the constructors and comparisons of the
    class, and the order of dates: comparing day numbers is comparing year,
    month and day in turn. *)

From S2P Require Import Prelude Date.
Local Open Scope Z_scope.

Record Date_ : Type := mkDate { julianDayNumber_ : Z }.

Definition new_Date : Date_ := mkDate 0.
Definition new_Date_ymd (y m d : Z) : Date_ := mkDate (getJulianDayNumber y m d).
Definition new_Date_jdn (julianDayNum : Z) : Date_ := mkDate julianDayNum.
Definition new_Date_tm (t : tm) : Date_ :=
  mkDate (getJulianDayNumber (tm_year t + 1900) (tm_mon t + 1) (tm_mday t)).
Definition date_swap (a that : Date_) : Date_ * Date_ := (that, a).
Definition yearMonthDay (d : Date_) : YearMonthDay := getYearMonthDay (julianDayNumber_ d).
Definition date_year (d : Date_) : Z := year (yearMonthDay d).
Definition date_month (d : Date_) : Z := month (yearMonthDay d).
Definition date_day (d : Date_) : Z := day (yearMonthDay d).
Definition date_lt (x y : Date_) : bool := julianDayNumber_ x <? julianDayNumber_ y.
Definition date_eq (x y : Date_) : bool := julianDayNumber_ x =? julianDayNumber_ y.

(** The order of the calendar. *)
Definition ymd_before (a b : YearMonthDay) : Prop :=
  year a < year b \/ (year a = year b /\ (month a < month b \/ (month a = month b /\ day a < day b))).

Lemma ymd_total a b : ymd_before a b \/ a = b \/ ymd_before b a.
Proof.
  destruct a as [y m d], b as [y' m' d']. unfold ymd_before. simpl.
  destruct (Z.lt_total y y') as [?|[-> |?]]; [lia| |lia]. destruct (Z.lt_total m m') as [?|[-> |?]]; [lia| |lia].
  destruct (Z.lt_total d d') as [?|[-> |?]]; [lia| |lia]. auto.
Qed.

(** ** In March-based years *)

Lemma slot_day_mono b d e b' d' e' : slot b d e -> slot b' d' e' ->
  100 * b + d < 100 * b' + d' -> slot_day b d e < slot_day b' d' e'.
Proof.
  intros (Hb & Hd & He & H365) (Hb' & Hd' & He' & _) Hlt. unfold slot_day.
  assert (e = 365 \/ e <= 364) as [E|E] by lia; [specialize (H365 E)|clear H365];
    assert (b = b' \/ b < b') as [<- |Hbb] by lia; divlia.
Qed.

Lemma march_before a b : valid_ymd a = true -> valid_ymd b = true -> 0 <= march_year a -> 0 <= march_year b ->
  ymd_before a b -> march_year a < march_year b \/ (march_year a = march_year b /\ march_day a < march_day b).
Proof.
  intros Ha Hb Hya Hyb Hlt. destruct (date_slot a Ha Hya) as [(_ & _ & Hea & _) Hma].
  destruct (date_slot b Hb Hyb) as [(_ & _ & Heb & _) Hmb].
  destruct (month_of_bounds _ Hea) as [_ Ra]. destruct (month_of_bounds _ Heb) as [_ Rb].
  rewrite Hma in Ra. rewrite Hmb in Rb. apply valid_ymd_spec in Ha as [Ha _], Hb as [Hb _].
  unfold ymd_before in Hlt. destruct a as [y m d], b as [y' m' d'].
  unfold march_year, march_day in *. cbn [year month day] in *.
  unfold shift in *. destruct (Z.leb_spec m 2), (Z.leb_spec m' 2); unfold month_start in *;
    repeat (destruct Hlt as [Hlt|[? Hlt]]); subst; try lia; divlia.
Qed.

Lemma jdn_before a b : valid_ymd a = true -> valid_ymd b = true -> 0 <= march_year a -> 0 <= march_year b ->
  ymd_before a b -> getJulianDayNumber (year a) (month a) (day a) < getJulianDayNumber (year b) (month b) (day b).
Proof.
  intros Ha Hb Hya Hyb Hlt. pose proof (march_before a b Ha Hb Hya Hyb Hlt) as Hm.
  destruct (date_slot a Ha Hya) as [Sa _]. destruct (date_slot b Hb Hyb) as [Sb _].
  apply valid_ymd_spec in Ha as [Ha _], Hb as [Hb _]. rewrite !getJulianDayNumber_slot by done.
  destruct Hm as [Hm|[Hm Hd]].
  - assert (slot_day (march_year a / 100) (march_year a mod 100) (march_day a) <
            slot_day (march_year b / 100) (march_year b mod 100) (march_day b)); [|lia].
    apply slot_day_mono; [done..|]. clear -Hm. divlia.
  - rewrite Hm. unfold slot_day. lia.
Qed.

(** ** Properties *)

(** For all dates of the calendar from March of the year -4800 on, the constructor and the
    accessors are inverse, and the comparisons of the class compare year, month
    and day in turn; a date built from a [tm] is the one of its fields. *)
Theorem date_order (a b : YearMonthDay)
    (Ha : valid_ymd a = true) (Hb : valid_ymd b = true) (Hya : 0 <= march_year a) (Hyb : 0 <= march_year b) :
  let da := new_Date_ymd (year a) (month a) (day a) in
  let db := new_Date_ymd (year b) (month b) (day b) in
  (date_year da, date_month da, date_day da) = (year a, month a, day a) /\
  (date_lt da db = true <-> ymd_before a b) /\ (date_eq da db = true <-> a = b) /\
  (forall t, (tm_year t + 1900, tm_mon t + 1, tm_mday t) = (year a, month a, day a) -> new_Date_tm t = da).
Proof.
  intros da db. split_and!.
  - assert (E : yearMonthDay da = a) by by apply ymd_of_jdn. unfold date_year, date_month, date_day. by rewrite E.
  - unfold date_lt, da, db. simpl. rewrite Z.ltb_lt. split; [|by apply jdn_before]. intros Hlt.
    destruct (ymd_total a b) as [?|[-> |H]]; [done|lia|]. apply (jdn_before b a) in H; [lia|done..].
  - unfold date_eq, da, db. simpl. rewrite Z.eqb_eq. split; [|by intros ->]. intros E.
    by rewrite <- (ymd_of_jdn a Ha Hya), <- (ymd_of_jdn b Hb Hyb), E.
  - intros t [= E1 E2 E3]. unfold new_Date_tm, da, new_Date_ymd. by rewrite E1, E2, E3.
Qed.

Lemma date_order_witness : date_lt (new_Date_ymd 2024 2 29) (new_Date_ymd 2024 3 1) = true.
Proof. apply (date_order (mkYMD 2024 2 29) (mkYMD 2024 3 1)); try reflexivity; [done..|]. right. simpl. lia. Defined.
