(* ===== verification/TimeZone.v ===== *)
(** * Zone files and local time (src/src/TimeZone.h, TimeZone.cpp)

    The reader of TZif files, as a parser over the bytes of the file that keeps
    the part of the zone read before an exception, and the conversions between
    UTC and local time over the tables of Date.v. *)

From S2P Require Import Prelude Endian StringPiece Format Date.
Local Open Scope Z_scope.

(** ** The reader *)

(** A read gives a value, the rest of the file and the zone so far; or throws a
    [logic_error], leaving the zone as it is; or is undefined. *)
Inductive rres (A : Type) : Type :=
| Got (a : A) (f : list ascii) (d : Data)
| Thrown (d : Data)
| Fault (e : failure).
Arguments Got {A}. Arguments Thrown {A}. Arguments Fault {A}.

Definition reader (A : Type) : Type := list ascii -> Data -> rres A.

#[export] Instance reader_ret : MRet reader := fun A a f d => Got a f d.
#[export] Instance reader_bind : MBind reader := fun A B k m f d =>
  match m f d with
  | Got a f d => k a f d
  | Thrown d => Thrown d
  | Fault e => Fault e
  end.

Definition throw {A} : reader A := fun _ d => Thrown d.
Definition modify (g : Data -> Data) : reader unit := fun f d => Got tt f (g d).
Definition get_data : reader Data := fun f d => Got d f d.
Definition lift {A} (o : outcome A) : reader A := fun f d => match o with Ok a => Got a f d | Err e => Fault e end.

(** [File::readBytes]: an array of negative length is undefined. *)
Definition readBytes (n : Z) : reader (list ascii) := fun f d =>
  if n <? 0 then Fault OutOfBounds
  else if zlen f <? n then Thrown d
  else Got (ztake n f) (zdrop n f) d.

Definition readInt32 : reader Z := fun f d =>
  if zlen f <? 4 then Thrown d else Got (i32 (networkToHost32 (le_value (ztake 4 f)))) (zdrop 4 f) d.

Definition readUInt8 : reader Z := fun f d =>
  match f with [] => Thrown d | c :: f => Got (Z_of_byte c) f d end.

(** [n] reads in a row. *)
Fixpoint repeat_read {A} (r : reader A) (n : nat) : reader (list A) :=
  match n with
  | O => mret []
  | S n' => a ← r; l ← repeat_read r n'; mret (a :: l)
  end.

Definition push_localtime (l : Localtime) (d : Data) : Data :=
  mkData (transitions d) (localtimes d ++ [l]) (abbreviation d).
Definition push_transition (t : Transition) (d : Data) : Data :=
  mkData (transitions d ++ [t]) (localtimes d) (abbreviation d).
Definition set_abbreviation (s : list ascii) (d : Data) : Data := mkData (transitions d) (localtimes d) s.

(** One entry of the array of types: offset, daylight flag, index of the name. *)
Definition readType : reader unit :=
  gmtoff ← readInt32;
  isdst ← readUInt8;
  abbrind ← readUInt8;
  modify (push_localtime (mkLocaltime gmtoff (negb (isdst =? 0)) abbrind)).

(** The body of the loop that builds the transitions. *)
Definition addTransition (p : Z * Z) : reader unit :=
  d ← get_data;
  l ← lift (localtime_at d p.2);
  modify (push_transition (mkTransition p.1 (p.1 + gmtOffset l) p.2)).

Fixpoint addTransitions (ps : list (Z * Z)) : reader unit :=
  match ps with
  | [] => mret tt
  | p :: ps => _ ← addTransition p; addTransitions ps
  end.

(** The text of the [try] block. *)
Definition readZone : reader unit :=
  head ← readBytes 4;
  if bool_decide (head = bytes "TZif") then
    _ ← readBytes 1;
    _ ← readBytes 15;
    isgmtcnt ← readInt32;
    isstdcnt ← readInt32;
    leapcnt ← readInt32;
    timecnt ← readInt32;
    typecnt ← readInt32;
    charcnt ← readInt32;
    (* [reserve] of a negative count throws [length_error], a [logic_error] *)
    _ ← (if timecnt <? 0 then throw else mret tt);
    trans ← repeat_read readInt32 (Z.to_nat timecnt);
    idx ← repeat_read readUInt8 (Z.to_nat timecnt);
    _ ← repeat_read readType (Z.to_nat typecnt);
    _ ← addTransitions (zip trans idx);
    abbr ← readBytes charcnt;
    modify (set_abbreviation abbr)
  else throw.

(** [readTimeZoneFile]: [None] when the file cannot be opened. *)
Definition readTimeZoneFile (file : option (list ascii)) (d : Data) : outcome (bool * Data) :=
  match file with
  | None => Ok (true, d)
  | Some f =>
      match readZone f d with
      | Got _ _ d => Ok (true, d)
      | Thrown d => Ok (true, d)
      | Fault e => Err e
      end
  end.

Definition empty_data : Data := mkData [] [] [].

Definition new_TimeZone_file (file : option (list ascii)) : outcome (option Data) :=
  '(ok, d) ← readTimeZoneFile file empty_data;
  Ok (if (ok : bool) then Some d else None).

(** ** Local time *)

(** The fields of [struct tm] beyond those of Date.v. *)
Record local_tm : Type := mkLocalTm { lt_tm : tm; lt_isdst : bool; lt_gmtoff : Z; lt_zone : list ascii }.

Section Local.
(** [gmtime_r] and [timegm] of the C library. *)
Context (gmtime_r : Z -> tm) (timegm : tm -> Z).

Definition toLocalTime (data_ : option Data) (seconds : Z) : outcome local_tm :=
  match data_ with
  | None => Err AssertFailed
  | Some d =>
      local ← findLocaltime d (mkTransition seconds 0 0) true;
      if (arrbIdx local <? 0) || (zlen (abbreviation d) <? arrbIdx local) then Err OutOfBounds
      else
        Ok (mkLocalTm (gmtime_r (seconds + gmtOffset local)) (isDst local) (gmtOffset local)
              (StringPiece.until_nul (zdrop (arrbIdx local) (abbreviation d))))
  end.

Definition fromLocalTime (data_ : option Data) (localTm : local_tm) : outcome Z :=
  match data_ with
  | None => Err AssertFailed
  | Some d =>
      let seconds := timegm (lt_tm localTm) in
      local ← findLocaltime d (mkTransition 0 seconds 0) false;
      seconds ← (if lt_isdst localTm then
                   tryTm ← toLocalTime (Some d) (seconds - gmtOffset local);
                   Ok (if negb (lt_isdst tryTm) && (tm_hour (lt_tm tryTm) =? tm_hour (lt_tm localTm))
                          && (tm_min (lt_tm tryTm) =? tm_min (lt_tm localTm))
                       then seconds - 3600 else seconds)
                 else Ok seconds);
      Ok (seconds - gmtOffset local)
  end.

Hypothesis timegm_gmtime : forall t, timegm (gmtime_r t) = t.

(** Local time and back, where the rule in force at the local time is the one in
    force at the second. *)
Lemma local_roundtrip d t l :
  sorted_zone true (transitions d) -> sorted_zone false (transitions d) ->
  localtime_at d (in_force d true t) = Ok l ->
  in_force d false (t + gmtOffset l) = in_force d true t ->
  0 <= arrbIdx l <= zlen (abbreviation d) ->
  exists lt, toLocalTime (Some d) t = Ok lt /\ lt_gmtoff lt = gmtOffset l /\ lt_isdst lt = isDst l /\
    fromLocalTime (Some d) lt = Ok t.
Proof.
  intros Hg Hl Hat Hin Ha.
  assert (Hto : toLocalTime (Some d) t = Ok (mkLocalTm (gmtime_r (t + gmtOffset l)) (isDst l) (gmtOffset l)
    (StringPiece.until_nul (zdrop (arrbIdx l) (abbreviation d))))).
  { unfold toLocalTime. rewrite findLocaltime_in_force by done. cbn [comp_key gmttime]. rewrite Hat.
    cbn [mbind outcome_bind]. by zguard. }
  eexists. split; [exact Hto|]. split; [done|]. split; [done|].
  unfold fromLocalTime. cbn [lt_tm lt_isdst]. rewrite findLocaltime_in_force by done.
  cbn [comp_key localtime]. rewrite timegm_gmtime, Hin, Hat. cbn [mbind outcome_bind].
  replace (t + gmtOffset l - gmtOffset l) with t by lia. rewrite Hto.
  destruct (isDst l) eqn:E; cbn [mbind outcome_bind lt_isdst negb andb]; f_equal; lia.
Qed.
End Local.

(** ** Writing a zone file *)

Definition put32 (x : Z) : list ascii := be_bytes 4 x.
Definition put8 (x : Z) : list ascii := [byte_of_Z x].

Definition put_type (l : Localtime) : list ascii :=
  put32 (gmtOffset l) ++ put8 (if isDst l then 1 else 0) ++ put8 (arrbIdx l).

(** The file of a zone with transitions (time, type), types and names, and
    whatever follows the part that is read; three counts are not used. *)
Definition zone_file (version reserved : list ascii) (c1 c2 c3 : Z) (ts : list (Z * Z)) (types : list Localtime)
    (abbr rest : list ascii) : list ascii :=
  bytes "TZif" ++ version ++ reserved ++ put32 c1 ++ put32 c2 ++ put32 c3 ++
  put32 (zlen ts) ++ put32 (zlen types) ++ put32 (zlen abbr) ++
  concat (map (fun p => put32 p.1) ts) ++ concat (map (fun p => put8 p.2) ts) ++
  concat (map put_type types) ++ abbr ++ rest.

Definition type_ok (l : Localtime) : Prop := in_s 32 (gmtOffset l) /\ in_u 8 (arrbIdx l).

Definition build (types : list Localtime) (p : Z * Z) : Transition :=
  mkTransition p.1 (p.1 + match types !! Z.to_nat p.2 with Some l => gmtOffset l | None => 0 end) p.2.

Lemma readBytes_app s f d : readBytes (zlen s) (s ++ f) d = Got s f d.
Proof.
  unfold readBytes. pose proof (zlen_nonneg s). pose proof (zlen_nonneg f). rewrite zlen_app. zguard.
  by rewrite ztake_app_exact, zdrop_app_exact.
Qed.

Lemma readInt32_put x f d : in_s 32 x -> readInt32 (put32 x ++ f) d = Got x f d.
Proof.
  intros Hx. unfold readInt32, put32. pose proof (zlen_nonneg f). rewrite zlen_app, zlen_be_bytes. zguard.
  rewrite ztake_app_exact, zdrop_app_exact by (by rewrite zlen_be_bytes).
  unfold networkToHost32. rewrite (bswap_le_value _ 4) by apply length_be_bytes. rewrite be_value_bytes.
  change (width 4) with 32. unfold i32. rewrite swrap_uwrap by lia. by rewrite swrap_small by (lia || done).
Qed.

Lemma readUInt8_put x f d : in_u 8 x -> readUInt8 (put8 x ++ f) d = Got x f d.
Proof. intros Hx. unfold readUInt8, put8. simpl. rewrite Z_of_byte_of_Z. by rewrite uwrap_small. Qed.

Lemma repeat_read_put {A} (r : reader A) (put : A -> list ascii) (ok : A -> Prop) l :
  (forall a f d, ok a -> r (put a ++ f) d = Got a f d) ->
  Forall ok l -> forall f d, repeat_read r (length l) (concat (map put l) ++ f) d = Got l f d.
Proof.
  intros Hr Hl. induction Hl as [|a l Ha _ IH]; intros f d; [done|].
  cbn [length repeat_read map concat]. unfold mbind, reader_bind. rewrite <- app_assoc, Hr by done. by rewrite IH.
Qed.

Lemma bind_got {A B} (m : reader A) (k : A -> reader B) f d a f' d' :
  m f d = Got a f' d' -> (m ≫= k) f d = k a f' d'.
Proof. intros E. unfold mbind, reader_bind. by rewrite E. Qed.

Lemma readType_put t f d : type_ok t -> readType (put_type t ++ f) d = Got tt f (push_localtime t d).
Proof.
  intros [Ht Ha]. unfold readType, put_type. rewrite <- !app_assoc.
  rewrite (bind_got _ _ _ _ _ _ _ (readInt32_put _ _ _ Ht)).
  rewrite (bind_got _ _ _ _ _ _ _ (readUInt8_put (if isDst t then 1 else 0) _ _ ltac:(unfold in_u; destruct (isDst t); lia))).
  rewrite (bind_got _ _ _ _ _ _ _ (readUInt8_put _ _ _ Ha)).
  unfold modify. by destruct t as [o [] i].
Qed.

Lemma readTypes_put l : Forall type_ok l -> forall f ts ls ab,
  exists us, repeat_read readType (length l) (concat (map put_type l) ++ f) (mkData ts ls ab) =
    Got us f (mkData ts (ls ++ l) ab).
Proof.
  induction 1 as [|t l Ht _ IH]; intros f ts ls ab.
  - exists []. by rewrite app_nil_r.
  - cbn [length repeat_read map concat]. rewrite <- app_assoc.
    rewrite (bind_got _ _ _ _ _ _ _ (readType_put t _ _ Ht)).
    destruct (IH f ts (ls ++ [t]) ab) as [us Hus]. unfold push_localtime; cbn [transitions localtimes abbreviation].
    rewrite (bind_got _ _ _ _ _ _ _ Hus). exists (tt :: us). by rewrite <- app_assoc.
Qed.

Lemma addTransitions_build types ab ps : Forall (fun p => 0 <= p.2 < zlen types) ps -> forall f ts,
  addTransitions ps f (mkData ts types ab) = Got tt f (mkData (ts ++ map (build types) ps) types ab).
Proof.
  induction 1 as [|p ps Hp _ IH]; intros f ts; [by rewrite app_nil_r|].
  assert (Hadd : addTransition p f (mkData ts types ab) = Got tt f (mkData (ts ++ [build types p]) types ab)).
  { unfold addTransition, get_data, lift, modify, mbind, reader_bind, localtime_at, build. cbn [localtimes].
    unfold zlen in Hp. zguard. destruct (lookup_lt_is_Some_2 types (Z.to_nat p.2)) as [l Hl]; [lia|].
    by rewrite Hl. }
  cbn [addTransitions map]. rewrite (bind_got _ _ _ _ _ _ _ Hadd), IH. by rewrite <- app_assoc.
Qed.

(** ** Properties *)

(** C35. Reading the file of a zone gives the zone: its transitions with their local
    times, its types and its names, whatever follows in the file. *)
Theorem zone_file_roundtrip (version reserved : list ascii) (c1 c2 c3 : Z) (ts : list (Z * Z))
    (types : list Localtime) (abbr rest : list ascii) :
  zlen version = 1 -> zlen reserved = 15 -> in_s 32 c1 -> in_s 32 c2 -> in_s 32 c3 ->
  zlen ts < 2 ^ 31 -> zlen types <= 256 -> zlen abbr < 2 ^ 31 ->
  Forall (fun p => in_s 32 p.1 /\ 0 <= p.2 < zlen types) ts -> Forall type_ok types ->
  readTimeZoneFile (Some (zone_file version reserved c1 c2 c3 ts types abbr rest)) empty_data =
  Ok (true, mkData (map (build types) ts) types abbr).
Proof.
  intros Hv Hr H1 H2 H3 Hts Hty Hab Hts' Htypes. unfold readTimeZoneFile, readZone, zone_file.
  assert (Hlen : forall A (l : list A), zlen l < 2 ^ 31 -> in_s 32 (zlen l))
    by (intros A l ?; unfold in_s; pose proof (zlen_nonneg l); simpl; lia).
  pose proof (zlen_nonneg ts).
  rewrite (bind_got (readBytes 4) _ _ _ _ _ _ (readBytes_app (bytes "TZif") _ _)), bool_decide_true by done.
  rewrite <- Hv at 1. rewrite (bind_got _ _ _ _ _ _ _ (readBytes_app version _ _)).
  rewrite <- Hr at 1. rewrite (bind_got _ _ _ _ _ _ _ (readBytes_app reserved _ _)).
  rewrite (bind_got _ _ _ _ _ _ _ (readInt32_put _ _ _ H1)), (bind_got _ _ _ _ _ _ _ (readInt32_put _ _ _ H2)).
  rewrite (bind_got _ _ _ _ _ _ _ (readInt32_put _ _ _ H3)).
  rewrite (bind_got _ _ _ _ _ _ _ (readInt32_put _ _ _ (Hlen _ ts Hts))).
  rewrite (bind_got _ _ _ _ _ _ _ (readInt32_put _ _ _ (Hlen _ types ltac:(lia)))).
  rewrite (bind_got _ _ _ _ _ _ _ (readInt32_put _ _ _ (Hlen _ abbr Hab))). zguard.
  rewrite (bind_got (mret tt) _ _ _ _ _ _ eq_refl).
  assert (Ets : Z.to_nat (zlen ts) = length (map fst ts) /\ Z.to_nat (zlen ts) = length (map snd ts) /\
    Z.to_nat (zlen types) = length types) by (rewrite !length_map; unfold zlen; lia).
  destruct Ets as (Ef & Es & Et). rewrite Ef at 1. rewrite Es, Et, <- (map_map fst put32), <- (map_map snd put8).
  rewrite (bind_got _ _ _ _ _ _ _ (repeat_read_put readInt32 put32 (in_s 32) (map fst ts)
    (fun a f d Ha => readInt32_put a f d Ha) ltac:(apply Forall_map; eapply Forall_impl; [exact Hts'|]; by intros p [? _]) _ _)).
  rewrite (bind_got _ _ _ _ _ _ _ (repeat_read_put readUInt8 put8 (in_u 8) (map snd ts)
    (fun a f d Ha => readUInt8_put a f d Ha) ltac:(apply Forall_map; eapply Forall_impl; [exact Hts'|];
      intros p [_ ?]; unfold in_u; simpl; lia) _ _)).
  destruct (readTypes_put types Htypes (abbr ++ rest) [] [] []) as [us Hus].
  rewrite (bind_got _ _ _ _ _ _ _ Hus).
  replace (zip (map fst ts) (map snd ts)) with ts by (clear; induction ts as [|[] ts IH]; simpl; congruence).
  rewrite (bind_got _ _ _ _ _ _ _ (addTransitions_build types [] ts
    ltac:(eapply Forall_impl; [exact Hts'|]; by intros p [_ ?]) _ _)).
  by rewrite (bind_got _ _ _ _ _ _ _ (readBytes_app abbr _ _)).
Qed.

Definition sample_types : list Localtime := [mkLocaltime 3600 false 0; mkLocaltime 7200 true 4].

Lemma zone_file_roundtrip_witness :
  readTimeZoneFile (Some (zone_file (bytes "2") (replicate 15 StringPiece.NUL) 0 0 0 [(-1000, 1); (5000, 0)]
    sample_types (bytes "CET CEST") (bytes "tail"))) empty_data =
  Ok (true, mkData [mkTransition (-1000) 6200 1; mkTransition 5000 8600 0] sample_types (bytes "CET CEST")).
Proof.
  apply (zone_file_roundtrip (bytes "2") (replicate 15 StringPiece.NUL) 0 0 0 [(-1000, 1); (5000, 0)]
    sample_types (bytes "CET CEST") (bytes "tail")).
  - reflexivity.
  - reflexivity.
  - unfold in_s. lia.
  - unfold in_s. lia.
  - unfold in_s. lia.
  - vm_compute. reflexivity.
  - vm_compute. discriminate.
  - vm_compute. reflexivity.
  - repeat constructor; vm_compute; discriminate || reflexivity.
  - repeat constructor; vm_compute; discriminate || reflexivity.
Defined.
