(* ===== verification/Threading.v ===== *)
(** * Threads and their handshakes (src/src/CountDownLatch.cpp, Thread.cpp, EventLoopThread.cpp)

    Each module is a step relation of the threads that take part in one
    handshake.  A step is a critical section of the mutex (or an access outside
    it): a wait on the condition releases the mutex and is left by a
    notification or spuriously, after which the condition is tested again. *)

From S2P Require Import Prelude Endian StringPiece Format.
Local Open Scope Z_scope.

(** Where a thread is in a loop [while (c) cond.wait()]. *)
Inductive waiter : Type :=
| Entering            (** before the first test, or woken: it will test again *)
| Waiting             (** in the wait set of the condition *)
| Passed.             (** past the loop *)

#[export] Instance waiter_eq_dec : EqDecision waiter.
Proof. solve_decision. Defined.

Definition notified (w : waiter) : waiter := match w with Waiting => Entering | w => w end.

(** ** CountDownLatch *)

Module Latch.

(** The count and the threads in [wait]. *)
Record latch : Type := mkLatch { count_ : Z; waiters : gmap Z waiter }.

Definition new_CountDownLatch (count : Z) (ws : gmap Z waiter) : latch := mkLatch count ws.

(** One test of the loop of [wait]. *)
Definition wait_test (l : latch) (i : Z) : latch :=
  mkLatch (count_ l) (<[i := if 0 <? count_ l then Waiting else Passed]> (waiters l)).

Definition countDown (l : latch) : latch :=
  let count := i32 (count_ l - 1) in
  mkLatch count (if count =? 0 then notified <$> waiters l else waiters l).

Inductive latch_step : latch -> latch -> Prop :=
| step_test l i : waiters l !! i = Some Entering -> latch_step l (wait_test l i)
| step_spurious l i : waiters l !! i = Some Waiting ->
    latch_step l (mkLatch (count_ l) (<[i := Entering]> (waiters l)))
| step_down l : - 2 ^ 31 < count_ l -> latch_step l (countDown l).

(** A thread waits only while the count is positive, and has passed only when
    it is not. *)
Definition LInv (l : latch) : Prop :=
  in_s 32 (count_ l) /\
  (count_ l <= 0 -> forall i, waiters l !! i <> Some Waiting) /\
  (forall i, waiters l !! i = Some Passed -> count_ l <= 0).

Lemma latch_step_inv l l' : latch_step l l' -> LInv l -> LInv l'.
Proof.
  intros Hs (Hr & Hw & Hp). destruct Hs as [l i Hi|l i Hi|l Hmin].
  - split; [done|]. unfold wait_test. simpl. destruct (Z.ltb_spec 0 (count_ l)); split.
    + lia.
    + intros j Hj. apply lookup_insert_Some in Hj as [[_ ?]|[_ Hj]]; [done|eauto].
    + intros _ j Hj. apply lookup_insert_Some in Hj as [[_ ?]|[_ Hj]]; [done|]. by eapply Hw.
    + intros j Hj. apply lookup_insert_Some in Hj as [[_ ?]|[_ Hj]]; [done|eauto].
  - split; [done|]. simpl. split.
    + intros Hc j Hj. apply lookup_insert_Some in Hj as [[_ ?]|[_ Hj]]; [done|]. by eapply Hw.
    + intros j Hj. apply lookup_insert_Some in Hj as [[_ ?]|[_ Hj]]; [done|eauto].
  - unfold countDown, i32. assert (Hc : swrap 32 (count_ l - 1) = count_ l - 1)
      by (apply swrap_small; unfold in_s in *; simpl in *; lia). rewrite Hc.
    split; [unfold in_s in *; simpl in *; lia|]. simpl. destruct (Z.eqb_spec (count_ l - 1) 0) as [E|E]; split.
    + intros _ j Hj. rewrite lookup_fmap in Hj. destruct (waiters l !! j) as [[]|]; done.
    + lia.
    + intros Hle j Hj. apply (Hw ltac:(lia) j Hj).
    + intros j Hj. specialize (Hp j Hj). lia.
Qed.

Lemma latch_reachable_inv l l' : rtc latch_step l l' -> LInv l -> LInv l'.
Proof. induction 1 as [|a b c Hab _ IH]; [done|]. intros Ha. by apply IH, (latch_step_inv a). Qed.

(** No waiter is left behind: from any latch on which nobody waits yet, once
    the count has reached zero no thread is in the wait set (each passes at its
    next test), and a thread passes only then. *)
Theorem latch_releases (count : Z) (ws : gmap Z waiter) (l : latch) :
  0 <= count < 2 ^ 31 -> (forall i w, ws !! i = Some w -> w = Entering) -> rtc latch_step (new_CountDownLatch count ws) l ->
  (count_ l <= 0 -> forall i, waiters l !! i <> Some Waiting /\
     (waiters l !! i = Some Entering -> waiters (wait_test l i) !! i = Some Passed)) /\
  (forall i, waiters l !! i = Some Passed -> count_ l <= 0).
Proof.
  intros Hc Hws Hr.
  assert (Hi : LInv l).
  { eapply latch_reachable_inv; [exact Hr|]. split; [unfold in_s; simpl; lia|].
    split; [intros _ i H; by apply Hws in H|intros i H; by apply Hws in H]. }
  destruct Hi as (_ & Hw & Hp). split; [|done]. intros Hle i. split; [by apply Hw|].
  intros _. unfold wait_test. simpl. rewrite lookup_insert_eq. by zguard.
Qed.
End Latch.

(** ** Thread *)

Module Thread.

(** The object, [numCreated_] apart. *)
Record Thread : Type := mkThread {
  started_ : bool;
  joined_ : bool;
  tid_ : Z;
  name_ : list ascii;
  latch_ : Z
}.

(** [setDefaultName] with the number [incrementAndGet] gave. *)
Definition setDefaultName (num : Z) (t : Thread) : Thread :=
  mkThread (started_ t) (joined_ t) (tid_ t)
    (match name_ t with [] => snprintf 32 (bytes "Thread" ++ fmt_d num) | n => n end) (latch_ t).

(** The constructor: the counter and the object. *)
Definition new_Thread (numCreated : Z) (n : list ascii) : Z * Thread :=
  let num := i32 (numCreated + 1) in
  (num, setDefaultName num (mkThread false false 0 n 1)).

(** Where the two threads of [start] are: the caller before pthread_create,
    in the wait of the latch, or back; the new thread before each access. *)
Inductive caller : Type := Create | InWait (w : waiter) | Returned | Aborted.
Inductive child : Type := Absent | SetTid | CountDown | Running.

Record start_state : Type := mkStart { obj : Thread; caller_pc : caller; child_pc : child }.

Definition with_tid (tid : Z) (t : Thread) : Thread := mkThread (started_ t) (joined_ t) tid (name_ t) (latch_ t).
Definition with_started (b : bool) (t : Thread) : Thread := mkThread b (joined_ t) (tid_ t) (name_ t) (latch_ t).
Definition with_latch (n : Z) (t : Thread) : Thread := mkThread (started_ t) (joined_ t) (tid_ t) (name_ t) n.

Definition notify_caller (c : caller) : caller := match c with InWait w => InWait (notified w) | c => c end.

(** [start] after its assertion: [gettid] is the kernel's number for the new thread. *)
Inductive start_step (gettid : Z) : start_state -> start_state -> Prop :=
| create_fails t c : start_step gettid (mkStart t Create c) (mkStart (with_started false t) Returned c)
| create t : start_step gettid (mkStart t Create Absent) (mkStart t (InWait Entering) SetTid)
| child_tid t c : start_step gettid (mkStart t c SetTid) (mkStart (with_tid gettid t) c CountDown)
| child_down t c :
    let n := latch_ t - 1 in
    start_step gettid (mkStart t c CountDown) (mkStart (with_latch n t) (if n =? 0 then notify_caller c else c) Running)
| wait_test t ch : start_step gettid (mkStart t (InWait Entering) ch)
    (mkStart t (InWait (if 0 <? latch_ t then Waiting else Passed)) ch)
| wait_spurious t ch : start_step gettid (mkStart t (InWait Waiting) ch) (mkStart t (InWait Entering) ch)
| return_ t ch : start_step gettid (mkStart t (InWait Passed) ch)
    (mkStart t (if 0 <? tid_ t then Returned else Aborted) ch).   (* assert(tid_ > 0) *)

(** The beginning of [start]. *)
Definition start (t : Thread) : outcome start_state :=
  assert_ (negb (started_ t));; Ok (mkStart (with_started true t) Create Absent).

Definition join (t : Thread) : outcome Thread :=
  assert_ (started_ t);;
  assert_ (negb (joined_ t));;
  Ok (mkThread (started_ t) true (tid_ t) (name_ t) (latch_ t)).

(** The destructor: whether the thread is detached. *)
Definition delete_Thread (t : Thread) : bool := started_ t && negb (joined_ t).

(** A thread that was started is joined or detached exactly once. *)
Lemma joined_or_detached t t' : started_ t = true -> join t = Ok t' -> delete_Thread t = true /\ delete_Thread t' = false.
Proof.
  unfold join, delete_Thread. intros Hs H. rewrite Hs in *. obind. simpl. split; [by destruct (joined_ t)|done].
Qed.

(** The child sets the number before it opens the latch, and the caller is
    in the wait set only while the latch is closed. *)
Definition SInv (gettid : Z) (s : start_state) : Prop :=
  let t := obj s in
  match child_pc s with
  | Absent => latch_ t = 1 /\
      ((caller_pc s = Create /\ started_ t = true) \/ (caller_pc s = Returned /\ started_ t = false))
  | SetTid => latch_ t = 1 /\ started_ t = true /\ (caller_pc s = InWait Entering \/ caller_pc s = InWait Waiting)
  | CountDown => latch_ t = 1 /\ started_ t = true /\ tid_ t = gettid /\
      (caller_pc s = InWait Entering \/ caller_pc s = InWait Waiting)
  | Running => latch_ t = 0 /\ started_ t = true /\ tid_ t = gettid /\
      (caller_pc s = InWait Entering \/ caller_pc s = InWait Passed \/ caller_pc s = Returned)
  end.

Lemma start_step_inv g s s' : 0 < g -> start_step g s s' -> SInv g s -> SInv g s'.
Proof.
  intros Hg Hs Hi. destruct Hs as [t c|t|t c|t c n|t ch|t ch|t ch]; unfold SInv in *; cbn [obj caller_pc child_pc] in *.
  - destruct c; simpl; intuition (done || (right; done)).
  - simpl. intuition done.
  - simpl. tauto.
  - destruct Hi as (H1 & H2 & H3 & H4). unfold n. rewrite H1. simpl. destruct H4 as [-> | ->]; simpl; auto.
  - destruct ch; [intuition done|..]; destruct Hi as [-> Hi]; simpl; tauto.
  - destruct ch; intuition (done || (left; done)).
  - destruct ch; [intuition done..|]. destruct Hi as (H1 & H2 & H3 & _). rewrite H3. zguard. tauto.
Qed.

Lemma start_reachable_inv g s s' : 0 < g -> rtc (start_step g) s s' -> SInv g s -> SInv g s'.
Proof. intros Hg. induction 1 as [|a b c Hab _ IH]; [done|]. intros Ha. by apply IH, (start_step_inv g a). Qed.

(** The handshake of [start]: the assertion that follows the wait never fails,
    a call that returns from a started thread finds its number set, and once
    the new thread runs the caller is not left in the wait set. *)
Theorem thread_start_handshake (g numCreated : Z) (n : list ascii) (s0 s : start_state) :
  0 < g -> start (new_Thread numCreated n).2 = Ok s0 -> rtc (start_step g) s0 s ->
  caller_pc s <> Aborted /\
  (caller_pc s = Returned -> started_ (obj s) = true -> tid_ (obj s) = g /\ child_pc s = Running) /\
  (child_pc s = Running -> caller_pc s <> InWait Waiting).
Proof.
  intros Hg H0 Hr. assert (Hi : SInv g s).
  { eapply start_reachable_inv; [done|exact Hr|]. unfold start in H0. simpl in H0. injection H0 as <-. unfold SInv. simpl. auto. }
  unfold SInv in Hi. destruct (child_pc s); intuition congruence.
Qed.

Definition started_state : start_state :=
  mkStart (mkThread true false 0 (bytes "Thread5") 1) Create Absent.

Lemma thread_start_handshake_witness :
  caller_pc (mkStart (mkThread true false 77 (bytes "Thread5") 0) Returned Running) = Returned /\
  tid_ (mkThread true false 77 (bytes "Thread5") 0) = 77 /\ Running = Running.
Proof.
  split; [reflexivity|].
  destruct (thread_start_handshake 77 4 [] started_state
    (mkStart (mkThread true false 77 (bytes "Thread5") 0) Returned Running)) as (_ & H & _).
  - lia.
  - vm_compute. reflexivity.
  - eapply rtc_l; [apply create|]. eapply rtc_l; [apply wait_test|]. eapply rtc_l; [apply child_tid|].
    eapply rtc_l; [apply child_down|]. eapply rtc_l; [apply wait_test|]. apply rtc_once. apply return_.
  - apply H; reflexivity.
Defined.
End Thread.

(** ** EventLoopThread *)

Module LoopThread.

(** The thread of the loop: before the loop object is published, in [loop()],
    about to clear the pointer, gone. *)
Inductive runner : Type := Init | InLoop | Leaving | Gone.

(** [loop_] as whether it is set; the starter in the wait of [startLoop]; what
    it returned. *)
Record state : Type := mkState { loop_ : bool; starter : waiter; thread : runner }.

(** The state after [thread_.start()] returned. *)
Definition startLoop : state := mkState false Entering Init.

Inductive startLoop_step : state -> state -> Prop :=
| publish l w : startLoop_step (mkState l w Init) (mkState true (notified w) InLoop)
| loop_ends l w : startLoop_step (mkState l w InLoop) (mkState l w Leaving)
| clear l w : startLoop_step (mkState l w Leaving) (mkState false w Gone)
| test l t : startLoop_step (mkState l Entering t) (mkState l (if l then Passed else Waiting) t)
| spurious l t : startLoop_step (mkState l Waiting t) (mkState l Entering t).

Definition LTInv (s : state) : Prop :=
  loop_ s = match thread s with InLoop | Leaving => true | _ => false end /\
  (loop_ s = true -> starter s <> Waiting) /\ (starter s = Passed -> thread s <> Init).

Lemma startLoop_step_inv s s' : startLoop_step s s' -> LTInv s -> LTInv s'.
Proof.
  intros Hs (H1 & H2 & H3). destruct Hs as [l w|l w|l w|l t|l t]; unfold LTInv in *; simpl in *.
  - destruct w; split_and!; naive_solver.
  - split_and!; naive_solver.
  - split_and!; naive_solver.
  - destruct l, t; split_and!; naive_solver.
  - destruct l, t; split_and!; naive_solver.
Qed.

Lemma startLoop_reachable_inv s s' : rtc startLoop_step s s' -> LTInv s -> LTInv s'.
Proof. induction 1 as [|a b c Hab _ IH]; [done|]. intros Ha. by apply IH, (startLoop_step_inv a). Qed.

(** C34. While the loop runs the starter is never left waiting, and it returns only
    a published loop.  But if the loop ends before the starter has looked, the
    pointer is null again and the starter waits for ever: no step but a
    spurious wakeup is left, which leads back. *)
Theorem startLoop_handshake :
  (forall s, rtc startLoop_step startLoop s ->
     (loop_ s = true -> starter s <> Waiting) /\ (starter s = Passed -> thread s <> Init)) /\
  rtc startLoop_step startLoop (mkState false Waiting Gone) /\
  (forall s, rtc startLoop_step (mkState false Waiting Gone) s -> starter s <> Passed).
Proof.
  split_and!.
  - intros s Hr. apply (startLoop_reachable_inv _ _ Hr). by split_and!.
  - eapply rtc_l; [constructor|]. eapply rtc_l; [constructor|]. eapply rtc_l; [constructor|].
    apply rtc_once. constructor.
  - assert (H : forall s s', rtc startLoop_step s s' -> loop_ s = false -> thread s = Gone -> starter s <> Passed ->
      starter s' <> Passed).
    { intros s s'. induction 1 as [|a b c Hab _ IH]; [done|]. intros Hl Ht Hw.
      destruct Hab; simpl in *; subst; try done; by apply IH. }
    intros s Hr. by apply (H _ _ Hr).
Qed.

(** *** The destructor

    It reads [loop_] without the mutex, tells the loop to quit and joins the
    thread.  The loop object lives until the thread's function returns. *)
Inductive dtor : Type := Check | Quit | Join | Done | Dangling.

Record dstate : Type := mkD { pointer : bool; runner_pc : runner; quit_ : bool; dtor_pc : dtor }.

Inductive dtor_step : dstate -> dstate -> Prop :=
| d_check l t q : dtor_step (mkD l t q Check) (mkD l t q (if l then Quit else Done))
| d_quit l t q : t <> Gone -> dtor_step (mkD l t q Quit) (mkD l t true Join)
| d_quit_gone l q : dtor_step (mkD l Gone q Quit) (mkD l Gone q Dangling)
| d_join l q : dtor_step (mkD l Gone q Join) (mkD l Gone q Done)
| t_quits l d : dtor_step (mkD l InLoop true d) (mkD l Leaving true d)
| t_clears l q d : dtor_step (mkD l Leaving q d) (mkD false Gone q d).

(** A callback on the loop's own thread calls [quit]. *)
Inductive self_quit : dstate -> dstate -> Prop :=
| t_self l q d : self_quit (mkD l InLoop q d) (mkD l InLoop true d).

Definition DInv (s : dstate) : Prop :=
  match dtor_pc s with
  | Check => pointer s = true /\ runner_pc s = InLoop /\ quit_ s = false
  | Quit => runner_pc s = InLoop /\ quit_ s = false
  | Join => quit_ s = true /\ runner_pc s <> Init
  | Done => runner_pc s = Gone
  | Dangling => False
  end.

Lemma dtor_step_inv s s' : dtor_step s s' -> DInv s -> DInv s'.
Proof.
  destruct 1 as [l t q|l t q Hg|l q|l q|l d|l q d]; unfold DInv; simpl.
  - intros (-> & ? & ?). done.
  - intros [-> _]. done.
  - by intros [? _].
  - done.
  - destruct d; intuition (done || congruence).
  - destruct d; intuition (done || congruence).
Qed.

(** The destructor of a running [EventLoopThread]: if the loop ends only
    because it was told to by the destructor, the object is not destroyed
    before its thread has ended, and the loop is not used after that.  If a
    callback ends the loop, the destructor may call [quit] on a loop that is
    gone. *)
Theorem dtor_joins :
  (forall s, rtc dtor_step (mkD true InLoop false Check) s ->
     dtor_pc s <> Dangling /\ (dtor_pc s = Done -> runner_pc s = Gone)) /\
  (exists s, rtc (fun a b => dtor_step a b \/ self_quit a b) (mkD true InLoop false Check) s /\ dtor_pc s = Dangling).
Proof.
  split.
  - intros s Hr. assert (Hi : DInv s).
    { assert (H0 : DInv (mkD true InLoop false Check)) by done. revert H0.
      induction Hr as [|a b c Hab _ IH]; [done|]. intros Ha. by apply IH, (dtor_step_inv a). }
    unfold DInv in Hi. destruct (dtor_pc s); try done; split; done || congruence.
  - exists (mkD false Gone true Dangling). split; [|done].
    eapply rtc_l; [left; apply d_check|]. eapply rtc_l; [right; apply t_self|].
    eapply rtc_l; [left; apply t_quits|]. eapply rtc_l; [left; apply t_clears|]. apply rtc_once. left. apply d_quit_gone.
Qed.
End LoopThread.
