(* ===== verification/Sockets.v ===== *)
(** * Socket queries (src/src/Socket.cpp, src/src/SocketsOps.cpp)

    The questions the sources ask the kernel about a socket.  The answer of
    the system call is an argument of each definition; what the code makes of
    it (the zeroed structures, the assertions around the call, the text of
    TCP_INFO) is the model. *)

From S2P Require Import Prelude Endian StringPiece Format InetAddress Acceptor.
Local Open Scope Z_scope.

(** ** SocketsOps *)

(** [getSocketError]: the pending error, or the error of asking for it. *)
Definition getSocketError (answer : sysret Z) : Z :=
  match answer with Fail errno => errno | Ret optval => optval end.

(** The kernel fills a zeroed [sockaddr_in6] from its start; the call is
    inside the assertion. *)
Definition filled_addr (answer : sysret (list ascii)) : outcome InetAddress :=
  match answer with
  | Fail _ => Err AssertFailed
  | Ret bs => Ok (mkAddr (store 0 bs (replicate 28 StringPiece.NUL)))
  end.

Definition getLocalAddr (getsockname : sysret (list ascii)) : outcome InetAddress := filled_addr getsockname.
Definition getPeerAddr (getpeername : sysret (list ascii)) : outcome InetAddress := filled_addr getpeername.

(** [isSelfConnect] asks for both ends first. *)
Definition sockets_isSelfConnect (getsockname getpeername : sysret (list ascii)) : outcome bool :=
  localaddr ← getLocalAddr getsockname;
  peeraddr ← getPeerAddr getpeername;
  Ok (isSelfConnect localaddr peeraddr).

Definition shutdownWrite (answer : sysret Z) : outcome unit :=
  assert_ (match answer with Ret r => r =? 0 | Fail _ => false end).

(** ** Socket *)

(** The fields of [struct tcp_info] the sources print, in their order. *)
Record tcp_info : Type := mkTcpInfo {
  tcpi_retransmits : Z; tcpi_rto : Z; tcpi_ato : Z; tcpi_snd_mss : Z; tcpi_rcv_mss : Z; tcpi_lost : Z;
  tcpi_retrans : Z; tcpi_rtt : Z; tcpi_rttvar : Z; tcpi_snd_ssthresh : Z; tcpi_snd_cwnd : Z; tcpi_total_retrans : Z
}.

Definition zero_info : tcp_info := mkTcpInfo 0 0 0 0 0 0 0 0 0 0 0 0.

Definition getTcpInfo (answer : sysret tcp_info) : bool * tcp_info :=
  match answer with Ret i => (true, i) | Fail _ => (false, zero_info) end.

(** The labels and the fields of the format string. *)
Definition tcp_info_fields (i : tcp_info) : list (string * Z) :=
  [("unrecovered=", tcpi_retransmits i); (" rto=", tcpi_rto i); (" ato=", tcpi_ato i);
   (" snd_mss=", tcpi_snd_mss i); (" rcv_mss=", tcpi_rcv_mss i); (" lost=", tcpi_lost i);
   (" retrans=", tcpi_retrans i); (" rtt=", tcpi_rtt i); (" rttvar=", tcpi_rttvar i);
   (" sshthresh=", tcpi_snd_ssthresh i); (" cwnd=", tcpi_snd_cwnd i);
   (" total_retrans=", tcpi_total_retrans i)]%string.

Definition tcp_info_text (i : tcp_info) : list ascii :=
  flat_map (fun f => bytes f.1 ++ fmt_d f.2) (tcp_info_fields i).

(** [getTcpInfoString(buf, len)]: the array is left alone on failure. *)
Definition getTcpInfoString (answer : sysret tcp_info) (buf : list ascii) (len : Z) : bool * list ascii :=
  let '(ok, tcpi) := getTcpInfo answer in
  (ok, if ok then snprintf len (tcp_info_text tcpi) else buf).

(** [TcpConnection::getTcpInfoString]: an empty C string in an array of 1024
    bytes, filled by the socket. *)
Definition conn_getTcpInfoString (answer : sysret tcp_info) : list ascii :=
  snd (getTcpInfoString answer [] 1024).

(** ** Properties *)

Definition u32_info (i : tcp_info) : Prop := Forall (fun f : string * Z => in_u 32 f.2) (tcp_info_fields i).

Lemma flat_fields_bound (fs : list (string * Z)) : Forall (fun f : string * Z => in_u 32 f.2) fs ->
  zlen (flat_map (fun f => bytes f.1 ++ fmt_d f.2) fs) <=
  foldr (fun f n => zlen (bytes f.1) + 10 + n) 0 fs.
Proof.
  induction 1 as [|f fs Hf _ IH]; simpl; [done|]. rewrite !zlen_app.
  pose proof (zlen_fmt_d 10 f.2 ltac:(lia) ltac:(unfold in_u in Hf; simpl; lia)). lia.
Qed.

(** The text of TCP_INFO always fits in the array of the connection: nothing
    is cut off, whatever the counters are. *)
Theorem tcp_info_complete (i : tcp_info) : u32_info i ->
  conn_getTcpInfoString (Ret i) = tcp_info_text i /\ zlen (tcp_info_text i) <= 220.
Proof.
  intros Hi. pose proof (flat_fields_bound _ Hi) as Hb.
  change (foldr _ 0 (tcp_info_fields i)) with 220 in Hb. fold (tcp_info_text i) in Hb.
  split; [|done]. unfold conn_getTcpInfoString. simpl. apply snprintf_fits. lia.
Qed.

(** A short answer (an IPv4 address) leaves the rest of the structure zero. *)
Lemma filled_addr_size bs a : zlen bs <= 28 -> filled_addr (Ret bs) = Ok a -> zlen (mem a) = 28.
Proof.
  intros Hb [= <-]. unfold store. simpl mem. pose proof (zlen_nonneg bs).
  assert (Hz : zlen (replicate 28 StringPiece.NUL) = 28) by done.
  simpl in Hz. rewrite zlen_app, zlen_zdrop by lia. lia.
Qed.
