(* ===== verification/TcpClient.v ===== *)
(** * TcpClient (src/src/TcpClient.h, TcpClient.cpp)

    The client composes a connector (Connector.v) and the connections it
    yields (TcpConnection.v) on one loop.  Both keep the functors they queue in
    a queue of their own; the client's state has in addition the queue of the
    loop, [pending], which holds the same functors in the order in which the
    loop runs them, and the phase of the loop's iteration, because the code
    relies on that order: the connector's channel must have been reset before
    the connection it yielded can close.

    Sockets are named by the order of their creation, as in Connector.v; the
    answers of getpeername(2) and getsockname(2) for each are parameters. *)

From S2P Require Import Prelude Endian StringPiece Buffer Format Timestamp Channel Poller Connector TcpConnection ConnFrame.
From S2P Require Import InetAddress Acceptor Sockets TcpServer.
Local Open Scope Z_scope.

(** The use of an object whose destructor has run is an error. *)
Definition assert_alive (b : bool) : outcome unit := if b then Ok tt else Err UseAfterFree.

(** A functor in the queue of the loop. *)
Inductive client_functor : Type :=
| KConnector (f : Connector.functor)
| KConn (i : nat) (f : TcpConnection.functor).

(** Where the loop is: handling the events of a poll, which saw [known]
    connections and, if [due], the retry timer; or running the [n] functors
    left of the batch it took. *)
Inductive loop_phase : Type :=
| Polled (known : nat) (due : bool)
| Running (n : nat).

Record ClientConn : Type := mkClientConn {
  cc_name : list ascii;
  cc_sock : nat;
  cc_tcp : TcpConnection
}.

(** [connection_] is a position in [conns], the connections created so far;
    [alive] and [connector_alive] tell whether the destructors have run. *)
Record TcpClient : Type := mkClient {
  connector_ : Connector;
  cl_name : list ascii;
  cl_writeComplete : bool;
  retry_ : bool;
  cl_connect : bool;
  cl_nextConnId : Z;
  connection_ : option nat;
  conns : list ClientConn;
  pending : list client_functor;
  now : loop_phase;
  alive : bool;
  connector_alive : bool
}.

Definition set_connector (k : Connector) (fs : list client_functor) (c : TcpClient) : TcpClient :=
  mkClient k (cl_name c) (cl_writeComplete c) (retry_ c) (cl_connect c) (cl_nextConnId c) (connection_ c) (conns c)
    (pending c ++ fs) (now c) (alive c) (connector_alive c).
Definition set_flags (rt cn : bool) (c : TcpClient) : TcpClient :=
  mkClient (connector_ c) (cl_name c) (cl_writeComplete c) rt cn (cl_nextConnId c) (connection_ c) (conns c)
    (pending c) (now c) (alive c) (connector_alive c).
Definition set_slot (slot : option nat) (next : Z) (os : list ClientConn) (fs : list client_functor) (c : TcpClient)
  : TcpClient :=
  mkClient (connector_ c) (cl_name c) (cl_writeComplete c) (retry_ c) (cl_connect c) next slot os
    (pending c ++ fs) (now c) (alive c) (connector_alive c).
Definition set_loop (fs : list client_functor) (p : loop_phase) (c : TcpClient) : TcpClient :=
  mkClient (connector_ c) (cl_name c) (cl_writeComplete c) (retry_ c) (cl_connect c) (cl_nextConnId c) (connection_ c)
    (conns c) fs p (alive c) (connector_alive c).
Definition set_alive (slot : option nat) (a k : bool) (c : TcpClient) : TcpClient :=
  mkClient (connector_ c) (cl_name c) (cl_writeComplete c) (retry_ c) (cl_connect c) (cl_nextConnId c) slot
    (conns c) (pending c) (now c) a k.

Definition new_TcpClient (nameArg : list ascii) : TcpClient :=
  mkClient new_Connector nameArg false false true 1 None [] [] (Running 0) true true.

Definition connection (c : TcpClient) : option nat := connection_ c.
Definition enableRetry (c : TcpClient) : TcpClient := set_flags true (cl_connect c) c.

(** The steps that take a functor from the queue. *)
Definition pops_conn (l : TcpConnection.label) : bool := match l with TcpConnection.LFunctor => true | _ => false end.
Definition pops_connector (l : Connector.label) : bool := match l with Connector.LFunctor => true | _ => false end.

(** The functors a step of a component has added to its queue; [LFunctor]
    takes the first one away. *)
Definition queued {A} (pops : bool) (before after : list A) : list A :=
  drop (length before - if pops then 1 else 0) after.

Section Client.
Context `{InetText}.
Context (connect_errno so_error : nat -> Z) (self_connect : nat -> bool).
Context (getpeername getsockname : nat -> sysret (list ascii)).
Context (write : nat -> nat -> list ascii -> write_result).
Context (user : nat -> notification -> TcpConnection -> list user_op).

(** A step of the connector, and one of connection [i], without the callbacks
    into the client. *)
Definition connector_do (l : Connector.label) (c : TcpClient) : outcome TcpClient :=
  assert_alive (connector_alive c);;
  k ← Connector.step connect_errno so_error self_connect (connector_ c) l;
  Ok (set_connector k (map KConnector (queued (pops_connector l) (Connector.queue (connector_ c)) (Connector.queue k))) c).

Definition conn_do (i : nat) (l : TcpConnection.label) (c : TcpClient) : outcome TcpClient :=
  match conns c !! i with
  | None => Err UseAfterFree
  | Some o =>
      t ← conn_step (write i) (user i) (cc_tcp o) l;
      Ok (set_slot (connection_ c) (cl_nextConnId c) (<[i := mkClientConn (cc_name o) (cc_sock o) t]> (conns c))
            (map (KConn i) (queued (pops_conn l) (TcpConnection.queue (cc_tcp o)) (TcpConnection.queue t))) c)
  end.

(** [detail::removeConnection], the close callback once the client is gone:
    [connectDestroyed] is queued. *)
Definition detail_removeConnection (i : nat) (c : TcpClient) : outcome TcpClient := conn_do i TcpConnection.LRemove c.

Definition removeConnection (i : nat) (c : TcpClient) : outcome TcpClient :=
  assert_ (bool_decide (connection_ c = Some i));;
  let c := set_slot None (cl_nextConnId c) (conns c) [] c in
  c ← conn_do i TcpConnection.LRemove c;
  if retry_ c && cl_connect c then connector_do Connector.LRestart c else Ok c.

(** The close callback of a connection, called in [handleClose]. *)
Definition closeCallback_ (i : nat) (c : TcpClient) : outcome TcpClient :=
  if alive c then removeConnection i c else detail_removeConnection i c.

(** A step of connection [i], with the close callback if it is called. *)
Definition conn_event (i : nat) (l : TcpConnection.label) (c : TcpClient) : outcome TcpClient :=
  c ← conn_do i l c;
  match conns c !! i with
  | None => Err UseAfterFree
  | Some o => for_each (fun c _ => closeCallback_ i c) c (seq 0 (closing (cc_tcp o)))
  end.

(** The name of a connection: the client's and an array of 32 bytes. *)
Definition client_conn_name (name ipPort : list ascii) (id : Z) : list ascii :=
  name ++ snprintf 32 (":"%char :: StringPiece.until_nul ipPort ++ "#"%char :: fmt_d id).

(** [newConnection(sockfd)], the callback of the connector. *)
Definition newConnection (c : TcpClient) (sockfd : nat) : outcome TcpClient :=
  assert_alive (alive c);;
  peerAddr ← getPeerAddr (getpeername sockfd);
  ipPort ← toIpPort peerAddr;
  let connName := client_conn_name (cl_name c) ipPort (cl_nextConnId c) in
  let next := i32 (cl_nextConnId c + 1) in
  localAddr ← getLocalAddr (getsockname sockfd);
  input ← new_Buffer kInitialSize;
  output ← new_Buffer kInitialSize;
  let conn := new_TcpConnection (Z.of_nat sockfd) input output (cl_writeComplete c) false in
  let i := length (conns c) in
  conn_event i LEstablish
    (set_slot (Some i) next (conns c ++ [mkClientConn connName sockfd conn]) [] c).

(** A step of the connector, with the callback for the socket it hands over. *)
Definition connector_event (l : Connector.label) (c : TcpClient) : outcome TcpClient :=
  let before := length (delivered (connector_ c)) in
  c ← connector_do l c;
  for_each newConnection c (drop before (delivered (connector_ c))).

(** ** The operations of the user *)

Definition connect (in_loop : bool) (c : TcpClient) : outcome TcpClient :=
  assert_alive (alive c);;
  connector_do (if in_loop then Connector.LStart else Connector.LForeignStart) (set_flags (retry_ c) true c).

Definition disconnect (in_loop : bool) (c : TcpClient) : outcome TcpClient :=
  assert_alive (alive c);;
  let c := set_flags (retry_ c) false c in
  match connection_ c with
  | Some i => conn_event i (if in_loop then LUser UShutdown else LForeignShutdown) c
  | None => Ok c
  end.

Definition stop (c : TcpClient) : outcome TcpClient :=
  assert_alive (alive c);;
  connector_do Connector.LStop (set_flags (retry_ c) false c).

(** The destructor, on the thread of the loop.  [unique]: nobody else holds
    the connection.  The connector goes with the client, or, when there is no
    connection, a second later, unless a retry timer still holds it. *)
Definition release_connector (c : TcpClient) : outcome TcpClient :=
  if bool_decide (Connector.timers (connector_ c) = []) then
    delete_Connector (connector_ c);; Ok (set_alive (connection_ c) (alive c) false c)
  else Ok c.

Definition delete_TcpClient (unique : bool) (c : TcpClient) : outcome TcpClient :=
  assert_alive (alive c);;
  match connection_ c with
  | Some i =>
      let c := set_alive None false (connector_alive c) c in
      c ← (if unique then conn_event i LForeignForceClose c else Ok c);
      release_connector c
  | None => connector_do Connector.LStop (set_alive None false (connector_alive c) c)
  end.

(** ** Histories *)

Inductive client_label : Type :=
| CConnect (in_loop : bool) | CDisconnect (in_loop : bool) | CStop | CEnableRetry
| CDelete (unique : bool)
| CRelease                                   (** the timer of [detail::removeConnector] *)
| CPoll | CSwap                              (** the loop polls; takes the batch of functors *)
| CAttempt (mask : Z)                        (** an event of the connector's channel *)
| CTimer                                     (** the retry timer *)
| CConn (i : nat) (l : TcpConnection.label)  (** an event of a connection, or a call on it *)
| CFunctor.                                  (** the next functor of the batch *)

Definition client_step (c : TcpClient) (l : client_label) : outcome TcpClient :=
  match l with
  | CConnect in_loop => connect in_loop c
  | CDisconnect in_loop => disconnect in_loop c
  | CStop => stop c
  | CEnableRetry => Ok (enableRetry c)
  | CDelete unique => delete_TcpClient unique c
  | CRelease => release_connector c
  | CPoll => Ok (set_loop (pending c) (Polled (length (conns c)) (negb (bool_decide (Connector.timers (connector_ c) = [])))) c)
  | CSwap => Ok (set_loop (pending c) (Running (length (pending c))) c)
  | CAttempt mask => connector_event (Connector.LEvent mask) c
  | CTimer =>
      let known := match now c with Polled known _ => known | Running _ => 0%nat end in
      connector_event Connector.LTimer (set_loop (pending c) (Polled known false) c)
  | CConn i l => conn_event i l c
  | CFunctor =>
      match now c, pending c with
      | Running (S n), KConnector _ :: fs => connector_event Connector.LFunctor (set_loop fs (Running n) c)
      | Running (S n), KConn i _ :: fs => conn_event i TcpConnection.LFunctor (set_loop fs (Running n) c)
      | _, _ => Ok c
      end
  end.

End Client.

(** ** What the environment may do

    The user connects only a client at rest, deletes it on the thread of the
    loop, and not while functors of its connector wait if it is connected; the
    poller reports what it watched when it was polled. *)

Definition calls_only (l : TcpConnection.label) : Prop :=
  match l with LEstablish | TcpConnection.LFunctor | TcpConnection.LRemove | TcpConnection.LEvent _ _ => False | _ => True end.

Definition client_permitted (c : TcpClient) (l : client_label) : Prop :=
  let k := connector_ c in
  match l with
  | CConnect _ => alive c = true /\ at_rest k /\ Connector.timers k = [] /\ Connector.queue k = []
  | CDisconnect _ | CStop | CEnableRetry => alive c = true
  | CDelete _ => alive c = true /\ (connection_ c <> None -> Connector.queue k = [])
  | CRelease => alive c = false /\ Connector.queue k = []
  | CPoll => now c = Running 0
  | CSwap => exists known due, now c = Polled known due
  | CAttempt mask => (exists known due, now c = Polled known due) /\ exists n m, Connector.channel_ k = Some (n, Watched m)
  | CTimer => exists known, now c = Polled known true
  | CConn i l =>
      (exists o, conns c !! i = Some o /\ permitted_label (cc_tcp o) l) /\
      (calls_only l \/ ((exists mask readv, l = TcpConnection.LEvent mask readv) /\
                        exists known due, now c = Polled known due /\ (i < known)%nat))
  | CFunctor => True
  end.

(** ** The queue of a connection only grows at its end *)

Definition grows (c c' : TcpConnection) : Prop := exists fs, TcpConnection.queue c' = TcpConnection.queue c ++ fs.
Definition calm (c c' : TcpConnection) : Prop := grows c c' /\ closing c' = closing c.

#[export] Instance prefix_preorder {S A} (q : S -> list A) : PreOrder (fun a b => exists fs, q b = q a ++ fs).
Proof.
  split; [by intros a; exists []; rewrite app_nil_r|].
  intros a b c [f Hf] [g Hg]. exists (f ++ g). by rewrite Hg, Hf, app_assoc.
Qed.

#[export] Instance grows_preorder : PreOrder grows := prefix_preorder TcpConnection.queue.

#[export] Instance calm_preorder : PreOrder calm.
Proof. split; [done|]. intros a b c [H1 H2] [H3 H4]. split; [by transitivity b|congruence]. Qed.

Lemma calm_same c c' : TcpConnection.queue c' = TcpConnection.queue c -> closing c' = closing c -> calm c c'.
Proof. intros Hq Hc. split; [exists []; by rewrite app_nil_r|done]. Qed.

Lemma calm_queue f c : calm c (queueInLoop f c).
Proof. split; [by exists [f]|done]. Qed.

Create HintDb client.
#[export] Hint Resolve calm_same calm_queue : client.
#[export] Hint Extern 0 (calm _ _) => reflexivity : client.

Lemma for_each_rel {S A} (R : S -> S -> Prop) `{!PreOrder R} (f : S -> A -> outcome S) l :
  (forall s a s', f s a = Ok s' -> R s s') -> forall s s', for_each f s l = Ok s' -> R s s'.
Proof.
  intros Hf. induction l as [|a l IH]; intros s s'; simpl; [by intros [= ->]|].
  destruct (f s a) as [s1|] eqn:E; [|done]. intros H. transitivity s1; eauto.
Qed.

Lemma queued_prefix {A} (pops : bool) (q q' : list A) :
  (exists fs, q' = (if pops then tail q else q) ++ fs) -> q' = (if pops then tail q else q) ++ queued pops q q'.
Proof.
  intros [fs Hq]. rewrite Hq at 1. f_equal. rewrite Hq. unfold queued.
  rewrite drop_app_length'; [done|]. destruct pops, q; simpl; lia.
Qed.

Lemma app_nil_ex {A} (q : list A) : exists fs, q = q ++ fs.
Proof. exists []. by rewrite app_nil_r. Qed.
#[export] Hint Resolve app_nil_ex : client.

Section Grows.
Context (write : nat -> list ascii -> write_result).
Context (user : notification -> TcpConnection -> list user_op).

Lemma calm_sendInLoop data c c' : sendInLoop write data c = Ok c' -> calm c c'.
Proof.
  unfold sendInLoop. destruct (bool_decide _); [intros [= ->]; auto with client|].
  destruct (try_write write data c) as [[[nw rem] fault] c1] eqn:Et.
  assert (H1 : calm c c1).
  { revert Et. unfold try_write. destruct (_ && _); [|intros [= <- <- <- <-]; auto with client].
    destruct (write (writes c) data); intros [= <- <- <- <-]; auto with client.
    destruct (_ && _); [|auto with client]. etrans; [|apply calm_queue]. auto with client. }
  destruct (rem <=? zlen data); [|done]. cbn [assert_ mbind outcome_bind].
  destruct (_ && _); [|by intros [= <-]]. unfold buffer_remaining. intros H. obind. etrans; [exact H1|].
  destruct (_ && _); destruct (isWriting _); try (apply calm_same; reflexivity).
  all: etrans; [apply calm_queue|]; apply calm_same; reflexivity.
Qed.

Lemma calm_run_user c o c' : run_user write c o = Ok c' -> calm c c'.
Proof.
  destruct o; simpl; unfold send, send_buffer.
  - destruct (connected c); [apply calm_sendInLoop|intros [= <-]; auto with client].
  - destruct (connected c); [|intros [= <-]; auto with client]. intros H. obind. subst.
    etrans; [by eapply calm_sendInLoop|auto with client].
  - destruct (connected c); [|intros [= <-]; auto with client]. intros H. obind. subst. by eapply calm_sendInLoop.
  - intros [= <-]. unfold shutdown, shutdownInLoop. destruct (connected c); [|done]. by destruct (isWriting _); apply calm_same.
  - intros [= <-]. unfold forceClose. destruct (_ || _); [|done]. etrans; [|apply calm_queue]. auto with client.
  - intros [= <-]. unfold forceCloseWithDelay. destruct (_ || _); auto with client.
  - intros [= <-]. unfold startReadInLoop. destruct (_ || _); auto with client.
  - intros H. obind. auto with client.
  - intros [= <-]. auto with client.
  - intros [= <-]. auto with client.
  - intros [= <-]. auto with client.
Qed.

Lemma calm_notify n c c' : notify write user n c = Ok c' -> calm c c'.
Proof.
  unfold notify. intros H. transitivity (record_call n c); [auto with client|].
  eapply (for_each_rel calm); [|exact H]. apply calm_run_user.
Qed.

Lemma grows_handleClose c c' : handleClose write user c = Ok c' -> grows c c'.
Proof.
  unfold handleClose. intros H. obind. apply calm_notify in Hr0 as [Hq _].
  destruct Hq as [fs Hq]. exists fs. simpl. by rewrite Hq.
Qed.

Lemma grows_run_callback readv c k c' : TcpConnection.run_callback write user readv c k = Ok c' -> grows c c'.
Proof.
  destruct k; simpl; [..|].
  all: try apply grows_handleClose; try (by intros [= <-]).
  - unfold TcpConnection.handleRead. intros H. obind. destruct r as [[n e] b].
    destruct (0 <? n); [by apply calm_notify in H as [? _]|].
    destruct (n =? 0); [by apply grows_handleClose in H|]. unfold handleError in H. simplify_eq. exists []. by rewrite app_nil_r.
  - assert (Hsame : forall c1, TcpConnection.queue c1 = TcpConnection.queue c -> grows c c1)
      by (intros c1 E; exists []; by rewrite app_nil_r).
    unfold handleWrite. destruct (isWriting _); [|by intros [= <-]].
    destruct (write (writes c) _); [|intros [= <-]; by apply Hsame].
    destruct (0 <? n); [|intros [= <-]; by apply Hsame]. intros H. obind. revert H.
    destruct (_ =? 0); [|intros [= <-]; by apply Hsame].
    intros [= <-]. unfold shutdownInLoop. destruct (writeCompleteCallback_ _); destruct (bool_decide _);
      try destruct (isWriting _); (by apply Hsame) || (by exists [FWriteComplete]).
Qed.

Lemma grows_run_functor f c c' : run_functor write user f c = Ok c' -> grows c c'.
Proof.
  destruct f; simpl; intros H; obind.
  - by apply calm_sendInLoop in H as [? _].
  - unfold shutdownInLoop. by destruct (isWriting _); exists []; rewrite app_nil_r.
  - unfold forceCloseInLoop in H. destruct (_ || _); [by apply grows_handleClose in H|by simplify_eq].
  - unfold startReadInLoop. by destruct (_ || _); exists []; rewrite app_nil_r.
  - by apply calm_notify in H as [? _].
  - by apply calm_notify in H as [? _].
  - unfold connectDestroyed, chan_remove in H. obind. simpl. destruct (connected c).
    + apply calm_notify in Hr as [[fs Hq] _]. by exists fs.
    + simplify_eq. exists []. by rewrite app_nil_r.
Qed.

(** What a step adds to the queue; the close callback is reached only from an
    event or from a functor. *)
Lemma conn_step_queue c l c' : conn_step write user c l = Ok c' ->
  let q := TcpConnection.queue c in let q' := TcpConnection.queue c' in
  q' = (if pops_conn l then tail q else q) ++ queued (pops_conn l) q q'.
Proof.
  intros H. simpl. apply queued_prefix. destruct l as [|mask readv| |o|m| | | |]; simpl in *.
  - unfold connectEstablished in H. obind. apply calm_notify in H as [[fs Hq] _]. by exists fs.
  - eapply (for_each_rel grows) in H; [exact H|]. apply grows_run_callback.
  - destruct (TcpConnection.queue c) as [|f fs] eqn:Eq; [simplify_eq; exists []; by rewrite Eq|].
    apply grows_run_functor in H as [gs Hq]. by exists gs.
  - by apply calm_run_user in H as [? _].
  - simplify_eq. unfold send_foreign. destruct (connected c); [by eexists|auto with client].
  - simplify_eq. unfold shutdown_foreign. destruct (connected c); [by eexists|auto with client].
  - simplify_eq. unfold forceClose. destruct (_ || _); [by eexists|auto with client].
  - destruct (TcpConnection.timers c); simplify_eq; [auto with client|].
    unfold forceClose. destruct (_ || _); [by eexists|auto with client].
  - destruct (closing c); simplify_eq; [auto with client|by eexists].
Qed.

Lemma conn_step_calls c l c' : calls_only l -> conn_step write user c l = Ok c' -> closing c' = closing c.
Proof.
  intros Hl. destruct l as [|mask readv| |o|m| | | |]; try done; simpl; intros H.
  - by apply calm_run_user in H as [_ ?].
  - simplify_eq. unfold send_foreign. by destruct (connected c).
  - simplify_eq. unfold shutdown_foreign. by destruct (connected c).
  - simplify_eq. unfold forceClose. by destruct (_ || _).
  - destruct (TcpConnection.timers c); simplify_eq; [done|]. unfold forceClose. by destruct (_ || _).
Qed.
End Grows.

(** ** The connector under the client *)

Section Effects.
Context (connect_errno so_error : nat -> Z) (self_connect : nat -> bool).
Abbreviation kstep := (Connector.step connect_errno so_error self_connect).

(** One retry timer at most, and only at rest; a queued start finds the
    connector at rest; a queued stop means that connecting is not wanted. *)
Record KInv (k : Connector) : Prop := mkKInv {
  k_co : CoInv k;
  k_timers : Connector.timers k <> [] -> Connector.state_ k = Connector.kDisconnected /\ length (Connector.timers k) = 1%nat;
  k_start : FStart ∈ Connector.queue k ->
    at_rest k /\ Connector.timers k = [] /\ exists rest, Connector.queue k = FStart :: rest /\ FStart ∉ rest;
  k_stop : FStop ∈ Connector.queue k -> Connector.connect_ k = false
}.

Lemma resets_pos k : FReset ∈ Connector.queue k <-> resets k <> 0%nat.
Proof.
  unfold resets. induction (Connector.queue k) as [|f q IH]; simpl; [set_solver|].
  rewrite elem_of_cons, IH. destruct f; simpl.
  - split; [by intros [|]|auto].
  - split; [by intros [|]|auto].
  - split; [lia|auto].
Qed.

(** Nothing is left of the last attempt once its reset has run. *)
Lemma no_channel k : CoInv k -> Connector.state_ k <> Connector.kConnecting -> FReset ∉ Connector.queue k ->
  Connector.channel_ k = None.
Proof.
  intros Hk Hs Hr. destruct (CoInv_quiet k Hk Hs) as [[? _]|(n & _ & Hn)]; [done|].
  exfalso. apply Hr, resets_pos. lia.
Qed.

Lemma no_reset k : CoInv k -> Connector.channel_ k = None \/ Connector.state_ k = Connector.kConnecting ->
  FReset ∉ Connector.queue k.
Proof.
  intros Hk Hc Hr%resets_pos. apply Hr. destruct Hk as [Hco _ _]. destruct Hc as [Hc|Hc]; rewrite Hc in Hco.
  - destruct (Connector.state_ k); first [by destruct Hco as (? & [=] & _) | by destruct Hco as [[_ ?]|(? & [=] & _)]].
  - by destruct Hco as (? & _ & ?).
Qed.

(** The outcome of starting an attempt. *)
Definition attempted (k k' : Connector) : Prop :=
  Connector.queue k' = Connector.queue k /\ delivered k' = delivered k /\ Connector.connect_ k' = Connector.connect_ k /\
  ((Connector.connect_ k = true /\ Connector.state_ k' = Connector.kConnecting /\ Connector.timers k' = Connector.timers k) \/
   (Connector.state_ k' = Connector.kDisconnected /\ Connector.channel_ k' = None /\
    exists ts, Connector.timers k' = Connector.timers k ++ ts /\ (length ts <= 1)%nat)).

Lemma startInLoop_effect k k' : at_rest k -> startInLoop connect_errno k = Ok k' -> attempted k k'.
Proof.
  intros [Hst Hch]. unfold startInLoop. rewrite bool_decide_true by done. cbn [assert_ mbind outcome_bind].
  assert (Hnil : exists ts, Connector.timers k = Connector.timers k ++ ts /\ (length ts <= 1)%nat)
    by (exists []; rewrite app_nil_r; simpl; auto with lia).
  unfold attempted.
  destruct (Connector.connect_ k) eqn:Ec; [|intros [= <-]; split_and!; try done; right; by split_and!].
  unfold Connector.connect. cbn [create_socket]. destruct (classify _).
  - unfold connecting. simpl. rewrite bool_decide_true by done. intros [= <-]. split_and!; try done. left. done.
  - intros [= <-]. unfold retry. simpl. rewrite Ec. simpl. split_and!; try done. right. split_and!; try done.
    eexists. split; [done|]. simpl. lia.
  - intros [= <-]. simpl. split_and!; try done. right. by split_and!.
Qed.

(** The outcome of an attempt that ends: its channel is removed, and the
    socket is closed or handed over. *)
Definition ended (k k' : Connector) : Prop :=
  Connector.queue k' = Connector.queue k ++ [FReset] /\ Connector.connect_ k' = Connector.connect_ k /\
  ((Connector.state_ k' = Connector.kDisconnected /\ delivered k' = delivered k /\
    exists ts, Connector.timers k' = Connector.timers k ++ ts /\ length ts = (if Connector.connect_ k then 1%nat else 0%nat)) \/
   (Connector.state_ k' = Connector.kConnected /\ Connector.timers k' = Connector.timers k /\
    exists ns, delivered k' = delivered k ++ ns /\ length ns = (if Connector.connect_ k then 1%nat else 0%nat))).

Lemma retry_ended k n m s :
  Connector.channel_ k = Some (n, Watched m) ->
  exists k1, removeAndResetChannel (Connector.setState s k) = Ok (n, k1) /\ ended k (retry n k1) /\
    Connector.queue k1 = Connector.queue k ++ [FReset] /\ Connector.connect_ k1 = Connector.connect_ k /\
    Connector.timers k1 = Connector.timers k /\ delivered k1 = delivered k.
Proof.
  intros Hch. unfold removeAndResetChannel. simpl. rewrite Hch. simpl. eexists. split; [done|].
  split; [|done]. unfold ended, retry. simpl. destruct (Connector.connect_ k) eqn:Ec; simpl; split_and!; try done; left; split_and!; try done.
  - by eexists.
  - exists []. by rewrite app_nil_r.
Qed.

Lemma setState_same k : Connector.setState (Connector.state_ k) k = k.
Proof. by destruct k. Qed.

Lemma stopInLoop_effect k k' : CoInv k -> stopInLoop k = Ok k' ->
  (Connector.state_ k <> Connector.kConnecting /\ k' = k) \/
  (Connector.state_ k = Connector.kConnecting /\ Connector.state_ k' = Connector.kDisconnected /\ ended k k').
Proof.
  intros Hk. unfold stopInLoop. case_bool_decide as Hs; [|intros [= <-]; by left].
  destruct (connecting_state k Hk Hs) as [n Hn].
  destruct (retry_ended k n _ Connector.kDisconnected Hn) as (k1 & -> & He & _). cbn [mbind outcome_bind].
  intros [= <-]. right. split; [done|]. split; [|done]. unfold retry. simpl. by destruct (Connector.connect_ k1).
Qed.

Lemma handleError_effect k k' : CoInv k -> Connector.state_ k = Connector.kConnecting ->
  Connector.handleError k = Ok k' -> ended k k' /\ Connector.state_ k' = Connector.kDisconnected.
Proof.
  intros Hk Hs. unfold Connector.handleError. rewrite bool_decide_true by done.
  destruct (connecting_state k Hk Hs) as [n Hn].
  destruct (retry_ended k n _ (Connector.state_ k) Hn) as (k1 & E & He & _).
  rewrite setState_same in E. rewrite E. cbn [mbind outcome_bind]. intros [= <-]. split; [done|].
  unfold retry. simpl. by destruct (Connector.connect_ k1).
Qed.

Lemma handleWrite_effect k k' : CoInv k -> Connector.handleWrite so_error self_connect k = Ok k' ->
  (Connector.state_ k <> Connector.kConnecting /\ k' = k) \/ (Connector.state_ k = Connector.kConnecting /\ ended k k').
Proof.
  intros Hk. unfold Connector.handleWrite. case_bool_decide as Hs.
  - destruct (connecting_state k Hk Hs) as [n Hn].
    destruct (retry_ended k n _ (Connector.state_ k) Hn) as (k1 & E & He & Hq & Hc & Ht & Hd).
    rewrite setState_same in E. rewrite E. cbn [mbind outcome_bind]. intros H. right. split; [done|].
    destruct (negb (so_error n =? 0)); [by simplify_eq|]. destruct (self_connect n); [by simplify_eq|].
    simpl in H. rewrite Hc in H. injection H as <-. unfold ended.
    destruct (Connector.connect_ k) eqn:Ec; simpl; rewrite Hq, Hc, Ht, Hd; split_and!; try done; right; split_and!; try done.
    + by eexists.
    + exists []. by rewrite app_nil_r.
  - intros H. obind. by left.
Qed.

Lemma event_effect k k' mask : CoInv k -> Connector.state_ k = Connector.kConnecting ->
  kstep k (Connector.LEvent mask) = Ok k' -> k' = k \/ ended k k'.
Proof.
  intros Hk Hs. simpl. unfold selected. rewrite !for_each_app.
  assert (Hskip : forall k0 x (b : bool), x = closeCallback \/ x = readCallback ->
    for_each (Connector.run_callback so_error self_connect) k0 (if b then [x] else []) = Ok k0)
    by (intros k0 x [] [-> | ->]; done).
  assert (Hwrite : forall k0 (b : bool) k1, CoInv k0 ->
    for_each (Connector.run_callback so_error self_connect) k0 (if b then [writeCallback] else []) = Ok k1 ->
    k1 = k0 \/ (Connector.state_ k0 = Connector.kConnecting /\ ended k0 k1)).
  { intros k0 [] k1 Hk0; simpl; [|intros [= <-]; by left]. intros H. obind.
    destruct (handleWrite_effect k0 _ Hk0 Hr) as [[_ ?]|?]; simplify_eq; auto. }
  rewrite Hskip by auto. cbn [mbind outcome_bind]. rewrite for_each_app.
  destruct (has mask (Z.lor POLLERR POLLNVAL)); cbn [for_each mbind outcome_bind Connector.run_callback].
  - destruct (Connector.handleError_inv k Hk Hs) as (k1 & E1 & Hk1 & Hs1). rewrite E1. cbn [mbind outcome_bind].
    rewrite for_each_app, Hskip by auto. cbn [mbind outcome_bind]. intros H. right.
    destruct (Hwrite _ _ _ Hk1 H) as [->|[? _]]; [|congruence]. by destruct (handleError_effect k k1 Hk Hs E1).
  - rewrite for_each_app, Hskip by auto. cbn [mbind outcome_bind]. intros H.
    destruct (Hwrite _ _ _ Hk H) as [->|[_ ?]]; auto.
Qed.

Lemma attempted_KInv k k' : KInv k -> CoInv k' -> Connector.timers k = [] -> FStart ∉ Connector.queue k ->
  attempted k k' -> KInv k'.
Proof.
  intros [_ _ _ Hstop] Hk' Ht Hs (Hq & _ & Hc & He). constructor; [done|..].
  - intros Hne. destruct He as [(_ & _ & E)|(Hd & _ & ts & E & Hl)]; rewrite E, Ht in *; [done|].
    simpl in *. split; [done|]. destruct ts as [|? []]; simpl in *; (done || lia).
  - rewrite Hq. done.
  - rewrite Hq, Hc. exact Hstop.
Qed.

Lemma connecting_idle k : KInv k -> Connector.state_ k = Connector.kConnecting ->
  Connector.timers k = [] /\ FStart ∉ Connector.queue k.
Proof.
  intros [_ Ht Hs _] Hst. split.
  - destruct (Connector.timers k); [done|]. destruct Ht as [E _]; [done|congruence].
  - intros Hin. destruct (Hs Hin) as [[E _] _]. congruence.
Qed.

Lemma ended_KInv k k' : KInv k -> CoInv k' -> Connector.state_ k = Connector.kConnecting -> ended k k' -> KInv k'.
Proof.
  intros Hk Hk' Hst (Hq & Hc & He). destruct (connecting_idle k Hk Hst) as [Ht Hs]. constructor; [done|..].
  - intros Hne. destruct He as [(Hd & _ & ts & E & Hl)|(_ & E & _)]; rewrite E, Ht in *; [|done].
    split; [done|]. simpl in *. destruct ts; [done|]. destruct (Connector.connect_ k); simpl in *; lia.
  - rewrite Hq. set_solver.
  - rewrite Hq, Hc. intros Hin. apply (k_stop k Hk). set_solver.
Qed.

(** A change of the queue, the timers or the wish to connect. *)
Lemma KInv_queue k b d q ts : KInv k -> kInitRetryDelayMs <= d <= kMaxRetryDelayMs ->
  length (List.filter (fun f => bool_decide (f = FReset)) q) = resets k ->
  (ts = [] \/ ts = Connector.timers k) ->
  (FStart ∈ q -> at_rest k /\ Connector.timers k = [] /\ exists rest, q = FStart :: rest /\ FStart ∉ rest) ->
  (FStop ∈ q -> b = false) ->
  KInv (mkConnector b (Connector.state_ k) (Connector.channel_ k) d q ts (created k) (closed k) (delivered k)).
Proof.
  intros [Hco Ht _ _] Hd Hq Hts Hs Hb. constructor; simpl; [by apply CoInv_queue| |..].
  - destruct Hts as [-> | ->]; [done|exact Ht].
  - intros Hin. destruct (Hs Hin) as (Hr & Htm & Hrest). split; [done|]. split; [|done].
    destruct Hts as [-> | ->]; done.
  - done.
Qed.

(** The queue of the connector, too, grows at its end. *)
Lemma queue_retry n k : Connector.queue (retry n k) = Connector.queue k.
Proof. unfold retry. simpl. by destruct (Connector.connect_ k). Qed.

Lemma queue_remove k n k1 : removeAndResetChannel k = Ok (n, k1) -> Connector.queue k1 = Connector.queue k ++ [FReset].
Proof.
  unfold removeAndResetChannel. destruct (Connector.channel_ k) as [[? []]|]; simpl; try done. by intros [= _ <-].
Qed.

Lemma queue_start k k1 : startInLoop connect_errno k = Ok k1 -> Connector.queue k1 = Connector.queue k.
Proof.
  unfold startInLoop. intros H. obind. destruct (Connector.connect_ k); [|by simplify_eq].
  unfold Connector.connect in H. simpl in H. destruct (classify _); [|simplify_eq; by rewrite queue_retry|by simplify_eq].
  unfold connecting in H. obind. done.
Qed.

Lemma queue_callback k x k1 : Connector.run_callback so_error self_connect k x = Ok k1 ->
  exists fs, Connector.queue k1 = Connector.queue k ++ fs.
Proof.
  destruct x; simpl; try (intros [= <-]; auto with client).
  - unfold Connector.handleError. case_bool_decide as Hst; [|intros [= <-]; auto with client].
    intros H. obind. destruct r as [n k2]. apply queue_remove in Hr. simplify_eq. rewrite queue_retry. eauto.
  - unfold Connector.handleWrite. case_bool_decide as Hst; intros H; obind; [|auto with client].
    destruct r as [n k2]. apply queue_remove in Hr. exists [FReset].
    destruct (negb (so_error n =? 0)); [simplify_eq; by rewrite queue_retry|].
    destruct (self_connect n); simplify_eq; [by rewrite queue_retry|]. simpl. by destruct (Connector.connect_ k2).
Qed.

Lemma kstep_queue k l k' : kstep k l = Ok k' ->
  let q := Connector.queue k in let q' := Connector.queue k' in
  q' = (if pops_connector l then tail q else q) ++ queued (pops_connector l) q q'.
Proof.
  intros H. simpl. apply queued_prefix. destruct l; simpl in *.
  - apply queue_start in H. rewrite H. apply app_nil_ex.
  - simplify_eq. by eexists.
  - simplify_eq. by eexists.
  - apply queue_start in H. rewrite H. apply app_nil_ex.
  - exact (for_each_rel _ _ _ queue_callback _ _ H).
  - destruct (Connector.queue k) as [|[] q] eqn:Eq.
    + simplify_eq. rewrite Eq. by exists [].
    + apply queue_start in H. rewrite H. apply app_nil_ex.
    + unfold stopInLoop in H. case_bool_decide; [|simplify_eq; apply app_nil_ex].
      obind. destruct r as [n k2]. apply queue_remove in Hr. simplify_eq. rewrite queue_retry. eauto.
    + unfold resetChannel in H. obind. apply app_nil_ex.
  - destruct (Connector.timers k); [simplify_eq; apply app_nil_ex|].
    apply queue_start in H. rewrite H. apply app_nil_ex.
Qed.
End Effects.
