(* ===== verification/TcpClientLife.v ===== *)
(** * The life of a client (src/src/TcpClient.cpp over Connector.cpp and TcpConnection.cpp)

    The invariant of the composition of TcpClient.v: how the queues of the
    components make up the queue of the loop, which connection the slot holds,
    and why the channel of an attempt is reset before its connection can close.
    Every step keeps it; the properties of the client follow. *)

From S2P Require Import Prelude Endian StringPiece Buffer Format Timestamp Channel Poller Connector TcpConnection ConnFrame.
From S2P Require Import InetAddress Acceptor Sockets TcpServer TcpClient.
Local Open Scope Z_scope.

(** ** The invariant *)

Definition kproj (f : client_functor) : option Connector.functor := match f with KConnector g => Some g | _ => None end.
Definition iproj (i : nat) (f : client_functor) : option TcpConnection.functor :=
  match f with KConn j g => if decide (j = i) then Some g else None | _ => None end.

(** The queue of the loop, with the functor [p] that is being run. *)
Definition full (p : option client_functor) (c : TcpClient) : list client_functor := option_list p ++ pending c.

(** The queue of the loop interleaves the queues of the components. *)
Record Proj (p : option client_functor) (c : TcpClient) : Prop := mkProj {
  proj_k : omap kproj (full p c) = Connector.queue (connector_ c);
  proj_i : forall i, omap (iproj i) (full p c) =
    match conns c !! i with Some o => TcpConnection.queue (cc_tcp o) | None => [] end
}.

Definition live (c : TcpClient) (i : nat) : Prop := exists o, conns c !! i = Some o /\ removals (cc_tcp o) = 0.

(** The connections: each keeps its own invariant and has the socket the
    connector handed over ([owed]: not yet wrapped); the slot of the client
    holds the one that is not removed. *)
Record Conns (owed : list nat) (c : TcpClient) : Prop := mkConns {
  cn_objs : forall i o, conns c !! i = Some o -> CInv 0 (cc_tcp o);
  cn_socks : map cc_sock (conns c) ++ owed = delivered (connector_ c);
  cn_slot : alive c = true -> forall i, connection_ c = Some i <-> live c i
}.

(** The reset of the connector's channel comes before every functor of
    connection [i]. *)
Definition reset_first (i : nat) (l : list client_functor) : Prop :=
  exists pre post, l = pre ++ KConnector FReset :: post /\ forall f, KConn i f ∉ pre.

(** A pending reset runs in this iteration, before the connection of the slot
    can close. *)
Definition prompt (p : option client_functor) (c : TcpClient) : Prop :=
  (match now c with
   | Polled known _ => forall i, connection_ c = Some i -> (known <= i)%nat
   | Running n => KConnector FReset ∈ option_list p ++ take n (pending c)
   end) /\
  forall i, connection_ c = Some i -> reset_first i (full p c).

Record Link (p : option client_functor) (c : TcpClient) : Prop := mkLink {
  lk_k : KInv (connector_ c);
  lk_dead : connector_alive c = false -> alive c = false /\ Connector.channel_ (connector_ c) = None /\
    Connector.timers (connector_ c) = [] /\ Connector.queue (connector_ c) = [];
  lk_gone : alive c = false -> connection_ c = None /\
    (connector_alive c = true -> Connector.connect_ (connector_ c) = false /\
       (Connector.state_ (connector_ c) = Connector.kConnecting -> FStop ∈ Connector.queue (connector_ c)));
  lk_state : connection_ c <> None -> Connector.state_ (connector_ c) = Connector.kConnected;
  lk_stop : FStop ∈ Connector.queue (connector_ c) -> alive c = true -> cl_connect c = false;
  lk_reset : FReset ∈ Connector.queue (connector_ c) ->
    (Connector.state_ (connector_ c) = Connector.kDisconnected /\ Connector.timers (connector_ c) = []) \/ prompt p c;
  lk_due : forall known, now c = Polled known true ->
    Connector.timers (connector_ c) <> [] /\ FReset ∉ Connector.queue (connector_ c);
  lk_known : forall known due, now c = Polled known due -> (known <= length (conns c))%nat
}.

Definition settled (c : TcpClient) : Prop := forall i o, conns c !! i = Some o -> closing (cc_tcp o) = 0%nat.

Record ClInv (c : TcpClient) : Prop := mkClInv {
  cl_proj : Proj None c;
  cl_conns : Conns [] c;
  cl_link : Link None c;
  cl_settled : settled c
}.

Lemma reset_first_app i l l' : reset_first i l -> reset_first i (l ++ l').
Proof. intros (pre & post & -> & Hp). exists pre, (post ++ l'). by rewrite <- app_assoc. Qed.

Lemma reset_first_tail i f l : f <> KConnector FReset -> reset_first i (f :: l) -> reset_first i l.
Proof.
  intros Hf ([|g pre] & post & E & Hp); simpl in E; simplify_eq. exists pre, post. split; [done|].
  intros f Hin. apply (Hp f). by right.
Qed.

Lemma reset_first_head i f l : ~ reset_first i (KConn i f :: l).
Proof. intros ([|g pre] & post & E & Hp); simpl in E; simplify_eq. apply (Hp f). by left. Qed.

Lemma reset_pending p c : Proj p c -> FReset ∈ Connector.queue (connector_ c) <-> KConnector FReset ∈ full p c.
Proof.
  intros [Hk _]. rewrite <- Hk, list_elem_of_omap. split.
  - intros ([g|] & Hin & [=->]). done.
  - intros Hin. by exists (KConnector FReset).
Qed.

(** A new connection has no functors yet: the pending reset precedes them all. *)
Lemma reset_first_new p c : Proj p c -> KConnector FReset ∈ full p c -> reset_first (length (conns c)) (full p c).
Proof.
  intros [_ Hi] (pre & post & E)%list_elem_of_split. exists pre, post. split; [done|].
  intros f Hin. specialize (Hi (length (conns c))). rewrite lookup_ge_None_2 in Hi by lia.
  assert (Hf : f ∈ omap (iproj (length (conns c))) (full p c)).
  { rewrite list_elem_of_omap. exists (KConn (length (conns c)) f). rewrite E. simpl. rewrite decide_True by done. set_solver. }
  rewrite Hi in Hf. set_solver.
Qed.

(** Functors of the running step go to the end of the queue. *)
Lemma prompt_append p c c' fs :
  prompt p c -> now c' = now c -> connection_ c' = connection_ c -> pending c' = pending c ++ fs -> prompt p c'.
Proof.
  intros [Hn Hf] En Es Ep. unfold prompt, full. rewrite En, Es, Ep. split.
  - destruct (now c); [done|]. rewrite take_app. set_solver.
  - intros i Hi. rewrite app_assoc. by apply reset_first_app, Hf.
Qed.

Lemma prompt_done f c : f <> KConnector FReset -> prompt (Some f) c -> prompt None c.
Proof.
  intros Hne [Hn Hf]. split.
  - destruct (now c); [done|]. simpl in *. set_solver.
  - intros i Hi. by apply (reset_first_tail i f), Hf.
Qed.

Section Invariant.
Context `{InetText}.
Context (connect_errno so_error : nat -> Z) (self_connect : nat -> bool).
Context (getpeername getsockname : nat -> sysret (list ascii)).
Context (write : nat -> nat -> list ascii -> write_result).
Context (user : nat -> notification -> TcpConnection -> list user_op).
Hypothesis write_bounded : forall i k data n, write i k data = Wrote n -> 0 <= n <= zlen data.
Hypothesis user_ok : forall i, well_behaved (write i) (user i).
(** A connected socket has both its addresses. *)
Hypothesis peer_ok : forall n, exists a ip, getPeerAddr (getpeername n) = Ok a /\ toIpPort a = Ok ip.
Hypothesis local_ok : forall n, exists a, getLocalAddr (getsockname n) = Ok a.

Abbreviation kdo := (connector_do connect_errno so_error self_connect).
Abbreviation kstep := (Connector.step connect_errno so_error self_connect).
Abbreviation cdo := (conn_do write user).

(** *** Steps of the components keep the queues together *)

Lemma omap_kproj_map fs : omap kproj (map KConnector fs) = fs.
Proof. induction fs as [|f fs IH]; [done|]. cbn. f_equal. exact IH. Qed.
Lemma omap_kproj_conn i fs : omap kproj (map (KConn i) fs) = [].
Proof. by induction fs. Qed.
Lemma omap_iproj_map i j fs : omap (iproj i) (map (KConn j) fs) = if decide (j = i) then fs else [].
Proof.
  induction fs as [|f fs IH]; [by case_decide|]. cbn. case_decide; [f_equal|]; exact IH.
Qed.
Lemma omap_iproj_connector i fs : omap (iproj i) (map KConnector fs) = [].
Proof. by induction fs. Qed.

(** The functor that is run belongs to the component that takes the step. *)
Definition runs_connector (p : option client_functor) (l : Connector.label) : Prop :=
  if pops_connector l then exists f, p = Some (KConnector f) else p = None.
Definition runs_conn (p : option client_functor) (i : nat) (l : TcpConnection.label) : Prop :=
  if pops_conn l then exists f, p = Some (KConn i f) else p = None.

Lemma kdo_proj p c l k' : Proj p c -> runs_connector p l -> kstep (connector_ c) l = Ok k' ->
  Proj None (set_connector k' (map KConnector (queued (pops_connector l) (Connector.queue (connector_ c)) (Connector.queue k'))) c).
Proof.
  intros [Hk Hi] Hp Hs. apply kstep_queue in Hs. simpl in Hs. unfold runs_connector in Hp.
  assert (Ek : (if pops_connector l then tail (Connector.queue (connector_ c)) else Connector.queue (connector_ c)) =
    omap kproj (pending c)).
  { rewrite <- Hk. unfold full. destruct (pops_connector l); [destruct Hp as [f ->]|subst p]; done. }
  constructor; unfold full; simpl.
  - rewrite omap_app, omap_kproj_map, <- Ek. by symmetry.
  - intros i. rewrite omap_app, omap_iproj_connector, app_nil_r, <- Hi. unfold full.
    destruct (pops_connector l); [destruct Hp as [f ->]|subst p]; done.
Qed.

Lemma cdo_proj p c i l o t : Proj p c -> runs_conn p i l -> conns c !! i = Some o ->
  conn_step (write i) (user i) (cc_tcp o) l = Ok t ->
  Proj None (set_slot (connection_ c) (cl_nextConnId c) (<[i := mkClientConn (cc_name o) (cc_sock o) t]> (conns c))
            (map (KConn i) (queued (pops_conn l) (TcpConnection.queue (cc_tcp o)) (TcpConnection.queue t))) c).
Proof.
  intros [Hk Hi] Hp Ho Hs. apply conn_step_queue in Hs. simpl in Hs. unfold runs_conn in Hp.
  pose proof (lookup_lt_Some _ _ _ Ho) as Hlt.
  constructor; unfold full; simpl.
  - rewrite omap_app, omap_kproj_conn, app_nil_r, <- Hk. unfold full.
    destruct (pops_conn l); [destruct Hp as [f ->]|subst p]; done.
  - intros j. rewrite omap_app, omap_iproj_map. specialize (Hi j). unfold full in Hi. case_decide as E.
    + subst j. rewrite list_lookup_insert_eq by done. simpl. etrans; [|by symmetry]. f_equal. rewrite Ho in Hi. rewrite <- Hi.
      destruct (pops_conn l); [destruct Hp as [f ->]|subst p]; simpl; [by rewrite decide_True|done].
    + rewrite app_nil_r, list_lookup_insert_ne by done. rewrite <- Hi.
      destruct (pops_conn l); [destruct Hp as [f ->]|subst p]; simpl; [by rewrite decide_False|done].
Qed.

(** *** A step of a connection *)

Lemma link_append p c c' :
  Link p c -> connector_ c' = connector_ c -> cl_connect c' = cl_connect c -> alive c' = alive c ->
  connector_alive c' = connector_alive c -> now c' = now c -> (length (conns c) <= length (conns c'))%nat ->
  connection_ c' = connection_ c -> (prompt p c -> prompt None c') -> Link None c'.
Proof.
  intros [H1 H2 H3 H4 H5 H6 H7 H8] E1 E2 E3 E4 E5 E6 E7 Hp.
  constructor; rewrite ?E1, ?E2, ?E3, ?E4, ?E5, ?E7; auto.
  - intros Hin. destruct (H6 Hin); auto.
  - intros known due Hn. specialize (H8 known due Hn). lia.
Qed.

Lemma runs_conn_prompt p i l c : runs_conn p i l -> prompt p c -> prompt None c.
Proof.
  unfold runs_conn. destruct (pops_conn l); [intros [f ->]|intros ->; done]. by apply prompt_done.
Qed.

Lemma cdo_ok p owed c i l o : Proj p c -> Conns owed c -> Link p c -> runs_conn p i l -> l <> TcpConnection.LRemove ->
  conns c !! i = Some o -> permitted_label (cc_tcp o) l ->
  unless too_long (cdo i l c) (fun c' => Proj None c' /\ Conns owed c' /\ Link None c' /\
    connector_ c' = connector_ c /\ alive c' = alive c /\ connection_ c' = connection_ c /\
    exists t, conn_step (write i) (user i) (cc_tcp o) l = Ok t /\ CInv 0 t /\
      conns c' = <[i := mkClientConn (cc_name o) (cc_sock o) t]> (conns c)).
Proof.
  intros Hpr Hc Hl Hrun Hne Ho Hp. unfold conn_do. rewrite Ho.
  pose proof (conn_step_inv (write i) (user i) (write_bounded i) (user_ok i) (cc_tcp o) l (cn_objs _ _ Hc i o Ho) Hp) as Hi.
  destruct (conn_step (write i) (user i) (cc_tcp o) l) as [t|f] eqn:E; [|done]. simpl in *.
  pose proof (lookup_lt_Some _ _ _ Ho) as Hlt.
  split; [by eapply cdo_proj|]. split; [|split].
  - destruct Hc as [H1 H2 H3]. constructor; simpl.
    + intros j o' Hj. destruct (decide (i = j)) as [->|Hij]; [|rewrite list_lookup_insert_ne in Hj by done; eauto].
      rewrite list_lookup_insert_eq in Hj by done. by injection Hj as <-.
    + rewrite list_fmap_insert. simpl. rewrite list_insert_id; [done|]. by rewrite list_lookup_fmap, Ho.
    + intros Ha j. rewrite (H3 Ha j). unfold live. simpl. apply removals_conn_step in E; [|done].
      destruct (decide (i = j)) as [->|Hij]; [|by rewrite list_lookup_insert_ne].
      rewrite list_lookup_insert_eq, Ho by done. split; intros (o' & [= <-] & Hr); eexists; (split; [done|]); simpl in *; congruence.
  - eapply (link_append p c); simpl; try done; [by rewrite length_insert|].
    intros Hpm. eapply prompt_append; [by eapply runs_conn_prompt|done..].
  - split_and!; try done. eauto.
Qed.

(** *** A step of the connector *)

Lemma link_connector p c k' fs : Link p c -> KInv k' -> connector_alive c = true ->
  (alive c = false -> Connector.connect_ k' = false /\
     (Connector.state_ k' = Connector.kConnecting -> FStop ∈ Connector.queue k')) ->
  (connection_ c <> None -> Connector.state_ k' = Connector.kConnected) ->
  (FStop ∈ Connector.queue k' -> alive c = true -> cl_connect c = false) ->
  (FReset ∈ Connector.queue k' ->
     (Connector.state_ k' = Connector.kDisconnected /\ Connector.timers k' = []) \/ prompt None (set_connector k' fs c)) ->
  (forall known, now c = Polled known true -> Connector.timers k' <> [] /\ FReset ∉ Connector.queue k') ->
  Link None (set_connector k' fs c).
Proof.
  intros Hl Hk Ha H1 H2 H3 H4 H5. constructor; simpl; auto.
  - congruence.
  - intros Hg. split; [apply (lk_gone _ _ Hl Hg)|auto].
  - apply (lk_known _ _ Hl).
Qed.

(** Starting an attempt, with no connection and nothing left of the last one. *)
Lemma link_attempt p c k0 k' fs : Link p c -> connector_alive c = true ->
  KInv k0 -> CoInv k' -> Connector.timers k0 = [] -> FStart ∉ Connector.queue k0 -> attempted k0 k' ->
  FReset ∉ Connector.queue k0 -> connection_ c = None -> (forall known, now c <> Polled known true) ->
  (alive c = false -> Connector.connect_ k0 = false) ->
  (FStop ∈ Connector.queue k0 -> alive c = true -> cl_connect c = false) ->
  Link None (set_connector k' fs c).
Proof.
  intros Hl Ha Hk0 Hk' Ht Hs Hat Hr Hn Hnow Hg Hst. pose proof (attempted_KInv k0 k' Hk0 Hk' Ht Hs Hat) as HK.
  destruct Hat as (Hq & _ & Hc & He). apply (link_connector p); rewrite ?Hq; try done.
  - intros Hal. rewrite Hc. split; [auto|]. intros Hco.
    destruct He as [(Htrue & _)|(Hd & _)]; [rewrite Hg in Htrue by done; done|congruence].
  - intros known E. by apply Hnow in E.
Qed.

Lemma idle_iteration p c known : Link p c -> Connector.timers (connector_ c) = [] -> now c <> Polled known true.
Proof. intros Hl Ht E. by apply (lk_due _ _ Hl) in E as [? _]. Qed.

(** The end of an attempt, on an event or in a functor. *)
Lemma link_ended p c k k' : Link p c -> connector_alive c = true -> KInv k -> CoInv k' ->
  Connector.state_ k = Connector.kConnecting -> ended k k' -> connection_ c = None ->
  (alive c = false -> Connector.connect_ k = false) ->
  (FStop ∈ Connector.queue k -> alive c = true -> cl_connect c = false) ->
  ((exists known due, now c = Polled known due) \/
   (Connector.state_ k' = Connector.kDisconnected /\ Connector.connect_ k = false)) ->
  (forall known, now c <> Polled known true) ->
  Link None (set_connector k' [KConnector FReset] c).
Proof.
  intros Hl Ha Hk Hk' Hst He Hn Hg Hstop Hwhen Hnow. destruct (connecting_idle k Hk Hst) as [Ht _].
  pose proof (ended_KInv k k' Hk Hk' Hst He) as HK. destruct He as (Hq & Hc & He).
  apply (link_connector p); rewrite ?Hq; try done.
  - intros Hal. rewrite Hc. split; [auto|]. intros Hco. destruct He as [(? & _)|(? & _)]; congruence.
  - intros Hin. apply Hstop. set_solver.
  - intros _. destruct Hwhen as [(known & due & Hp)|[Hd Hcf]].
    + right. unfold prompt. simpl. rewrite Hp, Hn. split; intros; done.
    + left. split; [done|]. destruct He as [(_ & _ & ts & E & Hlen)|(? & _)]; [|congruence].
      rewrite E, Ht. rewrite Hcf in Hlen. by destruct ts.
  - intros known E. by apply Hnow in E.
Qed.

Lemma functor_head p f c : Proj p c -> p = Some (KConnector f) ->
  Connector.queue (connector_ c) = f :: omap kproj (pending c).
Proof. intros [Hk _] ->. by rewrite <- Hk. Qed.

Lemma connector_up p f c : Proj p c -> Link p c -> p = Some (KConnector f) -> connector_alive c = true.
Proof.
  intros Hp Hl E. pose proof (functor_head p f c Hp E) as Hq. destruct (connector_alive c) eqn:Ea; [done|].
  apply (lk_dead _ _ Hl) in Ea as (_ & _ & _ & Ea). congruence.
Qed.

Lemma pop_KInv k f q : KInv k -> Connector.queue k = f :: q -> f <> FReset -> KInv (Connector.set_queue q k) /\ FStart ∉ q.
Proof.
  intros Hk Hq Hne. assert (Hs : FStart ∉ q).
  { intros Hin. destruct (k_start k Hk) as (_ & _ & rest & E & Hn); [rewrite Hq; by right|]. congruence. }
  split; [|done]. apply (KInv_queue k); auto.
  - apply (co_delay _ (k_co k Hk)).
  - unfold resets. rewrite Hq. simpl. by rewrite bool_decide_false.
  - done.
  - intros Hin. apply (k_stop k Hk). rewrite Hq. by right.
Qed.

Section Functors.
Context (f : Connector.functor) (c : TcpClient) (q : list Connector.functor) (fs : list client_functor).
Let p : option client_functor := Some (KConnector f).
Let k : Connector := connector_ c.
Context (Hl : Link p c) (Ha : connector_alive c = true) (Hq : Connector.queue k = f :: q).
Let Hk : KInv k := lk_k _ _ Hl.

Lemma run_start k' : f = FStart -> startInLoop connect_errno (Connector.set_queue q k) = Ok k' -> CoInv k' ->
  Link None (set_connector k' fs c) /\ delivered k' = delivered k.
Proof.
  intros Hf E Hk'. destruct (pop_KInv k f q Hk Hq) as [Hk0 Hs]; [by rewrite Hf|].
  destruct (k_start k Hk) as ([Hst Hch] & Ht & _); [rewrite Hq, Hf; by left|].
  assert (Hat : attempted (Connector.set_queue q k) k') by (by eapply startInLoop_effect).
  split; [|apply Hat]. eapply (link_attempt p c (Connector.set_queue q k)); try done.
  - intros Hin. apply (no_reset k); [apply Hk|by left|]. rewrite Hq. by right.
  - destruct (connection_ c) eqn:E1; [|done]. assert (Hc : connection_ c <> None) by congruence.
    apply (lk_state _ _ Hl) in Hc. unfold k in Hst. congruence.
  - intros known. by apply (idle_iteration p).
  - intros Hg. by apply (lk_gone _ _ Hl).
  - intros Hin. apply (lk_stop _ _ Hl). change (FStop ∈ Connector.queue k). rewrite Hq. by right.
Qed.

Lemma run_stop k' : f = FStop -> stopInLoop (Connector.set_queue q k) = Ok k' -> CoInv k' ->
  (ended (Connector.set_queue q k) k' -> fs = [KConnector FReset]) ->
  Link None (set_connector k' fs c) /\ delivered k' = delivered k.
Proof.
  intros Hf E Hk' Hfs. destruct (pop_KInv k f q Hk Hq) as [Hk0 Hs]; [by rewrite Hf|].
  assert (Hsub : forall g, g ∈ q -> g ∈ Connector.queue k) by (rewrite Hq; by right).
  assert (Hcf : Connector.connect_ k = false) by (apply (k_stop k Hk); rewrite Hq, Hf; by left).
  apply stopInLoop_effect in E as [[Hst ->]|(Hst & Hd & He)]; [| |apply Hk0].
  - split; [|done]. apply (link_connector p); auto; simpl.
    + intros _. split; [done|]. intros Hc. by apply Hst in Hc.
    + apply (lk_state _ _ Hl).
    + intros Hin. apply (lk_stop _ _ Hl), (Hsub _ Hin).
    + intros Hin. destruct (lk_reset _ _ Hl (Hsub _ Hin)) as [|Hp]; [by left|right].
      eapply prompt_append; [eapply (prompt_done (KConnector f)); [by rewrite Hf|exact Hp]|done..].
    + intros known En. destruct (lk_due _ _ Hl known En) as [H1 H2]. split; [done|]. intros Hin. apply H2, (Hsub _ Hin).
  - rewrite (Hfs He). split.
    + apply (link_ended p c (Connector.set_queue q k)); auto.
      * destruct (connection_ c) eqn:E1; [|done]. assert (Hc : connection_ c <> None) by congruence.
        apply (lk_state _ _ Hl) in Hc. simpl in Hst. unfold k in Hst. congruence.
      * intros Hin. apply (lk_stop _ _ Hl), (Hsub _ Hin).
      * intros known. apply (idle_iteration p); [done|]. by destruct (connecting_idle k Hk Hst).
    + destruct He as (_ & _ & [(_ & ? & _)|(? & _)]); [done|congruence].
Qed.

Lemma run_reset k' : f = FReset -> resetChannel (Connector.set_queue q k) = Ok k' -> CoInv k' ->
  Link None (set_connector k' fs c) /\ delivered k' = delivered k.
Proof.
  intros Hf E Hk'. unfold resetChannel in E. apply bind_Ok in E as (u & _ & E). injection E as <-.
  assert (Hsub : forall g, g ∈ q -> g ∈ Connector.queue k) by (rewrite Hq; by right).
  assert (Hone : FReset ∉ q) by (apply (no_reset (Connector.set_channel None (Connector.set_queue q k))); [done|by left]).
  split; [|done]. apply (link_connector p); auto; simpl.
  - constructor; [done|apply Hk| |].
    + simpl. intros Hin. destruct (k_start k Hk (Hsub _ Hin)) as ([_ Hch] & _).
      exfalso. apply (no_reset k); [apply Hk|by left|]. rewrite Hq, Hf. by left.
    + simpl. intros Hin. apply (k_stop k Hk), Hsub, Hin.
  - intros Hg. destruct (lk_gone _ _ Hl Hg) as [_ Hgo]. destruct (Hgo Ha) as [H1 H2]. split; [done|].
    intros Hst. apply H2 in Hst. change (FStop ∈ Connector.queue k) in Hst. rewrite Hq, Hf in Hst. set_solver.
  - apply (lk_state _ _ Hl).
  - intros Hin. apply (lk_stop _ _ Hl), (Hsub _ Hin).
  - done.
  - intros known En. split; [|done]. by destruct (lk_due _ _ Hl known En).
Qed.
End Functors.

(** The loop runs a functor of the connector. *)
Lemma functor_ok f c : Proj (Some (KConnector f)) c -> Link (Some (KConnector f)) c ->
  exists c', kdo Connector.LFunctor c = Ok c' /\ Proj None c' /\ Link None c' /\
    delivered (connector_ c') = delivered (connector_ c) /\
    (exists k' fs, c' = set_connector k' fs c).
Proof.
  intros Hp Hl. pose proof (functor_head _ f c Hp eq_refl) as Hq. pose proof (lk_k _ _ Hl) as Hk.
  pose proof (connector_up _ f c Hp Hl eq_refl) as Ha. set (q := omap kproj (pending c)) in *.
  assert (Hperm : Connector.permitted (connector_ c) Connector.LFunctor).
  { intros Hh. rewrite Hq in Hh. simpl in Hh. injection Hh as ->. apply (k_start _ Hk). rewrite Hq. by left. }
  destruct (step_inv connect_errno so_error self_connect _ _ (k_co _ Hk) Hperm) as (k' & E & Hk').
  unfold connector_do. rewrite Ha, E. cbn [assert_alive mbind outcome_bind].
  eexists. split; [done|]. split; [apply (kdo_proj (Some (KConnector f))); [done|by eexists|done]|].
  pose proof (kstep_queue _ _ _ _ _ _ E) as Hqq. simpl in Hqq. rewrite Hq in Hqq. simpl in Hqq.
  simpl in E. rewrite Hq in E. simpl. rewrite Hq.
  match goal with |- Link None (set_connector _ ?gs _) /\ _ => set (fs := gs) in * end.
  enough (Link None (set_connector k' fs c) /\ delivered k' = delivered (connector_ c)) as [? ?] by (split_and!; eauto).
  destruct f.
  - by eapply run_start.
  - eapply run_stop; try done. intros (Hq' & _). unfold fs. rewrite Hq' in Hqq. simpl in Hqq.
    rewrite Hq'. simpl. by apply app_inv_head in Hqq as <-.
  - by eapply run_reset.
Qed.

(** *** Closing a connection *)

(** The other connections are as they were, and connection [i] is settled. *)
Definition settles (i : nat) (c c' : TcpClient) : Prop :=
  exists o t, conns c' = <[i := mkClientConn (cc_name o) (cc_sock o) t]> (conns c) /\ closing t = 0%nat /\
    (i < length (conns c))%nat.

Lemma settles_settled i c c' : (forall j o, j <> i -> conns c !! j = Some o -> closing (cc_tcp o) = 0%nat) ->
  settles i c c' -> settled c'.
Proof.
  intros Hs (o & t & E & Ht & Hlt) j o' Hj. rewrite E in Hj. destruct (decide (i = j)) as [->|Hne].
  - rewrite list_lookup_insert_eq in Hj by done. by injection Hj as <-.
  - rewrite list_lookup_insert_ne in Hj by done. by eapply Hs.
Qed.

Lemma cdo_remove owed c i o : Proj None c -> Link None c ->
  (forall j o, conns c !! j = Some o -> CInv 0 (cc_tcp o)) -> map cc_sock (conns c) ++ owed = delivered (connector_ c) ->
  connection_ c = None -> (alive c = true -> forall j, live c j -> j = i) ->
  conns c !! i = Some o -> closing (cc_tcp o) = 1%nat ->
  exists c', cdo i TcpConnection.LRemove c = Ok c' /\ Proj None c' /\ Conns owed c' /\ Link None c' /\
    settles i c c' /\ connection_ c' = None /\ connector_ c' = connector_ c /\ alive c' = alive c /\
    connector_alive c' = connector_alive c /\ cl_connect c' = cl_connect c /\ retry_ c' = retry_ c.
Proof.
  intros Hp Hl Ho Hs Hn Hlive Hi Hc. pose proof (Ho i o Hi) as Ci. pose proof (lookup_lt_Some _ _ _ Hi) as Hlt.
  pose proof (conn_step_inv (write i) (user i) (write_bounded i) (user_ok i) (cc_tcp o) TcpConnection.LRemove Ci I) as Ht.
  destruct (removals_CInv _ Ci) as [_ Hr]. destruct Hr as [Hr0 _]; [lia|].
  pose proof (cdo_proj None c i TcpConnection.LRemove o) as Hproj.
  unfold conn_do. rewrite Hi. simpl in *. rewrite Hc in *. simpl in *. eexists. split; [done|].
  split; [by apply Hproj|]. split_and!; try done.
  - constructor; simpl.
    + intros j o' Hj. destruct (decide (i = j)) as [->|Hij]; [|rewrite list_lookup_insert_ne in Hj by done; eauto].
      rewrite list_lookup_insert_eq in Hj by done. by injection Hj as <-.
    + rewrite list_fmap_insert. simpl. rewrite list_insert_id; [done|]. by rewrite list_lookup_fmap, Hi.
    + intros Ha j. rewrite Hn. split; [done|]. intros (o' & Hj & Hr'). exfalso. simpl in Hj.
      destruct (decide (i = j)) as [->|Hij].
      * rewrite list_lookup_insert_eq in Hj by done. injection Hj as <-. unfold removals in *. simpl in Hr'. lia.
      * rewrite list_lookup_insert_ne in Hj by done. apply Hij. symmetry. apply (Hlive Ha). by exists o'.
  - eapply (link_append None c); simpl; try done; [by rewrite length_insert|].
    intros Hpm. by eapply prompt_append.
  - eexists o, _. split_and!; try done.
Qed.

(** Restarting from the close callback: the connector is connected and its
    channel is gone. *)
Lemma restart_ok owed c : Proj None c -> Conns owed c -> Link None c -> alive c = true -> connection_ c = None ->
  Connector.state_ (connector_ c) = Connector.kConnected -> FReset ∉ Connector.queue (connector_ c) ->
  cl_connect c = true ->
  exists c', kdo Connector.LRestart c = Ok c' /\ Proj None c' /\ Conns owed c' /\ Link None c' /\ conns c' = conns c.
Proof.
  intros Hp Hc Hl Ha Hn Hst Hr Hcc. pose proof (lk_k _ _ Hl) as Hk. set (k := connector_ c) in *.
  assert (Hka : connector_alive c = true).
  { destruct (connector_alive c) eqn:E; [done|]. apply (lk_dead _ _ Hl) in E as [? _]. congruence. }
  assert (Hch : Connector.channel_ k = None) by (apply no_channel; [apply Hk|congruence|done]).
  assert (Ht : Connector.timers k = []).
  { destruct (Connector.timers k) eqn:E; [done|]. destruct (k_timers k Hk); [congruence|congruence]. }
  assert (Hstop : FStop ∉ Connector.queue k).
  { intros Hin. rewrite (lk_stop _ _ Hl Hin Ha) in Hcc. done. }
  destruct (step_inv connect_errno so_error self_connect k Connector.LRestart (k_co k Hk)) as (k' & E & Hk'); [done|].
  unfold connector_do. fold k. rewrite Hka, E. cbn [assert_alive mbind outcome_bind]. eexists. split; [done|].
  split; [by apply (kdo_proj None)|].
  simpl in E. unfold restart in E. match type of E with startInLoop _ ?k1 = _ => set (k0 := k1) in * end.
  assert (Hat : attempted k0 k') by (by eapply startInLoop_effect).
  split_and!; try done.
  - destruct Hc as [H1 H2 H3]. constructor; simpl; try done. rewrite H2. by destruct Hat as (_ & -> & _).
  - eapply (link_attempt None c k0); try done.
    + constructor; simpl; try done.
      * destruct (k_co k Hk) as [Hco Hs _]. constructor; simpl; [by rewrite Hst in Hco| |].
        -- unfold in_progress in *. by rewrite Hst in Hs.
        -- unfold kInitRetryDelayMs, kMaxRetryDelayMs. lia.
      * intros Hin. destruct (k_start k Hk Hin) as ([Hx _] & _). congruence.
    + intros Hin. destruct (k_start k Hk Hin) as ([Hx _] & _). congruence.
    + intros known. by apply (idle_iteration None).
    + congruence.
Qed.

Lemma closeCallback_ok owed c i o : Proj None c -> Conns owed c -> Link None c -> conns c !! i = Some o ->
  closing (cc_tcp o) = 1%nat -> FReset ∉ Connector.queue (connector_ c) \/ alive c = false ->
  exists c', closeCallback_ connect_errno so_error self_connect write user i c = Ok c' /\
    Proj None c' /\ Conns owed c' /\ Link None c' /\ settles i c c'.
Proof.
  intros Hp Hc Hl Hi Hcl Hreset. unfold closeCallback_. destruct (alive c) eqn:Ha.
  - destruct Hreset as [Hr|]; [|done]. destruct Hc as [H1 H2 H3].
    destruct (removals_CInv _ (H1 i o Hi)) as [_ Hr0]. destruct Hr0 as [Hr0 _]; [lia|].
    assert (Hslot : connection_ c = Some i) by (apply (H3 Ha); by exists o).
    unfold removeConnection. rewrite bool_decide_true by done. cbn [assert_ mbind outcome_bind].
    set (c1 := set_slot None (cl_nextConnId c) (conns c) [] c).
    assert (Hp1 : Proj None c1) by (destruct Hp as [Hx Hy]; constructor; unfold full; simpl; by rewrite app_nil_r).
    assert (Hst : Connector.state_ (connector_ c) = Connector.kConnected) by (apply (lk_state _ _ Hl); congruence).
    assert (Hl1 : Link None c1).
    { destruct Hl as [L1 L2 L3 L4 L5 L6 L7 L8]. constructor; simpl; auto.
      - intros Hg. split; [done|]. by apply L3.
      - done. }
    destruct (cdo_remove owed c1 i o) as (c2 & E2 & P2 & C2 & L2 & S2 & N2 & K2 & A2 & KA2 & CC2 & _); try done.
    { intros _ j Hj. apply (H3 Ha) in Hj. congruence. }
    rewrite E2. cbn [mbind outcome_bind]. destruct (retry_ c2 && cl_connect c2) eqn:Eb; [|by eauto 10].
    apply andb_true_iff in Eb as [_ Eb].
    destruct (restart_ok owed c2) as (c3 & E3 & P3 & C3 & L3 & K3); try (rewrite ?K2; done); [by rewrite A2|].
    exists c3. split_and!; try done. destruct S2 as (o' & t & Ec & Hx). exists o', t. by rewrite K3.
  - destruct (lk_gone _ _ Hl Ha) as [Hn _]. destruct Hc as [H1 H2 H3].
    destruct (cdo_remove owed c i o) as (c2 & E2 & P2 & C2 & L2 & S2 & _); try done; [congruence|]. eauto 10.
Qed.

(** *** Events of a connection *)

Abbreviation cevent := (conn_event connect_errno so_error self_connect write user).

(** The steps in which a connection may close: when the loop runs one of its
    functors, or on an event of a connection the poll knew. *)
Definition may_close (p : option client_functor) (i : nat) (c : TcpClient) : Prop :=
  (exists f, p = Some (KConn i f)) \/ (exists known due, now c = Polled known due /\ (i < known)%nat).

(** By then the reset of the connector's channel has run. *)
Lemma close_after_reset p i c : Link p c -> connection_ c = Some i -> may_close p i c ->
  FReset ∉ Connector.queue (connector_ c).
Proof.
  intros Hl Hs Hm Hin. assert (Hst : Connector.state_ (connector_ c) = Connector.kConnected)
    by (apply (lk_state _ _ Hl); congruence).
  destruct (lk_reset _ _ Hl Hin) as [[? _]|[Hn Hf]]; [congruence|].
  destruct Hm as [[f ->]|(known & due & En & Hlt)].
  - by apply (reset_first_head i f (pending c)), Hf.
  - rewrite En in Hn. specialize (Hn i Hs). lia.
Qed.

Lemma establish_closing w u c c' : connectEstablished w u c = Ok c' -> closing c' = closing c.
Proof. unfold connectEstablished. intros E. obind. by apply calm_notify in E as [_ ?]. Qed.

Lemma conn_event_ok p owed c i l o : Proj p c -> Conns owed c -> Link p c -> settled c -> runs_conn p i l ->
  l <> TcpConnection.LRemove -> conns c !! i = Some o -> permitted_label (cc_tcp o) l ->
  calls_only l \/ l = LEstablish \/ may_close p i c ->
  unless too_long (cevent i l c) (fun c' => Proj None c' /\ Conns owed c' /\ Link None c' /\ settled c').
Proof.
  intros Hp Hc Hl Hs Hrun Hne Hi Hperm Hwhen. unfold conn_event.
  eapply unless_bind; [by eapply (cdo_ok p owed c i l o)|].
  intros c1 _ (P1 & C1 & L1 & K1 & A1 & N1 & t & Et & Ht & Ec1). pose proof (lookup_lt_Some _ _ _ Hi) as Hlt.
  assert (Hi1 : conns c1 !! i = Some (mkClientConn (cc_name o) (cc_sock o) t)) by (by rewrite Ec1, list_lookup_insert_eq).
  rewrite Hi1. simpl. destruct (decide (closing t = 0%nat)) as [Hz|Hnz].
  - rewrite Hz. simpl. split_and!; try done. apply (settles_settled i c); [eauto|]. by eexists o, t.
  - destruct (removals_CInv t Ht) as [_ Hr]. destruct (Hr Hnz) as [Hr0 H1]. rewrite H1. simpl.
    assert (Hm : may_close p i c).
    { destruct Hwhen as [Hcall|[->|]]; [..|done].
      - apply conn_step_calls in Et; [|done]. rewrite (Hs i o Hi) in Et. done.
      - simpl in Et. apply establish_closing in Et. rewrite (Hs i o Hi) in Et. done. }
    assert (Hreset : FReset ∉ Connector.queue (connector_ c1) \/ alive c1 = false).
    { destruct (alive c1) eqn:Ha; [left|by right]. rewrite K1. apply (close_after_reset p i); [done| |done].
      rewrite <- N1. apply (cn_slot _ _ C1 Ha). eexists. split; [exact Hi1|done]. }
    destruct (closeCallback_ok owed c1 i _ P1 C1 L1 Hi1 H1 Hreset) as (c2 & -> & P2 & C2 & L2 & S2).
    cbn [mbind outcome_bind]. split_and!; try done.
    apply (settles_settled i c1); [|done]. intros j o' Hji Hj. rewrite Ec1, list_lookup_insert_ne in Hj by done. eauto.
Qed.

(** *** A new connection *)

Lemma newConnection_ok c n : Proj None c -> Conns [n] c -> Link None c -> settled c -> alive c = true ->
  connection_ c = None -> Connector.state_ (connector_ c) = Connector.kConnected ->
  unless too_long (newConnection connect_errno so_error self_connect getpeername getsockname write user c n) ClInv.
Proof.
  intros Hp Hc Hl Hs Ha Hn Hst. unfold newConnection. rewrite Ha. cbn [assert_alive mbind outcome_bind].
  destruct (peer_ok n) as (a & ip & -> & E2). cbn [mbind outcome_bind]. rewrite E2. cbn [mbind outcome_bind].
  destruct (local_ok n) as (b & ->). cbn [mbind outcome_bind].
  destruct new_Buffer_repr as (buf & -> & Hb & _). cbn [mbind outcome_bind].
  set (t := new_TcpConnection _ _ _ _ _). set (o := mkClientConn _ n t). set (c1 := set_slot _ _ _ _ _).
  assert (Ht : CInv 0 t) by (apply new_TcpConnection_inv; [apply Hb|done]).
  set (i := length (conns c)). assert (Hi : conns c1 !! i = Some o) by (unfold c1; simpl; by rewrite list_lookup_middle).
  assert (Hold : forall j o', conns c1 !! j = Some o' -> conns c !! j = Some o' \/ (j = i /\ o' = o)).
  { intros j o' Hj. unfold c1 in Hj. simpl in Hj. apply lookup_app_Some in Hj as [?|[Hlen Hj]]; [by left|right].
    destruct (j - length (conns c))%nat eqn:E; simplify_eq/=. split; [unfold i; lia|done]. }
  assert (P1 : Proj None c1).
  { destruct Hp as [Hk Hj]. constructor; unfold full; simpl; rewrite app_nil_r; [done|]. intros j.
    change (omap (iproj j) (pending c)) with (omap (iproj j) (full None c)). rewrite Hj.
    destruct (conns c !! j) as [o'|] eqn:E; [by rewrite (lookup_app_l_Some _ _ _ _ E)|].
    apply lookup_ge_None in E. rewrite lookup_app_r by done. by destruct (j - length (conns c))%nat. }
  assert (C1 : Conns [] c1).
  { destruct Hc as [H1 H2 H3]. constructor.
    - intros j o' [Hj|[_ ->]]%Hold; [eauto|done].
    - unfold c1. simpl. rewrite map_app, app_nil_r. exact H2.
    - intros _ j. unfold c1 at 1. simpl. split.
      + intros [= <-]. exists o. split; [exact Hi|done].
      + intros (o' & [Hj|[-> _]]%Hold & Hr); [|done]. exfalso.
        assert (Hlive : live c j) by (by exists o'). apply (H3 Ha) in Hlive. congruence. }
  assert (L1 : Link None c1).
  { destruct Hl as [L1 L2 L3 L4 L5 L6 L7 L8]. constructor; simpl; auto; [congruence|..].
    - intros Hin. right. destruct (L6 Hin) as [[? _]|[Hnow _]]; [congruence|]. unfold prompt. simpl. rewrite app_nil_r. split.
      + destruct (now c) as [known due|]; [|done]. intros j [= <-]. by eapply L8.
      + intros j [= <-]. unfold full. simpl. rewrite app_nil_r.
        apply (reset_first_new None c Hp), (reset_pending None c Hp), Hin.
    - intros known due E. rewrite length_app. specialize (L8 known due E). lia. }
  eapply unless_mono.
  { eapply (conn_event_ok None [] c1 i LEstablish o); try done; [|by right; left].
    intros j o' [Hj|[_ ->]]%Hold; [eauto|done]. }
  intros c2 _ (P2 & C2 & L2 & S2). done.
Qed.

(** *** Events of the connector *)

Abbreviation kevent := (connector_event connect_errno so_error self_connect getpeername getsockname write user).

Lemma no_connection p c : Link p c -> Connector.state_ (connector_ c) <> Connector.kConnected -> connection_ c = None.
Proof. intros Hl Hst. destruct (connection_ c) eqn:E; [|done]. exfalso. apply Hst, (lk_state _ _ Hl). congruence. Qed.

Lemma connector_lives p c : Link p c -> Connector.channel_ (connector_ c) <> None \/ Connector.timers (connector_ c) <> [] ->
  connector_alive c = true.
Proof.
  intros Hl Hne. destruct (connector_alive c) eqn:E; [done|]. apply (lk_dead _ _ Hl) in E as (_ & E1 & E2 & _).
  destruct Hne; congruence.
Qed.

(** Steps of the connector that hand nothing over leave the connections alone. *)
Lemma conns_connector owed ns c k' fs : Conns owed c -> delivered k' = delivered (connector_ c) ++ ns ->
  Conns (owed ++ ns) (set_connector k' fs c).
Proof.
  intros [H1 H2 H3] Hd. constructor; simpl; auto. rewrite Hd, <- H2. by rewrite <- app_assoc.
Qed.

Lemma quiet_step c k' fs l : kdo l c = Ok (set_connector k' fs c) -> Proj None (set_connector k' fs c) ->
  Link None (set_connector k' fs c) -> Conns [] c -> settled c -> delivered k' = delivered (connector_ c) ->
  unless too_long (kevent l c) ClInv.
Proof.
  intros E Hp Hl Hc Hs Hd. unfold connector_event. rewrite E. cbn [mbind outcome_bind]. simpl.
  rewrite drop_ge by (by rewrite Hd). simpl. constructor; try done.
  apply (conns_connector [] [] c); [done|]. by rewrite app_nil_r.
Qed.

Lemma attempt_ok c mask : ClInv c -> client_permitted c (CAttempt mask) -> unless too_long (kevent (Connector.LEvent mask) c) ClInv.
Proof.
  intros [Hp Hc Hl Hs] [(known & due & En) (n & m & Hch)]. pose proof (lk_k _ _ Hl) as Hk. set (k := connector_ c) in *.
  assert (Hka : connector_alive c = true) by (apply (connector_lives None c Hl); left; unfold k in Hch; congruence).
  assert (Hst : Connector.state_ k = Connector.kConnecting).
  { destruct (decide (Connector.state_ k = Connector.kConnecting)) as [|Hne]; [done|].
    destruct (CoInv_quiet k (k_co k Hk) Hne) as [[? _]|(? & ? & _)]; congruence. }
  pose proof (no_connection None c Hl) as Hn. fold k in Hn. rewrite Hst in Hn. specialize (Hn ltac:(done)).
  destruct (connecting_idle k Hk Hst) as [Ht _].
  destruct (step_inv connect_errno so_error self_connect k (Connector.LEvent mask) (k_co k Hk)) as (k' & E & Hk'); [by eexists _, _|].
  pose proof (kdo_proj None c (Connector.LEvent mask) k' Hp eq_refl E) as Hp'.
  pose proof (kstep_queue _ _ _ _ _ _ E) as Hqq. simpl in Hqq, Hp'.
  assert (Ekdo : kdo (Connector.LEvent mask) c = Ok (set_connector k' (map KConnector (queued false (Connector.queue k) (Connector.queue k'))) c))
    by (unfold connector_do; fold k; rewrite Hka, E; done).
  fold k in Hp'. set (fs := map KConnector _) in *.
  destruct (event_effect connect_errno so_error self_connect k k' mask (k_co k Hk) Hst E) as [->|He].
  { apply (quiet_step c k fs); try done. apply (link_append None c); try done. intros Hpm. by eapply prompt_append. }
  assert (Efs : fs = [KConnector FReset]).
  { unfold fs. destruct He as (Hq & _). rewrite Hq in Hqq at 1. by apply app_inv_head in Hqq as <-. }
  assert (Hl' : Link None (set_connector k' fs c)).
  { rewrite Efs. apply (link_ended None c k); try done.
    - intros Hg. by apply (lk_gone _ _ Hl).
    - apply (lk_stop _ _ Hl).
    - left. eauto.
    - intros x. by apply (idle_iteration None). }
  destruct He as (_ & _ & [(_ & Hd & _)|(Hst' & _ & ns & Hd & Hlen)]); [by apply (quiet_step c k' fs)|].
  destruct (Connector.connect_ k) eqn:Hcc; destruct ns as [|x []]; try done; [|by apply (quiet_step c k' fs); rewrite ?Hd, ?app_nil_r].
  unfold connector_event. rewrite Ekdo. cbn [mbind outcome_bind]. simpl. fold k. rewrite Hd, drop_app_length. simpl.
  eapply unless_bind; [|intros ? _ ?; exact H0].
  apply newConnection_ok; try done.
  - by apply (conns_connector [] [x]).
  - simpl. destruct (alive c) eqn:Ha; [done|]. destruct (lk_gone _ _ Hl Ha) as [_ Hg]. destruct (Hg Hka). unfold k in Hcc. congruence.
Qed.

Lemma timer_ok c : ClInv c -> client_permitted c CTimer ->
  unless too_long (client_step connect_errno so_error self_connect getpeername getsockname write user c CTimer) ClInv.
Proof.
  intros [Hp Hc Hl Hs] [known En]. simpl. rewrite En. set (c1 := set_loop _ _ c). set (k := connector_ c).
  destruct (lk_due _ _ Hl known En) as [Ht Hr]. pose proof (lk_k _ _ Hl) as Hk. destruct (k_timers _ Hk Ht) as [Hst Hlen].
  pose proof (connector_lives None c Hl (or_intror Ht)) as Hka.
  assert (Hch : Connector.channel_ k = None) by (apply no_channel; [apply Hk|unfold k; congruence|done]).
  destruct (Connector.timers (connector_ c)) as [|d ts] eqn:Et; [done|]. destruct ts; [|done].
  destruct (step_inv connect_errno so_error self_connect k Connector.LTimer (k_co k Hk)) as (k' & E & Hk'); [done|].
  assert (Hp1 : Proj None c1) by (by destruct Hp; constructor).
  assert (Hl1 : Link None c1).
  { destruct Hl as [L1 L2 L3 L4 L5 L6 L7 L8]. constructor; simpl; auto; [done|].
    intros x due [= -> <-]. by eapply L8. }
  pose proof (kdo_proj None c1 Connector.LTimer k' Hp1 eq_refl E) as Hp'.
  eapply (quiet_step c1 k'); [unfold connector_do; change (connector_ c1) with k; change (connector_alive c1) with (connector_alive c); by rewrite Hka, E|exact Hp'|..|by destruct Hc; constructor|done|].
  all: simpl in E; unfold k in E; rewrite Et in E; fold k in E.
  all: apply startInLoop_effect in E; [|by split].
  - eapply (link_attempt None c1 (Connector.set_delay (retryDelayMs_ k) [] k)); try done.
    + apply (KInv_queue k); auto; [apply (co_delay _ (k_co k Hk))|apply (k_start k Hk)|apply (k_stop k Hk)].
    + simpl. intros Hin. destruct (k_start k Hk Hin) as (_ & Hx & _). unfold k in Hx. congruence.
    + apply (no_connection None c Hl). congruence.
    + intros Hg. by apply (lk_gone _ _ Hl).
    + apply (lk_stop _ _ Hl).
  - apply E.
Qed.

(** *** The loop takes a functor *)

Lemma pop_ok c f fs n : ClInv c -> now c = Running (S n) -> pending c = f :: fs ->
  let c1 := set_loop fs (Running n) c in Proj (Some f) c1 /\ Conns [] c1 /\ Link (Some f) c1 /\ settled c1.
Proof.
  intros [[Hk Hi] [C1 C2 C3] Hl Hs] En Ep c1. unfold full in *. simpl in *. rewrite Ep in *. split_and!; try done.
  destruct Hl as [L1 L2 L3 L4 L5 L6 L7 L8]. constructor; simpl; auto; try done.
  intros Hin. destruct (L6 Hin) as [|[Hn Hf]]; [by left|right]. unfold prompt, full in *. rewrite En, Ep in *. done.
Qed.

Lemma run_functor_ok c : ClInv c ->
  unless too_long (client_step connect_errno so_error self_connect getpeername getsockname write user c CFunctor) ClInv.
Proof.
  intros Hi. simpl. destruct (now c) as [|[|n]] eqn:En; [done..|]. destruct (pending c) as [|f fs] eqn:Ep; [done|].
  destruct (pop_ok c f fs n Hi En Ep) as (P1 & C1 & L1 & S1). destruct f as [g|i g].
  - destruct (functor_ok g _ P1 L1) as (c2 & E2 & P2 & L2 & D2 & k' & gs & ->).
    eapply (quiet_step (set_loop fs (Running n) c)); eauto.
  - assert (Ho : exists o, conns c !! i = Some o).
    { pose proof (proj_i _ _ P1 i) as Hq. unfold full in Hq. simpl in Hq. rewrite decide_True in Hq by done.
      destruct (conns c !! i); [eauto|done]. }
    destruct Ho as [o Ho]. eapply unless_mono.
    + eapply (conn_event_ok (Some (KConn i g)) [] _ i TcpConnection.LFunctor o); try done; [by eexists|].
      right. right. left. eauto.
    + by intros c2 _ (? & ? & ? & ?).
Qed.

(** *** The operations of the user *)

Lemma flags_ok c rt cn : ClInv c -> (cn = false \/ Connector.queue (connector_ c) = [] \/ cn = cl_connect c) ->
  ClInv (set_flags rt cn c).
Proof.
  intros [[P1 P2] [C1 C2 C3] [L1 L2 L3 L4 L5 L6 L7 L8] Hs] Hcn. do 2 try constructor; try done.
  simpl. destruct Hcn as [-> | [E | ->]]; [done| |done]. rewrite E. set_solver.
Qed.

(** A call of the user on the connector that hands nothing over. *)
Lemma kdo_ok c l k' : Proj None c -> Conns [] c -> settled c -> connector_alive c = true -> pops_connector l = false ->
  kstep (connector_ c) l = Ok k' -> delivered k' = delivered (connector_ c) ->
  (forall fs, fs = map KConnector (queued false (Connector.queue (connector_ c)) (Connector.queue k')) ->
     Link None (set_connector k' fs c)) ->
  unless too_long (kdo l c) ClInv.
Proof.
  intros Hp Hc Hs Ha Hpop E Hd Hl. unfold connector_do. rewrite Ha, E. cbn [assert_alive mbind outcome_bind].
  assert (Hrun : runs_connector None l) by (unfold runs_connector; by rewrite Hpop).
  pose proof (kdo_proj None c l k' Hp Hrun E) as Hp'. rewrite Hpop in *. constructor; try done.
  - apply (conns_connector [] [] c); [done|]. by rewrite app_nil_r.
  - by apply Hl.
Qed.

Lemma alive_connector p c : Link p c -> alive c = true -> connector_alive c = true.
Proof. intros Hl Ha. destruct (connector_alive c) eqn:E; [done|]. apply (lk_dead _ _ Hl) in E as [? _]. congruence. Qed.

Lemma connect_ok c in_loop : ClInv c -> client_permitted c (CConnect in_loop) ->
  unless too_long (connect connect_errno so_error self_connect in_loop c) ClInv.
Proof.
  intros Hi (Ha & [Hst Hch] & Ht & Hq). unfold connect. rewrite Ha. cbn [assert_alive mbind outcome_bind].
  destruct (flags_ok c (retry_ c) true Hi) as [Hp Hc Hl Hs]; [auto|]. set (c1 := set_flags _ _ c) in *.
  change (connector_ c) with (connector_ c1) in *. change (alive c) with (alive c1) in Ha. clearbody c1.
  pose proof (lk_k _ _ Hl) as Hk. pose proof (alive_connector None c1 Hl Ha) as Hka.
  assert (Hn : connection_ c1 = None) by (apply (no_connection None c1 Hl); congruence).
  pose proof (co_delay _ (k_co _ Hk)) as Hd.
  assert (Hk0 : forall q, q = [] \/ q = [FStart] -> KInv (mkConnector true (Connector.state_ (connector_ c1))
    (Connector.channel_ (connector_ c1)) (retryDelayMs_ (connector_ c1)) q (Connector.timers (connector_ c1))
    (created (connector_ c1)) (closed (connector_ c1)) (delivered (connector_ c1)))).
  { intros q Hqq. apply KInv_queue; auto; unfold resets; rewrite ?Hq.
    - by destruct Hqq as [-> | ->].
    - destruct Hqq as [-> | ->]; [by intros ?%elem_of_nil|]. intros _. split_and!; try done. exists []. split; [done|].
      by intros ?%elem_of_nil.
    - destruct Hqq as [-> | ->]; [by intros ?%elem_of_nil|]. by intros ?%list_elem_of_singleton. }
  destruct in_loop.
  - destruct (step_inv connect_errno so_error self_connect _ Connector.LStart (k_co _ Hk)) as (k' & E & Hk'); [done|].
    assert (Hat : attempted (Connector.set_connect true (connector_ c1)) k') by (by eapply startInLoop_effect).
    apply (kdo_ok c1 Connector.LStart k'); try done; [apply Hat|]. intros fs _.
    eapply (link_attempt None c1 (Connector.set_connect true (connector_ c1))); simpl; try done; rewrite ?Hq;
      try (by intros ?%elem_of_nil); [apply Hk0; auto|..|congruence].
    intros known. by apply (idle_iteration None).
  - apply (kdo_ok c1 Connector.LForeignStart _ Hp Hc Hs Hka eq_refl eq_refl); [done|]. intros fs _.
    apply (link_connector None c1); simpl; rewrite ?Hq; simpl; try done; try congruence.
    + unfold start_foreign. simpl. rewrite Hq. apply Hk0. auto.
    + by intros ?%list_elem_of_singleton.
    + by intros ?%list_elem_of_singleton.
    + intros known En. by apply (idle_iteration None) in En.
Qed.

(** [stop], and the destructor of a client without a connection. *)
Lemma stop_KInv k : KInv k -> KInv (Connector.stop k).
Proof.
  intros Hk. unfold Connector.stop. simpl. apply (KInv_queue k); auto; simpl.
  - apply (co_delay _ (k_co k Hk)).
  - rewrite List.filter_app, length_app. simpl. unfold resets. lia.
  - intros [Hin|?%list_elem_of_singleton]%elem_of_app; [|done].
    destruct (k_start k Hk Hin) as (Hr & Ht & rest & -> & Hn). split_and!; try done.
    exists (rest ++ [FStop]). split; [done|]. by intros [?|?%list_elem_of_singleton]%elem_of_app.
Qed.

Lemma stop_ok c c1 : ClInv c -> connector_alive c = true ->
  c1 = set_flags (retry_ c) false c \/ (connection_ c = None /\ c1 = set_alive None false (connector_alive c) c) ->
  unless too_long (kdo Connector.LStop c1) ClInv.
Proof.
  intros [Hp Hc Hl Hs] Hka Hc1.
  assert (Hf : forall fs, Link None (set_connector (Connector.stop (connector_ c)) fs c1)).
  { intros fs. destruct Hl as [L1 L2 L3 L4 L5 L6 L7 L8].
    assert (Hin : forall f, f <> FStop -> f ∈ Connector.queue (connector_ c) ++ [FStop] -> f ∈ Connector.queue (connector_ c)).
    { intros f Hne [|E%list_elem_of_singleton]%elem_of_app; done. }
    assert (Hlast : FStop ∈ Connector.queue (connector_ c) ++ [FStop]) by (apply elem_of_app; right; by left).
    assert (Hr : FReset ∈ Connector.queue (connector_ c) ++ [FStop] ->
      (Connector.state_ (connector_ c) = Connector.kDisconnected /\ Connector.timers (connector_ c) = []) \/
      prompt None (set_connector (Connector.stop (connector_ c)) fs c1)).
    { intros Hr%Hin; [|done]. destruct (L6 Hr) as [|Hpm]; [by left|right].
      destruct Hc1 as [-> | [Hn ->]]; by eapply (prompt_append None c). }
    assert (Hd : forall known, now c = Polled known true ->
      Connector.timers (connector_ c) <> [] /\ FReset ∉ Connector.queue (connector_ c) ++ [FStop]).
    { intros known En. destruct (L7 known En) as [H1 H2]. split; [done|]. intros Hx. by apply H2, Hin. }
    pose proof (stop_KInv _ L1) as HK.
    destruct Hc1 as [-> | [Hn ->]]; constructor; simpl; auto; try congruence.
    intros Hg. split; [by apply L3|auto]. }
  destruct Hp as [P1 P2], Hc as [C1 C2 C3].
  destruct Hc1 as [-> | [Hn ->]]; apply (kdo_ok _ Connector.LStop (Connector.stop (connector_ c))); try done;
    try (by constructor); intros fs _; apply Hf.
Qed.

Lemma disconnect_ok c in_loop : ClInv c -> alive c = true ->
  unless too_long (disconnect connect_errno so_error self_connect write user in_loop c) ClInv.
Proof.
  intros Hi Ha. unfold disconnect. rewrite Ha. cbn [assert_alive mbind outcome_bind].
  destruct (flags_ok c (retry_ c) false Hi) as [Hp Hc Hl Hs]; [auto|]. simpl connection_.
  destruct (connection_ c) as [i|] eqn:Hslot; [|done].
  destruct (proj1 (cn_slot _ _ Hc Ha i) Hslot) as (o & Ho & _). simpl in Ho.
  eapply unless_mono.
  - eapply (conn_event_ok None [] _ i _ o Hp Hc Hl Hs); [by destruct in_loop..|exact Ho|by destruct in_loop|].
    left. by destruct in_loop.
  - by intros c2 _ (? & ? & ? & ?).
Qed.

(** *** The destructors *)

Lemma released_ok c slot : ClInv c -> (alive c = false /\ slot = connection_ c) \/ slot = None ->
  Connector.channel_ (connector_ c) = None ->
  Connector.timers (connector_ c) = [] -> Connector.queue (connector_ c) = [] -> ClInv (set_alive slot false false c).
Proof.
  intros [[P1 P2] [C1 C2 C3] [L1 L2 L3 L4 L5 L6 L7 L8] Hs] Hslot Hch Ht Hq.
  assert (Hn : slot = None) by (destruct Hslot as [[Ha ->]|]; [by apply L3|done]).
  do 2 try constructor; simpl; auto; try done; rewrite ?Hq; by intros ?%elem_of_nil.
Qed.

Lemma release_ok c : ClInv c -> client_permitted c CRelease -> unless too_long (release_connector c) ClInv.
Proof.
  intros Hi [Ha Hq]. unfold release_connector. case_bool_decide as Ht; [|done].
  assert (Hch : Connector.channel_ (connector_ c) = None).
  { destruct Hi as [_ _ Hl _]. destruct (connector_alive c) eqn:Hka; [|by apply (lk_dead _ _ Hl)].
    destruct (lk_gone _ _ Hl Ha) as [_ Hg]. destruct (Hg Hka) as [_ Hc].
    apply no_channel; [apply (lk_k _ _ Hl)| |rewrite Hq; by intros ?%elem_of_nil].
    intros Hst. apply Hc in Hst. rewrite Hq in Hst. by apply elem_of_nil in Hst. }
  unfold delete_Connector. rewrite bool_decide_true by done. cbn [assert_ mbind outcome_bind unless].
  rewrite Ha. apply released_ok; auto.
Qed.

Lemma delete_ok c unique : ClInv c -> client_permitted c (CDelete unique) ->
  unless too_long (delete_TcpClient connect_errno so_error self_connect write user unique c) ClInv.
Proof.
  intros Hi [Ha Hq]. unfold delete_TcpClient. rewrite Ha. cbn [assert_alive mbind outcome_bind].
  pose proof Hi as [Hp Hc Hl Hs]. pose proof (alive_connector None c Hl Ha) as Hka.
  destruct (connection_ c) as [i|] eqn:Hslot; [|by apply (stop_ok c); auto].
  specialize (Hq ltac:(done)). pose proof (lk_k _ _ Hl) as Hk.
  assert (Hst : Connector.state_ (connector_ c) = Connector.kConnected) by (apply (lk_state _ _ Hl); congruence).
  assert (Hch : Connector.channel_ (connector_ c) = None).
  { apply no_channel; [apply Hk|congruence|rewrite Hq; by intros ?%elem_of_nil]. }
  assert (Ht : Connector.timers (connector_ c) = []).
  { destruct (Connector.timers (connector_ c)) eqn:E; [done|]. destruct (k_timers _ Hk); congruence. }
  assert (Hdead : ClInv (set_alive None false false c)) by (apply released_ok; auto).
  destruct (proj1 (cn_slot _ _ Hc Ha i) Hslot) as (o & Ho & Hr).
  assert (Hopen : TcpConnection.state_ (cc_tcp o) <> TcpConnection.kDisconnected).
  { intros E. destruct (cn_objs _ _ Hc i o Ho) as [_ _ _ _ _ Hph]. unfold phase in Hph. rewrite E in Hph.
    unfold removals in Hr. rewrite (Hs i o Ho) in Hr. lia. }
  assert (Hrel : forall c2, connector_ c2 = connector_ c -> release_connector c2 = Ok (set_alive (connection_ c2) (alive c2) false c2)).
  { intros c2 E. unfold release_connector, delete_Connector. rewrite E, Ht, Hch. done. }
  destruct unique; cbn [mbind outcome_bind]; [|by rewrite Hrel].
  destruct Hdead as [P1 C1 L1 S1].
  pose proof (conn_event_ok None [] _ i LForeignForceClose o P1 C1 L1 S1 eq_refl ltac:(done) Ho Hopen (or_introl I)) as He.
  unfold conn_event, conn_do in *. simpl in *. rewrite Ho in *. simpl in *.
  pose proof (lookup_lt_Some _ _ _ Ho) as Hlt. rewrite list_lookup_insert_eq in * by done. simpl in *.
  assert (Hcl : closing (forceClose (cc_tcp o)) = 0%nat).
  { rewrite <- (Hs i o Ho). unfold forceClose. by destruct (_ || _). }
  rewrite Hcl in *. simpl in *. rewrite Hrel by done. simpl. destruct He as (? & ? & ? & ?). done.
Qed.

(** *** Every step *)

Lemma client_step_inv c l : ClInv c -> client_permitted c l ->
  unless too_long (client_step connect_errno so_error self_connect getpeername getsockname write user c l) ClInv.
Proof.
  intros Hi Hperm. destruct l as [b|b| | |u| | | |mask| |i l|]; cbn [client_step].
  - by apply connect_ok.
  - by apply disconnect_ok.
  - simpl in Hperm. unfold stop. rewrite Hperm. cbn [assert_alive mbind outcome_bind].
    apply (stop_ok c); auto. apply (alive_connector None); [apply Hi|done].
  - apply flags_ok; auto.
  - by apply delete_ok.
  - by apply release_ok.
  - destruct Hi as [[P1 P2] [C1 C2 C3] [L1 L2 L3 L4 L5 L6 L7 L8] Hs]. simpl in Hperm.
    assert (Hlazy : FReset ∈ Connector.queue (connector_ c) -> Connector.timers (connector_ c) = [] /\
      Connector.state_ (connector_ c) = Connector.kDisconnected).
    { intros Hin. destruct (L6 Hin) as [[? ?]|[Hn _]]; [done|]. rewrite Hperm in Hn. by apply elem_of_nil in Hn. }
    do 2 try constructor; try done; simpl.
    + intros Hin. left. by apply Hlazy in Hin as [? ?].
    + intros known [= <- Hdue]. case_bool_decide as Ht; [done|]. split; [done|]. by intros [? _]%Hlazy.
    + by intros known due [= <- _].
  - destruct Hi as [Hp C1 [L1 L2 L3 L4 L5 L6 L7 L8] Hs]. pose proof Hp as [P1 P2]. destruct C1 as [C1 C2 C3].
    do 2 try constructor; try done; simpl.
    intros Hin. destruct (L6 Hin) as [|[_ Hf]]; [by left|right]. split; [|done]. simpl.
    rewrite firstn_all. by apply (reset_pending None c Hp).
  - by apply attempt_ok.
  - by apply timer_ok.
  - destruct Hperm as [(o & Ho & Hpo) Hwhen]. destruct Hi as [Hp Hc Hl Hs].
    assert (Hpops : pops_conn l = false /\ l <> TcpConnection.LRemove)
      by (destruct Hwhen as [Hx|[(m & r & ->) _]]; [by destruct l|done]).
    eapply unless_mono.
    + eapply (conn_event_ok None [] c i l o); try done; [by unfold runs_conn; rewrite (proj1 Hpops)|apply Hpops|].
      destruct Hwhen as [|[_ ?]]; [by left|]. right. right. by right.
    + by intros c2 _ (? & ? & ? & ?).
  - by apply run_functor_ok.
Qed.

Lemma new_client_inv name : ClInv (new_TcpClient name).
Proof.
  assert (Hk : KInv new_Connector)
    by (constructor; [apply new_Connector_inv|done|by intros ?%elem_of_nil|by intros ?%elem_of_nil]).
  do 2 try constructor; simpl; try done; try (by intros ?%elem_of_nil).
  intros _ i. split; [done|]. by intros (o & ? & _).
Qed.

Lemma client_run_inv name ls :
  guarded (client_step connect_errno so_error self_connect getpeername getsockname write user) client_permitted
    (new_TcpClient name) ls ->
  unless too_long (for_each (client_step connect_errno so_error self_connect getpeername getsockname write user)
    (new_TcpClient name) ls) ClInv.
Proof. intros Hg. eapply unless_guarded; [|apply new_client_inv|exact Hg]. intros. by apply client_step_inv. Qed.
End Invariant.

(** ** Properties *)

(** A kernel for the examples: every attempt is in progress, then succeeds. *)
Definition sample_answer (n : nat) : sysret (list ascii) := Ret (mem sample_addr).
Definition sample_step : TcpClient -> client_label -> outcome TcpClient :=
  client_step (fun _ => EINPROGRESS) (fun _ => 0) (fun _ => false) sample_answer sample_answer
    (fun _ => full_write) (fun _ => echo_user).
Definition sample_run (ls : list client_label) : TcpClient :=
  match for_each sample_step (new_TcpClient (bytes "cli")) ls with Ok c => c | Err _ => new_TcpClient [] end.

(** The client connects, and the loop resets the connector's channel. *)
Definition connect_history : list client_label := [CConnect true; CPoll; CAttempt POLLOUT; CSwap; CFunctor].

Lemma sample_peer_ok n : exists a ip, getPeerAddr (sample_answer n) = Ok a /\ toIpPort a = Ok ip.
Proof. eexists _, _. split; vm_compute; reflexivity. Qed.

Lemma sample_run_step ls c l c' : sample_run ls = c -> c' = sample_run (ls ++ [l]) ->
  is_Ok (for_each sample_step (new_TcpClient (bytes "cli")) ls) = true ->
  forall s, sample_step c l = Ok s -> s = c'.
Proof.
  intros <- -> Hok s Hs. unfold sample_run in *. rewrite for_each_app.
  destruct (for_each sample_step _ ls) as [c|]; [|done]. simpl in *. by rewrite Hs.
Qed.

Lemma sample_guarded_history : guarded sample_step client_permitted (new_TcpClient (bytes "cli")) connect_history.
Proof.
  split; [done|]. intros c1 H1%(sample_run_step [] _ _ _ eq_refl eq_refl eq_refl). subst c1.
  split; [done|]. intros c2 H2%(sample_run_step [CConnect true] _ _ _ eq_refl eq_refl eq_refl). subst c2.
  split; [split; eexists _, _; vm_compute; reflexivity|].
  intros c3 H3%(sample_run_step [CConnect true; CPoll] _ _ _ eq_refl eq_refl eq_refl). subst c3.
  split; [eexists _, _; vm_compute; reflexivity|]. intros c4 _. done.
Qed.



(** Reconnecting: when the connection of a client that is to retry closes, the
    slot is emptied, [connectDestroyed] is queued, and the connector makes a
    new attempt at once, with the initial delay: in progress on a new socket,
    or to be retried half a second later; without retry it is left alone. *)
Theorem close_reconnects (connect_errno so_error : nat -> Z) (self_connect : nat -> bool)
    (write : nat -> nat -> list ascii -> write_result) (user : nat -> notification -> TcpConnection -> list user_op)
    (c : TcpClient) (i : nat) (o : ClientConn) :
  connection_ c = Some i -> conns c !! i = Some o -> closing (cc_tcp o) = 1%nat -> connector_alive c = true ->
  Connector.channel_ (connector_ c) = None -> Connector.timers (connector_ c) = [] ->
  exists c', removeConnection connect_errno so_error self_connect write user i c = Ok c' /\
    connection_ c' = None /\ pending c' = pending c ++ [KConn i FConnectDestroyed] /\
    if retry_ c && cl_connect c then
      let n := created (connector_ c) in
      match classify (connect_errno n) with
      | CProgress => in_progress (connector_ c') = [n]
      | CRetry => Connector.timers (connector_ c') = [kInitRetryDelayMs] /\ closed (connector_ c') = closed (connector_ c) ++ [n]
      | CFail => in_progress (connector_ c') = [] /\ closed (connector_ c') = closed (connector_ c) ++ [n]
      end
    else connector_ c' = connector_ c.
Proof.
  intros Hs Ho Hcl Hka Hch Ht. unfold removeConnection. rewrite bool_decide_true by done. cbn [assert_ mbind outcome_bind].
  unfold conn_do. simpl. rewrite Ho. simpl. rewrite Hcl. cbn [mbind outcome_bind].
  unfold queued. simpl. rewrite Nat.sub_0_r, drop_app_length.
  destruct (retry_ c && cl_connect c); [|eexists; split; [done|]; simpl; by rewrite app_nil_r].
  unfold connector_do. simpl. rewrite Hka. cbn [assert_alive mbind outcome_bind].
  unfold restart, startInLoop. simpl. unfold Connector.connect. cbn [create_socket].
  destruct (classify _) eqn:E; simpl; rewrite ?Hch; simpl; (eexists; split; [done|]); simpl; unfold queued; simpl;
    rewrite ?Nat.sub_0_r, ?drop_ge by lia; simpl; rewrite ?app_nil_r, ?E, ?Ht; done.
Qed.

(** A client that retries, in the close callback of its first connection. *)
Definition closing_conn : TcpConnection :=
  set_pending 0 1 1 (TcpConnection.setState TcpConnection.kDisconnected (new_TcpConnection 3 empty_buffer empty_buffer false false)).
Definition closing_client : TcpClient :=
  mkClient (mkConnector true Connector.kConnected None 500 [] [] 1 [] [0%nat]) (bytes "cli") false true true 2 (Some 0%nat)
    [mkClientConn (bytes "cli") 0 closing_conn] [] (Polled 1 false) true true.

Lemma close_reconnects_witness :
  exists c', removeConnection (fun _ => ECONNREFUSED) (fun _ => 0) (fun _ => false) (fun _ => full_write) (fun _ => echo_user)
      0 closing_client = Ok c' /\
    connection_ c' = None /\ pending c' = [KConn 0 FConnectDestroyed] /\ Connector.timers (connector_ c') = [500].
Proof.
  destruct (close_reconnects (fun _ => ECONNREFUSED) (fun _ => 0) (fun _ => false) (fun _ => full_write) (fun _ => echo_user)
    closing_client 0 (mkClientConn (bytes "cli") 0 closing_conn)) as (c' & H1 & H2 & H3 & H4 & _); [reflexivity..|].
  exists c'. split; [exact H1|]. split; [exact H2|]. split; [exact H3|exact H4].
Defined.

(** A client without a connection that cannot make one: an attempt on the
    thread of the loop fails an assertion, now and as long as the connector is
    left as it is. *)
Definition stranded (connect_errno so_error : nat -> Z) (self_connect : nat -> bool) (c : TcpClient) : Prop :=
  connection_ c = None /\
  forall d, alive d = true -> connector_alive d = true -> connector_ d = connector_ c ->
    connect connect_errno so_error self_connect true d = Err AssertFailed.

Lemma connect_connected connect_errno so_error self_connect d :
  alive d = true -> connector_alive d = true -> Connector.state_ (connector_ d) = Connector.kConnected ->
  connect connect_errno so_error self_connect true d = Err AssertFailed.
Proof.
  intros Ha Hka Hst. unfold connect, connector_do. simpl. rewrite Ha, Hka. simpl.
  unfold Connector.start, startInLoop. simpl. by rewrite Hst.
Qed.

(** C37. When the connection of a client that does not retry closes, its
    removal succeeds but leaves the connector in the connected state: the client
    has no connection, and every later attempt to connect fails the assertion
    at the start of an attempt. *)
Theorem reconnect_aborts (connect_errno so_error : nat -> Z) (self_connect : nat -> bool)
    (write : nat -> nat -> list ascii -> write_result) (user : nat -> notification -> TcpConnection -> list user_op)
    (c : TcpClient) (i : nat) (o : ClientConn) :
  connection_ c = Some i -> conns c !! i = Some o -> closing (cc_tcp o) = 1%nat ->
  retry_ c && cl_connect c = false -> Connector.state_ (connector_ c) = Connector.kConnected ->
  exists c', removeConnection connect_errno so_error self_connect write user i c = Ok c' /\
    stranded connect_errno so_error self_connect c'.
Proof.
  intros Hs Ho Hcl Hr Hst. unfold removeConnection. rewrite bool_decide_true by done. cbn [assert_ mbind outcome_bind].
  unfold conn_do. simpl. rewrite Ho. simpl. rewrite Hcl. cbn [mbind outcome_bind]. simpl. rewrite Hr.
  eexists. split; [done|]. split; [done|]. intros d Ha Hka Hd. apply connect_connected; [done..|].
  by rewrite Hd.
Qed.

(** The peer closes the connection, and the loop destroys it. *)
Definition peer_closes : list client_label :=
  connect_history ++ [CPoll; CConn 0 (TcpConnection.LEvent POLLIN (fun _ => ReadData [])); CSwap; CFunctor].

(** It happens: in this history the client has no connection, nothing is
    pending, and [connect] aborts. *)
Lemma reconnect_aborts_history :
  connection_ (sample_run peer_closes) = None /\ pending (sample_run peer_closes) = [] /\
  connect (fun _ => EINPROGRESS) (fun _ => 0) (fun _ => false) true (sample_run peer_closes) = Err AssertFailed.
Proof.
  split; [vm_compute; reflexivity|]. split; [vm_compute; reflexivity|].
  apply connect_connected; vm_compute; reflexivity.
Qed.

Definition closing_once : TcpClient :=
  mkClient (mkConnector true Connector.kConnected None 500 [] [] 1 [] [0%nat]) (bytes "cli") false false true 2 (Some 0%nat)
    [mkClientConn (bytes "cli") 0 closing_conn] [] (Polled 1 false) true true.

Lemma reconnect_aborts_witness :
  exists c', removeConnection (fun _ => EINPROGRESS) (fun _ => 0) (fun _ => false) (fun _ => full_write) (fun _ => echo_user)
      0 closing_once = Ok c' /\ stranded (fun _ => EINPROGRESS) (fun _ => 0) (fun _ => false) c'.
Proof.
  apply (reconnect_aborts (fun _ => EINPROGRESS) (fun _ => 0) (fun _ => false) (fun _ => full_write) (fun _ => echo_user)
    closing_once 0 (mkClientConn (bytes "cli") 0 closing_conn)); reflexivity.
Defined.

(** With an address and port of thirty characters or more (an IPv6 peer) the
    array of the name is full before the number of the connection: every
    connection of the client has the same name. *)
Theorem client_names_collide (name ipPort : list ascii) (a b : Z) : 30 <= zlen (StringPiece.until_nul ipPort) ->
  client_conn_name name ipPort a = client_conn_name name ipPort b.
Proof.
  intros Hlen. unfold client_conn_name, snprintf. f_equal.
  assert (Hcut : forall n, ztake 31 (":"%char :: StringPiece.until_nul ipPort ++ "#"%char :: fmt_d n) =
    ztake 31 (":"%char :: StringPiece.until_nul ipPort)).
  { intros n. unfold ztake. rewrite app_comm_cons. apply take_app_le. rewrite length_cons. unfold zlen in Hlen. lia. }
  change (32 - 1) with 31. by rewrite !Hcut.
Qed.
