(* ===== verification/FileUtil.v ===== *)
(** * Files (src/src/FileUtil.h, src/src/FileUtil.cpp)

    [AppendFile] appends to a stdio stream, [ReadSmallFile] reads a small file
    into a string or into its own array.  The stream and the kernel are
    parameters: how much the [k]-th call of fwrite accepts, and what each
    read(2), fstat(2) and pread(2) answers. *)

From S2P Require Import Prelude StringPiece InetAddress Acceptor.
Local Open Scope Z_scope.

Definition EISDIR : Z := 21.

Lemma ztake_app_zslice (l : list ascii) n m : 0 <= n -> 0 <= m -> ztake n l ++ zslice n (n + m) l = ztake (n + m) l.
Proof.
  intros Hn Hm. unfold zslice, ztake, zdrop. rewrite take_take_drop. f_equal. lia.
Qed.

Lemma ztake_zslice (l : list ascii) n j x : 0 <= x -> n + x <= j -> ztake x (zslice n j l) = zslice n (n + x) l.
Proof.
  intros Hx Hj. unfold zslice, ztake. rewrite take_take. f_equal. lia.
Qed.

(** ** AppendFile *)

(** [written] are the bytes the stream has accepted, [calls] the calls of
    fwrite so far. *)
Record AppendFile : Type := mkAppendFile {
  written : list ascii;
  writtenBytes_ : Z;
  calls : nat
}.

(** [fopen] may fail; the stream is used all the same. *)
Definition new_AppendFile (fopen_ok : bool) : outcome AppendFile :=
  if fopen_ok then Ok (mkAppendFile [] 0 0) else Err UseAfterFree.

Definition writtenBytes (f : AppendFile) : Z := writtenBytes_ f.

Section Append.
(** How many of the bytes offered to it the [k]-th fwrite_unlocked accepts. *)
Context (fwrite : nat -> list ascii -> Z).

Definition file_write (logline : list ascii) (f : AppendFile) : Z * AppendFile :=
  let n := fwrite (calls f) logline in
  (n, mkAppendFile (written f ++ ztake n logline) (writtenBytes_ f) (S (calls f))).

(** The [while] loop: [n] bytes of [logline] are written, [remain] are not. *)
Fixpoint append_loop (fuel : nat) (logline : list ascii) (n remain : Z) (f : AppendFile) : option AppendFile :=
  match fuel with
  | O => None
  | S fuel =>
      if 0 <? remain then
        let '(x, f) := file_write (zslice n (n + remain) logline) f in
        if x =? 0 then Some f
        else let n := n + x in append_loop fuel logline n (u64 (zlen logline - n)) f
      else Some f
  end.

Definition append (fuel : nat) (logline : list ascii) (f : AppendFile) : option AppendFile :=
  let '(n, f) := file_write logline f in
  f ← append_loop fuel logline n (u64 (zlen logline - n)) f;
  Some (mkAppendFile (written f) (i64 (writtenBytes_ f + zlen logline)) (calls f)).

(** *** What reaches the stream *)

Hypothesis fwrite_bounded : forall k d, 0 <= fwrite k d <= zlen d.

(** The loop ends, with a prefix of the line in the stream: all of it unless a
    call accepted nothing. *)
Lemma append_loop_spec fuel logline n f base :
  zlen logline < 2 ^ 63 -> 0 <= n <= zlen logline -> zlen logline - n < Z.of_nat fuel ->
  written f = base ++ ztake n logline ->
  exists f' m, append_loop fuel logline n (u64 (zlen logline - n)) f = Some f' /\
    n <= m <= zlen logline /\ written f' = base ++ ztake m logline /\ writtenBytes_ f' = writtenBytes_ f /\
    (m = zlen logline \/ exists k d, d <> [] /\ fwrite k d = 0).
Proof.
  revert n f. induction fuel as [|fuel IH]; intros n f Hlen Hn Hfuel Hw; [lia|].
  assert (Hu : u64 (zlen logline - n) = zlen logline - n) by (apply uwrap_small; unfold in_u; lia).
  cbn [append_loop]. rewrite Hu. destruct (Z.ltb_spec 0 (zlen logline - n)) as [Hpos|Hz].
  - replace (n + (zlen logline - n)) with (zlen logline) by lia. unfold file_write.
    set (d := zslice n (zlen logline) logline). pose proof (fwrite_bounded (calls f) d) as Hb.
    assert (Hd : zlen d = zlen logline - n) by (apply zlen_zslice; lia).
    destruct (Z.eqb_spec (fwrite (calls f) d) 0) as [E|E].
    + eexists _, n. split; [done|]. simpl. rewrite E, ztake_0, app_nil_r. split_and!; try lia; try done.
      right. exists (calls f), d. split; [|done]. intros ->. rewrite zlen_nil in Hd. lia.
    + set (f1 := mkAppendFile _ _ _). destruct (IH (n + fwrite (calls f) d) f1) as (f' & m & H1 & H2 & H3 & H4 & H5); try lia.
      * assert (E1 : ztake (fwrite (calls f) d) d = zslice n (n + fwrite (calls f) d) logline) by (apply ztake_zslice; lia).
        unfold f1. simpl. rewrite Hw, <- app_assoc, E1. f_equal. apply ztake_app_zslice; lia.
      * exists f', m. split_and!; try done; lia.
  - exists f, n. split_and!; try lia; done.
Qed.
End Append.

(** ** ReadSmallFile *)

Inductive read_answer : Type := ReadBytes (bs : list ascii) | ReadFail (errno : Z).

(** [struct stat] as far as it is used. *)
Record stat_ : Type := mkStat { st_size : Z; st_isdir : bool; st_mtime : Z; st_ctime : Z }.

Definition kBufferSize : Z := 64 * 1024.

(** [offset] and [reads] belong to the kernel: the position of the descriptor
    and the calls of read(2) so far. *)
Record ReadSmallFile : Type := mkReadSmallFile {
  fd_ : Z;
  err_ : Z;
  buf_ : list ascii;
  offset : Z;
  reads : nat
}.

(** [open] gives a descriptor or an error; the array is not initialised. *)
Definition new_ReadSmallFile (open : sysret Z) (garbage : list ascii) : ReadSmallFile :=
  let buf := store 0 [StringPiece.NUL] garbage in
  match open with
  | Ret fd => mkReadSmallFile fd 0 buf 0 0
  | Fail errno => mkReadSmallFile (-1) errno buf 0 0
  end.

(** The destructor: the descriptor it closes. *)
Definition delete_ReadSmallFile (f : ReadSmallFile) : option Z := if 0 <=? fd_ f then Some (fd_ f) else None.

(** The values the caller's pointers receive. *)
Record file_info : Type := mkFileInfo { fileSize : option Z; modifyTime : option Z; createTime : option Z }.

Section Read.
(** [read k off n]: the answer to the [k]-th read of [n] bytes at [off]. *)
Context (read : nat -> Z -> Z -> read_answer).

(** The [while] loop of [readToString]. *)
Fixpoint read_loop (fuel : nat) (maxSize : Z) (content : list ascii) (err : Z) (f : ReadSmallFile)
  : option (Z * list ascii * ReadSmallFile) :=
  match fuel with
  | O => None
  | S fuel =>
      if zlen content <? u64 maxSize then
        let toRead := Z.min (u64 maxSize - zlen content) kBufferSize in
        match read (reads f) (offset f) toRead with
        | ReadBytes bs =>
            let f := mkReadSmallFile (fd_ f) (err_ f) (store 0 bs (buf_ f)) (offset f + zlen bs) (S (reads f)) in
            if 0 <? zlen bs then read_loop fuel maxSize (content ++ bs) err f else Some (err, content, f)
        | ReadFail errno =>
            Some (errno, content, mkReadSmallFile (fd_ f) (err_ f) (buf_ f) (offset f) (S (reads f)))
        end
      else Some (err, content, f)
  end.

(** The first half of [readToString]: [wants] tells which pointers are given,
    [garbage] is the uninitialised [statbuf], [errno] its value before the
    call.  With no pointer for the size, the error is [errno] as it is. *)
Definition stat_part (wants : bool * bool * bool) (fstat : sysret stat_) (garbage : stat_) (errno err : Z) : Z * file_info :=
  let '(wantSize, wantM, wantC) := wants in
  if wantSize then
    let statbuf := match fstat with Ret s => s | Fail _ => garbage end in
    let size := match fstat with Ret s => Some (st_size s) | Fail _ => None end in
    let err := match fstat with Ret _ => err | Fail _ => if st_isdir statbuf then EISDIR else err end in
    (err, mkFileInfo size (if wantM then Some (st_mtime statbuf) else None) (if wantC then Some (st_ctime statbuf) else None))
  else (errno, mkFileInfo None None None).

Definition readToString (fuel : nat) (maxSize : Z) (content : list ascii) (wants : bool * bool * bool)
    (fstat : sysret stat_) (garbage : stat_) (errno : Z) (f : ReadSmallFile)
  : option (Z * list ascii * file_info * ReadSmallFile) :=
  if 0 <=? fd_ f then
    let '(err, info) := stat_part wants fstat garbage errno (err_ f) in
    '(err, content, f) ← read_loop fuel maxSize [] err f;
    Some (err, content, info, f)
  else Some (err_ f, content, mkFileInfo None None None, f).

(** [readToBuffer]: one pread(2) at the start of the file; the array is ended
    by a NUL. *)
Definition readToBuffer (pread : Z -> Z -> read_answer) (f : ReadSmallFile) : Z * option Z * ReadSmallFile :=
  if 0 <=? fd_ f then
    match pread (kBufferSize - 1) 0 with
    | ReadBytes bs =>
        (err_ f, Some (i32 (zlen bs)),
         mkReadSmallFile (fd_ f) (err_ f) (store 0 (bs ++ [StringPiece.NUL]) (buf_ f)) (offset f) (reads f))
    | ReadFail errno => (errno, None, f)
    end
  else (err_ f, None, f).

(** [readFile]: open, read, close. *)
Definition readFile (fuel : nat) (open : sysret Z) (buf : list ascii) (maxSize : Z) (content : list ascii)
    (wants : bool * bool * bool) (fstat : sysret stat_) (garbage : stat_) (errno : Z)
  : option (Z * list ascii * file_info) :=
  '(err, content, info, _) ← readToString fuel maxSize content wants fstat garbage errno (new_ReadSmallFile open buf);
  Some (err, content, info).

(** *** The descriptor *)

Lemma read_loop_fd fuel maxSize content err f err' content' f' :
  read_loop fuel maxSize content err f = Some (err', content', f') -> fd_ f' = fd_ f.
Proof.
  revert content f. induction fuel as [|fuel IH]; intros content f; [done|]. cbn [read_loop].
  repeat case_match; intros E; simplify_eq/=; try done. by apply IH in E.
Qed.

(** Reading a file closes exactly the descriptor it opened. *)
Lemma readToString_closes fuel open buf maxSize content wants fstat garbage errno err content' info f' :
  (forall fd, open = Ret fd -> 0 <= fd) ->
  readToString fuel maxSize content wants fstat garbage errno (new_ReadSmallFile open buf) = Some (err, content', info, f') ->
  delete_ReadSmallFile f' = match open with Ret fd => Some fd | Fail _ => None end.
Proof.
  intros Hopen. unfold readToString. destruct open as [fd|e]; simpl; [|by intros; simplify_eq].
  specialize (Hopen fd eq_refl). zguard. destruct (stat_part _ _ _ _ _) as [e i].
  destruct (read_loop _ _ _ _ _) as [[[e1 c1] f1]|] eqn:E; [|done]. apply read_loop_fd in E.
  simpl. intros [= <- <- <- <-]. unfold delete_ReadSmallFile. rewrite E. simpl. by zguard.
Qed.

(** *** The loop ends, and reads at most what it was asked to *)

Hypothesis read_bounded : forall k off n bs, read k off n = ReadBytes bs -> zlen bs <= n.

Lemma read_loop_total fuel maxSize content err f :
  0 <= maxSize < 2 ^ 31 -> zlen content <= maxSize -> maxSize - zlen content < Z.of_nat fuel ->
  exists err' content' f', read_loop fuel maxSize content err f = Some (err', content', f') /\
    zlen content' <= maxSize /\ content `prefix_of` content'.
Proof.
  intros Hm. assert (Hu : u64 maxSize = maxSize) by (apply uwrap_small; unfold in_u; lia).
  revert content f. induction fuel as [|fuel IH]; intros content f Hc Hf; [lia|].
  cbn [read_loop]. rewrite Hu. destruct (Z.ltb_spec (zlen content) maxSize); [|by eauto 10].
  destruct (read _ _ _) as [bs|e] eqn:E; [|by eauto 10]. apply read_bounded in E.
  destruct (Z.ltb_spec 0 (zlen bs)); [|by eauto 10]. unfold kBufferSize in E.
  edestruct (IH (content ++ bs)) as (err' & content' & f' & H1 & H2 & H3); [rewrite zlen_app; lia..|].
  eexists err', content', f'. split; [exact H1|]. split; [done|]. etrans; [|exact H3]. by eexists.
Qed.

(** *** Reading a regular file *)

(** A file that holds [data]: a read gives some bytes at its offset, at least
    one before the end of the file, and none at its end. *)
Definition holds (data : list ascii) : Prop :=
  forall k off n, 0 <= off <= zlen data -> 0 < n ->
    exists m, read k off n = ReadBytes (zslice off (off + m) data) /\ 0 <= m <= n /\ off + m <= zlen data /\
      (off < zlen data -> 0 < m).

Lemma read_loop_file fuel data maxSize content err f :
  0 <= maxSize < 2 ^ 31 -> holds data -> content = ztake (offset f) data -> 0 <= offset f <= zlen data ->
  offset f <= maxSize -> maxSize - offset f < Z.of_nat fuel ->
  exists f', read_loop fuel maxSize content err f = Some (err, ztake maxSize data, f').
Proof.
  intros Hm Hh. assert (Hu : u64 maxSize = maxSize) by (apply uwrap_small; unfold in_u; lia).
  revert content f. induction fuel as [|fuel IH]; intros content f Hc Ho Hle Hf; [lia|].
  assert (Hlen : zlen content = offset f) by (rewrite Hc; by apply zlen_ztake).
  cbn [read_loop]. rewrite Hu, Hlen. destruct (Z.ltb_spec (offset f) maxSize) as [Hlt|Hge].
  - destruct (Hh (reads f) (offset f) (Z.min (maxSize - offset f) kBufferSize)) as (m & -> & Hm1 & Hm2 & Hm3);
      [lia|unfold kBufferSize; lia|].
    rewrite zlen_zslice by lia. replace (offset f + m - offset f) with m by lia.
    destruct (Z.ltb_spec 0 m) as [Hp|Hz].
    + apply IH; simpl; try lia. rewrite Hc. apply ztake_app_zslice; lia.
    + eexists. rewrite Hc, (ztake_all (offset f)), (ztake_all maxSize) by lia. done.
  - eexists. rewrite Hc. replace (offset f) with maxSize by lia. done.
Qed.
(** Reading the whole of a regular file. *)
Lemma readFile_regular fuel data old buf fd maxSize wants fstat garbage errno :
  holds data -> 0 <= fd -> 0 <= maxSize < 2 ^ 31 -> maxSize < Z.of_nat fuel ->
  readFile fuel (Ret fd) buf maxSize old wants fstat garbage errno =
    let p := stat_part wants fstat garbage errno 0 in Some (p.1, ztake maxSize data, p.2).
Proof.
  intros Hh Hfd Hm Hfuel. unfold readFile, readToString. simpl. zguard. destruct (stat_part _ _ _ _ _) as [err info].
  destruct (read_loop_file fuel data maxSize [] err (mkReadSmallFile fd 0 (store 0 [StringPiece.NUL] buf) 0 0))
    as (f' & ->); try done; simpl; try lia. pose proof (zlen_nonneg data). lia.
Qed.
End Read.

(** ** Properties *)

(** Appending a line to a stream that accepts at least one byte per call puts
    exactly the line at its end, in one pass of the loop per call, however the
    stream splits it; and the loop ends within one call per byte. *)
Theorem append_complete (fwrite : nat -> list ascii -> Z) (fuel : nat) (logline : list ascii) (f : AppendFile) :
  (forall k d, 0 <= fwrite k d <= zlen d) -> (forall k d, d <> [] -> fwrite k d <> 0) ->
  zlen logline < Z.of_nat fuel -> zlen logline < 2 ^ 63 -> 0 <= writtenBytes_ f + zlen logline < 2 ^ 63 ->
  exists f', append fwrite fuel logline f = Some f' /\ written f' = written f ++ logline /\
    writtenBytes_ f' = writtenBytes_ f + zlen logline.
Proof.
  intros Hb Hpos Hfuel Hlen Htot. unfold append, file_write. pose proof (Hb (calls f) logline) as Hb1.
  set (f1 := mkAppendFile _ _ _).
  destruct (append_loop_spec fwrite Hb fuel logline (fwrite (calls f) logline) f1 (written f))
    as (f' & m & E & Hm & Hw & Hn & Hdone); [exact Hlen|exact Hb1|lia|reflexivity|]. rewrite E. cbn [mbind option_bind].
  eexists. split; [done|]. simpl. rewrite Hw, Hn. simpl. destruct Hdone as [->|(k & d & Hd & E0)]; [|by apply (Hpos k d) in Hd].
  split; [by rewrite ztake_all|]. apply swrap_small; [lia|]. unfold in_s. lia.
Qed.

Lemma append_complete_witness :
  exists f', append (fun _ d => Z.min 2 (zlen d)) 8 (bytes "hello") (mkAppendFile (bytes "> ") 2 0) = Some f' /\
    written f' = bytes "> hello" /\ writtenBytes_ f' = 7.
Proof.
  apply (append_complete (fun _ d => Z.min 2 (zlen d)) 8 (bytes "hello") (mkAppendFile (bytes "> ") 2 0)).
  - intros k d. pose proof (zlen_nonneg d). lia.
  - intros k d Hd H. apply Hd, zlen_zero. pose proof (zlen_nonneg d). lia.
  - vm_compute. reflexivity.
  - vm_compute. reflexivity.
  - vm_compute. split; [discriminate|reflexivity].
Defined.

(** A stream that accepts nothing: the line is lost, and is counted. *)
Theorem append_counts_lost_bytes (fuel : nat) (logline : list ascii) (f : AppendFile) :
  logline <> [] -> (0 < fuel)%nat -> zlen logline < 2 ^ 63 -> 0 <= writtenBytes_ f + zlen logline < 2 ^ 63 ->
  exists f', append (fun _ _ => 0) fuel logline f = Some f' /\ written f' = written f /\
    writtenBytes_ f' = writtenBytes_ f + zlen logline.
Proof.
  intros Hne Hf Hlen Htot. destruct fuel as [|fuel]; [lia|]. unfold append, file_write. simpl.
  assert (Hpos : 0 < zlen logline) by (destruct logline; [done|rewrite zlen_cons; pose proof (zlen_nonneg logline); lia]).
  assert (Hu : u64 (zlen logline - 0) = zlen logline) by (rewrite Z.sub_0_r; apply uwrap_small; unfold in_u; lia).
  rewrite Hu. zguard. eexists. split; [done|]. simpl. rewrite !app_nil_r. split; [done|].
  apply swrap_small; [lia|]. unfold in_s. lia.
Qed.

(** [readFile] of a regular file: the string is the file, cut at [maxSize]
    bytes, however the kernel splits the reads; when the size is asked for the
    result is 0 and the size and times are those of the file. *)
Theorem readFile_contents (read : nat -> Z -> Z -> read_answer) (fuel : nat) (data old buf : list ascii)
    (fd maxSize errno : Z) (wantM wantC : bool) (st garbage : stat_) :
  holds read data -> 0 <= fd -> 0 <= maxSize < 2 ^ 31 -> maxSize < Z.of_nat fuel ->
  readFile read fuel (Ret fd) buf maxSize old (true, wantM, wantC) (Ret st) garbage errno =
    Some (0, ztake maxSize data,
      mkFileInfo (Some (st_size st)) (if wantM then Some (st_mtime st) else None) (if wantC then Some (st_ctime st) else None)).
Proof.
  intros Hh Hfd Hm Hfuel. by rewrite (readFile_regular read fuel data).
Qed.

(** A kernel that gives three bytes at a time. *)
Definition three_bytes (data : list ascii) (_ : nat) (off n : Z) : read_answer :=
  ReadBytes (zslice off (off + Z.min (Z.min 3 n) (zlen data - off)) data).

Lemma three_bytes_holds data : holds (three_bytes data) data.
Proof. intros k off n Ho Hn. eexists. split; [reflexivity|]. lia. Qed.

Lemma readFile_contents_witness :
  readFile (three_bytes (bytes "hello world")) 10 (Ret 3) [] 8 [] (true, true, false) (Ret (mkStat 11 false 7 9))
    (mkStat 0 false 0 0) 2 = Some (0, bytes "hello wo", mkFileInfo (Some 11) (Some 7) None).
Proof.
  apply (readFile_contents (three_bytes (bytes "hello world")) 10 (bytes "hello world") [] [] 3 8 2 true false
    (mkStat 11 false 7 9) (mkStat 0 false 0 0)).
  - apply three_bytes_holds.
  - lia.
  - lia.
  - vm_compute. reflexivity.
Defined.

(** Without a pointer for the size the whole file is read and the result is
    the error of some earlier call, as [errno] had it: the caller cannot tell
    success from failure. *)
Theorem readFile_stale_error (read : nat -> Z -> Z -> read_answer) (fuel : nat) (data old buf : list ascii)
    (fd maxSize errno : Z) (fstat : sysret stat_) (garbage : stat_) :
  holds read data -> 0 <= fd -> 0 <= maxSize < 2 ^ 31 -> maxSize < Z.of_nat fuel ->
  readFile read fuel (Ret fd) buf maxSize old (false, false, false) fstat garbage errno =
    Some (errno, ztake maxSize data, mkFileInfo None None None).
Proof.
  intros Hh Hfd Hm Hfuel. by rewrite (readFile_regular read fuel data).
Qed.

Lemma readFile_stale_error_witness :
  readFile (three_bytes (bytes "Threads:")) 10 (Ret 3) [] 9 [] (false, false, false) (Fail 9) (mkStat 0 false 0 0) 2 =
    Some (2, bytes "Threads:", mkFileInfo None None None).
Proof.
  apply (readFile_stale_error (three_bytes (bytes "Threads:")) 10 (bytes "Threads:") [] [] 3 9 2 (Fail 9) (mkStat 0 false 0 0)).
  - apply three_bytes_holds.
  - lia.
  - lia.
  - vm_compute. reflexivity.
Defined.

(** C39. [readToBuffer]: the array starts with the bytes read, then a NUL, and
    keeps its size; the final NUL always fits. *)
Theorem readToBuffer_terminated (pread : Z -> Z -> read_answer) (f : ReadSmallFile) (bs : list ascii) :
  0 <= fd_ f -> zlen (buf_ f) = kBufferSize -> pread (kBufferSize - 1) 0 = ReadBytes bs -> zlen bs <= kBufferSize - 1 ->
  exists f', readToBuffer pread f = (err_ f, Some (zlen bs), f') /\ zlen (buf_ f') = kBufferSize /\
    ztake (zlen bs + 1) (buf_ f') = bs ++ [StringPiece.NUL].
Proof.
  intros Hfd Hbuf Hp Hb. unfold readToBuffer. zguard. rewrite Hp. pose proof (zlen_nonneg bs).
  unfold i32. rewrite swrap_small by (unfold in_s, kBufferSize in *; lia). eexists. split; [done|]. simpl. unfold store.
  assert (Hn : zlen (bs ++ [StringPiece.NUL]) = zlen bs + 1) by (by rewrite zlen_app).
  rewrite ztake_0. simpl. split.
  - rewrite zlen_app, zlen_zdrop by lia. lia.
  - by apply ztake_app_exact.
Qed.

Definition blank_file : ReadSmallFile := mkReadSmallFile 3 0 (replicate (Z.to_nat kBufferSize) StringPiece.NUL) 0 0.

Lemma readToBuffer_terminated_witness :
  exists f', readToBuffer (fun _ _ => ReadBytes (bytes "42")) blank_file = (0, Some 2, f') /\
    zlen (buf_ f') = kBufferSize /\ ztake 3 (buf_ f') = bytes "42" ++ [StringPiece.NUL].
Proof.
  apply (readToBuffer_terminated (fun _ _ => ReadBytes (bytes "42")) blank_file (bytes "42")).
  - simpl. lia.
  - unfold blank_file, zlen. cbn [buf_]. rewrite length_replicate, Z2Nat.id; [done|]. unfold kBufferSize. lia.
  - reflexivity.
  - vm_compute. discriminate.
Defined.
