(* ===== verification/ProcessInfo.v ===== *)
(** * Process information (src/src/ProcessInfo.h, src/src/ProcessInfo.cpp)

    What the process knows of itself, mostly from /proc.  The answers of the
    system (directories, files, limits, times) are arguments; the parsing is
    the model. *)

From S2P Require Import Prelude StringPiece Format InetAddress Acceptor FileUtil.
From stdpp Require Import pretty sorting.
From Stdlib Require Import SpecFloat.
Local Open Scope Z_scope.

(** ** C and C++ library functions *)


Fixpoint digits (s : list ascii) (acc : Z) : Z :=
  match s with
  | c :: s' => if isdigit c then digits s' (acc * 10 + (Z_of_byte c - 48)) else acc
  | [] => acc
  end.

Fixpoint skip_space (s : list ascii) : list ascii :=
  match s with c :: s' => if isspace c then skip_space s' else s | [] => [] end.

(** [atoi]: [strtol], which saturates, converted to [int]. *)
Definition atoi (s : list ascii) : Z :=
  let long z := Z.max (- 2 ^ 63) (Z.min (2 ^ 63 - 1) z) in
  i32 (long (match skip_space s with
             | "-"%char :: s' => - digits s' 0
             | "+"%char :: s' => digits s' 0
             | s' => digits s' 0
             end)).

(** [std::string::find] and [rfind] of a character, [find] of a string. *)
Fixpoint find_chr (c : ascii) (s : list ascii) : option Z :=
  match s with
  | [] => None
  | x :: s' => if decide (x = c) then Some 0 else Z.succ <$> find_chr c s'
  end.

Fixpoint rfind_chr (c : ascii) (s : list ascii) : option Z :=
  match s with
  | [] => None
  | x :: s' => match rfind_chr c s' with
               | Some i => Some (Z.succ i)
               | None => if decide (x = c) then Some 0 else None
               end
  end.

Fixpoint find_str (pat s : list ascii) : option Z :=
  if decide (pat `prefix_of` s) then Some 0
  else match s with [] => None | _ :: s' => Z.succ <$> find_str pat s' end.

(** ** Directories *)

(** [scandir] calls the filter on every entry and keeps those it accepts; the
    array is null when there are none. *)
Definition scanDir {S} (filter : S -> list ascii -> S * Z) (dir : sysret (list (list ascii))) (s : S) : outcome (Z * S) :=
  match dir with
  | Fail _ => Ok (-1, s)
  | Ret entries =>
      let '(s, kept) := fold_left (fun '(s, kept) d => let '(s, r) := filter s d in (s, if r =? 0 then kept else kept + 1))
                          entries (s, 0) in
      assert_ (kept =? 0);; Ok (kept, s)
  end.

Definition starts_with_digit (d_name : list ascii) : bool := match d_name with c :: _ => isdigit c | [] => false end.

Definition fdDirFilter (t_numOpenedFiles : Z) (d_name : list ascii) : Z * Z :=
  (if starts_with_digit d_name then i32 (t_numOpenedFiles + 1) else t_numOpenedFiles, 0).

Definition taskDirFilter (t_pids : list Z) (d_name : list ascii) : list Z * Z :=
  (if starts_with_digit d_name then t_pids ++ [atoi d_name] else t_pids, 0).

Definition openedFiles (dir : sysret (list (list ascii))) : outcome Z :=
  '(_, n) ← scanDir fdDirFilter dir 0; Ok n.

Definition maxOpenFiles (getrlimit : sysret Z) (dir : sysret (list (list ascii))) : outcome Z :=
  match getrlimit with Fail _ => openedFiles dir | Ret rlim_cur => Ok (i32 rlim_cur) end.

(** [std::sort]. *)
Definition threads (dir : sysret (list (list ascii))) : outcome (list Z) :=
  '(_, result) ← scanDir taskDirFilter dir []; Ok (merge_sort Z.le result).

(** ** Strings *)

Definition pidString (pid : Z) : list ascii := snprintf 32 (fmt_d pid).

Definition username (getpwuid : option (list ascii)) : list ascii :=
  match getpwuid with Some pw_name => pw_name | None => bytes "unknownuser" end.

(** [buf] is the array after the call. *)
Definition hostname (gethostname : sysret (list ascii)) : list ascii :=
  match gethostname with
  | Ret buf => StringPiece.until_nul (ztake 255 buf)
  | Fail _ => bytes "unknownhost"
  end.

Definition procname (stat : list ascii) : StringPiece.StringPiece :=
  match find_chr "(" stat, rfind_chr ")" stat with
  | Some lp, Some rp =>
      if lp <? rp then StringPiece.set (zdrop (lp + 1) (StringPiece.c_str stat)) (i32 (rp - lp - 1))
      else StringPiece.piece_empty
  | _, _ => StringPiece.piece_empty
  end.

Definition exePath (readlink : sysret (list ascii)) : list ascii :=
  match readlink with Ret buf => if 0 <? zlen buf then ztake 1024 buf else [] | Fail _ => [] end.

(** The macro is misspelt: there is no build in which this is false. *)
Definition isDebugBuild : bool := true.

(** ** Files of /proc *)

Section Proc.
(** The kernel's answers for the file, and the memory and [errno] before the call. *)
Context (read : nat -> Z -> Z -> read_answer) (fuel : nat) (open : sysret Z) (buf : list ascii) (errno : Z) (st : stat_).

Definition read_proc (maxSize : Z) : option (list ascii) :=
  '(_, result, _) ← readFile read fuel open buf maxSize [] (false, false, false) (Fail 0) st errno;
  Some result.

Definition procStatus : option (list ascii) := read_proc 65535.
Definition procStat : option (list ascii) := read_proc 65535.

Definition numThreads : option Z :=
  status ← procStatus;
  Some (match find_str (bytes "Threads:") status with
        | Some pos => atoi (zdrop (pos + 8) status)
        | None => 0
        end).

Definition threadStat : option (list ascii) := read_proc 65536.
End Proc.

Definition threadStat_path (tid : Z) : list ascii :=
  snprintf 64 (bytes "/proc/self/task/" ++ fmt_d tid ++ bytes "/stat").

(** ** Times *)

Record CpuTime : Type := mkCpuTime { userSeconds : double; systemSeconds : double }.

Definition total (t : CpuTime) : double := SFadd 53 1024 (userSeconds t) (systemSeconds t).

(** [times] gives the ticks of the user and of the system. *)
Definition cpuTime (times : sysret (Z * Z)) (clockTicksPerSecond : Z) : CpuTime :=
  match times with
  | Ret (tms_utime, tms_stime) =>
      let hz := double_of_Z clockTicksPerSecond in
      mkCpuTime (ddiv (double_of_Z tms_utime) hz) (ddiv (double_of_Z tms_stime) hz)
  | Fail _ => mkCpuTime dzero dzero
  end.

(** ** Lemmas *)

Lemma digits_pretty x : forall s t, digits (bytes (pretty_N_go x s) ++ t) 0 = digits (bytes s ++ t) (Z.of_N x).
Proof.
  induction (N.lt_wf_0 x) as [x _ IH]. intros s t.
  destruct (decide (x = 0%N)) as [->|Hn]; [by rewrite pretty_N_go_0|].
  rewrite pretty_N_go_step by lia. rewrite IH by (apply N.div_lt; lia). simpl bytes. cbn [app digits].
  destruct (pretty_N_char_digit (x mod 10)) as [-> ->]; [apply N.mod_lt; lia|]. f_equal.
  pose proof (N.div_mod x 10 ltac:(lia)). lia.
Qed.

Definition no_digit (t : list ascii) : Prop := match t with c :: _ => isdigit c = false | [] => True end.

Lemma digits_stop t acc : no_digit t -> digits t acc = acc.
Proof. destruct t as [|c t]; simpl; [done|]. by intros ->. Qed.

Lemma digits_fmt_d z t : 0 <= z -> no_digit t -> digits (fmt_d z ++ t) 0 = z.
Proof.
  intros Hz Ht. unfold fmt_d. destruct z as [|p|p]; [by apply (digits_stop t 0)| |lia].
  change (pretty (Z.pos p)) with (pretty_N_go (N.pos p) ""). rewrite digits_pretty. simpl. by apply digits_stop.
Qed.

Lemma number_starts z : 0 <= z -> starts_with_digit (fmt_d z) = true.
Proof. intros Hz. by destruct (fmt_d_head z Hz) as (c & s & -> & Hc). Qed.

(** [atoi] reads back what [%d] printed. *)
Lemma atoi_fmt_d z t : 0 <= z < 2 ^ 31 -> no_digit t -> atoi (fmt_d z ++ t) = z.
Proof.
  intros Hz Ht. pose proof (digits_fmt_d z t ltac:(lia) Ht) as Hd. destruct (fmt_d_head z ltac:(lia)) as (c & s & E & Hc). rewrite E in *.
  destruct (digit_plain c Hc) as (H1 & H2 & H3). unfold atoi. simpl app. cbn [skip_space]. rewrite H1.
  transitivity (i32 (Z.max (- 2 ^ 63) (Z.min (2 ^ 63 - 1) z))).
  - do 3 f_equal. rewrite <- Hd. destruct c as [[] [] [] [] [] [] [] []]; done.
  - rewrite Z.min_r, Z.max_r by lia. apply swrap_small; [lia|]. unfold in_s. lia.
Qed.

(** A filter that keeps no entry is a fold over the directory. *)
Lemma scanDir_fold {S} (g : S -> list ascii -> S) entries s :
  scanDir (fun s d => (g s d, 0)) (Ret entries) s = Ok (0, fold_left g entries s).
Proof.
  unfold scanDir. assert (H : forall s, fold_left (fun '(s, kept) d => let '(s, r) := (g s d, 0) in
    (s, if r =? 0 then kept else kept + 1)) entries (s, 0) = (fold_left g entries s, 0)).
  { induction entries as [|d ds IH]; intros s0; [done|]. simpl. apply IH. }
  by rewrite H.
Qed.

Lemma fold_pids entries acc :
  fold_left (fun pids d => if starts_with_digit d then pids ++ [atoi d] else pids) entries acc =
  acc ++ map atoi (List.filter starts_with_digit entries).
Proof.
  revert acc. induction entries as [|d ds IH]; intros acc; simpl; [by rewrite app_nil_r|].
  destruct (starts_with_digit d); rewrite IH; [|done]. by rewrite <- app_assoc.
Qed.

Lemma fold_count entries : forall acc, 0 <= acc -> acc + zlen entries < 2 ^ 31 ->
  fold_left (fun n d => if starts_with_digit d then i32 (n + 1) else n) entries acc =
  acc + zlen (List.filter starts_with_digit entries).
Proof.
  induction entries as [|d ds IH]; intros acc H0 Hb; simpl; [rewrite zlen_nil; lia|]. rewrite zlen_cons in Hb.
  pose proof (zlen_nonneg ds). destruct (starts_with_digit d).
  - unfold i32. rewrite swrap_small by (unfold in_s; lia). rewrite IH, zlen_cons by lia. lia.
  - apply IH; lia.
Qed.

(** The entries of a /proc directory: the dots, and a number each. *)
Definition proc_dir (ids : list Z) : list (list ascii) := bytes "." :: bytes ".." :: map fmt_d ids.

Lemma filter_proc_dir ids : Forall (fun t => 0 <= t < 2 ^ 31) ids ->
  List.filter starts_with_digit (proc_dir ids) = map fmt_d ids /\ map atoi (map fmt_d ids) = ids.
Proof.
  intros H. unfold proc_dir. cbn [List.filter]. change (starts_with_digit (bytes ".")) with false.
  change (starts_with_digit (bytes "..")) with false. cbn iota.
  induction H as [|t ids Ht _ [IH1 IH2]]; [done|]. simpl. rewrite number_starts, IH1, IH2 by lia. split; [done|].
  f_equal. rewrite <- (app_nil_r (fmt_d t)). by apply atoi_fmt_d.
Qed.

Lemma filter_perm {A} (f : A -> bool) (l l' : list A) : l ≡ₚ l' -> List.filter f l ≡ₚ List.filter f l'.
Proof.
  induction 1 as [|x l l' _ IH|x y l|l1 l2 l3 _ IH1 _ IH2]; simpl; [done|..].
  - by destruct (f x); [constructor|].
  - destruct (f x), (f y); try done. constructor.
  - by etrans.
Qed.

Lemma find_chr_app c s t : c ∉ s -> find_chr c (s ++ c :: t) = Some (zlen s).
Proof.
  induction s as [|x s IH]; intros Hn; simpl; [by rewrite decide_True|].
  rewrite not_elem_of_cons in Hn. rewrite decide_False, IH by naive_solver. simpl. f_equal. rewrite zlen_cons. lia.
Qed.

Lemma rfind_chr_None c s : c ∉ s -> rfind_chr c s = None.
Proof.
  induction s as [|x s IH]; intros Hn; simpl; [done|]. rewrite not_elem_of_cons in Hn.
  rewrite IH, decide_False by naive_solver. done.
Qed.

Lemma rfind_chr_app c s t : c ∉ t -> rfind_chr c (s ++ c :: t) = Some (zlen s).
Proof.
  intros Hn. induction s as [|x s IH]; simpl; [by rewrite rfind_chr_None, decide_True by done|].
  rewrite IH. f_equal. rewrite zlen_cons. lia.
Qed.

(** The first occurrence: the pattern starts at no earlier place. *)
Definition first_at (pat pre rest : list ascii) : Prop :=
  forall a b, pre = a ++ b -> b <> [] -> ~ pat `prefix_of` b ++ pat ++ rest.

Lemma find_str_first pat pre rest : first_at pat pre rest -> find_str pat (pre ++ pat ++ rest) = Some (zlen pre).
Proof.
  induction pre as [|c pre IH]; intros Hf.
  - simpl. destruct (pat ++ rest) eqn:E; simpl; rewrite decide_True; try done; rewrite <- E; by apply prefix_app_r.
  - assert (Hn : ~ pat `prefix_of` (c :: pre) ++ pat ++ rest) by (by apply (Hf [] (c :: pre))).
    simpl in *. rewrite decide_False by done. rewrite IH.
    + simpl. f_equal. rewrite zlen_cons. lia.
    + intros a b -> Hb. by apply (Hf (c :: a) b).
Qed.

(** ** Properties *)

(** [threads] lists the ids of the tasks in increasing order, each once,
    whatever the order of the directory. *)
Theorem threads_sorted (tids : list Z) (dir : list (list ascii)) :
  Forall (fun t => 0 <= t < 2 ^ 31) tids -> dir ≡ₚ proc_dir tids ->
  exists l, threads (Ret dir) = Ok l /\ l ≡ₚ tids /\ Sorted Z.le l.
Proof.
  intros Ht Hp. unfold threads, taskDirFilter. rewrite scanDir_fold. cbn [mbind outcome_bind].
  rewrite fold_pids. eexists. split; [done|]. split; [|apply Sorted_merge_sort, _].
  destruct (filter_proc_dir tids Ht) as [E1 E2]. rewrite merge_sort_Permutation. simpl.
  rewrite (filter_perm _ _ _ Hp), E1. by rewrite E2.
Qed.

Lemma threads_sorted_witness :
  exists l, threads (Ret [bytes "12"; bytes "."; bytes "7"; bytes ".."]) = Ok l /\ l ≡ₚ [12; 7] /\ Sorted Z.le l.
Proof.
  apply (threads_sorted [12; 7] [bytes "12"; bytes "."; bytes "7"; bytes ".."]).
  - repeat constructor; vm_compute; congruence.
  - change (proc_dir [12; 7]) with [bytes "."; bytes ".."; bytes "12"; bytes "7"]. solve_Permutation.
Defined.

(** [openedFiles] counts the descriptors. *)
Theorem openedFiles_counts (fds : list Z) (dir : list (list ascii)) :
  Forall (fun t => 0 <= t < 2 ^ 31) fds -> dir ≡ₚ proc_dir fds -> zlen fds + 2 < 2 ^ 31 ->
  openedFiles (Ret dir) = Ok (zlen fds).
Proof.
  intros Hf Hp Hn. unfold openedFiles, fdDirFilter. rewrite scanDir_fold. cbn [mbind outcome_bind].
  destruct (filter_proc_dir fds Hf) as [E1 _].
  assert (Hl : zlen dir = zlen fds + 2) by (unfold zlen; rewrite Hp; simpl; rewrite length_map; lia).
  rewrite fold_count by lia. f_equal. unfold zlen. rewrite (filter_perm _ _ _ Hp), E1, length_map. lia.
Qed.

(** The name of the process is found between the first opening and the last
    closing parenthesis, whatever characters it has itself. *)
Theorem procname_between (pid name rest : list ascii) :
  "("%char ∉ pid -> ")"%char ∉ rest -> zlen name < 2 ^ 31 ->
  StringPiece.chars (procname (pid ++ "("%char :: name ++ ")"%char :: rest)) = name.
Proof.
  intros Hp Hr Hn. unfold procname. rewrite find_chr_app by done.
  assert (E : pid ++ "("%char :: name ++ ")"%char :: rest = (pid ++ "("%char :: name) ++ ")"%char :: rest)
    by (by rewrite <- app_assoc).
  rewrite E, rfind_chr_app by done. rewrite zlen_app, zlen_cons. pose proof (zlen_nonneg name). zguard.
  unfold StringPiece.chars, StringPiece.set, StringPiece.c_str. simpl.
  replace (zlen pid + (1 + zlen name) - zlen pid - 1) with (zlen name) by lia.
  unfold i32. rewrite swrap_small by (unfold in_s; lia).
  rewrite <- !app_assoc, zdrop_app_ge by (pose proof (zlen_nonneg pid); lia).
  replace (zlen pid + 1 - zlen pid) with 1 by lia. simpl. by apply ztake_app_exact.
Qed.

Lemma procname_between_witness :
  StringPiece.chars (procname (bytes "42 (a) b(c) S 1 2")) = bytes "a) b(c".
Proof.
  apply (procname_between (bytes "42 ") (bytes "a) b(c") (bytes " S 1 2")).
  - apply (bool_decide_unpack _). vm_compute. exact I.
  - apply (bool_decide_unpack _). vm_compute. exact I.
  - vm_compute. reflexivity.
Defined.

(** [numThreads] reads the number the kernel printed in the status file. *)
Theorem numThreads_status (read : nat -> Z -> Z -> read_answer) (fuel : nat) (fd errno n : Z) (buf pre post : list ascii) (st : stat_) :
  let data := pre ++ bytes "Threads:" ++ "009"%char :: fmt_d n ++ "010"%char :: post in
  holds read data -> 0 <= fd -> 65535 < Z.of_nat fuel -> zlen data <= 65535 -> 0 <= n < 2 ^ 31 ->
  first_at (bytes "Threads:") pre ("009"%char :: fmt_d n ++ "010"%char :: post) ->
  numThreads read fuel (Ret fd) buf errno st = Some n.
Proof.
  intros data Hh Hfd Hfuel Hlen Hn Hf. unfold numThreads, procStatus, read_proc.
  rewrite (readFile_regular read fuel data) by (done || lia). simpl. rewrite (ztake_all 65535 data) by done.
  cbn [mbind option_bind]. unfold data. rewrite find_str_first by done. f_equal.
  rewrite zdrop_app_ge by (pose proof (zlen_nonneg pre); lia). replace (zlen pre + 8 - zlen pre) with 8 by lia.
  rewrite zdrop_app_exact by done.
  change (atoi ("009"%char :: fmt_d n ++ "010"%char :: post)) with (atoi (fmt_d n ++ "010"%char :: post)).
  by apply atoi_fmt_d.
Qed.
