(* ===== verification/Sync.v ===== *)
(** * Locks, counters and thread-local data

    src/src/MutexLock.h, Condition.h, Atomic.h, CurrentThread.h,
    CurrentThread.cpp, WeakCallback.h, Exception.h and the rest of Thread.cpp.

    The mutex is a step relation whose steps are the accesses of the wrapper to
    the pthread mutex and to [holder_], so that what [holder_] says between
    them is visible. *)

From S2P Require Import Prelude StringPiece Format Timestamp FileUtil ProcessInfo.
Local Open Scope Z_scope.

(** ** MutexLock and Condition *)

Module Mutex.

(** Where a thread is: outside; having locked the pthread mutex; in the
    critical section; having cleared the holder; in a wait of the condition. *)
Inductive pc : Type := Outside | Assigning | Critical | Releasing | Waiting.

#[export] Instance pc_eq_dec : EqDecision pc.
Proof. solve_decision. Defined.

(** [owner] is the thread that owns the pthread mutex. *)
Record MutexLock : Type := mkMutex { owner : option Z; holder_ : Z }.

Definition new_MutexLock : MutexLock := mkMutex None 0.
Definition assignHolder (tid : Z) (m : MutexLock) : MutexLock := mkMutex (owner m) tid.
Definition unassignHolder (m : MutexLock) : MutexLock := mkMutex (owner m) 0.
Definition isLockedByThisThread (tid : Z) (m : MutexLock) : bool := holder_ m =? tid.
Definition assertLocked (tid : Z) (m : MutexLock) : outcome unit := assert_ (isLockedByThisThread tid m).
Definition delete_MutexLock (m : MutexLock) : outcome unit := assert_ (holder_ m =? 0).

Record state : Type := mkState { mutex : MutexLock; threads : gmap Z pc }.

Definition at_pc (s : state) (t : Z) (p : pc) : Prop := threads s !! t = Some p.
Definition move (t : Z) (p : pc) (m : MutexLock) (s : state) : state := mkState m (<[t := p]> (threads s)).

(** The steps of [lock] and [unlock] (also those of the guard), and of
    [Condition::wait], which passes the pthread mutex to pthread_cond_wait and
    leaves [holder_] as it is. *)
Inductive lock_step : state -> state -> Prop :=
| acquire s t : at_pc s t Outside -> owner (mutex s) = None ->
    lock_step s (move t Assigning (mkMutex (Some t) (holder_ (mutex s))) s)
| assign s t : at_pc s t Assigning -> lock_step s (move t Critical (assignHolder t (mutex s)) s)
| unassign s t : at_pc s t Critical -> lock_step s (move t Releasing (unassignHolder (mutex s)) s)
| release s t : at_pc s t Releasing ->
    lock_step s (move t Outside (mkMutex None (holder_ (mutex s))) s).

Inductive wait_step : state -> state -> Prop :=
| wait s t : at_pc s t Critical -> wait_step s (move t Waiting (mkMutex None (holder_ (mutex s))) s)
| wake s t : at_pc s t Waiting -> owner (mutex s) = None ->
    wait_step s (move t Critical (mkMutex (Some t) (holder_ (mutex s))) s).

Definition any_step (s s' : state) : Prop := lock_step s s' \/ wait_step s s'.

Definition inside (p : pc) : bool := match p with Outside | Waiting => false | _ => true end.

(** The owner is the one thread inside. *)
Definition Owned (s : state) : Prop :=
  forall t p, at_pc s t p -> (inside p = true <-> owner (mutex s) = Some t).

(** Without waits [holder_] names the thread in the critical section. *)
Definition Held (s : state) : Prop :=
  (forall t, at_pc s t Critical -> holder_ (mutex s) = t) /\
  (holder_ (mutex s) <> 0 -> at_pc s (holder_ (mutex s)) Critical).

Lemma at_move s t p m u q : at_pc (move t p m s) u q <-> (u = t /\ q = p) \/ (u <> t /\ at_pc s u q).
Proof. unfold at_pc, move. simpl. rewrite lookup_insert_Some. naive_solver. Qed.

(** A step of the thread that may own the mutex. *)
Lemma owned_move s t p q m : Owned s -> at_pc s t p ->
  owner (mutex s) = None \/ owner (mutex s) = Some t ->
  owner m = (if inside q then Some t else None) -> Owned (move t q m s).
Proof.
  intros Ho Ht Hfree Hm u r [[-> ->]|[Hne Hu]]%at_move; simpl; rewrite Hm.
  - by destruct (inside q).
  - specialize (Ho u r Hu). rewrite Ho. destruct (inside q); destruct Hfree as [E|E]; rewrite E; split; congruence.
Qed.

Lemma owned_step s s' : any_step s s' -> Owned s -> Owned s'.
Proof.
  intros Hs Ho. assert (Hin : forall t p, at_pc s t p -> inside p = true -> owner (mutex s) = Some t)
    by (intros t p Ht; by apply Ho).
  destruct Hs as [Hs|Hs].
  - destruct Hs as [s t Ht He|s t Ht|s t Ht|s t Ht]; eapply owned_move; eauto; simpl; eauto.
  - destruct Hs as [s t Ht|s t Ht He]; eapply owned_move; eauto.
Qed.

Lemma owned_reachable s s' : rtc any_step s s' -> Owned s -> Owned s'.
Proof. induction 1 as [|a b c Hab _ IH]; [done|]. intros Ha. by apply IH, (owned_step a). Qed.

(** Two threads are not inside at once. *)
Lemma owned_unique s t u p q : Owned s -> at_pc s t p -> at_pc s u q -> inside p = true -> inside q = true -> t = u.
Proof. intros Ho Ht Hu Hp Hq. apply (Ho t p Ht) in Hp. apply (Ho u q Hu) in Hq. congruence. Qed.

(** Without waits a step also keeps what [holder_] says. *)
Lemma held_step s s' : lock_step s s' -> Owned s -> Held s -> Held s'.
Proof.
  intros Hs Ho [H1 H2]. destruct Hs as [s t Ht He|s t Ht|s t Ht|s t Ht]; split; simpl.
  - intros u [[_ ?]|[_ Hu]]%at_move; [done|auto].
  - intros Hh. apply at_move. right. specialize (H2 Hh). split; [|done]. intros E. rewrite E in H2. unfold at_pc in *. congruence.
  - intros u [[-> _]|[Hne Hu]]%at_move; [done|]. exfalso. apply Hne. by eapply (owned_unique s).
  - intros _. apply at_move. by left.
  - intros u [[_ ?]|[Hne Hu]]%at_move; [done|]. exfalso. apply Hne. by eapply (owned_unique s).
  - done.
  - intros u [[_ ?]|[_ Hu]]%at_move; [done|auto].
  - intros Hh. apply at_move. right. specialize (H2 Hh). split; [|done]. intros E. rewrite E in H2. unfold at_pc in *. congruence.
Qed.

Definition start (tids : gset Z) : state := mkState new_MutexLock (gset_to_gmap Outside tids).

Lemma start_outside tids t p : at_pc (start tids) t p -> p = Outside.
Proof. unfold at_pc. simpl. rewrite lookup_gset_to_gmap_Some. naive_solver. Qed.

Lemma start_owned tids : Owned (start tids).
Proof. intros t p ->%start_outside. done. Qed.

Lemma start_held tids : Held (start tids).
Proof. split; [by intros t ?%start_outside|done]. Qed.

Lemma held_reachable s s' : rtc lock_step s s' -> Owned s -> Held s -> Owned s' /\ Held s'.
Proof.
  induction 1 as [|a b c Hab _ IH]; [done|]. intros Ho Hh. apply IH; [|by eapply held_step].
  apply (owned_step a); [by left|done].
Qed.

(** C28. Mutual exclusion, waits on the condition included: two threads are never
    in the critical section at once, nor one of them in it while another is
    taking or leaving it.  And without waits [isLockedByThisThread] is exact:
    true for the thread in the critical section, false for every other, and the
    destructor's assertion holds when no thread uses the mutex. *)
Theorem mutex_exclusion (tids : gset Z) :
  (forall s, rtc any_step (start tids) s ->
     forall t u p q, at_pc s t p -> at_pc s u q -> inside p = true -> inside q = true -> t = u) /\
  (forall s, rtc lock_step (start tids) s ->
     (forall t p, 0 < t -> at_pc s t p -> (isLockedByThisThread t (mutex s) = true <-> p = Critical)) /\
     ((forall t p, at_pc s t p -> p = Outside) -> delete_MutexLock (mutex s) = Ok tt)).
Proof.
  split.
  - intros s Hr t u p q. apply (owned_unique s), (owned_reachable _ _ Hr), start_owned.
  - intros s Hr. destruct (held_reachable _ _ Hr (start_owned tids) (start_held tids)) as [Ho [H1 H2]]. split.
    + intros t p Hpos Ht. unfold isLockedByThisThread. rewrite Z.eqb_eq. split; [|intros ->; auto].
      intros E. specialize (H2 ltac:(lia)). rewrite E in H2. unfold at_pc in *. congruence.
    + intros Hall. unfold delete_MutexLock. destruct (Z.eqb_spec (holder_ (mutex s)) 0) as [|Hne]; [done|].
      apply H2, Hall in Hne. done.
Qed.

(** A wait leaves [holder_] behind: the waiting thread, which does not own the
    mutex, still counts as its holder; and once another thread has been in the
    critical section, the woken thread owns the mutex and the assertion that it
    does fails. *)
Theorem wait_leaves_holder (a b : Z) : 0 < a -> 0 < b -> a <> b ->
  (exists s, rtc any_step (start {[a; b]}) s /\ at_pc s a Waiting /\ owner (mutex s) = None /\
     isLockedByThisThread a (mutex s) = true) /\
  (exists s, rtc any_step (start {[a; b]}) s /\ at_pc s a Critical /\ owner (mutex s) = Some a /\
     assertLocked a (mutex s) = Err AssertFailed).
Proof.
  intros Ha Hb Hab. assert (Hba : b <> a) by done.
  assert (Hat : forall t p m s, at_pc (move t p m s) t p) by (intros; apply at_move; by left).
  assert (Hoth : forall t u p q m s, u <> t -> at_pc s u q -> at_pc (move t p m s) u q) by (intros; apply at_move; by right).
  set (s1 := move a Waiting (mkMutex None a) (move a Critical (mkMutex (Some a) a) (move a Assigning (mkMutex (Some a) 0) (start {[a; b]})))).
  assert (H0 : forall t, t = a \/ t = b -> at_pc (start {[a; b]}) t Outside).
  { intros t Ht. unfold at_pc, start. simpl. rewrite lookup_gset_to_gmap_Some. split; [|done]. set_solver. }
  assert (Hs1 : rtc any_step (start {[a; b]}) s1).
  { eapply rtc_l; [left; apply (acquire _ a); auto|]. eapply rtc_l; [left; apply (assign _ a), Hat|].
    apply rtc_once. right. refine (wait _ a _). apply Hat. }
  split.
  - exists s1. split_and!; try done; [apply Hat|]. unfold isLockedByThisThread, s1. simpl. by rewrite Z.eqb_refl.
  - set (s2 := move b Outside (mkMutex None 0) (move b Releasing (mkMutex (Some b) 0)
      (move b Critical (mkMutex (Some b) b) (move b Assigning (mkMutex (Some b) a) s1)))).
    exists (move a Critical (mkMutex (Some a) 0) s2). split_and!; [|apply Hat|done|].
    + etrans; [exact Hs1|].
      eapply rtc_l; [left; refine (acquire s1 b _ _); [|done]; unfold s1; repeat (apply Hoth; [done|]); auto|].
      eapply rtc_l; [left; apply (assign _ b), Hat|]. eapply rtc_l; [left; apply (unassign _ b), Hat|].
      eapply rtc_l; [left; apply (release _ b), Hat|]. apply rtc_once. right. refine (wake s2 a _ _); [|done].
      unfold s2. repeat (apply Hoth; [done|]). apply Hat.
    + change (assert_ (0 =? a) = Err AssertFailed). by zguard.
Qed.

Lemma wait_leaves_holder_witness :
  (exists s, rtc any_step (start {[1; 2]}) s /\ at_pc s 1 Waiting /\ owner (mutex s) = None /\
     isLockedByThisThread 1 (mutex s) = true) /\
  (exists s, rtc any_step (start {[1; 2]}) s /\ at_pc s 1 Critical /\ owner (mutex s) = Some 1 /\
     assertLocked 1 (mutex s) = Err AssertFailed).
Proof. apply (wait_leaves_holder 1 2); lia. Defined.
End Mutex.

(** ** AtomicIntegerT *)

Module Atomic.

(** The operations at width [w]: the value returned and the new value.  Each
    is one atomic instruction; what [addAndGet] adds to its result is computed
    outside it. *)
Section Atomic.
Context (w : Z).

Definition new_AtomicIntegerT : Z := 0.
Definition get (value_ : Z) : Z * Z := (value_, if value_ =? 0 then 0 else value_).
Definition getAndAdd (x value_ : Z) : Z * Z := (value_, swrap w (value_ + x)).
Definition addAndGet (x value_ : Z) : Z * Z := let '(old, v) := getAndAdd x value_ in (swrap w (old + x), v).
Definition incrementAndGet (value_ : Z) : Z * Z := addAndGet 1 value_.
Definition decrementAndGet (value_ : Z) : Z * Z := addAndGet (-1) value_.
Definition add (x value_ : Z) : Z := snd (getAndAdd x value_).
Definition increment (value_ : Z) : Z := snd (incrementAndGet value_).
Definition decrement (value_ : Z) : Z := snd (decrementAndGet value_).
Definition getAndSet (newValue value_ : Z) : Z * Z := (value_, newValue).

Inductive op : Type := OGet | OAdd (x : Z) | OIncrement | ODecrement | OSet (x : Z).

Definition run_op (o : op) (v : Z) : Z * Z :=
  match o with
  | OGet => get v
  | OAdd x => addAndGet x v
  | OIncrement => incrementAndGet v
  | ODecrement => decrementAndGet v
  | OSet x => getAndSet x v
  end.

(** The operations of several threads, in the order in which they take effect:
    the thread and what it got. *)
Fixpoint run_ops (os : list (nat * op)) (v : Z) : list (nat * Z) * Z :=
  match os with
  | [] => ([], v)
  | (t, o) :: os => let '(r, v) := run_op o v in let '(rs, v) := run_ops os v in ((t, r) :: rs, v)
  end.

Lemma get_keeps v : get v = (v, v).
Proof. unfold get. by destruct (Z.eqb_spec v 0) as [->|]. Qed.

Lemma increments (ts : list nat) : 0 < w -> forall v, in_s w v -> in_s w (v + Z.of_nat (length ts)) ->
  run_ops (map (fun t => (t, OIncrement)) ts) v =
    (zip ts (map (fun k => v + Z.of_nat k) (seq 1 (length ts))), v + Z.of_nat (length ts)).
Proof.
  intros Hw. induction ts as [|t ts IH]; intros v Hv Hb; simpl; [by rewrite Z.add_0_r|].
  assert (Hs : swrap w (v + 1) = v + 1) by (apply swrap_small; [done|]; unfold in_s in *; simpl in *; lia).
  rewrite !Hs, IH; [|unfold in_s in *; simpl in *; lia..].
  assert (E : map (fun k => v + 1 + Z.of_nat k) (seq 1 (length ts)) = map (fun k => v + Z.of_nat k) (seq 2 (length ts)))
    by (rewrite <- (seq_shift (length ts) 1), map_map; apply map_ext; lia).
  rewrite E. f_equal. lia.
Qed.
End Atomic.

(** However the threads interleave, a counter gives each caller of
    [incrementAndGet] a number of its own: the results are the next numbers, in
    the order in which the calls take effect. *)
Theorem increment_unique (w : Z) (ts : list nat) (v : Z) :
  0 < w -> in_s w v -> in_s w (v + Z.of_nat (length ts)) ->
  let rs := map snd (run_ops w (map (fun t => (t, OIncrement)) ts) v).1 in
  rs = map (fun k => v + Z.of_nat k) (seq 1 (length ts)) /\ NoDup rs.
Proof.
  intros Hw Hv Hb. rewrite increments by done. simpl.
  assert (E : map snd (zip ts (map (fun k => v + Z.of_nat k) (seq 1 (length ts)))) =
    map (fun k => v + Z.of_nat k) (seq 1 (length ts))).
  { change (map snd (zip ts ?x)) with ((zip ts x).*2). apply snd_zip. rewrite length_map, length_seq. lia. }
  rewrite E. split; [done|]. apply NoDup_fmap_2; [intros a b; lia|apply NoDup_seq].
Qed.
End Atomic.

(** ** CurrentThread *)

Module Current.

(** The thread-local variables. *)
Record locals : Type := mkLocals {
  t_cachedTid : Z;
  t_tidString : list ascii;
  t_tidStringLength : Z;
  t_threadName : list ascii
}.

Definition new_locals : locals := mkLocals 0 [] 6 (bytes "unknown").

Definition cacheTid (gettid : Z) (l : locals) : locals :=
  if t_cachedTid l =? 0 then
    let text := fmt_sd 5 gettid in
    mkLocals gettid (snprintf 32 text) (zlen text) (t_threadName l)
  else l.

Definition tid (gettid : Z) (l : locals) : Z * locals :=
  let l := if t_cachedTid l =? 0 then cacheTid gettid l else l in (t_cachedTid l, l).

(** The [timespec] of [sleepUsec]: seconds and nanoseconds, with the division
    of C. *)
Definition sleepUsec (usec : Z) : Z * Z :=
  (i64 (Z.quot usec kMicroSecondsPerSecond), i64 (i64 (Z.rem usec kMicroSecondsPerSecond * 1000))).

Definition set_name (n : list ascii) (l : locals) : locals :=
  mkLocals (t_cachedTid l) (t_tidString l) (t_tidStringLength l) n.

(** How the function of a thread ends. *)
Inductive ending : Type :=
| Returns
| ThrowsException (what stack : list ascii)    (** [Exception] *)
| ThrowsStd (what : list ascii)                (** [std::exception] *)
| ThrowsOther.

Inductive thread_result : Type := Finished | AbortCalled | Rethrown.

(** [runInThread] after the latch: the name while the function runs, and the
    name and the fate of the process when it ends. *)
Definition name_in_thread (name : list ascii) : list ascii := match name with [] => bytes "Thread" | _ => name end.

Definition runInThread (name : list ascii) (e : ending) (l : locals) : thread_result * locals :=
  let l := set_name (name_in_thread name) l in
  match e with
  | Returns => (Finished, set_name (bytes "finished") l)
  | ThrowsException _ _ => (AbortCalled, set_name (bytes "crashed") l)
  | ThrowsStd _ => (AbortCalled, set_name (bytes "crashed") l)
  | ThrowsOther => (Rethrown, set_name (bytes "crashed") l)
  end.

(** Every call of [tid] gives the kernel's number, which is asked for once;
    its text is right-aligned in five places and whole. *)
Theorem tid_cached (gettid other : Z) : 0 < gettid < 2 ^ 31 ->
  let '(t1, l1) := tid gettid new_locals in
  let '(t2, l2) := tid other l1 in
  t1 = gettid /\ t2 = gettid /\ l2 = l1 /\ t_tidString l1 = fmt_sd 5 gettid /\
  t_tidStringLength l1 = zlen (t_tidString l1) /\ 5 <= t_tidStringLength l1 <= 10.
Proof.
  intros Hg. unfold tid. cbn [new_locals t_cachedTid Z.eqb cacheTid]. zguard.
  pose proof (zlen_fmt_d 10 gettid ltac:(lia) ltac:(simpl; lia)) as Hd.
  assert (Hw : zlen (fmt_sd 5 gettid) = Z.max 5 (zlen (fmt_d gettid))).
  { unfold fmt_sd. rewrite zlen_app. destruct (Z.leb_spec 0 (5 - zlen (fmt_d gettid))).
    - rewrite zlen_replicate by done. lia.
    - rewrite Z2Nat.nonpos by lia. cbn [replicate]. rewrite zlen_nil. lia. }
  cbn [t_tidString t_tidStringLength]. rewrite snprintf_fits by lia. split_and!; (done || lia).
Qed.

Lemma tid_cached_witness :
  let '(t1, l1) := tid 77 new_locals in
  let '(t2, l2) := tid 0 l1 in
  t1 = 77 /\ t2 = 77 /\ l2 = l1 /\ t_tidString l1 = bytes "   77" /\
  t_tidStringLength l1 = zlen (t_tidString l1) /\ 5 <= t_tidStringLength l1 <= 10.
Proof. apply (tid_cached 77 0). lia. Defined.

(** [sleepUsec] sleeps exactly the time asked for. *)
Lemma sleepUsec_exact usec : 0 <= usec < 2 ^ 63 ->
  let '(sec, nsec) := sleepUsec usec in sec * 10 ^ 9 + nsec = usec * 1000 /\ 0 <= nsec < 10 ^ 9.
Proof.
  intros Hu. unfold sleepUsec. change kMicroSecondsPerSecond with 1000000.
  pose proof (Z.quot_rem usec 1000000 ltac:(lia)) as Hq.
  pose proof (Z.rem_bound_pos usec 1000000 ltac:(lia) ltac:(lia)) as Hr.
  pose proof (Z.quot_pos usec 1000000 ltac:(lia) ltac:(lia)) as Hp.
  set (q := Z.quot usec 1000000) in *. set (r := Z.rem usec 1000000) in *.
  assert (H1 : i64 q = q) by (apply swrap_small; unfold in_s; lia).
  assert (H2 : i64 (r * 1000) = r * 1000) by (apply swrap_small; unfold in_s; lia).
  rewrite H1, !H2. lia.
Qed.
End Current.

(** ** WeakCallback *)

Module Weak.

(** The objects managed by [shared_ptr]: the number of owners and the object;
    an object without owners is gone. *)
Abbreviation heap S := (gmap nat (nat * S)).

Section Weak.
Context {S : Type}.

Definition acquire (o : nat) (h : heap S) : heap S :=
  match h !! o with Some (n, s) => <[o := (n + 1, s)%nat]> h | None => h end.
Definition release (o : nat) (h : heap S) : heap S :=
  match h !! o with
  | Some (n, s) => if decide (n <= 1)%nat then delete o h else <[o := (n - 1, s)%nat]> h
  | None => h
  end.

(** [object_.lock()], and the call on the object if there is one.  The
    function may change the object and, through others, its owners. *)
Definition call (o : nat) (function_ : heap S -> outcome (heap S)) (h : heap S) : outcome (heap S) :=
  match h !! o with
  | None => Ok h
  | Some _ => h ← function_ (acquire o h); Ok (release o h)
  end.

(** A function on the object: it fails if the object is gone, and while it runs
    [drops] other owners let go of it. *)
Definition method (o : nat) (f : S -> S) (drops : nat) (h : heap S) : outcome (heap S) :=
  let h := Nat.iter drops (release o) h in
  match h !! o with
  | None => Err UseAfterFree
  | Some (n, s) => Ok (<[o := (n, f s)]> h)
  end.

Lemma release_iter o d : forall h n s, h !! o = Some (n, s) -> (d < n)%nat ->
  Nat.iter d (release o) h !! o = Some (n - d, s)%nat.
Proof.
  induction d as [|d IH]; intros h n s Ho Hd; simpl; [by rewrite Nat.sub_0_r|].
  pose proof (IH h n s Ho ltac:(lia)) as H1. set (h1 := Nat.iter d (release o) h) in *. unfold release.
  rewrite H1, decide_False by lia.
  rewrite lookup_insert_eq. do 2 f_equal. lia.
Qed.
End Weak.

(** A weak callback does nothing once its object is gone, and otherwise the
    object outlives the call, even if every other owner lets go of it
    meanwhile; then it goes when the call ends. *)
Theorem weak_call_safe {S : Type} (o : nat) (f : S -> S) (drops : nat) (h : heap S) :
  match h !! o with
  | None => call o (method o f drops) h = Ok h
  | Some (n, s) => (1 <= n)%nat -> (drops <= n)%nat ->
      exists h', call o (method o f drops) h = Ok h' /\
        h' !! o = if decide (drops = n) then None else Some (n - drops, f s)%nat
  end.
Proof.
  unfold call. destruct (h !! o) as [[n s]|] eqn:E; [|done]. intros Hn Hd.
  unfold method, acquire. rewrite E.
  rewrite (release_iter o drops _ (n + 1) s) by (rewrite ?lookup_insert_eq; done || lia).
  cbn [mbind outcome_bind]. eexists. split; [done|]. unfold release. rewrite lookup_insert_eq. case_decide.
  - rewrite decide_True, lookup_delete_eq by lia. done.
  - rewrite decide_False, lookup_insert_eq by lia. do 2 f_equal. lia.
Qed.
End Weak.

(** ** Stack traces and exceptions *)

Module Backtrace.

Definition LF : ascii := "010"%char.

(** One line: [cxa] is abi::__cxa_demangle on the characters between the last
    parenthesis and the last plus sign, which the code cuts with a NUL. *)
Definition frame_line (demangle : bool) (cxa : list ascii -> option (list ascii)) (sym : list ascii) : list ascii :=
  let fallback := sym ++ [LF] in
  if demangle then
    match rfind_chr "(" sym, rfind_chr "+" sym with
    | Some left_par, Some plus =>
        let mangled := if left_par <? plus then zslice (left_par + 1) plus sym else zdrop (left_par + 1) sym in
        match cxa mangled with
        | Some demangled => ztake (left_par + 1) sym ++ demangled ++ zdrop plus sym ++ [LF]
        | None => fallback
        end
    | _, _ => fallback
    end
  else fallback.

(** [stackTrace]: the first frame is the function itself; [symbols] is null
    when memory is exhausted. *)
Definition stackTrace (demangle : bool) (cxa : list ascii -> option (list ascii)) (symbols : option (list (list ascii)))
  : list ascii :=
  match symbols with
  | Some strings => flat_map (frame_line demangle cxa) (drop 1 strings)
  | None => []
  end.

Record Exception : Type := mkException { message_ : list ascii; stack_ : list ascii }.

Definition new_Exception (cxa : list ascii -> option (list ascii)) (symbols : option (list (list ascii))) (msg : list ascii)
  : Exception := mkException msg (stackTrace false cxa symbols).

Definition what (e : Exception) : list ascii := StringPiece.until_nul (message_ e).
Definition exception_stackTrace (e : Exception) : list ascii := StringPiece.until_nul (stack_ e).

(** The symbol between the parenthesis and the offset is replaced by its
    demangled form, and everything else is kept. *)
Theorem demangled_frame (cxa : list ascii -> option (list ascii)) (module sym offset name : list ascii) :
  "("%char ∉ sym -> "("%char ∉ offset -> "+"%char ∉ offset -> cxa sym = Some name ->
  frame_line true cxa (module ++ "("%char :: sym ++ "+"%char :: offset) =
    module ++ "("%char :: name ++ "+"%char :: offset ++ [LF].
Proof.
  intros H1 H2 H3 Hc. unfold frame_line. rewrite rfind_chr_app by (rewrite elem_of_app, elem_of_cons; naive_solver).
  assert (E : module ++ "("%char :: sym ++ "+"%char :: offset = (module ++ "("%char :: sym) ++ "+"%char :: offset)
    by (by rewrite <- app_assoc).
  assert (Hp : rfind_chr "+" (module ++ "("%char :: sym ++ "+"%char :: offset) = Some (zlen module + 1 + zlen sym)).
  { rewrite E, rfind_chr_app by done. rewrite zlen_app, zlen_cons. f_equal. lia. }
  rewrite Hp. pose proof (zlen_nonneg sym). pose proof (zlen_nonneg module). zguard.
  assert (Hcut : zdrop (zlen module + 1) (module ++ "("%char :: sym ++ "+"%char :: offset) = sym ++ "+"%char :: offset).
  { rewrite zdrop_app_ge by lia. by replace (zlen module + 1 - zlen module) with 1 by lia. }
  unfold zslice. rewrite Hcut. replace (zlen module + 1 + zlen sym - (zlen module + 1)) with (zlen sym) by lia.
  rewrite (ztake_app_exact (zlen sym)) by done. rewrite Hc.
  replace (zlen module + 1 + zlen sym) with (zlen (module ++ "("%char :: sym)) by (rewrite zlen_app, zlen_cons; lia).
  assert (Ht : ztake (zlen module + 1) (module ++ "("%char :: sym ++ "+"%char :: offset) = module ++ ["("%char]).
  { replace (module ++ "("%char :: sym ++ "+"%char :: offset) with ((module ++ ["("%char]) ++ sym ++ "+"%char :: offset)
      by (by rewrite <- app_assoc). apply ztake_app_exact. by rewrite zlen_app. }
  rewrite Ht, E, zdrop_app_exact by done. by rewrite <- !app_assoc.
Qed.
End Backtrace.
