(* ===== verification/Monitor.v ===== *)
(** * Monitors at the level of pthreads (src/src/Condition.h, MutexLock.h, CountDownLatch.cpp, EventLoopThread.cpp)

    [Threading] takes a critical section as one step.  Here every call of
    the pthread library and every access to the shared field is a step of its
    own: the mutex with its recorded holder, the wait set of the condition, which
    a thread leaves by a notification or spuriously and then competes for the
    mutex again.  The programs are those of the two classes of the library that use a
    condition: some threads wait in a loop [while (blocked) cond.wait()], others
    update the field and signal.  The monitor is shown to refine one with atomic
    critical sections, and [CountDownLatch] and the handshake of
    [EventLoopThread::startLoop] are two instances. *)

From S2P Require Import Prelude Sync Threading.
Local Open Scope Z_scope.

(** ** Condition *)

(** The threads blocked on the pthread condition variable. *)
Record Condition : Type := mkCondition { sleepers : gset Z }.

Definition new_Condition : Condition := mkCondition ∅.

(** pthread_cond_signal unblocks at least one of the blocked threads, if there is one. *)
Definition notify (c c' : Condition) : Prop :=
  sleepers c' ⊆ sleepers c /\ (sleepers c <> ∅ -> sleepers c' <> sleepers c).

Definition notifyAll (c : Condition) : Condition := mkCondition ∅.

(** The part of [wait] that blocks, and a thread that is unblocked. *)
Definition cond_block (t : Z) (c : Condition) : Condition := mkCondition ({[t]} ∪ sleepers c).
Definition cond_unblock (t : Z) (c : Condition) : Condition := mkCondition (sleepers c ∖ {[t]}).

(** What an update does to the condition. *)
Inductive signal : Type := Silent | Notify | NotifyAll.

Definition signals (k : signal) (c c' : Condition) : Prop :=
  match k with Silent => c' = c | Notify => notify c c' | NotifyAll => c' = notifyAll c end.

Lemma signals_possible k c : exists c', signals k c c'.
Proof.
  destruct k; [by exists c| |by eexists]. exists (notifyAll c). split; simpl; [set_solver|]. set_solver.
Qed.

Lemma signals_subseteq k c c' : signals k c c' -> sleepers c' ⊆ sleepers c.
Proof. destruct k; simpl; [by intros ->|by intros [? _]|intros ->; simpl; set_solver]. Qed.

(** *** waitForSeconds *)

Record timespec : Type := mkTimespec { ts_sec : Z; ts_nsec : Z }.

Definition ETIMEDOUT : Z := 110.

(** The absolute time passed on to pthread_cond_timedwait. *)
Definition abstime (now : timespec) (seconds : Z) : timespec := mkTimespec (i64 (ts_sec now + seconds)) (ts_nsec now).

Definition waitForSeconds (now : timespec) (timedwait : timespec -> Z) (seconds : Z) : bool :=
  ETIMEDOUT =? timedwait (abstime now seconds).

(** Order on times, as the kernel compares them. *)
Definition ts_le (a b : timespec) : Prop := ts_sec a < ts_sec b \/ (ts_sec a = ts_sec b /\ ts_nsec a <= ts_nsec b).

(** If the kernel reports a timeout only once the time given has come, [true] means
    that the seconds have passed since the call. *)
Lemma waitForSeconds_timeout now timedwait seconds (finished : timespec) :
  (forall t, timedwait t = ETIMEDOUT -> ts_le t finished) ->
  in_s 64 (ts_sec now + seconds) -> waitForSeconds now timedwait seconds = true ->
  ts_le (mkTimespec (ts_sec now + seconds) (ts_nsec now)) finished.
Proof.
  intros Hk Hr E%Z.eqb_eq. symmetry in E. apply Hk in E. unfold abstime, i64 in E. by rewrite swrap_small in E.
Qed.

(** ** Monitors *)

Section Monitor.
Context {D A : Type}.
Variable blocked : D -> bool.            (** the condition of the loop around [wait] *)
Variable act : A -> D -> D.              (** an update of the field *)
Variable defined : A -> D -> bool.       (** where the update has a defined result *)
Variable sig : A -> D -> signal.         (** what is signalled after it *)

(** Where a thread is.  [W]: a thread that waits; [A]: a thread with the updates it
    has still to make, one critical section each.  [ANotify] carries the value before
    the update. *)
Inductive pc : Type :=
| WLock | WAssign | WTest | WCall | WSleep | WUnassign | WRelease | WReturned
| AIdle (l : list A) | AAssign (a : A) (l : list A) | AUpdate (a : A) (l : list A)
| ANotify (a : A) (old : D) (l : list A) | AUnassign (l : list A) | ARelease (l : list A).

Record monitor : Type := mkMonitor {
  mutex_ : Mutex.MutexLock;
  condition_ : Condition;
  shared : D;
  pcs : gmap Z pc
}.

Definition at_ (s : monitor) (t : Z) (p : pc) : Prop := pcs s !! t = Some p.

(** Thread [t] moves to [p], with what it did to the objects. *)
Definition go (t : Z) (p : pc) (m : Mutex.MutexLock) (c : Condition) (d : D) (s : monitor) : monitor :=
  mkMonitor m c d (<[t := p]> (pcs s)).

Definition owned_by (o : option Z) (m : Mutex.MutexLock) : Mutex.MutexLock := Mutex.mkMutex o (Mutex.holder_ m).

(** The steps of [MutexLock::lock] and [unlock], in this order. *)
Definition acquires (p : pc) : option pc :=
  match p with WLock => Some WAssign | AIdle (a :: l) => Some (AAssign a l) | _ => None end.
Definition assigns (p : pc) : option pc :=
  match p with WAssign => Some WTest | AAssign a l => Some (AUpdate a l) | _ => None end.
Definition unassigns (p : pc) : option pc :=
  match p with WUnassign => Some WRelease | AUnassign l => Some (ARelease l) | _ => None end.
Definition releases (p : pc) : option pc :=
  match p with WRelease => Some WReturned | ARelease l => Some (AIdle l) | _ => None end.

(** The steps that make progress. *)
Inductive monitor_step : monitor -> monitor -> Prop :=
| m_acquire s t p q : at_ s t p -> acquires p = Some q -> Mutex.owner (mutex_ s) = None ->
    monitor_step s (go t q (owned_by (Some t) (mutex_ s)) (condition_ s) (shared s) s)
| m_assign s t p q : at_ s t p -> assigns p = Some q ->
    monitor_step s (go t q (Mutex.assignHolder t (mutex_ s)) (condition_ s) (shared s) s)
| m_test s t : at_ s t WTest ->
    monitor_step s (go t (if blocked (shared s) then WCall else WUnassign) (mutex_ s) (condition_ s) (shared s) s)
| m_wait s t : at_ s t WCall ->
    monitor_step s (go t WSleep (owned_by None (mutex_ s)) (cond_block t (condition_ s)) (shared s) s)
| m_reacquire s t : at_ s t WSleep -> t ∉ sleepers (condition_ s) -> Mutex.owner (mutex_ s) = None ->
    monitor_step s (go t WTest (owned_by (Some t) (mutex_ s)) (condition_ s) (shared s) s)
| m_update s t a l : at_ s t (AUpdate a l) -> defined a (shared s) = true ->
    monitor_step s (go t (ANotify a (shared s) l) (mutex_ s) (condition_ s) (act a (shared s)) s)
| m_notify s t a old l c : at_ s t (ANotify a old l) -> signals (sig a (shared s)) (condition_ s) c ->
    monitor_step s (go t (AUnassign l) (mutex_ s) c (shared s) s)
| m_unassign s t p q : at_ s t p -> unassigns p = Some q ->
    monitor_step s (go t q (Mutex.unassignHolder (mutex_ s)) (condition_ s) (shared s) s)
| m_release s t p q : at_ s t p -> releases p = Some q ->
    monitor_step s (go t q (owned_by None (mutex_ s)) (condition_ s) (shared s) s).

(** A spurious wakeup. *)
Inductive spurious_step : monitor -> monitor -> Prop :=
| m_spurious s t : t ∈ sleepers (condition_ s) ->
    spurious_step s (mkMonitor (mutex_ s) (cond_unblock t (condition_ s)) (shared s) (pcs s)).

Definition any_monitor_step (s s' : monitor) : Prop := monitor_step s s' \/ spurious_step s s'.

Definition new_monitor (d : D) (ps : gmap Z pc) : monitor := mkMonitor Mutex.new_MutexLock new_Condition d ps.

(** A thread that has not begun. *)
Definition initial (p : pc) : bool := match p with WLock | AIdle _ => true | _ => false end.

(** The next step of a thread, computed; a signal wakes every sleeper. *)
Definition exec_step (s : monitor) (t : Z) : option monitor :=
  p ← pcs s !! t;
  match p with
  | WLock | AIdle (_ :: _) =>
      q ← acquires p;
      match Mutex.owner (mutex_ s) with
      | None => Some (go t q (owned_by (Some t) (mutex_ s)) (condition_ s) (shared s) s)
      | Some _ => None
      end
  | WAssign | AAssign _ _ => q ← assigns p; Some (go t q (Mutex.assignHolder t (mutex_ s)) (condition_ s) (shared s) s)
  | WTest => Some (go t (if blocked (shared s) then WCall else WUnassign) (mutex_ s) (condition_ s) (shared s) s)
  | WCall => Some (go t WSleep (owned_by None (mutex_ s)) (cond_block t (condition_ s)) (shared s) s)
  | WSleep =>
      match bool_decide (t ∈ sleepers (condition_ s)), Mutex.owner (mutex_ s) with
      | false, None => Some (go t WTest (owned_by (Some t) (mutex_ s)) (condition_ s) (shared s) s)
      | _, _ => None
      end
  | AUpdate a l =>
      if defined a (shared s) then Some (go t (ANotify a (shared s) l) (mutex_ s) (condition_ s) (act a (shared s)) s) else None
  | ANotify a _ l =>
      let c := match sig a (shared s) with Silent => condition_ s | _ => notifyAll (condition_ s) end in
      Some (go t (AUnassign l) (mutex_ s) c (shared s) s)
  | WUnassign | AUnassign _ => q ← unassigns p; Some (go t q (Mutex.unassignHolder (mutex_ s)) (condition_ s) (shared s) s)
  | WRelease | ARelease _ => q ← releases p; Some (go t q (owned_by None (mutex_ s)) (condition_ s) (shared s) s)
  | WReturned | AIdle [] => None
  end.

Fixpoint exec (ts : list Z) (s : monitor) : option monitor :=
  match ts with [] => Some s | t :: ts => s ← exec_step s t; exec ts s end.

Lemma exec_step_sound s t s' : exec_step s t = Some s' -> monitor_step s s'.
Proof.
  unfold exec_step. destruct (pcs s !! t) as [p|] eqn:Ht; [|done]. cbn [mbind option_bind].
  destruct p as [| | | | | | | |[|a l]|a l|a l|a old l|l|l]; intros H; simplify_eq/=; try (econstructor; by eauto);
    try (repeat case_match; simplify_eq/=; econstructor; by eauto).
  - case_bool_decide; repeat case_match; simplify_eq. by apply m_reacquire.
  - eapply m_notify; [exact Ht|]. by destruct (sig a (shared s)).
Qed.

Lemma exec_sound ts s s' : exec ts s = Some s' -> rtc any_monitor_step s s'.
Proof.
  revert s. induction ts as [|t ts IH]; simpl; intros s H; [by simplify_eq|].
  destruct (exec_step s t) as [s1|] eqn:E; [|done]. eapply rtc_l; [left; by eapply exec_step_sound|by apply IH].
Qed.

(** *** The mutex of a monitor is the one of [Sync] *)

Definition lock_pc (p : pc) : Mutex.pc :=
  match p with
  | WLock | WReturned | AIdle _ => Mutex.Outside
  | WAssign | AAssign _ _ => Mutex.Assigning
  | WTest | WCall | WUnassign | AUpdate _ _ | ANotify _ _ _ | AUnassign _ => Mutex.Critical
  | WSleep => Mutex.Waiting
  | WRelease | ARelease _ => Mutex.Releasing
  end.

Definition lock_view (s : monitor) : Mutex.state := Mutex.mkState (mutex_ s) (lock_pc <$> pcs s).

Lemma at_lock_view s t p : at_ s t p -> Mutex.at_pc (lock_view s) t (lock_pc p).
Proof. unfold at_, Mutex.at_pc. intros H. simpl. by rewrite lookup_fmap, H. Qed.

Lemma lock_view_go t p m c d s : lock_view (go t p m c d s) = Mutex.move t (lock_pc p) m (lock_view s).
Proof. unfold lock_view, go, Mutex.move. simpl. by rewrite fmap_insert. Qed.

Lemma lock_view_same t p q c d s : at_ s t p -> lock_pc q = lock_pc p -> lock_view (go t q (mutex_ s) c d s) = lock_view s.
Proof.
  intros H E. rewrite lock_view_go. unfold Mutex.move, lock_view. simpl. f_equal. apply insert_id.
  rewrite lookup_fmap. unfold at_ in H. rewrite H. simpl. by rewrite E.
Qed.

Lemma lock_view_step s s' : any_monitor_step s s' ->
  lock_view s' = lock_view s \/ Mutex.any_step (lock_view s) (lock_view s').
Proof.
  intros [Hs|[s0 t _]]; [|by left].
  destruct Hs as [s t p q Ht Hq Ho|s t p q Ht Hq|s t Ht|s t Ht|s t Ht _ Ho|s t a l Ht _|s t a old l c Ht _|s t p q Ht Hq|s t p q Ht Hq];
    pose proof (at_lock_view _ _ _ Ht) as Hv.
  - right; left. rewrite lock_view_go. destruct p as [| | | | | | | |[|a l]| | | | |]; simplify_eq/=; by apply Mutex.acquire.
  - right; left. rewrite lock_view_go. destruct p; simplify_eq/=; by apply (Mutex.assign (lock_view s)).
  - left. apply (lock_view_same t WTest); [done|]. by destruct (blocked (shared s)).
  - right; right. rewrite lock_view_go. by apply (Mutex.wait (lock_view s)).
  - right; right. rewrite lock_view_go. by apply (Mutex.wake (lock_view s)).
  - left. by apply (lock_view_same t (AUpdate a l)).
  - left. by apply (lock_view_same t (ANotify a old l)).
  - right; left. rewrite lock_view_go. destruct p; simplify_eq/=; by apply (Mutex.unassign (lock_view s)).
  - right; left. rewrite lock_view_go. destruct p; simplify_eq/=; by apply (Mutex.release (lock_view s)).
Qed.

(** *** The invariant *)

Record MInv (s : monitor) : Prop := {
  mi_owned : Mutex.Owned (lock_view s);
  mi_sleepers : forall t, t ∈ sleepers (condition_ s) -> at_ s t WSleep;
  mi_call : forall t, at_ s t WCall -> blocked (shared s) = true;
  mi_notify : forall t a old l, at_ s t (ANotify a old l) -> shared s = act a old /\ defined a old = true
}.

Lemma at_go t p m c d s u q : at_ (go t p m c d s) u q <-> (u = t /\ q = p) \/ (u <> t /\ at_ s u q).
Proof. unfold at_, go. simpl. rewrite lookup_insert_Some. naive_solver. Qed.

Definition within (p : pc) : bool := Mutex.inside (lock_pc p).

Lemma alone s t u p q : MInv s -> at_ s t p -> at_ s u q -> within p = true -> within q = true -> t = u.
Proof. intros Hi Ht%at_lock_view Hu%at_lock_view. by apply (Mutex.owned_unique (lock_view s)); [apply Hi|..]. Qed.

(** A step of thread [t]: what it has to establish for itself; the field changes only
    while [t] owns the mutex. *)
Lemma MInv_go s t p q m c d : MInv s -> at_ s t p -> Mutex.Owned (lock_view (go t q m c d s)) ->
  (forall u, u ∈ sleepers c -> (u = t /\ q = WSleep) \/ (u <> t /\ u ∈ sleepers (condition_ s))) ->
  (q = WCall -> blocked d = true) ->
  (forall a old l, q = ANotify a old l -> d = act a old /\ defined a old = true) ->
  (d = shared s \/ within p = true) -> MInv (go t q m c d s).
Proof.
  intros Hi Ht Ho Hc Hq1 Hq2 Hd.
  assert (Hsame : forall u r, u <> t -> at_ s u r -> within r = true -> d = shared s).
  { intros u r Hne Hu Hr. destruct Hd as [|Hp]; [done|]. destruct Hne. by eapply alone. }
  constructor; [done|..]; simpl.
  - intros u [[-> ->]|[Hne Hu]]%Hc; apply at_go; [by left|]. right. split; [done|]. by apply Hi.
  - intros u [[-> E]|[Hne Hu]]%at_go; [by apply Hq1|]. rewrite (Hsame u WCall) by done. by eapply mi_call.
  - intros u a old l [[-> E]|[Hne Hu]]%at_go; [by eapply Hq2|]. rewrite (Hsame u _ Hne Hu) by done. by eapply mi_notify.
Qed.

(** A thread that is not asleep is not in the wait set. *)
Lemma not_asleep s t p u : MInv s -> at_ s t p -> p <> WSleep -> u ∈ sleepers (condition_ s) ->
  u <> t /\ u ∈ sleepers (condition_ s).
Proof. intros Hi Ht Hp Hu. split; [|done]. intros ->. apply Hi in Hu. unfold at_ in *. congruence. Qed.

Lemma MInv_step s s' : any_monitor_step s s' -> MInv s -> MInv s'.
Proof.
  intros Hs Hi. assert (Ho : Mutex.Owned (lock_view s')).
  { destruct (lock_view_step s s' Hs) as [->|H]; [apply Hi|]. eapply Mutex.owned_step; [exact H|apply Hi]. }
  destruct Hs as [Hs|Hs].
  2: { destruct Hs as [s t Ht]. destruct Hi as [_ H1 H2 H3]. constructor; simpl; [done| |exact H2|exact H3].
       intros u Hu. apply H1. set_solver. }
  destruct Hs as [s t p q Ht Hq _|s t p q Ht Hq|s t Ht|s t Ht|s t Ht Hn _|s t a l Ht Hd|s t a old l c Ht Hc|s t p q Ht Hq|s t p q Ht Hq];
    (eapply MInv_go; [exact Hi|exact Ht|exact Ho|..]); clear Ho; try (by left); try (by right).
  all: try (intros u Hu; right; eapply not_asleep; [done|exact Ht|intros E; by subst|done]).
  all: try (intros ->; by destruct p as [| | | | | | | |[]| | | | |]).
  all: try (intros ? ? ? ->; by destruct p as [| | | | | | | |[]| | | | |]).
  all: try done.
  - by destruct (blocked (shared s)) eqn:E.
  - by destruct (blocked (shared s)).
  - simpl. intros u [->%elem_of_singleton|Hu]%elem_of_union; [by left|]. right. by eapply not_asleep.
  - intros u Hu. right. split; [by intros ->|done].
  - intros ? ? ? [= <- <- <-]. done.
  - intros u Hu%(signals_subseteq _ _ _ Hc). right. by eapply not_asleep.
Qed.

Lemma MInv_reachable s s' : rtc any_monitor_step s s' -> MInv s -> MInv s'.
Proof. induction 1 as [|a b c Hab _ IH]; [done|]. intros Ha. by apply IH, (MInv_step a). Qed.

Lemma new_monitor_inv d ps : (forall t p, ps !! t = Some p -> initial p = true) -> MInv (new_monitor d ps).
Proof.
  intros H. constructor; simpl.
  - intros t r. unfold Mutex.at_pc. simpl. rewrite lookup_fmap. destruct (ps !! t) as [p|] eqn:E; [|done].
    apply H in E. intros [= <-]. by destruct p.
  - set_solver.
  - by intros t ?%H.
  - by intros t a old l ?%H.
Qed.

(** *** Atomic critical sections *)

(** The field, the waiting threads as [Threading] has them, the updates to come. *)
Record room : Type := mkRoom { field : D; loops : gmap Z waiter; todo : gmap Z (list A) }.

(** The threads of [W] are notified. *)
Definition wake (W : gset Z) (ws : gmap Z waiter) : gmap Z waiter :=
  map_imap (fun t w => Some (if bool_decide (t ∈ W) then notified w else w)) ws.

Definition wakes (k : signal) (ws ws' : gmap Z waiter) : Prop :=
  exists W, ws' = wake W ws /\
    match k with
    | Silent => W = ∅
    | Notify => (exists t, ws !! t = Some Waiting) -> exists t, t ∈ W /\ ws !! t = Some Waiting
    | NotifyAll => forall t, ws !! t = Some Waiting -> t ∈ W
    end.

Inductive atomic_step : room -> room -> Prop :=
| a_test d ws td t : ws !! t = Some Entering ->
    atomic_step (mkRoom d ws td) (mkRoom d (<[t := if blocked d then Waiting else Passed]> ws) td)
| a_spurious d ws td t : ws !! t = Some Waiting ->
    atomic_step (mkRoom d ws td) (mkRoom d (<[t := Entering]> ws) td)
| a_act d ws td t a l ws' : td !! t = Some (a :: l) -> defined a d = true -> wakes (sig a (act a d)) ws ws' ->
    atomic_step (mkRoom d ws td) (mkRoom (act a d) ws' (<[t := l]> td)).

(** What the room sees of a thread. *)
Definition loop_view (c : Condition) (t : Z) (p : pc) : option waiter :=
  match p with
  | WLock | WAssign | WTest | WCall => Some Entering
  | WSleep => Some (if bool_decide (t ∈ sleepers c) then Waiting else Entering)
  | WUnassign | WRelease | WReturned => Some Passed
  | _ => None
  end.

Definition todo_view (p : pc) : option (list A) :=
  match p with
  | AIdle l | AUnassign l | ARelease l => Some l
  | AAssign a l | AUpdate a l | ANotify a _ l => Some (a :: l)
  | _ => None
  end.

Definition notifying (p : pc) : bool := match p with ANotify _ _ _ => true | _ => false end.

(** An update counts from its signal on. *)
Record Abs (s : monitor) (r : room) : Prop := {
  ab_old : forall t a old l, at_ s t (ANotify a old l) -> field r = old;
  ab_field : (forall t p, at_ s t p -> notifying p = false) -> field r = shared s;
  ab_loops : forall t, loops r !! t = pcs s !! t ≫= loop_view (condition_ s) t;
  ab_todo : forall t, todo r !! t = pcs s !! t ≫= todo_view
}.

Lemma lookup_wake W ws t : wake W ws !! t = (fun w => if bool_decide (t ∈ W) then notified w else w) <$> ws !! t.
Proof. unfold wake. rewrite map_lookup_imap. by destruct (ws !! t). Qed.

(** A step that the room does not see: the thread looks the same, and the field is the
    same or its change has not been signalled yet. *)
Lemma abs_stutter s r t p q m : Abs s r -> at_ s t p -> notifying p = false -> notifying q = false ->
  loop_view (condition_ s) t q = loop_view (condition_ s) t p -> todo_view q = todo_view p ->
  Abs (go t q m (condition_ s) (shared s) s) r.
Proof.
  intros [H1 H2 H3 H4] Ht Hp Hq Hl Hd. constructor; simpl.
  - intros u a old l [[-> <-]|[Hne Hu]]%at_go; [done|by eapply H1].
  - intros Hno. apply H2. intros u p' Hu. destruct (decide (u = t)) as [->|Hne].
    + unfold at_ in *. by simplify_eq.
    + apply (Hno u). apply at_go. by right.
  - intros u. rewrite H3. destruct (decide (u = t)) as [->|Hne]; [|by rewrite lookup_insert_ne].
    rewrite lookup_insert_eq. unfold at_ in Ht. by rewrite Ht.
  - intros u. rewrite H4. destruct (decide (u = t)) as [->|Hne]; [|by rewrite lookup_insert_ne].
    rewrite lookup_insert_eq. unfold at_ in Ht. by rewrite Ht.
Qed.

(** While a thread that has not updated the field owns the mutex, the room has its value. *)
Lemma abs_current s r t p : MInv s -> Abs s r -> at_ s t p -> within p = true -> notifying p = false -> field r = shared s.
Proof.
  intros Hi Ha Ht Hin Hp. apply (ab_field _ _ Ha). intros u q Hu. destruct (notifying q) eqn:Hq; [|done].
  assert (u = t) as -> by (eapply alone; [done|exact Hu|exact Ht|by destruct q|done]). unfold at_ in *. congruence.
Qed.

(** The test of the loop, seen by the room: at the test if the thread passes, and
    when it goes to sleep otherwise. *)
Lemma abs_tested s r t p q m c : MInv s -> Abs s r -> at_ s t p -> within p = true -> loop_view (condition_ s) t p = Some Entering ->
  loop_view c t q = Some (if blocked (shared s) then Waiting else Passed) -> notifying q = false -> todo_view q = None ->
  (forall u, u <> t -> (u ∈ sleepers c <-> u ∈ sleepers (condition_ s))) ->
  exists r', atomic_step r r' /\ Abs (go t q m c (shared s) s) r'.
Proof.
  intros Hi Ha Ht Hin Hp Hq Hnq Htd Hc.
  assert (Hnp : notifying p = false) by (by destruct p). assert (Hpd : todo_view p = None) by (by destruct p).
  pose proof (abs_current s r t p Hi Ha Ht Hin Hnp) as Hf. destruct r as [d ws td]; simpl in Hf.
  exists (mkRoom d (<[t := if blocked d then Waiting else Passed]> ws) td). split.
  - apply a_test. rewrite (ab_loops _ _ Ha t : ws !! t = _). unfold at_ in Ht. by rewrite Ht.
  - constructor; simpl.
    + intros u a old l [[-> <-]|[Hne Hu]]%at_go; [done|]. by eapply (ab_old _ _ Ha).
    + by intros _.
    + intros u. destruct (decide (u = t)) as [->|Hne]; [by rewrite !lookup_insert_eq, Hf|].
      rewrite !lookup_insert_ne by done. rewrite (ab_loops _ _ Ha u : ws !! u = _).
      destruct (pcs s !! u) as [[]|]; try done. simpl. by rewrite (bool_decide_ext _ _ (Hc u Hne)).
    + intros u. rewrite (ab_todo _ _ Ha u : td !! u = _). destruct (decide (u = t)) as [->|Hne]; [|by rewrite lookup_insert_ne].
      rewrite lookup_insert_eq. unfold at_ in Ht. rewrite Ht. simpl. by rewrite Htd.
Qed.

(** The signal, seen by the room as the whole update. *)
Lemma abs_signalled s r t a old l c : MInv s -> Abs s r -> at_ s t (ANotify a old l) ->
  signals (sig a (shared s)) (condition_ s) c ->
  exists r', atomic_step r r' /\ Abs (go t (AUnassign l) (mutex_ s) c (shared s) s) r'.
Proof.
  intros Hi Ha Ht Hc. destruct (mi_notify _ Hi t a old l Ht) as [Hsh Hdef].
  pose proof (ab_old _ _ Ha t a old l Ht) as Hf. destruct r as [d ws td]; simpl in Hf. subst d.
  pose proof (signals_subseteq _ _ _ Hc) as Hsub.
  assert (Hws : forall u, ws !! u = Some Waiting <-> u ∈ sleepers (condition_ s)).
  { intros u. rewrite (ab_loops _ _ Ha u : ws !! u = _). split.
    - destruct (pcs s !! u) as [[]|]; try done. simpl. case_bool_decide; done.
    - intros Hu. pose proof (mi_sleepers _ Hi u Hu) as Hat. unfold at_ in Hat. rewrite Hat. simpl. by rewrite bool_decide_true. }
  exists (mkRoom (act a old) (wake (sleepers (condition_ s) ∖ sleepers c) ws) (<[t := l]> td)). split.
  - apply a_act with (a := a); [|done|].
    + rewrite (ab_todo _ _ Ha t : td !! t = _). unfold at_ in Ht. by rewrite Ht.
    + eexists. split; [done|]. rewrite <- Hsh. destruct (sig a (shared s)); simpl in Hc.
      * subst c. set_solver.
      * destruct Hc as [_ Hne]. intros [u Hu%Hws]. assert (Hn : sleepers (condition_ s) ∖ sleepers c <> ∅).
        { intros E. apply Hne; [intros E'; clear Hne; set_solver|]. apply set_eq. intros v. split; [by apply Hsub|].
          intros Hv. destruct (decide (v ∈ sleepers c)); [done|]. clear Hne. set_solver. }
        apply set_choose_L in Hn as [v Hv]. exists v. split; [done|]. apply Hws. by apply elem_of_difference in Hv as [? _].
      * subst c. intros u Hu%Hws. set_solver.
  - assert (Hno : forall u p, at_ (go t (AUnassign l) (mutex_ s) c (shared s) s) u p -> notifying p = false).
    { intros u p [[-> ->]|[Hne Hu]]%at_go; [done|]. destruct (notifying p) eqn:Hp; [|done]. destruct Hne.
      eapply alone; [done|exact Hu|exact Ht|by destruct p|done]. }
    constructor; simpl.
    + intros u a' old' l' Hu%Hno. done.
    + by intros _.
    + intros u. rewrite lookup_wake, (ab_loops _ _ Ha u : ws !! u = _). destruct (decide (u = t)) as [->|Hne].
      * rewrite lookup_insert_eq. unfold at_ in Ht. by rewrite Ht.
      * rewrite lookup_insert_ne by done. destruct (pcs s !! u) as [[]|] eqn:E; try done; simpl; case_bool_decide as H1; try done.
        -- rewrite bool_decide_true by set_solver. rewrite bool_decide_false by set_solver. done.
        -- f_equal. destruct (bool_decide_reflect (u ∈ sleepers (condition_ s))); case_bool_decide; done || set_solver.
    + intros u. destruct (decide (u = t)) as [->|Hne]; [by rewrite !lookup_insert_eq|].
      rewrite !lookup_insert_ne by done. by rewrite (ab_todo _ _ Ha u : td !! u = _).
Qed.

Lemma abs_step s s' r : any_monitor_step s s' -> MInv s -> Abs s r -> exists r', rtc atomic_step r r' /\ Abs s' r'.
Proof.
  intros [Hs|Hs] Hi Ha.
  2: { destruct Hs as [s t Ht]. pose proof (mi_sleepers _ Hi t Ht) as Hat. unfold at_ in Hat. destruct r as [d ws td].
       exists (mkRoom d (<[t := Entering]> ws) td). split.
       - apply rtc_once, a_spurious. rewrite (ab_loops _ _ Ha t : ws !! t = _), Hat. simpl. by rewrite bool_decide_true.
       - destruct Ha as [H1 H2 H3 H4]. constructor; simpl in *; [exact H1|exact H2| |exact H4].
         intros u. destruct (decide (u = t)) as [->|Hne].
         + rewrite lookup_insert_eq, Hat. simpl. by rewrite bool_decide_false by set_solver.
         + rewrite lookup_insert_ne, H3 by done. destruct (pcs s !! u) as [[]|]; try done. simpl.
           rewrite (bool_decide_ext (u ∈ sleepers (condition_ s)) (u ∈ sleepers (condition_ s) ∖ {[t]})); [done|]. set_solver. }
  destruct Hs as [s t p q Ht Hq _|s t p q Ht Hq|s t Ht|s t Ht|s t Ht Hn _|s t a l Ht Hd|s t a old l c Ht Hc|s t p q Ht Hq|s t p q Ht Hq].
  - exists r. split; [done|]. eapply abs_stutter; [done|exact Ht|..]; by destruct p as [| | | | | | | |[]| | | | |]; simplify_eq/=.
  - exists r. split; [done|]. eapply abs_stutter; [done|exact Ht|..]; by destruct p; simplify_eq/=.
  - destruct (blocked (shared s)) eqn:Eb.
    + exists r. split; [done|]. by eapply abs_stutter; [|exact Ht|..].
    + destruct (abs_tested s r t WTest WUnassign (mutex_ s) (condition_ s) Hi Ha Ht) as (r' & ? & ?); try done.
      { by rewrite Eb. } exists r'. split; [by apply rtc_once|done].
  - destruct (abs_tested s r t WCall WSleep (owned_by None (mutex_ s)) (cond_block t (condition_ s)) Hi Ha Ht) as (r' & ? & ?); try done.
    + rewrite (mi_call _ Hi t Ht). simpl. by rewrite bool_decide_true by set_solver.
    + intros u Hne. simpl. set_solver.
    + exists r'. split; [by apply rtc_once|done].
  - exists r. split; [done|]. eapply abs_stutter; [done|exact Ht|done..| |done]. simpl. by rewrite bool_decide_false.
  - exists r. split; [done|]. pose proof (abs_current s r t (AUpdate a l) Hi Ha Ht eq_refl eq_refl) as Hf. constructor; simpl.
    + intros u a' old l' [[-> [= -> -> ->]]|[Hne Hu]]%at_go; [done|]. by eapply (ab_old _ _ Ha).
    + intros Hno. specialize (Hno t (ANotify a (shared s) l)). rewrite at_go in Hno. by specialize (Hno (or_introl (conj eq_refl eq_refl))).
    + intros u. rewrite (ab_loops _ _ Ha u). destruct (decide (u = t)) as [->|Hne]; [|by rewrite lookup_insert_ne].
      rewrite lookup_insert_eq. unfold at_ in Ht. by rewrite Ht.
    + intros u. rewrite (ab_todo _ _ Ha u). destruct (decide (u = t)) as [->|Hne]; [|by rewrite lookup_insert_ne].
      rewrite lookup_insert_eq. unfold at_ in Ht. by rewrite Ht.
  - destruct (abs_signalled s r t a old l c Hi Ha Ht Hc) as (r' & ? & ?). exists r'. split; [by apply rtc_once|done].
  - exists r. split; [done|]. eapply abs_stutter; [done|exact Ht|..]; by destruct p; simplify_eq/=.
  - exists r. split; [done|]. eapply abs_stutter; [done|exact Ht|..]; by destruct p; simplify_eq/=.
Qed.

Lemma abs_reachable s s' r : rtc any_monitor_step s s' -> MInv s -> Abs s r -> exists r', rtc atomic_step r r' /\ Abs s' r'.
Proof.
  intros Hr. revert r. induction Hr as [s|s s1 s2 Hs _ IH]; intros r Hi Ha; [by exists r|].
  destruct (abs_step s s1 r Hs Hi Ha) as (r1 & Hr1 & Ha1). destruct (IH r1 (MInv_step s s1 Hs Hi) Ha1) as (r2 & Hr2 & Ha2).
  exists r2. split; [by etrans|done].
Qed.

(** The field of the room is the one of the monitor, or the one before an update that
    has not been signalled yet. *)
Lemma abs_field_cases s r : MInv s -> Abs s r ->
  field r = shared s \/ exists a, shared s = act a (field r) /\ defined a (field r) = true.
Proof.
  intros Hi Ha. destruct (decide (map_Exists (fun _ p => notifying p = true) (pcs s))) as [(t & p & Ht & Hp)|Hno].
  - right. destruct p as [| | | | | | | | | | |a old l| |]; try done. exists a. rewrite (ab_old _ _ Ha t a old l Ht).
    by apply (mi_notify _ Hi t a old l).
  - left. apply (ab_field _ _ Ha). intros t p Ht. destruct (notifying p) eqn:E; [|done]. destruct Hno. by exists t, p.
Qed.

(** The room of a monitor in which no thread has begun. *)
Definition new_room (d : D) (ps : gmap Z pc) : room :=
  mkRoom d (map_imap (fun t p => loop_view new_Condition t p) ps) (map_imap (fun _ p => todo_view p) ps).

Lemma new_monitor_abs d ps : (forall t p, ps !! t = Some p -> initial p = true) -> Abs (new_monitor d ps) (new_room d ps).
Proof.
  intros H. constructor; simpl; [by intros t a old l ?%H|done|..]; intros t; by rewrite map_lookup_imap.
Qed.

(** *** No deadlock *)

(** A thread with nothing left to do, or asleep until it is notified. *)
Definition at_rest (c : Condition) (t : Z) (p : pc) : Prop :=
  p = WReturned \/ p = AIdle [] \/ (p = WSleep /\ t ∈ sleepers c).

Definition stuck (s : monitor) : Prop := forall s', ~ monitor_step s s'.

(** The owner of the mutex can always go on; without an owner, all threads but the
    ones at rest can. *)
Lemma stuck_at_rest s : MInv s -> (forall o, Mutex.owner (mutex_ s) = Some o -> is_Some (pcs s !! o)) ->
  (forall a, defined a (shared s) = true) -> stuck s -> forall t p, at_ s t p -> at_rest (condition_ s) t p.
Proof.
  intros Hi Hown Hdef Hst.
  assert (Hin : forall t p, at_ s t p -> within p = false).
  { intros t p Ht. destruct (within p) eqn:E; [|done]. exfalso.
    destruct p as [| | | | | | | |l|a l|a l|a old l|l|l]; try done; try (eapply Hst; econstructor; by eauto).
    destruct (signals_possible (sig a (shared s)) (condition_ s)) as [c Hc]. eapply Hst. by eapply m_notify. }
  assert (Hfree : Mutex.owner (mutex_ s) = None).
  { destruct (Mutex.owner (mutex_ s)) as [o|] eqn:E; [|done]. destruct (Hown o eq_refl) as [p Hp].
    pose proof (mi_owned _ Hi o _ (at_lock_view _ _ _ Hp)) as [_ H]. specialize (H E). specialize (Hin o p Hp). unfold within in Hin. congruence. }
  intros t p Ht. destruct p as [| | | | | | | |[|a l]| | | | |]; try (by discriminate (Hin t _ Ht)); unfold at_rest; auto.
  - exfalso. eapply Hst. by eapply (m_acquire s t WLock).
  - right; right. split; [done|]. destruct (decide (t ∈ sleepers (condition_ s))); [done|]. exfalso. eapply Hst. by eapply m_reacquire.
  - exfalso. eapply Hst. by eapply (m_acquire s t (AIdle (a :: l))).
Qed.

(** Only threads of the monitor own its mutex. *)
Definition owner_known (s : monitor) : Prop := forall o, Mutex.owner (mutex_ s) = Some o -> is_Some (pcs s !! o).

Lemma owner_known_step s s' : any_monitor_step s s' -> owner_known s -> owner_known s'.
Proof.
  intros Hs Hk. destruct Hs as [Hs|Hs]; [|by destruct Hs].
  destruct Hs; intros o; simpl; intros Ho; try done; simplify_eq; rewrite lookup_insert_is_Some; auto;
    (destruct (decide (t = o)); [by left|right; split; [done|by apply Hk]]).
Qed.

Lemma owner_known_reachable s s' : rtc any_monitor_step s s' -> owner_known s -> owner_known s'.
Proof. induction 1 as [|a b c Hab _ IH]; [done|]. intros Ha. by apply IH, (owner_known_step a). Qed.
End Monitor.

Arguments MInv {D A} blocked act defined s.

(** Waking threads that do not wait changes nothing. *)
Lemma wake_notified W ws : (forall t, ws !! t = Some Waiting -> t ∈ W) -> wake W ws = notified <$> ws.
Proof.
  intros H. apply map_eq. intros t. rewrite lookup_wake, lookup_fmap. destruct (ws !! t) as [w|] eqn:E; [|done].
  simpl. case_bool_decide as Ht; [done|]. destruct w; try done. by apply H in E.
Qed.

Lemma wake_nobody ws : wake ∅ ws = ws.
Proof. apply map_eq. intros t. rewrite lookup_wake. destruct (ws !! t); [|done]. simpl. by rewrite bool_decide_false by set_solver. Qed.

(** ** CountDownLatch *)

Module LatchMonitor.

Definition count_positive (count : Z) : bool := 0 <? count.
Definition count_decrement (_ : unit) (count : Z) : Z := i32 (count - 1).
Definition no_overflow (_ : unit) (count : Z) : bool := - 2 ^ 31 <? count.
Definition signal_zero (_ : unit) (count : Z) : signal := if count =? 0 then NotifyAll else Silent.

Definition latch_monitor : Type := monitor (D := Z) (A := unit).
Definition latch_progress : latch_monitor -> latch_monitor -> Prop := monitor_step count_positive count_decrement no_overflow signal_zero.
Definition latch_any : latch_monitor -> latch_monitor -> Prop := any_monitor_step count_positive count_decrement no_overflow signal_zero.

Definition to_latch (r : room (D := Z) (A := unit)) : Latch.latch := Latch.mkLatch (field r) (loops r).

(** The atomic steps of the monitor are those of [Threading]. *)
Lemma to_latch_step r r' : atomic_step count_positive count_decrement no_overflow signal_zero r r' -> Latch.latch_step (to_latch r) (to_latch r').
Proof.
  destruct 1 as [d ws td t Ht|d ws td t Ht|d ws td t [] l ws' Ht Hd (W & -> & Hk)].
  - by apply (Latch.step_test (Latch.mkLatch d ws)).
  - by apply (Latch.step_spurious (Latch.mkLatch d ws)).
  - assert (E : to_latch (mkRoom (count_decrement () d) (wake W ws) (<[t := l]> td)) = Latch.countDown (to_latch (mkRoom d ws td))).
    { unfold to_latch, Latch.countDown, count_decrement, signal_zero in *. simpl in *. f_equal. destruct (i32 (d - 1) =? 0).
      - by apply wake_notified.
      - subst W. apply wake_nobody. }
    rewrite E. apply Latch.step_down. by apply Z.ltb_lt.
Qed.

Lemma to_latch_steps r r' : rtc (atomic_step count_positive count_decrement no_overflow signal_zero) r r' -> rtc Latch.latch_step (to_latch r) (to_latch r').
Proof. induction 1 as [|a b c Hab _ IH]; [done|]. eapply rtc_l; [by apply to_latch_step|done]. Qed.

(** The waiting threads of a latch nobody has used yet. *)
Definition waiting_threads (ps : gmap Z (pc (D := Z) (A := unit))) : gmap Z waiter :=
  map_imap (fun t p => loop_view new_Condition t p) ps.

(** What a state of the latch with all its steps is for the latch of [Threading]. *)
Lemma latch_refines count ps s : (forall t p, ps !! t = Some p -> initial p = true) ->
  rtc latch_any (new_monitor count ps) s ->
  exists r, Abs s r /\ MInv count_positive count_decrement no_overflow s /\ owner_known s /\
    rtc Latch.latch_step (Latch.new_CountDownLatch count (waiting_threads ps)) (to_latch r).
Proof.
  intros Hps Hr. pose proof (new_monitor_inv count_positive count_decrement no_overflow count ps Hps) as Hi.
  destruct (abs_reachable _ _ _ _ _ _ _ Hr Hi (new_monitor_abs count ps Hps)) as (r & Hrr & Ha).
  exists r. split; [done|]. split; [by eapply MInv_reachable|]. split; [by eapply owner_known_reachable|].
  by apply to_latch_steps in Hrr.
Qed.

Lemma latch_inv count ps l : 0 <= count < 2 ^ 31 -> (forall t p, ps !! t = Some p -> initial p = true) ->
  rtc Latch.latch_step (Latch.new_CountDownLatch count (waiting_threads ps)) l -> Latch.LInv l.
Proof.
  intros Hc Hps Hr. eapply Latch.latch_reachable_inv; [exact Hr|].
  assert (H : forall i w, waiting_threads ps !! i = Some w -> w = Entering).
  { intros i w. unfold waiting_threads. rewrite map_lookup_imap. destruct (ps !! i) as [p|] eqn:E; [|done].
    apply Hps in E. simpl. destruct p; naive_solver. }
  split; [unfold in_s; simpl; lia|]. split; [intros _ i E|intros i E]; by apply H in E.
Qed.

(** C29. The latch at the level of pthreads: any number of threads call [wait] and
    [countDown], and every call of the pthread library and every access to the count
    is a step of its own, with spurious wakeups.  At any time the latch is in a
    state of the one with atomic critical sections, two threads are never inside at
    once, and a thread has returned only when the count was down to zero.  And there is no
    deadlock: when no thread can go on, each has returned, or is asleep on the
    condition and the count is still positive. *)
Theorem latch_at_pthreads (count : Z) (ps : gmap Z pc) (s : latch_monitor) :
  0 <= count < 2 ^ 31 -> (forall t p, ps !! t = Some p -> initial p = true) -> rtc latch_any (new_monitor count ps) s ->
  (exists l, rtc Latch.latch_step (Latch.new_CountDownLatch count (waiting_threads ps)) l /\
     forall t, Latch.waiters l !! t = pcs s !! t ≫= loop_view (condition_ s) t) /\
  (forall t u p q, at_ s t p -> at_ s u q -> within p = true -> within q = true -> t = u) /\
  (forall t, at_ s t WReturned -> shared s <= 0) /\
  ((forall s', ~ latch_progress s s') -> - 2 ^ 31 < shared s ->
     forall t p, at_ s t p -> p = WReturned \/ p = AIdle [] \/ (p = WSleep /\ 0 < shared s)).
Proof.
  intros Hc Hps Hr. destruct (latch_refines count ps s Hps Hr) as (r & Ha & Hi & Hk & Hl).
  pose proof (latch_inv count ps _ Hc Hps Hl) as (_ & Hwait & Hpass). split_and!.
  - exists (to_latch r). split; [done|]. apply Ha.
  - intros t u p q. by apply (alone count_positive count_decrement no_overflow).
  - intros t Ht. assert (Hf : field r <= 0). { apply (Hpass t). simpl. rewrite (ab_loops _ _ Ha). unfold at_ in Ht. by rewrite Ht. }
    destruct (abs_field_cases _ _ _ s r Hi Ha) as [<-|(a & -> & Hd)]; [done|]. unfold count_decrement, no_overflow, i32 in *.
    apply Z.ltb_lt in Hd. rewrite swrap_small; unfold in_s; simpl; lia.
  - intros Hst Hmin t p Ht. pose proof (stuck_at_rest _ _ _ _ s Hi Hk (fun _ => proj2 (Z.ltb_lt _ _) Hmin) Hst) as Hrest.
    destruct (Hrest t p Ht) as [?|[?|[-> Hsl]]]; auto. right; right. split; [done|].
    assert (Hf : field r = shared s). { apply (ab_field _ _ Ha). intros u q Hu. by destruct (Hrest u q Hu) as [->|[->|[-> _]]]. }
    destruct (Z.le_gt_cases (shared s) 0) as [Hle|]; [|lia]. destruct (Hwait ltac:(simpl; lia) t). simpl.
    rewrite (ab_loops _ _ Ha). unfold at_ in Ht. rewrite Ht. simpl. by rewrite bool_decide_true.
Qed.

(** One thread waits and falls asleep, the other one counts down and wakes it. *)
Definition two_threads : gmap Z (pc (D := Z) (A := unit)) := {[1 := WLock; 2 := AIdle [()]]}.

Lemma two_threads_initial t p : two_threads !! t = Some p -> initial p = true.
Proof. unfold two_threads. intros [[_ <-]|[_ [_ <-]%lookup_singleton_Some]]%lookup_insert_Some; done. Qed.

Definition latch_run : option latch_monitor :=
  exec count_positive count_decrement no_overflow signal_zero [1; 1; 1; 1; 2; 2; 2; 2; 2; 2; 1; 1; 1; 1] (new_monitor 1 two_threads).

Lemma latch_run_to_end : exists s, latch_run = Some s /\ at_ s 1 WReturned /\ at_ s 2 (AIdle []) /\ shared s = 0.
Proof. eexists. split; [vm_compute; reflexivity|]. split_and!; vm_compute; reflexivity. Qed.

Lemma latch_at_pthreads_witness :
  exists s, rtc latch_any (new_monitor 1 two_threads) s /\ at_ s 1 WReturned /\ at_ s 2 (AIdle []) /\ shared s <= 0 /\
    exists l, rtc Latch.latch_step (Latch.new_CountDownLatch 1 (waiting_threads two_threads)) l /\
      Latch.waiters l !! 1 = Some Passed.
Proof.
  destruct latch_run_to_end as (s & Hr%exec_sound & H1 & H2 & H0). exists s.
  destruct (latch_at_pthreads 1 two_threads s ltac:(lia) two_threads_initial Hr) as ((l & Hl & Hw) & _ & H3 & _).
  split_and!; [done|done|done|exact (H3 1 H1)|]. exists l. split; [done|]. rewrite Hw. unfold at_ in H1. by rewrite H1.
Defined.
End LatchMonitor.

(** ** EventLoopThread *)

Module StartMonitor.

(** The two critical sections of [threadFunc]. *)
Inductive section : Type := Publish | Clear.

Definition null (loop_ : bool) : bool := negb loop_.
Definition set_loop (a : section) (_ : bool) : bool := match a with Publish => true | Clear => false end.
Definition always (_ : section) (_ : bool) : bool := true.
Definition signal_loop (a : section) (_ : bool) : signal := match a with Publish => Notify | Clear => Silent end.

Definition start_monitor : Type := monitor (D := bool) (A := section).
Definition start_progress : start_monitor -> start_monitor -> Prop := monitor_step null set_loop always signal_loop.
Definition start_any : start_monitor -> start_monitor -> Prop := any_monitor_step null set_loop always signal_loop.

(** The thread in [startLoop] and the thread of the loop. *)
Definition starter_id : Z := 1.
Definition runner_id : Z := 2.

Definition start_threads : gmap Z (pc (D := bool) (A := section)) :=
  {[starter_id := WLock; runner_id := AIdle [Publish; Clear]]}.

Definition to_come (r : LoopThread.runner) : list section :=
  match r with LoopThread.Init => [Publish; Clear] | LoopThread.InLoop | LoopThread.Leaving => [Clear] | LoopThread.Gone => [] end.

Definition start_room (s : LoopThread.state) : room (D := bool) (A := section) :=
  mkRoom (LoopThread.loop_ s) {[starter_id := LoopThread.starter s]} {[runner_id := to_come (LoopThread.thread s)]}.

(** The atomic steps are those of [Threading]. *)
Lemma start_room_step s r' : atomic_step null set_loop always signal_loop (start_room s) r' ->
  exists s', rtc LoopThread.startLoop_step s s' /\ r' = start_room s'.
Proof.
  destruct s as [b w th]. unfold start_room. simpl. intros Hs. inversion Hs as [d ws td t Ht|d ws td t Ht|d ws td t a l ws' Ht _ (W & -> & Hk)]; subst; clear Hs.
  - apply lookup_singleton_Some in Ht as [<- ->]. exists (LoopThread.mkState b (if b then Passed else Waiting) th).
    split; [apply rtc_once; constructor|]. rewrite insert_singleton_eq. by destruct b.
  - apply lookup_singleton_Some in Ht as [<- ->]. exists (LoopThread.mkState b Entering th).
    split; [apply rtc_once; constructor|]. by rewrite insert_singleton_eq.
  - apply lookup_singleton_Some in Ht as [<- Hl]. rewrite insert_singleton_eq.
    destruct th; simplify_eq/=.
    + exists (LoopThread.mkState true (notified w) LoopThread.InLoop). split; [apply rtc_once; constructor|].
      f_equal. rewrite wake_notified; [by rewrite map_fmap_singleton|].
      intros t Ht. destruct Hk as (u & Hu & Hw); [by exists t|].
      apply lookup_singleton_Some in Ht as [<- ->]. by apply lookup_singleton_Some in Hw as [<- _].
    + exists (LoopThread.mkState false w LoopThread.Gone). split; [|by rewrite wake_nobody].
      eapply rtc_l; [constructor|]. apply rtc_once. constructor.
    + exists (LoopThread.mkState false w LoopThread.Gone). split; [|by rewrite wake_nobody].
      apply rtc_once. constructor.
Qed.

Lemma start_room_steps s r' : rtc (atomic_step null set_loop always signal_loop) (start_room s) r' ->
  exists s', rtc LoopThread.startLoop_step s s' /\ r' = start_room s'.
Proof.
  intros Hr. remember (start_room s) as r eqn:E. revert s E. induction Hr as [r|r r1 r2 Hs _ IH]; intros s ->; [by exists s|].
  apply start_room_step in Hs as (s1 & Hs1 & ->). destruct (IH s1 eq_refl) as (s2 & Hs2 & ->).
  exists s2. split; [by etrans|done].
Qed.

Lemma start_threads_initial t p : start_threads !! t = Some p -> initial p = true.
Proof. unfold start_threads. intros [[_ <-]|[_ [_ <-]%lookup_singleton_Some]]%lookup_insert_Some; done. Qed.

Lemma start_new_room : new_room false start_threads = start_room LoopThread.startLoop.
Proof. unfold new_room, start_room. f_equal; apply (bool_decide_unpack _); vm_compute; exact I. Qed.

(** The handshake of [startLoop] at the level of pthreads, with the one signal of
    [notify]: every state is one of the handshake with atomic critical sections; and when no thread
    can go on the thread of the loop has ended, and the starter has its loop or sleeps
    on although there is no loop any more. *)
Theorem startLoop_at_pthreads (s : start_monitor) : rtc start_any (new_monitor false start_threads) s ->
  (exists h, rtc LoopThread.startLoop_step LoopThread.startLoop h /\ Abs s (start_room h)) /\
  ((forall s', ~ start_progress s s') -> at_ s runner_id (AIdle []) /\
     (at_ s starter_id WReturned \/ (at_ s starter_id WSleep /\ shared s = false))).
Proof.
  intros Hr. pose proof (new_monitor_inv null set_loop always false start_threads start_threads_initial) as Hi0.
  destruct (abs_reachable _ _ _ _ _ _ _ Hr Hi0 (new_monitor_abs false _ start_threads_initial)) as (r & Hrr & Ha).
  rewrite start_new_room in Hrr. apply start_room_steps in Hrr as (h & Hh & ->). split; [by exists h|].
  intros Hst. assert (Hi : MInv null set_loop always s) by (by eapply MInv_reachable).
  assert (Hrest : forall t p, at_ s t p -> at_rest (condition_ s) t p).
  { eapply (stuck_at_rest _ _ _ _ s Hi); [|done|exact Hst]. by eapply owner_known_reachable. }
  assert (Hf : LoopThread.loop_ h = shared s).
  { apply (ab_field _ _ Ha). intros u q Hu. by destruct (Hrest u q Hu) as [->|[->|[-> _]]]. }
  pose proof (ab_loops _ _ Ha starter_id) as Hs. pose proof (ab_todo _ _ Ha runner_id) as Ht.
  unfold start_room in Hs, Ht. cbn [loops todo] in Hs, Ht. rewrite lookup_singleton_eq in Hs. rewrite lookup_singleton_eq in Ht. split.
  - destruct (pcs s !! runner_id) as [q|] eqn:E; [|done]. destruct (Hrest _ _ E) as [->|[->|[-> _]]]; done.
  - destruct (pcs s !! starter_id) as [q|] eqn:E; [|done]. destruct (Hrest _ _ E) as [->|[->|[-> Hsl]]]; [by left|done|].
    right. split; [done|]. simpl in Hs. rewrite bool_decide_true in Hs by done. injection Hs as Hs.
    destruct (shared s) eqn:Es; [|done].
    destruct (LoopThread.startLoop_reachable_inv _ _ Hh) as (_ & Hw & _); [by split_and!|]. by destruct (Hw Hf).
Qed.

(** The loop may start and end before the starter takes the mutex; it then sleeps for ever. *)
Lemma startLoop_sleeps_for_ever : exists s, rtc start_any (new_monitor false start_threads) s /\
  at_ s starter_id WSleep /\ at_ s runner_id (AIdle []) /\ shared s = false /\ forall s', ~ start_progress s s'.
Proof.
  exists (mkMonitor (Mutex.mkMutex None starter_id) (mkCondition {[starter_id]}) false
    {[starter_id := WSleep; runner_id := AIdle []]}). split_and!; [|done..|].
  - apply (exec_sound null set_loop always signal_loop [2; 2; 2; 2; 2; 2; 2; 2; 2; 2; 2; 2; 1; 1; 1; 1]).
    vm_compute. reflexivity.
  - assert (H : forall t p, ({[starter_id := WSleep; runner_id := AIdle []]} : gmap Z (pc (D := bool) (A := section))) !! t = Some p ->
      (t = starter_id /\ p = WSleep) \/ p = AIdle []).
    { intros t p [[-> <-]|[_ [_ <-]%lookup_singleton_Some]]%lookup_insert_Some; auto. }
    intros s' Hs. inversion Hs; subst; unfold at_ in *; simpl in *;
      match goal with E : _ !! _ = Some _ |- _ => apply H in E as [[-> E]|E] end; simplify_eq/=. set_solver.
Qed.
End StartMonitor.
