(* ===== verification/MemStore.v ===== *)
(** * The store of the memcached server (src/tests/memcached/server/item.h, item.cpp, MemcacheServer.cpp)

    An item is one block of memory with the key and then the value, which is filled
    as the bytes of a request arrive.  The items are spread over shards by the
    hash of their key; an operation locks one shard and works on it, so that the
    operations of several threads take effect one after the other.  The shards
    are compared with one map from keys to entries.

    malloc and boost::hash_range are parameters. *)

From S2P Require Import Prelude StringPiece Buffer Lines Format Sync.
Local Open Scope Z_scope.

(** ** Item *)

Inductive UpdatePolicy : Type := kInvalid | kSet | kAdd | kReplace | kAppend | kPrepend | kCas.

#[export] Instance UpdatePolicy_eq_dec : EqDecision UpdatePolicy.
Proof. solve_decision. Defined.

Record Item : Type := mkItem {
  keylen_ : Z;
  flags_ : Z;
  rel_exptime_ : Z;
  valuelen_ : Z;
  receivedBytes_ : Z;
  cas_ : Z;
  hash_ : Z;
  data_ : list ascii
}.

Definition totalLen (x : Item) : Z := i32 (keylen_ x + valuelen_ x).
Definition neededBytes (x : Item) : Z := u64 (totalLen x - receivedBytes_ x).
Definition valueLength (x : Item) : Z := u64 (valuelen_ x).
Definition item_key (x : Item) : StringPiece.StringPiece := StringPiece.of_range (data_ x) (keylen_ x).
Definition item_value (x : Item) : list ascii := zdrop (keylen_ x) (data_ x).

Definition setCas (c : Z) (x : Item) : Item :=
  mkItem (keylen_ x) (flags_ x) (rel_exptime_ x) (valuelen_ x) (receivedBytes_ x) c (hash_ x) (data_ x).

(** [append]: [data] is the memory readable from the pointer. *)
Definition item_append (data : list ascii) (len : Z) (x : Item) : outcome Item :=
  assert_ (len <=? neededBytes x);;
  if zlen data <? len then Err OutOfBounds
  else
    d ← splice (receivedBytes_ x) (ztake len data) (data_ x);
    let received := i32 (receivedBytes_ x + i32 len) in
    assert_ (received <=? totalLen x);;
    Ok (mkItem (keylen_ x) (flags_ x) (rel_exptime_ x) (valuelen_ x) received (cas_ x) (hash_ x) d).

Definition endsWithCRLF (x : Item) : bool :=
  (receivedBytes_ x =? totalLen x) && bool_decide (zslice (totalLen x - 2) (totalLen x) (data_ x) = kCRLF).

(** [output]: the flags follow the key without a space. *)
Definition item_output (needCas : bool) (x : Item) (out : Buffer) : outcome Buffer :=
  p ← StringPiece.of_cstr (StringPiece.c_str (bytes "VALUE "));
  out ← append_piece out p;
  out ← append out (data_ x) (u64 (keylen_ x));
  let buf := fmt_d (flags_ x) ++ bytes " " ++ fmt_d (i32 (valuelen_ x - 2)) ++
    (if needCas then bytes " " ++ fmt_d (cas_ x) else []) ++ kCRLF in
  p ← StringPiece.of_string buf;
  out ← append_piece out p;
  append out (item_value x) (u64 (valuelen_ x)).

Section Items.
Context (malloc : Z -> list ascii) (hash_range : text -> Z).

Definition new_Item (keyArg : StringPiece.StringPiece) (flags exptime valuelen cas : Z) : outcome Item :=
  let keylen := StringPiece.size keyArg in
  let x := mkItem keylen flags exptime valuelen 0 cas (u64 (hash_range (StringPiece.chars keyArg)))
    (malloc (u64 (i32 (keylen + valuelen)))) in
  assert_ (2 <=? valuelen_ x);;
  assert_ (receivedBytes_ x <? totalLen x);;
  item_append (StringPiece.data keyArg) (u64 keylen) x.

Definition resetKey (k : StringPiece.StringPiece) (x : Item) : outcome Item :=
  assert_ (StringPiece.size k <=? 250);;
  x ← item_append (StringPiece.data k) (u64 (StringPiece.size k))
        (mkItem (StringPiece.size k) (flags_ x) (rel_exptime_ x) (valuelen_ x) 0 (cas_ x) (hash_ x) (data_ x));
  Ok (mkItem (keylen_ x) (flags_ x) (rel_exptime_ x) (valuelen_ x) (receivedBytes_ x) (cas_ x)
        (u64 (hash_range (StringPiece.chars k))) (data_ x)).

(** ** MemcacheServer *)

(** An [std::unordered_set] of items: equal items have the same key. *)
Definition same_item (x y : Item) : bool :=
  (hash_ x =? hash_ y) && bool_decide (StringPiece.chars (item_key x) = StringPiece.chars (item_key y)).

Fixpoint items_find (x : Item) (items : list Item) : option Item :=
  match items with [] => None | y :: items => if same_item x y then Some y else items_find x items end.
Definition items_erase (x : Item) (items : list Item) : list Item := filter (fun y => same_item x y = false) items.
Definition items_insert (x : Item) (items : list Item) : list Item :=
  match items_find x items with Some _ => items | None => x :: items end.

Definition kShards : Z := 4096.

(** [g_cas] is a global; [stopping] tells that [stop] was called. *)
Record MemcacheServer : Type := mkMemcache {
  startTime_ : Z;
  shards_ : list (list Item);
  g_cas : Z;
  stopping : bool
}.

Definition new_MemcacheServer (now : Z) : MemcacheServer :=
  mkMemcache (i64 (now - 1)) (replicate (Z.to_nat kShards) []) 0 false.

Definition mem_stop (st : MemcacheServer) : MemcacheServer := mkMemcache (startTime_ st) (shards_ st) (g_cas st) true.

Definition shard_index (x : Item) : nat := Z.to_nat (hash_ x mod kShards).
Definition shard_at (i : nat) (st : MemcacheServer) : list Item := default [] (shards_ st !! i).
Definition set_shard (i : nat) (items : list Item) (g : Z) (st : MemcacheServer) : MemcacheServer :=
  mkMemcache (startTime_ st) (<[i := items]> (shards_ st)) g (stopping st).

(** The item that [append] and [prepend] build from the old and the new one. *)
Definition joined_item (policy : UpdatePolicy) (x old : Item) (cas : Z) : outcome Item :=
  let newLen := i32 (u64 (valueLength x + valueLength old - 2)) in
  y ← new_Item (item_key x) (flags_ old) (rel_exptime_ old) newLen cas;
  y ← (if decide (policy = kAppend) then
         y ← item_append (item_value old) (u64 (valueLength old - 2)) y;
         item_append (item_value x) (valueLength x) y
       else
         y ← item_append (item_value x) (u64 (valueLength x - 2)) y;
         item_append (item_value old) (valueLength old) y);
  assert_ (neededBytes y =? 0);;
  assert_ (endsWithCRLF y);;
  Ok y.

(** [storeItem]: the result, what [*exists] is set to, and the server. *)
Definition storeItem (x : Item) (policy : UpdatePolicy) (st : MemcacheServer) : outcome (bool * bool * MemcacheServer) :=
  assert_ (neededBytes x =? 0);;
  let i := shard_index x in
  let items := shard_at i st in
  let it := items_find x items in
  let exists_ := bool_decide (is_Some it) in
  let '(cas, g) := Atomic.incrementAndGet 64 (g_cas st) in
  let put y := Ok (true, exists_, set_shard i (items_insert y (items_erase x items)) g st) in
  match policy, it with
  | kSet, _ => put (setCas (u64 cas) x)
  | kAdd, Some _ => Ok (false, exists_, st)
  | kAdd, None => Ok (true, exists_, set_shard i (items_insert (setCas (u64 cas) x) items) g st)
  | kReplace, Some _ => put (setCas (u64 cas) x)
  | kReplace, None => Ok (false, exists_, st)
  | kAppend, Some old | kPrepend, Some old => y ← joined_item policy x old (u64 cas); put y
  | kAppend, None | kPrepend, None => Ok (false, exists_, st)
  | kCas, Some old => if cas_ old =? cas_ x then put (setCas (u64 cas) x) else Ok (false, exists_, st)
  | kCas, None => Ok (false, exists_, st)
  | kInvalid, _ => Err AssertFailed
  end.

Definition getItem (key : Item) (st : MemcacheServer) : option Item := items_find key (shard_at (shard_index key) st).

Definition deleteItem (key : Item) (st : MemcacheServer) : bool * MemcacheServer :=
  let i := shard_index key in
  let items := shard_at i st in
  (bool_decide (is_Some (items_find key items)), set_shard i (items_erase key items) (g_cas st) st).
End Items.

(** ** Items and what they hold *)

Lemma i32_small n : 0 <= n < 2 ^ 31 -> i32 n = n.
Proof. intros H. apply swrap_small; [done|]. unfold in_s. simpl. lia. Qed.

Lemma u64_small n : 0 <= n < 2 ^ 64 -> u64 n = n.
Proof. intros H. apply uwrap_small. unfold in_u. lia. Qed.

(** The block of the item begins with [bs], which are the bytes received. *)
Definition filled (x : Item) (bs : text) : Prop :=
  receivedBytes_ x = zlen bs /\ zlen bs <= totalLen x <= zlen (data_ x) /\ totalLen x < 2 ^ 31 /\
  exists junk, data_ x = bs ++ junk.

(** All but the block and its state of filling. *)
Definition same_head (x y : Item) : Prop :=
  keylen_ y = keylen_ x /\ valuelen_ y = valuelen_ x /\ flags_ y = flags_ x /\ rel_exptime_ y = rel_exptime_ x /\
  cas_ y = cas_ x /\ hash_ y = hash_ x /\ zlen (data_ y) = zlen (data_ x).

Lemma filled_needed x bs : filled x bs -> neededBytes x = totalLen x - zlen bs.
Proof.
  intros (H1 & H2 & H3 & _). unfold neededBytes. rewrite H1. pose proof (zlen_nonneg bs). apply uwrap_small. unfold in_u. lia.
Qed.

Lemma item_append_filled x bs mem len : filled x bs -> 0 <= len <= zlen mem -> len <= totalLen x - zlen bs ->
  exists x', item_append mem len x = Ok x' /\ filled x' (bs ++ ztake len mem) /\ same_head x x'.
Proof.
  intros H Hlen Hfit. pose proof (filled_needed _ _ H) as Hn. destruct H as (H1 & H2 & H3 & junk & Hd).
  unfold item_append. rewrite Hn. pose proof (zlen_nonneg bs).
  rewrite (proj2 (Z.leb_le len _)), (proj2 (Z.ltb_ge _ len)) by lia. cbn [assert_ mbind outcome_bind].
  assert (Hz : zlen (ztake len mem) = len) by (apply zlen_ztake; lia).
  assert (Hj : zlen (data_ x) = zlen bs + zlen junk) by (by rewrite Hd, zlen_app).
  assert (Hs : splice (receivedBytes_ x) (ztake len mem) (data_ x) = Ok (bs ++ ztake len mem ++ zdrop len junk)).
  { rewrite Hd, H1. rewrite <- (ztake_zdrop len junk) at 1. apply splice_mid. rewrite Hz. symmetry. apply zlen_ztake. lia. }
  rewrite Hs, H1. cbn [mbind outcome_bind].
  rewrite (i32_small len), i32_small, (proj2 (Z.leb_le _ _)) by lia. cbn [assert_ mbind outcome_bind].
  assert (Hl : zlen (bs ++ ztake len mem ++ zdrop len junk) = zlen (data_ x)) by (rewrite !zlen_app, Hz, zlen_zdrop by lia; lia).
  eexists. split; [done|]. split; [|done]. unfold filled, totalLen. simpl. fold (totalLen x).
  rewrite Hl, zlen_app, Hz. split_and!; try lia. exists (zdrop len junk). by rewrite <- app_assoc.
Qed.

Section Refinement.
Context (malloc : Z -> list ascii) (hash_range : text -> Z).
Hypothesis malloc_size : forall n, 0 <= n -> zlen (malloc n) = n.

(** The item has the key [k] and, of the [n] bytes of its value, the first ones [got]. *)
Record holds (x : Item) (k got : text) (n : Z) : Prop := mkHolds {
  ho_key : keylen_ x = zlen k;
  ho_len : valuelen_ x = n;
  ho_min : 2 <= n;
  ho_fit : zlen k + n < 2 ^ 31;
  ho_filled : filled x (k ++ got);
  ho_hash : hash_ x = u64 (hash_range k)
}.

Lemma holds_total x k got n : holds x k got n -> totalLen x = zlen k + n.
Proof.
  intros H. unfold totalLen. rewrite (ho_key _ _ _ _ H), (ho_len _ _ _ _ H). apply i32_small.
  pose proof (zlen_nonneg k). destruct H. lia.
Qed.

Lemma holds_needed x k got n : holds x k got n -> neededBytes x = n - zlen got /\ 0 <= n - zlen got.
Proof.
  intros H. rewrite (filled_needed _ _ (ho_filled _ _ _ _ H)), (holds_total _ _ _ _ H), zlen_app.
  destruct (ho_filled _ _ _ _ H) as (_ & Hl & _). rewrite (holds_total _ _ _ _ H), zlen_app in Hl. lia.
Qed.

Lemma holds_key x k got n : holds x k got n -> StringPiece.chars (item_key x) = k.
Proof.
  intros H. destruct (ho_filled _ _ _ _ H) as (_ & _ & _ & junk & E). unfold StringPiece.chars, item_key. simpl.
  rewrite E, (ho_key _ _ _ _ H), <- app_assoc. by apply ztake_app_exact.
Qed.

(** The next bytes of the value. *)
Lemma item_append_holds x k got n mem len : holds x k got n -> 0 <= len <= zlen mem -> len <= n - zlen got ->
  exists x', item_append mem len x = Ok x' /\ holds x' k (got ++ ztake len mem) n /\ same_head x x'.
Proof.
  intros H Hlen Hfit. destruct (item_append_filled x (k ++ got) mem len) as (x' & E & Hf & Hh);
    [apply H|done|rewrite (holds_total _ _ _ _ H), zlen_app; lia|].
  exists x'. split; [done|]. split; [|done]. destruct Hh as (H1 & H2 & _ & _ & _ & H6 & _), H as [K1 K2 K3 K4 _ K6].
  constructor; try congruence; try done. by rewrite app_assoc.
Qed.

Lemma new_Item_holds p flags exptime n cas : StringPiece.wf p -> 2 <= n -> StringPiece.size p + n < 2 ^ 31 ->
  exists x, new_Item malloc hash_range p flags exptime n cas = Ok x /\ holds x (StringPiece.chars p) [] n /\
    flags_ x = flags /\ rel_exptime_ x = exptime /\ cas_ x = cas.
Proof.
  intros [Hp1 Hp2] Hn Hfit. unfold new_Item, StringPiece.size in *. set (x0 := mkItem _ _ _ _ _ _ _ _).
  assert (Ht : totalLen x0 = StringPiece.length_ p + n) by (apply i32_small; simpl; lia).
  assert (Hm : zlen (data_ x0) = StringPiece.length_ p + n).
  { simpl. rewrite i32_small, u64_small by lia. apply malloc_size. lia. }
  rewrite Ht. change (valuelen_ x0) with n. change (receivedBytes_ x0) with 0. zguard.
  rewrite (u64_small (StringPiece.length_ p)) by lia.
  destruct (item_append_filled x0 [] (StringPiece.data p) (StringPiece.length_ p)) as (x & E & Hf & Hh).
  - unfold filled. rewrite Ht, Hm. split_and!; try done; rewrite ?zlen_nil; try lia. by eexists.
  - unfold StringPiece.data. lia.
  - rewrite Ht, zlen_nil. lia.
  - exists x. split; [done|]. destruct Hh as (H1 & H2 & H3 & H4 & H5 & H6 & _). split; [|done].
    assert (Hc : zlen (StringPiece.chars p) = StringPiece.length_ p) by (apply zlen_ztake; lia).
    subst x0. simpl in H1, H2, H6. constructor; try congruence; try done; rewrite ?Hc, ?app_nil_r; done || lia.
Qed.
(** *** Complete items *)

(** The item of the value [v]. *)
Definition complete (x : Item) (k v : text) : Prop := holds x k (v ++ kCRLF) (zlen v + 2).

Lemma complete_data x k v : complete x k v -> exists junk, data_ x = k ++ (v ++ kCRLF) ++ junk.
Proof. intros H. destruct (ho_filled _ _ _ _ H) as (_ & _ & _ & junk & E). exists junk. by rewrite E, <- app_assoc. Qed.

Lemma complete_value x k v : complete x k v -> exists junk, item_value x = v ++ kCRLF ++ junk.
Proof.
  intros H. destruct (complete_data _ _ _ H) as [junk E]. exists junk. unfold item_value.
  rewrite E, (ho_key _ _ _ _ H), zdrop_app_exact by done. by rewrite <- app_assoc.
Qed.

Lemma complete_needed x k v : complete x k v -> neededBytes x = 0.
Proof. intros H. destruct (holds_needed _ _ _ _ H) as [-> _]. rewrite zlen_app. change (zlen kCRLF) with 2. lia. Qed.

(** A value that is there ends with the line end or not. *)
Lemma holds_ends x k got n : holds x k got n -> zlen got = n ->
  endsWithCRLF x = bool_decide (zdrop (n - 2) got = kCRLF).
Proof.
  intros H Hn. unfold endsWithCRLF. rewrite (holds_total _ _ _ _ H).
  destruct (ho_filled _ _ _ _ H) as (-> & _ & _ & junk & ->). rewrite zlen_app, Hn, Z.eqb_refl. simpl. f_equal.
  pose proof (ho_min _ _ _ _ H). pose proof (zlen_nonneg k).
  apply bool_decide_ext. unfold zslice. replace (zlen k + n - (zlen k + n - 2)) with 2 by lia.
  replace (zlen k + n - 2) with (zlen k + (n - 2)) by lia.
  rewrite <- zdrop_zdrop, <- app_assoc, zdrop_app_exact, zdrop_app_le by (done || lia).
  rewrite ztake_app_exact; [done|]. rewrite zlen_zdrop by lia. lia.
Qed.

Lemma complete_ends x k v : complete x k v -> endsWithCRLF x = true.
Proof.
  intros H. rewrite (holds_ends _ _ _ _ H) by (rewrite zlen_app; done). apply bool_decide_true.
  apply zdrop_app_exact. lia.
Qed.

Lemma complete_lengths x k v : complete x k v -> valueLength x = zlen v + 2 /\ zlen k + zlen v + 2 < 2 ^ 31.
Proof.
  intros H. unfold valueLength. rewrite (ho_len _ _ _ _ H). pose proof (ho_fit _ _ _ _ H). pose proof (zlen_nonneg k).
  pose proof (zlen_nonneg v). rewrite u64_small by lia. lia.
Qed.

Lemma item_key_wf x k got n : holds x k got n -> StringPiece.wf (item_key x).
Proof.
  intros H. destruct (ho_filled _ _ _ _ H) as (_ & Hl & _). rewrite zlen_app in Hl. pose proof (zlen_nonneg got).
  pose proof (ho_fit _ _ _ _ H). pose proof (ho_min _ _ _ _ H). pose proof (zlen_nonneg k).
  unfold StringPiece.wf, item_key. simpl. rewrite (ho_key _ _ _ _ H). lia.
Qed.

(** The two parts of a joined item. *)
Lemma joined_item_complete policy x old k v w cas : complete x k v -> complete old k w ->
  zlen k + zlen v + zlen w + 2 < 2 ^ 31 ->
  exists y, joined_item malloc hash_range policy x old cas = Ok y /\
    complete y k (if decide (policy = kAppend) then w ++ v else v ++ w) /\
    flags_ y = flags_ old /\ rel_exptime_ y = rel_exptime_ old /\ cas_ y = cas.
Proof.
  intros Hx Ho Hfit. destruct (complete_lengths _ _ _ Hx) as [Lx _], (complete_lengths _ _ _ Ho) as [Lo _].
  pose proof (zlen_nonneg k). pose proof (zlen_nonneg v). pose proof (zlen_nonneg w).
  unfold joined_item. rewrite Lx, Lo, (u64_small (zlen v + 2 + (zlen w + 2) - 2)) by lia. rewrite i32_small by lia.
  assert (Hsz : StringPiece.size (item_key x) = zlen k) by apply (ho_key _ _ _ _ Hx).
  destruct (new_Item_holds (item_key x) (flags_ old) (rel_exptime_ old) (zlen v + 2 + (zlen w + 2) - 2) cas) as (y & -> & Hy & F1 & F2 & F3);
    [by eapply item_key_wf|lia|lia|].
  rewrite (holds_key _ _ _ _ Hx) in Hy. cbn [mbind outcome_bind].
  assert (Hjoin : forall a b x1 x2, complete x1 k a -> complete x2 k b -> zlen a + zlen b = zlen v + zlen w ->
    exists y1 y2, item_append (item_value x1) (zlen a) y = Ok y1 /\ item_append (item_value x2) (zlen b + 2) y1 = Ok y2 /\
      complete y2 k (a ++ b) /\ same_head y y2).
  { intros a b x1 x2 C1 C2 Hab. destruct (complete_value _ _ _ C1) as [j1 E1], (complete_value _ _ _ C2) as [j2 E2].
    pose proof (zlen_nonneg a). pose proof (zlen_nonneg b).
    destruct (item_append_holds y k [] _ (item_value x1) (zlen a) Hy) as (y1 & A1 & Hy1 & S1).
    { rewrite E1, zlen_app. pose proof (zlen_nonneg (kCRLF ++ j1)). lia. }
    { rewrite zlen_nil. lia. }
    rewrite E1, ztake_app_exact in Hy1 by done. simpl in Hy1.
    destruct (item_append_holds y1 k a _ (item_value x2) (zlen b + 2) Hy1) as (y2 & A2 & Hy2 & S2).
    { rewrite E2, !zlen_app. change (zlen kCRLF) with 2. pose proof (zlen_nonneg j2). lia. }
    { lia. }
    exists y1, y2. split; [done|]. split; [done|]. split; [|unfold same_head in *; intuition congruence].
    unfold complete. rewrite E2, (app_assoc b), ztake_app_exact in Hy2 by (rewrite zlen_app; done).
    rewrite zlen_app, <- app_assoc. replace (zlen a + zlen b + 2) with (zlen v + 2 + (zlen w + 2) - 2) by lia. done. }
  assert (Hend : forall u y2, complete y2 k u -> same_head y y2 ->
    (assert_ (neededBytes y2 =? 0);; assert_ (endsWithCRLF y2);; Ok y2) = Ok y2 /\
    flags_ y2 = flags_ old /\ rel_exptime_ y2 = rel_exptime_ old /\ cas_ y2 = cas).
  { intros u y2 C2 (_ & _ & S3 & S4 & S5 & _). rewrite (complete_needed _ _ _ C2), (complete_ends _ _ _ C2). simpl.
    split; [done|]. split_and!; congruence. }
  destruct (decide (policy = kAppend)).
  - destruct (Hjoin w v old x Ho Hx ltac:(lia)) as (y1 & y2 & A1 & A2 & Hy2 & S2).
    rewrite u64_small by lia. replace (zlen w + 2 - 2) with (zlen w) by lia. rewrite A1. cbn [mbind outcome_bind]. rewrite A2. cbn [mbind outcome_bind].
    exists y2. by destruct (Hend _ _ Hy2 S2) as [? ?].
  - destruct (Hjoin v w x old Hx Ho ltac:(lia)) as (y1 & y2 & A1 & A2 & Hy2 & S2).
    rewrite u64_small by lia. replace (zlen v + 2 - 2) with (zlen v) by lia. rewrite A1. cbn [mbind outcome_bind]. rewrite A2. cbn [mbind outcome_bind].
    exists y2. by destruct (Hend _ _ Hy2 S2) as [? ?].
Qed.
(** *** One map for all shards *)

Record Entry : Type := mkEntry { e_flags : Z; e_exptime : Z; e_value : text; e_cas : Z }.

Definition entry_of (x : Item) : Entry :=
  mkEntry (flags_ x) (rel_exptime_ x) (ztake (valuelen_ x - 2) (item_value x)) (cas_ x).

Lemma complete_entry x k v : complete x k v -> entry_of x = mkEntry (flags_ x) (rel_exptime_ x) v (cas_ x).
Proof.
  intros H. unfold entry_of. destruct (complete_value _ _ _ H) as [junk ->]. rewrite (ho_len _ _ _ _ H).
  rewrite ztake_app_exact by lia. done.
Qed.

Definition key_of (x : Item) : text := StringPiece.chars (item_key x).
Definition index_of (k : text) : nat := Z.to_nat (u64 (hash_range k) mod kShards).

Fixpoint find_key (k : text) (items : list Item) : option Item :=
  match items with [] => None | y :: items => if decide (key_of y = k) then Some y else find_key k items end.

(** A shard has complete items of its own keys, each key once. *)
Record ShardInv (i : nat) (items : list Item) : Prop := mkShardInv {
  sh_items : forall x, x ∈ items -> exists v, complete x (key_of x) v /\ index_of (key_of x) = i;
  sh_keys : NoDup (map key_of items)
}.

Record StoreInv (st : MemcacheServer) : Prop := mkStoreInv {
  st_length : length (shards_ st) = Z.to_nat kShards;
  st_shards : forall i items, shards_ st !! i = Some items -> ShardInv i items
}.

Definition lookup_of (k : text) (st : MemcacheServer) : option Entry := entry_of <$> find_key k (shard_at (index_of k) st).
Definition Rep (st : MemcacheServer) (m : gmap text Entry) : Prop := forall k, m !! k = lookup_of k st.

(** An item that can be used to look for the key [k]. *)
Definition needle_for (x : Item) (k : text) : Prop := key_of x = k /\ hash_ x = u64 (hash_range k).

Lemma holds_needle x k got n : holds x k got n -> needle_for x k.
Proof. intros H. split; [by eapply holds_key|apply H]. Qed.

Lemma index_of_lt k : (index_of k < Z.to_nat kShards)%nat.
Proof. unfold index_of. pose proof (Z.mod_pos_bound (u64 (hash_range k)) kShards). unfold kShards in *. lia. Qed.

Lemma needle_index x k : needle_for x k -> shard_index x = index_of k.
Proof. intros [_ E]. unfold shard_index, index_of. by rewrite E. Qed.

Lemma empty_shard i : ShardInv i [].
Proof. constructor; [|constructor]. by intros x ?%not_elem_of_nil. Qed.

Lemma shard_at_inv i st : StoreInv st -> ShardInv i (shard_at i st).
Proof.
  intros H. unfold shard_at. destruct (shards_ st !! i) as [items|] eqn:E; [by apply (st_shards _ H)|].
  apply empty_shard.
Qed.

Lemma same_item_key x k y v : needle_for x k -> complete y (key_of y) v -> same_item x y = bool_decide (key_of y = k).
Proof.
  intros [E1 E2] Hy. unfold same_item. fold (key_of x) (key_of y). rewrite E1, E2, (ho_hash _ _ _ _ Hy).
  destruct (decide (key_of y = k)) as [->|Hne].
  - by rewrite Z.eqb_refl, !bool_decide_true.
  - rewrite !(bool_decide_false (_ = _)) by congruence. by rewrite andb_false_r.
Qed.

Lemma find_needle i x k items : ShardInv i items -> needle_for x k -> items_find x items = find_key k items.
Proof.
  intros [H _] Hx. induction items as [|y items IH]; [done|]. simpl. destruct (H y) as (v & Hy & _); [set_solver|].
  rewrite (same_item_key x k y v Hx Hy), IH by set_solver. by destruct (decide (key_of y = k)) as [E|E]; [rewrite bool_decide_true|rewrite bool_decide_false].
Qed.

Lemma find_key_None k items : find_key k items = None <-> k ∉ map key_of items.
Proof.
  induction items as [|y items IH]; simpl; [split; [set_solver|done]|]. destruct (decide (key_of y = k)); set_solver.
Qed.

Lemma find_key_Some k items x : find_key k items = Some x -> x ∈ items /\ key_of x = k.
Proof.
  induction items as [|y items IH]; simpl; [done|]. destruct (decide (key_of y = k)); [intros [= ->]; set_solver|].
  intros H%IH. set_solver.
Qed.

(** Erasing a key. *)
Lemma erase_needle i x k items : ShardInv i items -> needle_for x k -> ShardInv i (items_erase x items) /\
  forall k', find_key k' (items_erase x items) = if decide (k' = k) then None else find_key k' items.
Proof.
  intros [H Hd] Hx. unfold items_erase. induction items as [|y items IH].
  - split; [by constructor|]. intros k'. by destruct (decide (k' = k)).
  - simpl in Hd. apply NoDup_cons in Hd as [Hy Hd]. destruct (H y) as (v & Hv & Hvi); [set_solver|].
    destruct IH as [[I1 I2] I3]; [set_solver|done|]. rewrite filter_cons, (same_item_key x k y v Hx Hv).
    destruct (decide (key_of y = k)) as [E|E].
    + rewrite bool_decide_true, decide_False by done. split; [done|]. intros k'. rewrite I3. simpl.
      destruct (decide (k' = k)) as [->|]; [done|]. by rewrite decide_False by congruence.
    + rewrite bool_decide_false, decide_True by done. split.
      * constructor; [set_solver|]. simpl. apply NoDup_cons. split; [|done]. intros Hin. apply Hy.
        apply list_elem_of_fmap in Hin as (z & -> & Hz%list_elem_of_filter). apply list_elem_of_fmap. exists z. tauto.
      * intros k'. simpl. destruct (decide (key_of y = k')) as [<-|]; [by rewrite decide_False|apply I3].
Qed.

(** Inserting an item with a key that is not there. *)
Lemma insert_fresh i y k v items : ShardInv i items -> complete y k v -> index_of k = i -> find_key k items = None ->
  ShardInv i (items_insert y items) /\
  forall k', find_key k' (items_insert y items) = if decide (k' = k) then Some y else find_key k' items.
Proof.
  intros Hi Hy Hk Hn. pose proof (holds_needle _ _ _ _ Hy) as Hx. assert (Ek : key_of y = k) by apply Hx.
  unfold items_insert. rewrite (find_needle i y k items Hi Hx), Hn. split.
  - destruct Hi as [I1 I2]. constructor.
    + intros z [->|Hz]%elem_of_cons; [exists v; by rewrite Ek|by apply I1].
    + simpl. apply NoDup_cons. split; [|done]. rewrite Ek. by apply find_key_None.
  - intros k'. simpl. rewrite Ek. by destruct (decide (k = k')) as [->|]; [rewrite decide_True|rewrite decide_False].
Qed.

(** A change of one shard. *)
Lemma set_shard_rep k items g st m (f : option Entry) : StoreInv st -> Rep st m -> ShardInv (index_of k) items ->
  (forall k', index_of k' = index_of k ->
     entry_of <$> find_key k' items = if decide (k' = k) then f else lookup_of k' st) ->
  StoreInv (set_shard (index_of k) items g st) /\
  Rep (set_shard (index_of k) items g st) (match f with Some e => <[k := e]> m | None => delete k m end).
Proof.
  intros [L1 L2] Hm Hsh Hf. pose proof (index_of_lt k) as Hlt. split.
  - constructor; simpl; [by rewrite length_insert|]. intros i its Hi.
    destruct (decide (i = index_of k)) as [->|Hne].
    + rewrite list_lookup_insert_eq in Hi by lia. by injection Hi as <-.
    + rewrite list_lookup_insert_ne in Hi by done. by apply L2.
  - intros k'. assert (E : lookup_of k' (set_shard (index_of k) items g st) = if decide (k' = k) then f else m !! k').
    { unfold lookup_of, shard_at, set_shard. simpl. destruct (decide (index_of k' = index_of k)) as [Ei|Hne].
      - rewrite Ei, list_lookup_insert_eq by lia. simpl. rewrite Hf by done. by rewrite Hm.
      - rewrite list_lookup_insert_ne, decide_False by congruence. by rewrite Hm. }
    rewrite E. destruct f as [e|]; destruct (decide (k' = k)) as [->|Hne]; simplify_map_eq; done.
Qed.
(** *** The operations on the map *)

Definition stamp (cas : Z) (e : Entry) : Entry := mkEntry (e_flags e) (e_exptime e) (e_value e) cas.

(** What [store] does to the map: whether it succeeds, and the map.  [e] is the new
    entry, with the token the client gave; [cas] is the next token. *)
Definition spec_store (policy : UpdatePolicy) (k : text) (e : Entry) (cas : Z) (m : gmap text Entry) : bool * gmap text Entry :=
  let put e := (true, <[k := e]> m) in
  match policy, m !! k with
  | kSet, _ | kAdd, None | kReplace, Some _ => put (stamp cas e)
  | kAppend, Some old => put (mkEntry (e_flags old) (e_exptime old) (e_value old ++ e_value e) cas)
  | kPrepend, Some old => put (mkEntry (e_flags old) (e_exptime old) (e_value e ++ e_value old) cas)
  | kCas, Some old => if e_cas old =? e_cas e then put (stamp cas e) else (false, m)
  | _, _ => (false, m)
  end.

(** The value that a join would give fits into an [int]. *)
Definition store_fits (policy : UpdatePolicy) (k v : text) (m : gmap text Entry) : Prop :=
  match policy, m !! k with
  | (kAppend | kPrepend), Some old => zlen k + zlen v + zlen (e_value old) + 2 < 2 ^ 31
  | kInvalid, _ => False
  | _, _ => True
  end.

Lemma Rep_find k st m : StoreInv st -> Rep st m ->
  match find_key k (shard_at (index_of k) st) with
  | Some old => exists w, complete old k w /\ m !! k = Some (mkEntry (flags_ old) (rel_exptime_ old) w (cas_ old))
  | None => m !! k = None
  end.
Proof.
  intros Hi Hm. rewrite (Hm k). unfold lookup_of. destruct (find_key k (shard_at (index_of k) st)) as [old|] eqn:E; [|done].
  apply find_key_Some in E as [Ho Ek]. destruct (sh_items _ _ (shard_at_inv (index_of k) st Hi) old Ho) as (w & Hw & _).
  rewrite Ek in Hw. exists w. split; [done|]. simpl. by rewrite (complete_entry _ _ _ Hw).
Qed.

(** Putting an item in the place of what had its key. *)
Lemma put_rep x k y v g st m : StoreInv st -> Rep st m -> needle_for x k -> complete y k v ->
  let st' := set_shard (index_of k) (items_insert y (items_erase x (shard_at (index_of k) st))) g st in
  StoreInv st' /\ Rep st' (<[k := mkEntry (flags_ y) (rel_exptime_ y) v (cas_ y)]> m).
Proof.
  intros Hi Hm Hx Hy. destruct (erase_needle _ x k _ (shard_at_inv (index_of k) st Hi) Hx) as [He1 He2].
  destruct (insert_fresh _ y k v _ He1 Hy eq_refl) as [Hi1 Hi2]; [by rewrite He2, decide_True|].
  apply (set_shard_rep k _ g st m (Some _) Hi Hm Hi1). intros k' Ek. rewrite Hi2, He2. unfold lookup_of. rewrite Ek.
  destruct (decide (k' = k)); [simpl; by rewrite (complete_entry _ _ _ Hy)|done].
Qed.

Lemma setCas_complete c x k v : complete x k v -> complete (setCas c x) k v.
Proof. intros [H1 H2 H3 H4 H5 H6]. by constructor. Qed.

Lemma storeItem_refines x policy k v st m : StoreInv st -> Rep st m -> complete x k v -> 0 <= g_cas st < 2 ^ 63 - 1 ->
  store_fits policy k v m ->
  let e := mkEntry (flags_ x) (rel_exptime_ x) v (cas_ x) in
  let '(ok, m') := spec_store policy k e (g_cas st + 1) m in
  exists st', storeItem malloc hash_range x policy st = Ok (ok, bool_decide (is_Some (m !! k)), st') /\
    StoreInv st' /\ Rep st' m' /\ g_cas st' = (if ok then g_cas st + 1 else g_cas st) /\
    startTime_ st' = startTime_ st /\ stopping st' = stopping st.
Proof.
  intros Hi Hm Hx Hg Hfit e. pose proof (holds_needle _ _ _ _ Hx) as Hn. unfold storeItem.
  rewrite (complete_needed _ _ _ Hx), (needle_index _ _ Hn), (find_needle _ x k _ (shard_at_inv (index_of k) st Hi) Hn).
  assert (Hinc : Atomic.incrementAndGet 64 (g_cas st) = (g_cas st + 1, g_cas st + 1)).
  { unfold Atomic.incrementAndGet, Atomic.addAndGet, Atomic.getAndAdd. by rewrite swrap_small by (unfold in_s; simpl; lia). }
  rewrite Hinc, (u64_small (g_cas st + 1)) by lia. cbn [assert_ Z.eqb mbind outcome_bind].
  pose proof (Rep_find k st m Hi Hm) as Hfind.
  pose proof (fun y w Hy => put_rep x k y w (g_cas st + 1) st m Hi Hm Hn Hy) as Hput.
  pose proof (Hput _ v (setCas_complete (g_cas st + 1) x k v Hx)) as Hset. simpl in Hset.
  unfold spec_store, store_fits in *. destruct (find_key k (shard_at (index_of k) st)) as [old|] eqn:Ef.
  - destruct Hfind as (w & Hw & Em). rewrite Em in *. rewrite !bool_decide_true by done.
    destruct policy; cbv beta iota zeta; try done; try (eexists; split; [reflexivity|]; split_and!; done || apply Hset).
    + destruct (joined_item_complete kAppend x old k v w (g_cas st + 1) Hx Hw) as (y & -> & Hy & F1 & F2 & F3); [simpl in Hfit; lia|].
      cbn [mbind outcome_bind]. simpl in Hy. specialize (Hput y _ Hy). rewrite F1, F2, F3 in Hput. eexists. split; [reflexivity|]. split_and!; done || apply Hput.
    + destruct (joined_item_complete kPrepend x old k v w (g_cas st + 1) Hx Hw) as (y & -> & Hy & F1 & F2 & F3); [simpl in Hfit; lia|].
      cbn [mbind outcome_bind]. simpl in Hy. specialize (Hput y _ Hy). rewrite F1, F2, F3 in Hput. eexists. split; [reflexivity|]. split_and!; done || apply Hput.
    + simpl. destruct (cas_ old =? cas_ x); eexists; (split; [reflexivity|]); split_and!; done || apply Hset.
  - rewrite Hfind in *. rewrite !bool_decide_false by (by intros [? ?]).
    destruct policy; cbv beta iota zeta; try done; try (eexists; split; [reflexivity|]; split_and!; done || apply Hset).
    destruct (insert_fresh _ (setCas (g_cas st + 1) x) k v _ (shard_at_inv (index_of k) st Hi)
      (setCas_complete _ _ _ _ Hx) eq_refl Ef) as [Hs1 Hs2].
    destruct (set_shard_rep k _ (g_cas st + 1) st m (Some (stamp (g_cas st + 1) e)) Hi Hm Hs1) as [R1 R2].
    { intros k' Ek. rewrite Hs2. unfold lookup_of. rewrite Ek. destruct (decide (k' = k)); [|done]. simpl.
      by rewrite (complete_entry _ _ _ (setCas_complete (g_cas st + 1) x k v Hx)). }
    eexists. by split_and!.
Qed.

Lemma getItem_refines x k st m : StoreInv st -> Rep st m -> needle_for x k ->
  match getItem x st with
  | Some old => exists w, complete old k w /\ m !! k = Some (mkEntry (flags_ old) (rel_exptime_ old) w (cas_ old))
  | None => m !! k = None
  end.
Proof.
  intros Hi Hm Hn. unfold getItem. rewrite (needle_index _ _ Hn), (find_needle _ x k _ (shard_at_inv (index_of k) st Hi) Hn).
  by apply Rep_find.
Qed.

Lemma deleteItem_refines x k st m : StoreInv st -> Rep st m -> needle_for x k ->
  exists st', deleteItem x st = (bool_decide (is_Some (m !! k)), st') /\ StoreInv st' /\ Rep st' (delete k m) /\
    g_cas st' = g_cas st /\ startTime_ st' = startTime_ st /\ stopping st' = stopping st.
Proof.
  intros Hi Hm Hn. unfold deleteItem. rewrite (needle_index _ _ Hn), (find_needle _ x k _ (shard_at_inv (index_of k) st Hi) Hn).
  pose proof (Rep_find k st m Hi Hm) as Hfind. destruct (erase_needle _ x k _ (shard_at_inv (index_of k) st Hi) Hn) as [He1 He2].
  destruct (set_shard_rep k _ (g_cas st) st m None Hi Hm He1) as [R1 R2].
  { intros k' Ek. rewrite He2. unfold lookup_of. rewrite Ek. by destruct (decide (k' = k)). }
  eexists. split; [|by split_and!]. f_equal. apply bool_decide_ext.
  destruct (find_key k (shard_at (index_of k) st)) as [old|]; [destruct Hfind as (w & _ & ->)|rewrite Hfind]; split; by intros [? ?].
Qed.

Lemma new_MemcacheServer_inv now : StoreInv (new_MemcacheServer now) /\ Rep (new_MemcacheServer now) ∅.
Proof.
  assert (H : forall i items, shards_ (new_MemcacheServer now) !! i = Some items -> items = []).
  { intros i items Hi. by apply lookup_replicate in Hi as [-> _]. }
  split.
  - constructor; [apply length_replicate|]. intros i items ->%H. apply empty_shard.
  - intros k. rewrite lookup_empty. unfold lookup_of, shard_at.
    destruct (shards_ (new_MemcacheServer now) !! index_of k) as [items|] eqn:E; [|done]. by rewrite (H _ _ E).
Qed.
(** *** Histories *)

(** A request: an update with the key, the value, the flags, the expiration time and the
    token; a look-up; a deletion. *)
Inductive request : Type :=
| RStore (policy : UpdatePolicy) (k v : text) (flags exptime cas : Z)
| RGet (k : text)
| RDelete (k : text).

Inductive answer : Type :=
| AStore (ok exists_ : bool)
| AGet (e : option Entry)
| ADelete (ok : bool).

(** The slice of a key. *)
Definition piece_of (k : text) : StringPiece.StringPiece := StringPiece.of_range k (zlen k).

(** A request as a session makes it: the item is built and filled, or the session's
    needle [x0] gets the key. *)
Definition run_request (x0 : Item) (q : request) (st : MemcacheServer) : outcome (answer * MemcacheServer) :=
  match q with
  | RStore policy k v flags exptime cas =>
      x ← new_Item malloc hash_range (piece_of k) flags exptime (i32 (zlen v + 2)) cas;
      x ← item_append (v ++ kCRLF) (zlen v + 2) x;
      '(ok, exists_, st) ← storeItem malloc hash_range x policy st;
      Ok (AStore ok exists_, st)
  | RGet k => x ← resetKey hash_range (piece_of k) x0; Ok (AGet (entry_of <$> getItem x st), st)
  | RDelete k => x ← resetKey hash_range (piece_of k) x0; let '(ok, st) := deleteItem x st in Ok (ADelete ok, st)
  end.

Fixpoint run_requests (x0 : Item) (qs : list request) (st : MemcacheServer) : outcome (list answer * MemcacheServer) :=
  match qs with
  | [] => Ok ([], st)
  | q :: qs => '(a, st) ← run_request x0 q st; '(l, st) ← run_requests x0 qs st; Ok (a :: l, st)
  end.

(** The same on one map with a counter of tokens. *)
Definition spec_request (q : request) (p : gmap text Entry * Z) : answer * (gmap text Entry * Z) :=
  let '(m, g) := p in
  match q with
  | RStore policy k v flags exptime cas =>
      let '(ok, m') := spec_store policy k (mkEntry flags exptime v cas) (g + 1) m in
      (AStore ok (bool_decide (is_Some (m !! k))), (m', if ok : bool then g + 1 else g))
  | RGet k => (AGet (m !! k), p)
  | RDelete k => (ADelete (bool_decide (is_Some (m !! k))), (delete k m, g))
  end.

Fixpoint spec_requests (qs : list request) (p : gmap text Entry * Z) : list answer * (gmap text Entry * Z) :=
  match qs with
  | [] => ([], p)
  | q :: qs => let '(a, p) := spec_request q p in let '(l, p) := spec_requests qs p in (a :: l, p)
  end.

(** A request whose key and value are within the limits of the protocol. *)
Definition request_fits (q : request) (m : gmap text Entry) : Prop :=
  match q with
  | RStore policy k v _ _ _ => zlen k <= 250 /\ zlen v <= 1024 * 1024 /\ store_fits policy k v m
  | RGet k | RDelete k => zlen k <= 250
  end.

Fixpoint requests_fit (qs : list request) (p : gmap text Entry * Z) : Prop :=
  match qs with
  | [] => True
  | q :: qs => request_fits q p.1 /\ requests_fit qs (spec_request q p).2
  end.

(** The tokens of the entries are different, and none is to come. *)
Definition TokensInv (p : gmap text Entry * Z) : Prop :=
  (forall k e, p.1 !! k = Some e -> 0 < e_cas e <= p.2) /\
  (forall k k' e e', p.1 !! k = Some e -> p.1 !! k' = Some e' -> e_cas e = e_cas e' -> k = k').

Lemma piece_of_wf k : zlen k <= 250 -> StringPiece.wf (piece_of k) /\ StringPiece.chars (piece_of k) = k.
Proof.
  intros Hk. pose proof (zlen_nonneg k). split; [unfold StringPiece.wf; simpl; lia|]. unfold StringPiece.chars. simpl.
  by apply ztake_all.
Qed.

(** The needle of a session: a block for the longest key. *)
Definition is_needle (x : Item) : Prop := valuelen_ x = 2 /\ 252 <= zlen (data_ x).

Lemma resetKey_needle x p : is_needle x -> StringPiece.wf p -> StringPiece.size p <= 250 ->
  exists x', resetKey hash_range p x = Ok x' /\ needle_for x' (StringPiece.chars p) /\ is_needle x'.
Proof.
  intros [H1 H2] Hp Hs. unfold resetKey, StringPiece.size in *. destruct Hp as [Hp1 Hp2]. zguard.
  set (x0 := mkItem _ _ _ _ _ _ _ _). assert (Ht : totalLen x0 = StringPiece.length_ p + 2).
  { unfold totalLen. simpl. rewrite H1. apply i32_small. lia. }
  rewrite (u64_small (StringPiece.length_ p)) by lia.
  destruct (item_append_filled x0 [] (StringPiece.data p) (StringPiece.length_ p)) as (x' & -> & Hf & Hh).
  - unfold filled. rewrite Ht. change (data_ x0) with (data_ x). split_and!; try done; rewrite ?zlen_nil; try lia. by eexists.
  - unfold StringPiece.data. lia.
  - rewrite Ht, zlen_nil. lia.
  - cbn [mbind outcome_bind]. eexists. split; [done|]. destruct Hh as (K1 & K2 & _ & _ & _ & _ & K7). destruct Hf as (_ & Hl & _ & junk & Hd).
    subst x0. simpl in K1, K2, K7. split; [split; [|done]|split; simpl; [congruence|lia]].
    unfold key_of, item_key, StringPiece.chars at 1. simpl. rewrite K1, Hd. apply ztake_app_exact.
    symmetry. apply zlen_ztake. lia.
Qed.
Lemma run_request_refines x0 q st m : is_needle x0 -> StoreInv st -> Rep st m -> 0 <= g_cas st < 2 ^ 63 - 1 -> request_fits q m ->
  let '(a, (m', g')) := spec_request q (m, g_cas st) in
  exists st', run_request x0 q st = Ok (a, st') /\ StoreInv st' /\ Rep st' m' /\ g_cas st' = g'.
Proof.
  intros Hx0 Hi Hm Hg Hfit. destruct q as [policy k v flags exptime cas|k|k]; cbn [spec_request request_fits run_request] in *.
  - destruct Hfit as (Hk & Hv & Hfit). pose proof (zlen_nonneg v). pose proof (zlen_nonneg k). destruct (piece_of_wf k Hk) as [Hw Hch].
    rewrite i32_small by lia.
    destruct (new_Item_holds (piece_of k) flags exptime (zlen v + 2) cas Hw) as (x & -> & Hx & F1 & F2 & F3); [lia|simpl; lia|].
    rewrite Hch in Hx. cbn [mbind outcome_bind].
    assert (Hlen : zlen (v ++ kCRLF) = zlen v + 2) by (by rewrite zlen_app).
    destruct (item_append_holds x k [] _ (v ++ kCRLF) (zlen v + 2) Hx) as (y & -> & Hy & _ & _ & S3 & S4 & S5 & _);
      [lia|rewrite zlen_nil; lia|]. cbn [mbind outcome_bind].
    rewrite ztake_all in Hy by lia. simpl in Hy.
    pose proof (storeItem_refines y policy k v st m Hi Hm Hy Hg Hfit) as Hst. simpl in Hst. rewrite S3, S4, S5, F1, F2, F3 in Hst.
    destruct (spec_store policy k _ (g_cas st + 1) m) as [ok m']. destruct Hst as (st' & -> & R1 & R2 & R3 & _).
    exists st'. by split_and!.
  - destruct (piece_of_wf k Hfit) as [Hw Hch]. destruct (resetKey_needle x0 (piece_of k) Hx0 Hw Hfit) as (x & -> & Hx & _).
    rewrite Hch in Hx. pose proof (getItem_refines x k st m Hi Hm Hx) as Hget. exists st. split; [|done]. simpl. do 3 f_equal.
    destruct (getItem x st) as [old|]; [|done]. destruct Hget as (w & Hw' & ->). simpl. by rewrite (complete_entry _ _ _ Hw').
  - destruct (piece_of_wf k Hfit) as [Hw Hch]. destruct (resetKey_needle x0 (piece_of k) Hx0 Hw Hfit) as (x & -> & Hx & _).
    rewrite Hch in Hx. destruct (deleteItem_refines x k st m Hi Hm Hx) as (st' & E & H1 & H2 & H3 & _).
    cbn [mbind outcome_bind]. rewrite E. by exists st'.
Qed.

Lemma spec_tokens q p : 0 <= p.2 -> TokensInv p -> TokensInv (spec_request q p).2 /\ p.2 <= (spec_request q p).2.2 <= p.2 + 1.
Proof.
  destruct p as [m g]. intros Hg [T1 T2]. simpl in *.
  assert (Hput : forall k e, e_cas e = g + 1 -> TokensInv (<[k := e]> m, g + 1)).
  { intros k e E. split; simpl.
    - intros k' e' [[<- <-]|[_ H%T1]]%lookup_insert_Some; lia.
    - intros k1 k2 e1 e2 [[<- <-]|[N1 H1]]%lookup_insert_Some [[<- <-]|[N2 H2]]%lookup_insert_Some Heq; try done.
      + apply T1 in H2. lia.
      + apply T1 in H1. lia.
      + by eapply T2. }
  destruct q as [policy k v flags exptime cas|k|k]; simpl; [|by split; [|lia]|].
  - unfold spec_store. destruct policy, (m !! k) as [old|]; simpl; try (by split; [|lia]); try (split; [by apply Hput|lia]).
    destruct (e_cas old =? cas); simpl; [split; [by apply Hput|lia]|by split; [|lia]].
  - split; [|lia]. split; simpl.
    + intros k' e [_ H]%lookup_delete_Some. by eapply T1.
    + intros k1 k2 e1 e2 [_ H1]%lookup_delete_Some [_ H2]%lookup_delete_Some. by eapply T2.
Qed.

Lemma run_requests_refines x0 qs : forall st m, is_needle x0 -> StoreInv st -> Rep st m ->
  0 <= g_cas st -> g_cas st + Z.of_nat (length qs) < 2 ^ 63 -> TokensInv (m, g_cas st) -> requests_fit qs (m, g_cas st) ->
  let '(l, (m', g')) := spec_requests qs (m, g_cas st) in
  exists st', run_requests x0 qs st = Ok (l, st') /\ StoreInv st' /\ Rep st' m' /\ TokensInv (m', g').
Proof.
  induction qs as [|q qs IH]; intros st m Hx0 Hi Hm Hg0 Hg Ht Hfit; cbn [run_requests spec_requests requests_fit length] in *.
  { by exists st. }
  destruct Hfit as [Hq Hqs]. pose proof (run_request_refines x0 q st m Hx0 Hi Hm ltac:(lia) Hq) as H.
  pose proof (spec_tokens q (m, g_cas st) Hg0 Ht) as [Ht' Hgr]. destruct (spec_request q (m, g_cas st)) as [a [m1 g1]].
  destruct H as (st1 & -> & Hi1 & Hm1 & <-). simpl in Hgr, Hqs, Ht'. cbn [mbind outcome_bind].
  specialize (IH st1 m1 Hx0 Hi1 Hm1 ltac:(lia) ltac:(lia) Ht' Hqs).
  destruct (spec_requests qs (m1, g_cas st1)) as [l [m2 g2]]. destruct IH as (st2 & -> & ?). by exists st2.
Qed.
End Refinement.

(** ** Properties *)


Definition zero_malloc (n : Z) : list ascii := replicate (Z.to_nat n) StringPiece.NUL.
Definition length_hash (k : text) : Z := zlen k.

Lemma zero_malloc_size n : 0 <= n -> zlen (zero_malloc n) = n.
Proof. intros H. unfold zero_malloc. apply zlen_replicate. lia. Qed.

Definition sample_needle : Item := mkItem 250 0 0 2 250 0 0 (replicate 252 StringPiece.NUL).

Definition sample_requests : list request :=
  [RStore kSet (bytes "k") (bytes "ab") 7 0 0; RStore kAdd (bytes "k") (bytes "x") 0 0 0;
   RStore kAppend (bytes "k") (bytes "c") 0 0 0; RStore kSet (bytes "j") (bytes "z") 0 0 0;
   RStore kCas (bytes "k") (bytes "new") 1 0 1; RStore kCas (bytes "k") (bytes "new") 1 0 2; RGet (bytes "k"); RDelete (bytes "j");
   RGet (bytes "j")].

