(* ===== verification/Memcached.v ===== *)
(** * The memcached session (src/tests/memcached/server/Session.h, Session.cpp,
    MemcacheServer.cpp)

    A session reads request lines and values from its connection, works on the
    store of [MemStore] and sends the replies.  Memory matters here: the tokens of a
    line are slices of the connection's buffer, and strtoul reads on behind the
    end of a token.

    boost::tokenizer is a parameter, by the tokens it gives for the separator of the
    source. *)

From S2P Require Import Prelude Endian StringPiece Buffer Lines Format Timestamp Channel Poller TcpConnection ConnStream.
From S2P Require Import Framing LengthCodec MemStore.
Local Open Scope Z_scope.

(** ** strtoul in base ten *)

Definition digit_value (c : ascii) : option Z := if isdigit c then Some (Z_of_byte c - 48) else None.

(** The digits from [mem] on: the number, how many, and whether there is one. *)
Fixpoint read_digits (mem : list ascii) (acc n : Z) : outcome (Z * Z) :=
  match mem with
  | [] => Err OutOfBounds
  | c :: mem => match digit_value c with Some d => read_digits mem (10 * acc + d) (n + 1) | None => Ok (acc, n) end
  end.

Fixpoint skip_space (mem : list ascii) (n : Z) : outcome (list ascii * Z) :=
  match mem with
  | [] => Err OutOfBounds
  | c :: mem' => if isspace c then skip_space mem' (n + 1) else Ok (mem, n)
  end.

(** The value and the offset of [*endptr]: 0 if there are no digits. *)
Definition strtoul (mem : list ascii) : outcome (Z * Z) :=
  '(mem, n) ← skip_space mem 0;
  let '(neg, mem, n) :=
    match mem with
    | "-"%char :: mem' => (true, mem', n + 1)
    | "+"%char :: mem' => (false, mem', n + 1)
    | _ => (false, mem, n)
    end in
  '(x, d) ← read_digits mem 0 0;
  if d =? 0 then Ok (0, 0)
  else if 2 ^ 64 <=? x then Ok (2 ^ 64 - 1, n + d)
  else Ok (if neg : bool then u64 (- x) else x, n + d).

(** ** Tokens *)

(** The memory from a pointer on, and the number of bytes up to the end. *)
Definition char_range : Type := list ascii * Z.

Fixpoint skip_blanks (mem : list ascii) (n : Z) : char_range :=
  match mem with
  | c :: mem' => if (0 <? n) && bool_decide (c = SP) then skip_blanks mem' (n - 1) else (mem, n)
  | [] => (mem, n)
  end.

(** [SpaceSeparator]: the next token and what is left, if there is a token. *)
Definition SpaceSeparator (r : char_range) : option (StringPiece.StringPiece * char_range) :=
  let '(start, n) := skip_blanks r.1 r.2 in
  if n =? 0 then None
  else match memchr SP (ztake n start) 0 with
       | Some sp => Some (StringPiece.set start (i32 sp), (zdrop sp start, n - sp))
       | None => Some (StringPiece.set start (i32 n), (zdrop n start, 0))
       end.

(** What the tokenizer gives: the tokens of the separator, one after the other. *)
Class Tokenizer (tokens : char_range -> list StringPiece.StringPiece) : Prop := {
  tokens_unfold r : tokens r = match SpaceSeparator r with Some (t, r') => t :: tokens r' | None => [] end
}.

(** [*it]: the iterator at the end must not be dereferenced. *)
Definition token_at (it : list StringPiece.StringPiece) : outcome (StringPiece.StringPiece * list StringPiece.StringPiece) :=
  match it with t :: it => Ok (t, it) | [] => Err OutOfBounds end.

(** [Reader::read]: its result, the number if it read one, and where it is then.  A token
    that is not a number is left where it is, and the result is true. *)
Definition reader_read (first : list StringPiece.StringPiece) : outcome (bool * option Z * list StringPiece.StringPiece) :=
  match first with
  | [] => Ok (false, None, [])
  | t :: rest =>
      '(x, e) ← strtoul (StringPiece.data t);
      if e =? StringPiece.size t then Ok (true, Some x, rest) else Ok (true, None, first)
  end.

(** ** Session *)

Inductive SessionState : Type := kNewCommand | kReceiveValue | kDiscardValue.
Inductive Protocol : Type := kAscii | kBinary | kAuto.

Record Session : Type := mkMemSession {
  s_conn : TcpConnection;
  s_state : SessionState;
  protocol_ : Protocol;
  command_ : text;
  noreply_ : bool;
  policy_ : UpdatePolicy;
  currItem_ : option Item;
  bytesToDiscard_ : Z;
  needle_ : Item;
  outputBuf_ : Buffer;
  bytesRead_ : Z;
  requestsProcessed_ : Z
}.

(** The changes of single fields. *)
Definition with_conn (c : TcpConnection) (s : Session) : Session :=
  mkMemSession c (s_state s) (protocol_ s) (command_ s) (noreply_ s) (policy_ s) (currItem_ s) (bytesToDiscard_ s)
    (needle_ s) (outputBuf_ s) (bytesRead_ s) (requestsProcessed_ s).
Definition with_state (x : SessionState) (s : Session) : Session :=
  mkMemSession (s_conn s) x (protocol_ s) (command_ s) (noreply_ s) (policy_ s) (currItem_ s) (bytesToDiscard_ s)
    (needle_ s) (outputBuf_ s) (bytesRead_ s) (requestsProcessed_ s).
Definition with_request (command : text) (noreply : bool) (policy : UpdatePolicy) (item : option Item) (discard : Z) (s : Session) : Session :=
  mkMemSession (s_conn s) (s_state s) (protocol_ s) command noreply policy item discard
    (needle_ s) (outputBuf_ s) (bytesRead_ s) (requestsProcessed_ s).
Definition with_needle (x : Item) (out : Buffer) (s : Session) : Session :=
  mkMemSession (s_conn s) (s_state s) (protocol_ s) (command_ s) (noreply_ s) (policy_ s) (currItem_ s) (bytesToDiscard_ s)
    x out (bytesRead_ s) (requestsProcessed_ s).
Definition with_counts (protocol : Protocol) (bytesRead requests : Z) (s : Session) : Session :=
  mkMemSession (s_conn s) (s_state s) protocol (command_ s) (noreply_ s) (policy_ s) (currItem_ s) (bytesToDiscard_ s)
    (needle_ s) (outputBuf_ s) bytesRead requests.

Definition s_input (s : Session) : Buffer := inputBuffer_ (s_conn s).
Definition with_input (b : Buffer) (s : Session) : Session := with_conn (set_input b (s_conn s)) s.

Definition resetRequest (s : Session) : Session := with_request [] false kInvalid None 0 s.

Definition kLongestKeySize : Z := 250.
Definition kLongestKey : text := replicate 250 "x"%char.

Section Sessions.
Context (malloc : Z -> list ascii) (hash_range : text -> Z) (tokens : char_range -> list StringPiece.StringPiece).
Context (write : nat -> list ascii -> write_result).

Definition new_Session (c : TcpConnection) : outcome Session :=
  p ← StringPiece.of_string kLongestKey;
  needle ← new_Item malloc hash_range p 0 0 2 0;
  out ← new_Buffer kInitialSize;
  Ok (mkMemSession c kNewCommand kAscii [] false kInvalid None 0 needle out 0 0).

Definition reply (msg : text) (s : Session) : outcome Session :=
  if noreply_ s then Ok s else c ← send write msg (s_conn s); Ok (with_conn c s).

Definition line (s : string) : text := bytes s ++ kCRLF.

(** The end of a value: it is stored and the request answered. *)
Definition finish_value (item : Item) (s : Session) (st : MemcacheServer) : outcome (Session * MemcacheServer) :=
  '(s, st) ←
    (if endsWithCRLF item then
       '(ok, exists_, st) ← storeItem malloc hash_range item (policy_ s) st;
       let msg := if ok : bool then line "STORED"
         else if decide (policy_ s = kCas) then if exists_ : bool then line "EXISTS" else line "NOT_FOUND"
         else line "NOT_STORED" in
       s ← reply msg s; Ok (s, st)
     else s ← reply (line "CLIENT_ERROR bad data chunk") s; Ok (s, st));
  Ok (with_state kNewCommand (resetRequest s), st).

(** [receiveValue]; that [currItem_] is the only pointer to its item is not a state of the model. *)
Definition receiveValue (s : Session) (st : MemcacheServer) : outcome (Session * MemcacheServer) :=
  match currItem_ s with
  | None => Err AssertFailed
  | Some item =>
      let buf := s_input s in
      let avail := Z.min (readableBytes buf) (neededBytes item) in
      item ← item_append (zdrop (peek buf) (buffer_ buf)) avail item;
      buf ← retrieve buf avail;
      let s := with_request (command_ s) (noreply_ s) (policy_ s) (Some item) (bytesToDiscard_ s) (with_input buf s) in
      if neededBytes item =? 0 then finish_value item s st else Ok (s, st)
  end.

Definition discardValue (s : Session) : outcome Session :=
  assert_ (bool_decide (currItem_ s = None));;
  let buf := s_input s in
  if readableBytes buf <? bytesToDiscard_ s then
    let left := u64 (bytesToDiscard_ s - readableBytes buf) in
    Ok (with_input (retrieveAll buf) (with_request (command_ s) (noreply_ s) (policy_ s) (currItem_ s) left s))
  else
    buf ← retrieve buf (bytesToDiscard_ s);
    Ok (with_state kNewCommand (resetRequest (with_input buf s))).

(** The policy of an update command; "prepend" has none, and "append" the one of "prepend". *)
Definition policy_of (command : text) (old : UpdatePolicy) : UpdatePolicy :=
  if decide (command = bytes "set") then kSet
  else if decide (command = bytes "add") then kAdd
  else if decide (command = bytes "replace") then kReplace
  else if decide (command = bytes "append") then kPrepend
  else if decide (command = bytes "cas") then kCas
  else old.

Definition bad_format : text := line "CLIENT_ERROR bad command line format".

(** [doUpdate]: whether the request is finished. *)
Definition doUpdate (beg : list StringPiece.StringPiece) (s : Session) (st : MemcacheServer)
  : outcome (bool * Session * MemcacheServer) :=
  let s := with_request (command_ s) (noreply_ s) (policy_of (command_ s) (policy_ s)) (currItem_ s) (bytesToDiscard_ s) s in
  '(key, r) ← token_at beg;
  let good := StringPiece.size key <=? kLongestKeySize in
  '(good, flags, r) ← (if good then '(g, x, r) ← reader_read r; Ok (g, from_option u32 0 x, r) else Ok (false, 0, r));
  '(good, exptime, r) ← (if good : bool then '(g, x, r) ← reader_read r; Ok (g, from_option i64 1 x, r) else Ok (false, 1, r));
  '(good, nbytes, r) ← (if good : bool then '(g, x, r) ← reader_read r; Ok (g, from_option i32 (-1) x, r) else Ok (false, -1, r));
  let rel_exptime :=
    if 60 * 60 * 24 * 30 <? exptime then Z.max 1 (i32 (i64 (exptime - startTime_ st))) else i32 exptime in
  '(good, cas) ← (if (good : bool) && bool_decide (policy_ s = kCas)
                   then '(g, x, _) ← reader_read r; Ok (g, from_option u64 0 x) else Ok (good, 0));
  if negb good then s ← reply bad_format s; Ok (true, s, st)
  else if 1024 * 1024 <? nbytes then
    s ← reply (line "SERVER_ERROR object too large for cache") s;
    needle ← resetKey hash_range key (needle_ s);
    let '(_, st) := deleteItem needle st in
    let s := with_request (command_ s) (noreply_ s) (policy_ s) (currItem_ s) (u64 (i32 (nbytes + 2)))
               (with_needle needle (outputBuf_ s) s) in
    Ok (false, with_state kDiscardValue s, st)
  else
    item ← new_Item malloc hash_range key flags rel_exptime (i32 (nbytes + 2)) cas;
    let s := with_request (command_ s) (noreply_ s) (policy_ s) (Some item) (bytesToDiscard_ s) s in
    Ok (false, with_state kReceiveValue s, st).

Definition doDelete (beg : list StringPiece.StringPiece) (s : Session) (st : MemcacheServer) : outcome (Session * MemcacheServer) :=
  '(key, it) ← token_at beg;
  if kLongestKeySize <? StringPiece.size key then s ← reply bad_format s; Ok (s, st)
  else
    extra ← (match it with
             | [] => Ok false
             | t :: _ => zero ← StringPiece.of_cstr (StringPiece.c_str (bytes "0")); StringPiece.ne_op t zero
             end);
    if extra : bool then
      s ← reply (line "CLIENT_ERROR bad command line format, Usage: delete <key> [noreply]") s; Ok (s, st)
    else
      needle ← resetKey hash_range key (needle_ s);
      let s := with_needle needle (outputBuf_ s) s in
      let '(ok, st) := deleteItem needle st in
      s ← reply (if ok : bool then line "DELETED" else line "NOT_FOUND") s;
      Ok (s, st).

(** The loop of [get] and [gets]: whether all keys were good. *)
Fixpoint get_keys (cas : bool) (keys : list StringPiece.StringPiece) (s : Session) (st : MemcacheServer) : outcome (bool * Session) :=
  match keys with
  | [] => Ok (true, s)
  | key :: keys =>
      if kLongestKeySize <? StringPiece.size key then s ← reply bad_format s; Ok (false, s)
      else
        needle ← resetKey hash_range key (needle_ s);
        out ← (match getItem needle st with Some item => item_output cas item (outputBuf_ s) | None => Ok (outputBuf_ s) end);
        get_keys cas keys (with_needle needle out s) st
  end.

(** The end of [get]: a large output buffer is shrunk, the answer sent. *)
Definition get_answer (s : Session) : outcome Session :=
  p ← StringPiece.of_cstr (StringPiece.c_str (line "END"));
  out ← append_piece (outputBuf_ s) p;
  let reserve := u64 (65536 + readableBytes out) in
  ob ← (if reserve <? writableBytes (outputBuffer_ (s_conn s)) then shrink (outputBuffer_ (s_conn s)) reserve
        else Ok (outputBuffer_ (s_conn s)));
  '(out, c) ← send_buffer write out (set_output ob (s_conn s));
  Ok (with_conn c (with_needle (needle_ s) out s)).

(** The test for a final "noreply": the slice it compares has no bytes. *)
Definition asks_noreply (request : StringPiece.StringPiece) : outcome bool :=
  if 8 <=? StringPiece.size request then
    p ← StringPiece.of_cstr (StringPiece.c_str (bytes " noreply"));
    StringPiece.eq_op (StringPiece.of_range (zdrop (StringPiece.size request - 8) (StringPiece.data request)) 0) p
  else Ok false.

Definition update_command (command : text) : bool :=
  bool_decide (command ∈ [bytes "set"; bytes "add"; bytes "replace"; bytes "append"; bytes "prepend"; bytes "cas"]).

(** The branches of [processRequest] over the command. *)
Definition run_command (beg : list StringPiece.StringPiece) (s : Session) (st : MemcacheServer)
  : outcome (bool * Session * MemcacheServer) :=
  let command := command_ s in
  if update_command command then doUpdate beg s st
  else if bool_decide (command ∈ [bytes "get"; bytes "gets"]) then
    '(good, s) ← get_keys (bool_decide (command = bytes "gets")) beg s st;
    if good : bool then s ← get_answer s; Ok (true, s, st) else Ok (true, s, st)
  else if decide (command = bytes "delete") then '(s, st) ← doDelete beg s st; Ok (true, s, st)
  else if decide (command = bytes "version") then s ← reply (line "VERSION 0.01 memcached") s; Ok (true, s, st)
  else if decide (command = bytes "quit") then Ok (true, with_conn (shutdown (s_conn s)) s, st)
  else if decide (command = bytes "shutdown") then Ok (true, with_conn (shutdown (s_conn s)) s, mem_stop st)
  else s ← reply (line "ERROR") s; Ok (true, s, st).

Definition processRequest (request : StringPiece.StringPiece) (s : Session) (st : MemcacheServer)
  : outcome (bool * Session * MemcacheServer) :=
  assert_ (bool_decide (command_ s = []));;
  assert_ (negb (noreply_ s));;
  assert_ (bool_decide (policy_ s = kInvalid));;
  assert_ (bool_decide (currItem_ s = None));;
  assert_ (bytesToDiscard_ s =? 0);;
  let s := with_counts (protocol_ s) (bytesRead_ s) (u64 (requestsProcessed_ s + 1)) s in
  quiet ← asks_noreply request;
  let request := if quiet : bool then StringPiece.remove_suffix request 8 else request in
  let s := with_request (command_ s) quiet (policy_ s) (currItem_ s) (bytesToDiscard_ s) s in
  match tokens (StringPiece.data request, StringPiece.size request) with
  | [] => s ← reply (line "ERROR") s; Ok (true, s, st)
  | first :: beg =>
      command ← StringPiece.CopyToString first;
      run_command beg (with_request command (noreply_ s) (policy_ s) (currItem_ s) (bytesToDiscard_ s) s) st
  end.

(** The branch of [onMessage] for a request line that ends at [crlf]. *)
Definition take_line (crlf : Z) (s : Session) (st : MemcacheServer) : outcome (Session * MemcacheServer) :=
  let buf := s_input s in
  let request := StringPiece.of_range (zdrop (peek buf) (buffer_ buf)) (i32 (crlf - peek buf)) in
  '(finished, s, st) ← processRequest request s st;
  let s := if finished : bool then resetRequest s else s in
  buf ← retrieveUntil (s_input s) (crlf + 2);
  Ok (with_input buf s, st).

(** The protocol of a session that is to find out: told by the first byte. *)
Definition inBinaryProtocol (firstByte : ascii) : bool := Z_of_byte firstByte =? 128.

Definition session_protocol (s : Session) : outcome Protocol :=
  match protocol_ s with
  | kAuto =>
      assert_ (bytesRead_ s =? 0);;
      match zdrop (peek (s_input s)) (buffer_ (s_input s)) with
      | c :: _ => Ok (if inBinaryProtocol c then kBinary else kAscii)
      | [] => Err OutOfBounds
      end
  | p => Ok p
  end.

(** [onMessage]: one round of its loop per unit of fuel; the branch of the binary
    protocol does nothing, for ever. *)
Fixpoint session_loop (fuel : nat) (s : Session) (st : MemcacheServer) : option (outcome (Session * MemcacheServer)) :=
  match fuel with
  | O => None
  | S fuel =>
      let continue r := match r with Ok (s, st) => session_loop fuel s st | Err f => Some (Err f) end in
      let buf := s_input s in
      if 0 <? readableBytes buf then
        match s_state s with
        | kNewCommand =>
            match session_protocol s with
            | Err f => Some (Err f)
            | Ok protocol =>
                let s := with_counts protocol (bytesRead_ s) (requestsProcessed_ s) s in
                match protocol with
                | kAscii =>
                    match findCRLF buf with
                    | Some crlf => continue (take_line crlf s st)
                    | None =>
                        Some (Ok (if 1024 <? readableBytes buf then with_conn (shutdown (s_conn s)) s else s, st))
                    end
                | _ => continue (Ok (s, st))
                end
            end
        | kReceiveValue => continue (receiveValue s st)
        | kDiscardValue => continue (s ← discardValue s; Ok (s, st))
        end
      else Some (Ok (s, st))
  end.

Definition session_onMessage (s : Session) (st : MemcacheServer) : option (outcome (Session * MemcacheServer)) :=
  let initial := readableBytes (s_input s) in
  match session_loop (S (length (content (s_input s)))) s st with
  | Some (Ok (s, st)) =>
      Some (Ok (with_counts (protocol_ s) (u64 (bytesRead_ s + (initial - readableBytes (s_input s)))) (requestsProcessed_ s) s, st))
  | r => r
  end.

(** [MemcacheServer::onConnection] on the sessions by the names of their connections. *)
Definition mem_onConnection (name : text) (c : TcpConnection) (sessions_ : gmap text Session) : outcome (gmap text Session) :=
  if connected c then
    s ← new_Session c;
    assert_ (negb (bool_decide (is_Some (sessions_ !! name))));;
    Ok (<[name := s]> sessions_)
  else
    assert_ (bool_decide (is_Some (sessions_ !! name)));;
    Ok (delete name sessions_).

(** *** The session on its connection *)

Definition session_input (x : Session * MemcacheServer) : Buffer := s_input x.1.
Definition session_with_input (b : Buffer) (x : Session * MemcacheServer) : Session * MemcacheServer := (with_input b x.1, x.2).
Definition session_called (x : Session * MemcacheServer) : Session * MemcacheServer :=
  (with_conn (record_call NMessage (s_conn x.1)) x.1, x.2).
Definition session_closed (x : Session * MemcacheServer) : outcome (Session * MemcacheServer) :=
  c ← handleClose write silent_user (s_conn x.1); Ok (with_conn c x.1, x.2).

Definition session_read_all : list (Timestamp * text) -> Session * MemcacheServer -> option (outcome (Session * MemcacheServer)) :=
  stream_read_all session_input session_with_input session_called (fun _ x => session_onMessage x.1 x.2) session_closed Ok.
End Sessions.
