(* ===== verification/MemSession.v ===== *)
(** * The memcached protocol over a connection

    The session of [Memcached] and the store of [MemStore] against the protocol: a
    client writes requests one after the other, the connection delivers the bytes in
    segments of any size, and the replies are those of one map from keys to
    entries. *)

From S2P Require Import Prelude Endian StringPiece Buffer Lines Format Timestamp Channel Poller TcpConnection ConnStream.
From S2P Require Import Framing LengthCodec MemStore Memcached.
From stdpp Require Import pretty.
Local Open Scope Z_scope.

(** ** Numbers *)

Lemma digit_value_char n : (n < 10)%N -> digit_value (pretty_N_char n) = Some (Z.of_N n).
Proof. intros H. unfold digit_value. by destruct (pretty_N_char_digit n H) as [-> ->]. Qed.

(** Reading the digits of a number, then on behind them. *)
Lemma read_digits_go x : forall s rest acc n, exists k, 0 <= k /\
  read_digits (bytes (pretty_N_go x s) ++ rest) acc n = read_digits (bytes s ++ rest) (acc * 10 ^ k + Z.of_N x) (n + k) /\
  zlen (bytes (pretty_N_go x s)) = k + zlen (bytes s) /\
  (0 < Z.of_N x -> 0 < k).
Proof.
  induction (N.lt_wf_0 x) as [x _ IH]. intros s rest acc n. destruct (decide (x = 0%N)) as [->|Hx].
  - exists 0. rewrite pretty_N_go_0. split_and!; [lia| |lia|lia]. f_equal; lia.
  - rewrite pretty_N_go_step by lia.
    destruct (IH (x `div` 10)%N (N.div_lt x 10 ltac:(lia) ltac:(lia)) (String (pretty_N_char (x `mod` 10)) s) rest acc n)
      as (k & Hk & E & Hl & _).
    exists (k + 1). split; [lia|]. rewrite E, Hl. split_and!; [|unfold zlen; simpl; lia|lia].
    change (bytes (String (pretty_N_char (x `mod` 10)) s)) with (pretty_N_char (x `mod` 10) :: bytes s).
    cbn [app read_digits]. rewrite digit_value_char by (apply N.mod_lt; lia). f_equal; [|lia].
    rewrite N2Z.inj_div, N2Z.inj_mod, Z.pow_add_r by lia. change (Z.of_N 10) with 10. change (10 ^ 1) with 10.
    pose proof (Z.div_mod (Z.of_N x) 10 ltac:(lia)). lia.
Qed.

(** No digit follows. *)
Definition ends_number (after : list ascii) : Prop :=
  match after with c :: _ => digit_value c = None | [] => False end.

Lemma read_digits_end after acc n : ends_number after -> read_digits after acc n = Ok (acc, n).
Proof. destruct after as [|c after]; [done|]. simpl. intros H. by rewrite H. Qed.

Lemma read_number z after : 0 <= z -> ends_number after ->
  read_digits (fmt_d z ++ after) 0 0 = Ok (z, zlen (fmt_d z)) /\ 0 < zlen (fmt_d z).
Proof.
  intros Hz Ha. destruct z as [|p|p]; [|unfold fmt_d|lia].
  - change (fmt_d 0) with ["0"%char]. cbn [app read_digits]. change (digit_value "0") with (Some 0). cbv iota. by rewrite read_digits_end.
  - change (pretty (Z.pos p)) with (pretty_N_go (N.pos p) ""). destruct (read_digits_go (N.pos p) "" after 0 0) as (k & Hk & E & Hl & H0).
    rewrite E, Hl. change (zlen (bytes "")) with 0. change (bytes "" ++ after) with after. rewrite read_digits_end by done.
    split; [|lia]. do 2 f_equal; lia.
Qed.

Lemma strtoul_number z after : 0 <= z < 2 ^ 64 -> ends_number after ->
  strtoul (fmt_d z ++ after) = Ok (z, zlen (fmt_d z)).
Proof.
  intros Hz Ha. destruct (read_number z after ltac:(lia) Ha) as [E Hl]. destruct (fmt_d_head z ltac:(lia)) as (c & s & Ez & Hd).
  destruct (digit_plain c Hd) as (Hs & Hm & Hp). unfold strtoul.
  assert (Hskip : skip_space (fmt_d z ++ after) 0 = Ok (fmt_d z ++ after, 0)) by (rewrite Ez; simpl; by rewrite Hs).
  rewrite Hskip. cbn [mbind outcome_bind]. 
  assert (Hsign : match fmt_d z ++ after with
    | "-"%char :: mem' => (true, mem', 0 + 1) | "+"%char :: mem' => (false, mem', 0 + 1) | _ => (false, fmt_d z ++ after, 0) end =
    (false, fmt_d z ++ after, 0)).
  { rewrite Ez. simpl. repeat case_match; done. }
  rewrite Hsign, E. cbn [mbind outcome_bind]. zguard. done.
Qed.

(** ** Words *)

(** A word of a request line. *)
Definition good_word (w : text) : Prop := w <> [] /\ (SP ∉ w) /\ CR ∉ w.

(** The words behind the command, each after a blank. *)
Definition words (ws : list text) : text := concat (map (cons SP) ws).

Lemma words_CR ws : Forall good_word ws -> CR ∉ words ws.
Proof.
  induction 1 as [|w ws (_ & _ & Hw) _ IH]; [set_solver|]. unfold words in *. cbn [map concat].
  intros [[H|H]%elem_of_cons|H]%elem_of_app; [discriminate|done..].
Qed.

Lemma list_find_app_SP w rest : SP ∉ w -> list_find (eq SP) (w ++ SP :: rest) = Some (length w, SP).
Proof.
  intros H. apply list_find_Some. rewrite list_lookup_middle by done. split_and!; [done..|].
  intros j y Hy Hj. rewrite lookup_app_l in Hy by done. intros <-. apply H. by eapply list_elem_of_lookup_2.
Qed.

Lemma list_find_no_SP (w : text) : SP ∉ w -> list_find (eq SP) w = None.
Proof. intros H. apply list_find_None, Forall_forall. intros x Hx <-. done. Qed.

Lemma skip_blanks_word b w rest n : b = [] \/ b = [SP] -> w <> [] -> SP ∉ w -> 0 < n ->
  skip_blanks (b ++ w ++ rest) (zlen b + n) = (w ++ rest, n).
Proof.
  intros Hb Hw HSP Hn. destruct w as [|c w]; [done|].
  assert (H : skip_blanks ((c :: w) ++ rest) n = ((c :: w) ++ rest, n)).
  { cbn [app skip_blanks]. rewrite bool_decide_false by (intros ->; apply HSP; left). by rewrite andb_false_r. }
  destruct Hb as [-> | ->]; [exact H|]. change (zlen [SP]) with 1. change ([SP] ++ (c :: w) ++ rest) with (SP :: (c :: w) ++ rest).
  cbn [skip_blanks]. rewrite bool_decide_true by done. zguard. replace (1 + n - 1) with n by lia. exact H.
Qed.

Lemma SpaceSeparator_word b w ws after : b = [] \/ b = [SP] -> good_word w -> Forall good_word ws ->
  zlen w + zlen (words ws) < 2 ^ 31 ->
  SpaceSeparator (b ++ w ++ words ws ++ after, zlen b + (zlen w + zlen (words ws))) =
    Some (StringPiece.set (w ++ words ws ++ after) (zlen w), (words ws ++ after, zlen (words ws))).
Proof.
  intros Hb (Hw & HSP & _) Hws Hlen. unfold SpaceSeparator. cbn [fst snd].
  assert (Hp : 0 < zlen w) by (destruct w; [done|rewrite zlen_cons; pose proof (zlen_nonneg w); lia]).
  pose proof (zlen_nonneg (words ws)). rewrite skip_blanks_word by (done || lia).
  rewrite (proj2 (Z.eqb_neq (zlen w + zlen (words ws)) 0)) by lia.
  rewrite app_assoc, ztake_app_exact by (by rewrite zlen_app).
  unfold memchr. destruct ws as [|w' ws].
  - cbn [words map concat]. rewrite !app_nil_r, list_find_no_SP by done. rewrite zlen_nil, Z.add_0_r, i32_small by lia.
    by rewrite zdrop_app_exact.
  - unfold words. cbn [map concat app]. rewrite list_find_app_SP by done. fold (zlen w).
    change (0 + Z.of_nat (length w)) with (zlen w). rewrite i32_small by lia.
    rewrite <- app_assoc, zdrop_app_exact by done. do 3 f_equal. unfold words in *. cbn [map concat app] in *. lia.
Qed.

(** A token that is the word [w], with something behind it that is no digit. *)
Definition is_token (w : text) (t : StringPiece.StringPiece) : Prop :=
  StringPiece.size t = zlen w /\ exists after, StringPiece.data t = w ++ after /\ ends_number after.

Section Tokens.
Context (tokens : char_range -> list StringPiece.StringPiece) `{!Tokenizer tokens}.

Lemma tokens_words ws after : Forall good_word ws -> zlen (words ws) < 2 ^ 31 -> ends_number after ->
  Forall2 is_token ws (tokens (words ws ++ after, zlen (words ws))).
Proof.
  intros Hws Hlen Ha. induction Hws as [|w ws Hw Hws IH]; rewrite tokens_unfold.
  - unfold SpaceSeparator. cbn [words map concat app fst snd]. rewrite zlen_nil.
    destruct after as [|c after]; simpl; constructor.
  - unfold words in Hlen. cbn [map concat] in Hlen. fold (words ws) in Hlen. rewrite zlen_app, zlen_cons in Hlen.
    pose proof (zlen_nonneg w).
    pose proof (SpaceSeparator_word [SP] w ws after ltac:(by right) Hw Hws ltac:(lia)) as E.
    assert (Hs : words (w :: ws) ++ after = [SP] ++ w ++ words ws ++ after) by (unfold words; simpl; by rewrite <- app_assoc).
    assert (Hl : zlen (words (w :: ws)) = zlen [SP] + (zlen w + zlen (words ws)))
      by (unfold words; cbn [map concat]; rewrite zlen_app, zlen_cons; change (zlen [SP]) with 1; lia).
    rewrite Hs, Hl, E. constructor; [|apply IH; lia]. split; [done|]. exists (words ws ++ after). split; [done|].
    by destruct ws.
Qed.

Lemma tokens_line w ws after : good_word w -> Forall good_word ws -> zlen (w ++ words ws) < 2 ^ 31 -> ends_number after ->
  Forall2 is_token (w :: ws) (tokens (w ++ words ws ++ after, zlen (w ++ words ws))).
Proof.
  intros Hw Hws Hlen Ha. rewrite zlen_app in *. rewrite tokens_unfold. pose proof (zlen_nonneg w).
  pose proof (SpaceSeparator_word [] w ws after ltac:(by left) Hw Hws ltac:(lia)) as E.
  change (zlen []) with 0 in E. cbn [app] in E. rewrite Z.add_0_l in E. rewrite E. constructor.
  - split; [done|]. exists (words ws ++ after). split; [done|]. by destruct ws.
  - apply tokens_words; done || lia.
Qed.
End Tokens.

Lemma is_token_wf w t : is_token w t -> zlen w < 2 ^ 31 -> StringPiece.wf t /\ StringPiece.chars t = w.
Proof.
  intros (Hs & after & Hd & _) Hl. unfold StringPiece.size, StringPiece.data in *. pose proof (zlen_nonneg w). split.
  - unfold StringPiece.wf. rewrite Hs, Hd, zlen_app. pose proof (zlen_nonneg after). lia.
  - unfold StringPiece.chars. rewrite Hs, Hd. by apply ztake_app_exact.
Qed.

Lemma CopyToString_token w t : is_token w t -> zlen w < 2 ^ 31 -> StringPiece.CopyToString t = Ok w.
Proof.
  intros (Hs & after & Hd & _) Hl. unfold StringPiece.CopyToString, StringPiece.as_string, StringPiece.size, StringPiece.data in *.
  pose proof (zlen_nonneg w). rewrite Hs, Hd, u64_small, zlen_app by lia. pose proof (zlen_nonneg after). zguard.
  by rewrite ztake_app_exact.
Qed.

Lemma reader_read_token z t rest : is_token (fmt_d z) t -> 0 <= z < 2 ^ 64 ->
  reader_read (t :: rest) = Ok (true, Some z, rest).
Proof.
  intros (Hs & after & Hd & Ha) Hz. unfold reader_read. rewrite Hd, strtoul_number, Hs by done. cbn [mbind outcome_bind].
  by rewrite Z.eqb_refl.
Qed.

Lemma fmt_d_word z : 0 <= z -> good_word (fmt_d z).
Proof.
  intros Hz. destruct (fmt_d_head z Hz) as (c & s & E & _). split; [by rewrite E|].
  split; intros H%fmt_d_digits; by vm_compute in H.
Qed.

(** ** The protocol *)

(** What a client sends: an update, a look-up of some keys ([gets] if it asks for the tokens),
    a deletion, a request for the version, an unknown command. *)
Inductive wire : Type :=
| WStore (policy : UpdatePolicy) (k v : text) (flags exptime cas : Z)
| WGet (cas : bool) (ks : list text)
| WDelete (k : text)
| WVersion
| WUnknown (command : text) (args : list text).

Definition command_name (policy : UpdatePolicy) : text :=
  match policy with
  | kSet => bytes "set" | kAdd => bytes "add" | kReplace => bytes "replace" | kAppend => bytes "append"
  | kPrepend => bytes "prepend" | kCas => bytes "cas" | kInvalid => []
  end.

Definition wire_words (w : wire) : text * list text :=
  match w with
  | WStore policy k v flags exptime cas =>
      (command_name policy, [k; fmt_d flags; fmt_d exptime; fmt_d (zlen v)] ++ (if decide (policy = kCas) then [fmt_d cas] else []))
  | WGet cas ks => (if cas then bytes "gets" else bytes "get", ks)
  | WDelete k => (bytes "delete", [k])
  | WVersion => (bytes "version", [])
  | WUnknown command args => (command, args)
  end.

Definition wire_line (w : wire) : text := (wire_words w).1 ++ words (wire_words w).2.

(** The data that follow the line. *)
Definition wire_data (w : wire) : text := match w with WStore _ _ v _ _ _ => v ++ kCRLF | _ => [] end.

Definition wire_text (w : wire) : text := wire_line w ++ kCRLF ++ wire_data w.

(** *** What the server does *)

Definition max_value : Z := 1024 * 1024.

(** The server takes "append" for "prepend", and "prepend" for no policy at all. *)
Definition taken_policy (policy : UpdatePolicy) : UpdatePolicy :=
  match policy with kAppend => kPrepend | kPrepend => kInvalid | _ => policy end.

Definition store_reply (policy : UpdatePolicy) (ok exists_ : bool) : text :=
  if ok then line "STORED"
  else if decide (policy = kCas) then if exists_ then line "EXISTS" else line "NOT_FOUND"
  else line "NOT_STORED".

(** An entry in the answer of a look-up. *)
Definition value_text (cas : bool) (k : text) (e : Entry) : text :=
  bytes "VALUE " ++ k ++ fmt_d (e_flags e) ++ bytes " " ++ fmt_d (zlen (e_value e)) ++
  (if cas then bytes " " ++ fmt_d (e_cas e) else []) ++ kCRLF ++ e_value e ++ kCRLF.

Definition values_text (cas : bool) (ks : list text) (m : gmap text Entry) : text :=
  concat (map (fun k => match m !! k with Some e => value_text cas k e | None => [] end) ks).

(** The reply to a request, and the map and the counter of tokens after it. *)
Definition spec_wire (w : wire) (p : gmap text Entry * Z) : text * (gmap text Entry * Z) :=
  let '(m, g) := p in
  match w with
  | WStore policy k v flags exptime cas =>
      if max_value <? zlen v then (line "SERVER_ERROR object too large for cache", (delete k m, g))
      else
        let '(ok, m') := spec_store (taken_policy policy) k (mkEntry flags exptime v cas) (g + 1) m in
        (store_reply policy ok (bool_decide (is_Some (m !! k))), (m', if ok : bool then g + 1 else g))
  | WGet cas ks => (values_text cas ks m ++ line "END", p)
  | WDelete k => (if bool_decide (is_Some (m !! k)) then line "DELETED" else line "NOT_FOUND", (delete k m, g))
  | WVersion => (line "VERSION 0.01 memcached", p)
  | WUnknown _ _ => (line "ERROR", p)
  end.

Fixpoint spec_wires (ws : list wire) (p : gmap text Entry * Z) : text * (gmap text Entry * Z) :=
  match ws with
  | [] => ([], p)
  | w :: ws => let '(r, p) := spec_wire w p in let '(rs, p) := spec_wires ws p in (r ++ rs, p)
  end.

(** The requests within the limits: keys of at most 250 bytes, a relative
    expiration time, numbers of their types, a line of at most 1023 bytes. *)
Definition known_commands : list text :=
  [bytes "set"; bytes "add"; bytes "replace"; bytes "append"; bytes "prepend"; bytes "cas"; bytes "get"; bytes "gets";
   bytes "delete"; bytes "version"; bytes "quit"; bytes "shutdown"].

Definition good_key (k : text) : Prop := good_word k /\ zlen k <= 250.

Definition line_fits (w : wire) : Prop :=
  zlen (wire_line w) < 1024 /\
  match w with
  | WStore policy k v flags exptime cas =>
      good_key k /\ policy <> kInvalid /\
      0 <= flags < 2 ^ 32 /\ 0 <= exptime <= 60 * 60 * 24 * 30 /\ 0 <= cas < 2 ^ 64 /\ zlen v < 2 ^ 31 - 2
  | WGet _ ks => Forall good_key ks
  | WDelete k => good_key k
  | WVersion => True
  | WUnknown command args => good_word command /\ (command ∉ known_commands) /\ Forall good_word args
  end.

(** The update can be done: not "prepend", on which the server aborts. *)
Definition wire_fits (w : wire) (p : gmap text Entry * Z) : Prop :=
  line_fits w /\
  match w with
  | WStore policy k v _ _ _ =>
      policy <> kPrepend /\ p.2 < 2 ^ 63 - 1 /\ (zlen v <= max_value -> store_fits (taken_policy policy) k v p.1)
  | _ => True
  end.

Fixpoint wires_fit (ws : list wire) (p : gmap text Entry * Z) : Prop :=
  match ws with
  | [] => True
  | w :: ws => wire_fits w p /\ wires_fit ws (spec_wire w p).2
  end.

(** ** The states of a session *)

(** Between two requests, in the middle of a value (what has arrived, what is to
    come), or skipping a value. *)
Inductive phase : Type :=
| Idle
| Receiving (policy : UpdatePolicy) (k v : text) (flags exptime cas : Z) (got todo : text)
| Discarding (todo : text).

Definition phase_text (ph : phase) : text :=
  match ph with Idle => [] | Receiving _ _ _ _ _ _ _ todo => todo | Discarding todo => todo end.

(** The phase after the line of a request, and what the line alone has done. *)
Definition line_phase (w : wire) : phase :=
  match w with
  | WStore policy k v flags exptime cas =>
      if max_value <? zlen v then Discarding (v ++ kCRLF) else Receiving policy k v flags exptime cas [] (v ++ kCRLF)
  | _ => Idle
  end.

Definition line_effect (w : wire) (p : gmap text Entry * Z) : text * (gmap text Entry * Z) :=
  match w with
  | WStore _ _ v _ _ _ => if max_value <? zlen v then spec_wire w p else ([], p)
  | _ => spec_wire w p
  end.

Definition phase_effect (ph : phase) (p : gmap text Entry * Z) : text * (gmap text Entry * Z) :=
  match ph with
  | Receiving policy k v flags exptime cas _ _ => spec_wire (WStore policy k v flags exptime cas) p
  | _ => ([], p)
  end.

(** The replies to come, and the map and the counter at the end. *)
Definition expected (ph : phase) (ws : list wire) (p : gmap text Entry * Z) : text * (gmap text Entry * Z) :=
  let '(r, p) := phase_effect ph p in let '(rs, p) := spec_wires ws p in (r ++ rs, p).

Lemma wire_text_phase w : wire_text w = wire_line w ++ kCRLF ++ phase_text (line_phase w).
Proof. unfold wire_text. destruct w as [policy k v flags exptime cas| | | |]; try done. simpl. by destruct (max_value <? zlen v). Qed.

Lemma expected_line w ws p :
  expected Idle (w :: ws) p = let '(r, p) := line_effect w p in let '(rs, p) := expected (line_phase w) ws p in (r ++ rs, p).
Proof.
  unfold expected. cbn [phase_effect spec_wires].
  destruct w as [policy k v flags exptime cas| | | |]; cbn [line_effect line_phase];
    [destruct (max_value <? zlen v)|..]; cbn [phase_effect]; destruct (spec_wire _ p) as [r p']; cbn [phase_effect];
    by destruct (spec_wires ws p') as [rs p''].
Qed.

Section Session.
Context (malloc : Z -> list ascii) (hash_range : text -> Z) (tokens : char_range -> list StringPiece.StringPiece).
Context (write : nat -> list ascii -> write_result).
Context `{!Tokenizer tokens}.
Hypothesis malloc_size : forall n, 0 <= n -> zlen (malloc n) = n.
Hypothesis write_bounded : forall k data n, write k data = Wrote n -> 0 <= n <= zlen data.
Hypothesis write_ok : no_fault write.

(** The request of the session is the one of the phase. *)
Definition phase_rep (ph : phase) (s : Session) : Prop :=
  match ph with
  | Idle => s_state s = kNewCommand /\ command_ s = [] /\ policy_ s = kInvalid /\ currItem_ s = None /\ bytesToDiscard_ s = 0
  | Receiving policy k v flags exptime cas got todo =>
      s_state s = kReceiveValue /\ policy_ s = taken_policy policy /\ got ++ todo = v ++ kCRLF /\ todo <> [] /\
      zlen k <= 250 /\ zlen v <= max_value /\
      exists x, currItem_ s = Some x /\ holds hash_range x k got (zlen v + 2) /\
        flags_ x = flags /\ rel_exptime_ x = exptime /\ (policy = kCas -> cas_ x = cas)
  | Discarding todo =>
      s_state s = kDiscardValue /\ currItem_ s = None /\ bytesToDiscard_ s = zlen todo /\ todo <> [] /\ zlen todo < 2 ^ 31
  end.

(** The flags and the tokens of the entries are within their types. *)
Definition entries_bounded (p : gmap text Entry * Z) : Prop :=
  forall k e, p.1 !! k = Some e -> 0 <= e_flags e < 2 ^ 32 /\ 0 <= e_cas e <= p.2.

(** The session works on a connection that is up and on a store that holds [m]. *)
Record MemRep (ph : phase) (p : gmap text Entry * Z) (s : Session) (st : MemcacheServer) : Prop := mkMemRep {
  mr_conn : CInv 0 (s_conn s);
  mr_up : TcpConnection.state_ (s_conn s) = kConnected;
  mr_protocol : protocol_ s = kAscii;
  mr_reply : noreply_ s = false;
  mr_needle : is_needle (needle_ s);
  mr_out : repr (outputBuf_ s) [];
  mr_store : StoreInv hash_range st;
  mr_map : Rep hash_range st p.1;
  mr_tokens : g_cas st = p.2 /\ 0 <= p.2 < 2 ^ 63;
  mr_bounds : entries_bounded p;
  mr_phase : phase_rep ph s
}.

Lemma MemRep_input ph p s st b : MemRep ph p s st -> wf b -> MemRep ph p (with_input b s) st.
Proof.
  intros [H1 H2 H3 H4 H5 H6 H7 H8 H9 H10 H11] Hb. constructor; try done; try (by apply CInv_input).
Qed.

(** *** Replies *)

Lemma reply_sends msg s : CInv 0 (s_conn s) -> TcpConnection.state_ (s_conn s) = kConnected -> noreply_ s = false ->
  zlen msg <= max_size ->
  unless too_long (reply write msg s) (fun s' => exists c', s' = with_conn c' s /\ sent_on (s_conn s) c' msg).
Proof.
  intros Hc Hup Hn Hl. unfold reply, send. rewrite Hn, (proj2 (connected_spec _) Hup).
  eapply unless_bind; [apply (sendInLoop_started write write_bounded); try done; by rewrite Hup|].
  intros c' _ (H1 & H2 & H3 & H4). simpl. exists c'. split; [done|]. unfold sent_on. rewrite (proj2 (connected_spec _) Hup).
  split_and!; try done. unfold stream. rewrite <- app_assoc. apply H4; [by rewrite Hup|done].
Qed.

Lemma MemRep_conn ph p s st c : MemRep ph p s st -> CInv 0 c -> TcpConnection.state_ c = kConnected ->
  MemRep ph p (with_conn c s) st.
Proof. intros [H1 H2 H3 H4 H5 H6 H7 H8 H9 H10 H11] Hc Hup. constructor; try done. Qed.

Lemma reply_rep msg ph p s st : MemRep ph p s st -> zlen msg <= max_size ->
  unless too_long (reply write msg s) (fun s' => MemRep ph p s' st /\ s_input s' = s_input s /\
    stream (s_conn s') = stream (s_conn s) ++ msg).
Proof.
  intros H Hl. eapply unless_mono; [apply reply_sends; try apply H; done|].
  intros s' _ (c' & -> & H1 & H2 & H3 & H4). rewrite (proj2 (connected_spec _) (mr_up _ _ _ _ H)) in H4.
  split; [|done]. apply MemRep_conn; try done. rewrite H2. apply H.
Qed.

(** *** Look-ups *)

Lemma of_string_plain s : StringPiece.NUL ∉ s -> zlen s < 2 ^ 31 ->
  exists p, StringPiece.of_string s = Ok p /\ StringPiece.wf p /\ StringPiece.chars p = s /\ StringPiece.size p = zlen s.
Proof.
  intros Hn Hl. unfold StringPiece.of_string. rewrite StringPiece.strlen_c_str.
  assert (E : StringPiece.until_nul s = s).
  { clear Hl. induction s as [|c s IH]; [done|]. simpl. rewrite decide_False by (intros ->; apply Hn; left). f_equal. apply IH.
    intros H. apply Hn. by right. }
  rewrite E. cbn [mbind outcome_bind]. pose proof (zlen_nonneg s). rewrite i32_small by lia. eexists. split; [done|].
  unfold StringPiece.wf, StringPiece.chars, StringPiece.c_str. simpl. rewrite zlen_app. split_and!; try (done || lia).
  - change (zlen [StringPiece.NUL]) with 1. lia.
  - by apply ztake_app_exact.
Qed.

Lemma append_piece_long b s p : repr b s -> StringPiece.wf p ->
  unless too_long (append_piece b p) (fun b' => repr b' (s ++ StringPiece.chars p)).
Proof.
  intros Hb [H1 H2]. unfold append_piece, StringPiece.chars, StringPiece.size, StringPiece.data.
  rewrite StringPiece.u64_nonneg_i32 by lia. unfold max_size in *.
  destruct (append_cases b s (StringPiece.ptr_ p) (StringPiece.length_ p) Hb) as [[-> _]|(b' & -> & Hr & _)]; [lia|unfold max_size; lia|done..].
Qed.

Lemma append_long b s d n : repr b s -> 0 <= n <= zlen d -> n < 2 ^ 31 ->
  unless too_long (append b d n) (fun b' => repr b' (s ++ ztake n d)).
Proof.
  intros Hb Hn Hl. destruct (append_cases b s d n Hb Hn) as [[-> _]|(b' & -> & Hr & _)]; [unfold max_size; lia|done..].
Qed.

Lemma item_output_text cas x k v out s : complete hash_range x k v -> zlen k <= 250 -> repr out s -> 0 <= flags_ x < 2 ^ 32 -> 0 <= cas_ x < 2 ^ 64 ->
  unless too_long (item_output cas x out) (fun out' =>
    repr out' (s ++ value_text cas k (mkEntry (flags_ x) (rel_exptime_ x) v (cas_ x)))).
Proof.
  intros Hx Hk Hout Hf Hc. unfold item_output.
  destruct (of_string_plain (bytes "VALUE ")) as (p & E & Hp & Hch & _); [by_compute|done|].
  change (StringPiece.of_cstr (StringPiece.c_str (bytes "VALUE "))) with (StringPiece.of_string (bytes "VALUE ")). rewrite E.
  cbn [mbind outcome_bind]. eapply unless_bind; [by apply append_piece_long|]. intros b1 _ H1. rewrite Hch in H1.
  destruct (complete_data hash_range x k v Hx) as [junk Ed]. pose proof (zlen_nonneg k). pose proof (zlen_nonneg v).
  pose proof (ho_fit _ _ _ _ _ Hx) as Hfit. rewrite (ho_key _ _ _ _ _ Hx), (ho_len _ _ _ _ _ Hx), (u64_small (zlen k)), (u64_small (zlen v + 2)) by lia.
  replace (zlen v + 2 - 2) with (zlen v) by lia. rewrite i32_small by lia.
  eapply unless_bind; [apply append_long; [exact H1| |lia]|].
  { rewrite Ed, zlen_app. pose proof (zlen_nonneg ((v ++ kCRLF) ++ junk)). lia. }
  intros b2 _ H2. rewrite Ed, ztake_app_exact in H2 by done.
  set (buf := fmt_d (flags_ x) ++ _). destruct (of_string_plain buf) as (q & -> & Hq & Hcq & _).
  { unfold buf. assert (Hd : forall z, StringPiece.NUL ∉ fmt_d z) by (intros z H'%fmt_d_digits; by vm_compute in H').
    assert (Hs : StringPiece.NUL ∉ bytes " ") by by_compute. assert (Hcr : StringPiece.NUL ∉ kCRLF) by by_compute.
    rewrite !not_elem_of_app. split_and!; try done. destruct cas; [rewrite not_elem_of_app; done|apply not_elem_of_nil]. }
  { unfold buf. pose proof (zlen_fmt_d 10 (flags_ x) ltac:(lia) ltac:(lia)). pose proof (zlen_fmt_d 10 (zlen v) ltac:(lia) ltac:(lia)).
    pose proof (zlen_fmt_d 20 (cas_ x) ltac:(lia) ltac:(lia)). rewrite !zlen_app. change (zlen kCRLF) with 2. change (zlen (bytes " ")) with 1.
    destruct cas; [rewrite zlen_app; change (zlen (bytes " ")) with 1|rewrite zlen_nil]; lia. }
  cbn [mbind outcome_bind]. eapply unless_bind; [by apply append_piece_long|]. intros b3 _ H3. rewrite Hcq in H3.
  destruct (complete_value hash_range x k v Hx) as [junk' Ev].
  assert (Et : ztake (zlen v + 2) (item_value x) = v ++ kCRLF) by (rewrite Ev, app_assoc; apply ztake_app_exact; by rewrite zlen_app).
  eapply unless_mono; [apply append_long; [exact H3| |lia]|].
  { rewrite Ev, !zlen_app. change (zlen kCRLF) with 2. pose proof (zlen_nonneg junk'). lia. }
  intros b4 _ H4. rewrite Et in H4. unfold value_text, buf in *. cbn [e_flags e_value e_cas]. by rewrite <- !app_assoc in *.
Qed.

Lemma get_keys_text cas ks ts p st : Forall2 is_token ks ts -> Forall good_key ks -> StoreInv hash_range st ->
  Rep hash_range st p.1 -> entries_bounded p -> p.2 < 2 ^ 63 ->
  forall s o, is_needle (needle_ s) -> repr (outputBuf_ s) o ->
  unless too_long (get_keys hash_range write cas ts s st) (fun r => r.1 = true /\
    exists x b, r.2 = with_needle x b s /\ is_needle x /\ repr b (o ++ values_text cas ks p.1)).
Proof.
  intros Hts Hks Hi Hm Hbd Hg. induction Hts as [|k t ks ts Ht _ IH]; intros s o Hn Ho; cbn [get_keys].
  - split; [done|]. exists (needle_ s), (outputBuf_ s). unfold values_text. cbn [map concat]. rewrite app_nil_r. by destruct s.
  - apply Forall_cons in Hks as [[_ Hk] Hks]. specialize (IH Hks). destruct (is_token_wf k t Ht ltac:(lia)) as [Hw Hch].
    assert (Hsz : StringPiece.size t = zlen k) by apply Ht. rewrite Hsz. unfold kLongestKeySize. zguard.
    destruct (resetKey_needle hash_range (needle_ s) t Hn Hw ltac:(lia)) as (x & -> & Hx & Hx'). rewrite Hch in Hx.
    cbn [mbind outcome_bind]. pose proof (getItem_refines malloc hash_range malloc_size x k st p.1 Hi Hm Hx) as Hget.
    assert (Hout : unless too_long (match getItem x st with Some item => item_output cas item (outputBuf_ s) | None => Ok (outputBuf_ s) end)
      (fun b => repr b (o ++ match p.1 !! k with Some e => value_text cas k e | None => [] end))).
    { destruct (getItem x st) as [old|]; [|rewrite Hget; simpl; by rewrite app_nil_r]. destruct Hget as (v & Hv & E).
      rewrite E. destruct (Hbd k _ E) as [B1 B2]. simpl in B1, B2. apply item_output_text; done || lia. }
    eapply unless_bind; [exact Hout|]. intros b _ Hb.
    eapply unless_mono; [apply (IH (with_needle x b s) _ Hx' Hb)|]. intros [good s'] _ (-> & y & b' & -> & Hy & Hb').
    split; [done|]. exists y, b'. split_and!; [by destruct s|done|]. unfold values_text in *. cbn [map concat]. by rewrite app_assoc.
Qed.

Lemma CInv_output c b : CInv 0 c -> repr b (pending_output c) -> CInv 0 (set_output b c).
Proof.
  intros [H1 H2 H3 H4 H5 H6] [Hb E]. constructor; try done. unfold pending_output at 1. simpl. by rewrite E.
Qed.

(** The answer of a look-up is sent, and the buffer of the session emptied. *)
Lemma get_answer_sends s o : repr (outputBuf_ s) o -> zlen o + 5 < 2 ^ 31 -> CInv 0 (s_conn s) ->
  TcpConnection.state_ (s_conn s) = kConnected -> zlen (stream (s_conn s)) < 2 ^ 31 ->
  unless too_long (get_answer write s) (fun s' => exists c b, s' = with_conn c (with_needle (needle_ s) b s) /\ repr b [] /\
    sent_on (s_conn s) c (o ++ line "END")).
Proof.
  intros Ho Hol Hc Hup Hl. unfold get_answer.
  destruct (of_string_plain (line "END")) as (p & E & Hp & Hch & _); [by_compute|done|].
  change (StringPiece.of_cstr (StringPiece.c_str (line "END"))) with (StringPiece.of_string (line "END")). rewrite E.
  cbn [mbind outcome_bind]. eapply unless_bind; [by apply append_piece_long|]. intros b _ Hb. rewrite Hch in Hb.
  assert (Hz : zlen (o ++ line "END") = zlen o + 5) by (by rewrite zlen_app). pose proof (zlen_nonneg o).
  rewrite (readable_repr _ _ Hb), Hz, u64_small by lia.
  assert (Hpo : zlen (pending_output (s_conn s)) < 2 ^ 31).
  { unfold stream in Hl. rewrite zlen_app in Hl. pose proof (zlen_nonneg (sent (s_conn s))). lia. }
  assert (Hob : repr (outputBuffer_ (s_conn s)) (pending_output (s_conn s))) by (split; [apply Hc|done]).
  assert (Hs : exists ob, (if 65536 + (zlen o + 5) <? writableBytes (outputBuffer_ (s_conn s))
      then shrink (outputBuffer_ (s_conn s)) (65536 + (zlen o + 5)) else Ok (outputBuffer_ (s_conn s))) = Ok ob /\
      repr ob (pending_output (s_conn s))).
  { destruct (_ <? _); [|by eexists]. apply shrink_repr; done || lia. }
  destruct Hs as (ob & -> & Hob'). cbn [mbind outcome_bind].
  pose proof (CInv_output _ _ Hc Hob') as Hc'.
  assert (Hup' : connected (set_output ob (s_conn s)) = true) by (by apply connected_spec).
  pose proof (send_buffer_started write write_bounded b _ (set_output ob (s_conn s)) Hb Hc') as Hsend.
  unfold send_buffer in *. rewrite Hup' in *. eapply unless_bind; [apply Hsend; simpl; congruence|].
  intros [b' c'] Eq (H1 & H2 & H3 & H4). simpl. exists c', b'. split; [done|].
  destruct (sendInLoop write _ (set_output ob (s_conn s))) as [c''|f]; [|done]. injection Eq as <- <-.
  split; [by eapply retrieveAll_repr|]. unfold sent_on. simpl in *. rewrite (proj2 (connected_spec _) Hup). split_and!; try done.
  unfold stream. rewrite <- app_assoc, H4 by done. by destruct Hob' as [_ <-].
Qed.

(** *** Request lines *)

(** The session in the middle of a request line. *)
Definition started (cmd : text) (s : Session) : Session := with_request cmd false kInvalid None 0 s.

(** What the line of [w] leaves behind. *)
Definition line_done (w : wire) (p : gmap text Entry * Z) (s : Session) (r : bool * Session * MemcacheServer) : Prop :=
  let '(finished, s', st') := r in
  s_input s' = s_input s /\ stream (s_conn s') = stream (s_conn s) ++ (line_effect w p).1 /\
  MemRep (line_phase w) (line_effect w p).2 (if finished then resetRequest s' else s') st'.

(** A request that is finished with its line. *)
Lemma MemRep_finish p p' s st st' cmd c x b pol item n : MemRep Idle p s st -> CInv 0 c -> TcpConnection.state_ c = kConnected ->
  is_needle x -> repr b [] -> StoreInv hash_range st' -> Rep hash_range st' p'.1 -> g_cas st' = p'.2 -> p'.2 = p.2 -> entries_bounded p' ->
  MemRep Idle p' (resetRequest (with_conn c (with_needle x b (with_request cmd false pol item n s)))) st'.
Proof.
  intros [H1 H2 H3 H4 H5 H6 H7 H8 H9 H10 H11] Hc Hup Hx Hb Hi Hm Hg Ep Hbd. constructor; try done.
  - rewrite Ep. split; [congruence|apply H9].
  - by destruct H11 as (? & _).
Qed.

Lemma reply_started msg cmd p s st x b pol item n : MemRep Idle p s st -> zlen msg <= max_size ->
  unless too_long (reply write msg (with_needle x b (with_request cmd false pol item n s))) (fun s' => exists c,
    s' = with_conn c (with_needle x b (with_request cmd false pol item n s)) /\ sent_on (s_conn s) c msg).
Proof. intros H Hl. apply (reply_sends msg (with_needle x b (with_request cmd false pol item n s))); try apply H; done. Qed.

Lemma sent_on_up c c' bs : sent_on c c' bs -> TcpConnection.state_ c = kConnected ->
  CInv 0 c' /\ TcpConnection.state_ c' = kConnected /\ inputBuffer_ c' = inputBuffer_ c /\ stream c' = stream c ++ bs.
Proof. intros (H1 & H2 & H3 & H4) Hup. rewrite (proj2 (connected_spec _) Hup) in H4. split_and!; done || congruence. Qed.

Lemma with_needle_same s : with_needle (needle_ s) (outputBuf_ s) s = s.
Proof. by destruct s. Qed.

Lemma run_get cas ks ts p s st : MemRep Idle p s st -> Forall2 is_token ks ts -> Forall good_key ks ->
  zlen (stream (s_conn s) ++ (spec_wire (WGet cas ks) p).1) < 2 ^ 31 ->
  unless too_long (run_command malloc hash_range write ts (started (wire_words (WGet cas ks)).1 s) st)
    (line_done (WGet cas ks) p s).
Proof.
  intros H Hts Hks Hl. destruct p as [m g]. simpl in Hl. rewrite !zlen_app in Hl.
  pose proof (zlen_nonneg (values_text cas ks m)). pose proof (zlen_nonneg (stream (s_conn s))). change (zlen (line "END")) with 5 in Hl.
  assert (Hcmd : run_command malloc hash_range write ts (started (wire_words (WGet cas ks)).1 s) st =
    ('(good, s) ← get_keys hash_range write cas ts (started (wire_words (WGet cas ks)).1 s) st;
     if good : bool then s ← get_answer write s; Ok (true, s, st) else Ok (true, s, st))) by (by destruct cas).
  rewrite Hcmd. eapply unless_bind; [eapply (get_keys_text cas ks ts (m, g) st); try apply H; done|].
  intros [good s1] _ (Eg & x & b & Es & Hx & Hb). simpl in Eg, Es. subst good s1. cbv beta iota.
  eapply unless_bind; [apply (get_answer_sends _ (values_text cas ks m)); simpl; try apply H; try done; lia|].
  intros s2 _ (c & b' & -> & Hb' & Hsent). apply sent_on_up in Hsent as (C1 & C2 & C3 & C4); [|apply H].
  split; [done|]. split; [exact C4|].
  apply (MemRep_finish (m, g) (m, g) s st st (wire_words (WGet cas ks)).1 c x b' kInvalid None 0); try done; try apply H.
Qed.

Lemma run_delete k t p s st : MemRep Idle p s st -> is_token k t -> good_key k ->
  unless too_long (run_command malloc hash_range write [t] (started (bytes "delete") s) st) (line_done (WDelete k) p s).
Proof.
  intros H Ht [_ Hk]. destruct p as [m g]. change (run_command malloc hash_range write [t] (started (bytes "delete") s) st) with
    ('(s, st) ← doDelete hash_range write [t] (started (bytes "delete") s) st; Ok (true, s, st)).
  unfold doDelete. cbn [token_at mbind outcome_bind]. assert (Hsz : StringPiece.size t = zlen k) by apply Ht.
  destruct (is_token_wf k t Ht ltac:(lia)) as [Hw Hch].
  rewrite Hsz. unfold kLongestKeySize. zguard.
  destruct (resetKey_needle hash_range (needle_ s) t (mr_needle _ _ _ _ H) Hw ltac:(lia)) as (x & E & Hx & Hx'). rewrite Hch in Hx.
  change (needle_ (started (bytes "delete") s)) with (needle_ s). rewrite E. cbn [mbind outcome_bind].
  destruct (deleteItem_refines malloc hash_range malloc_size x k st m (mr_store _ _ _ _ H) (mr_map _ _ _ _ H) Hx) as (st' & -> & R1 & R2 & R3 & _).
  unfold started. change (outputBuf_ (with_request (bytes "delete") false kInvalid None 0 s)) with (outputBuf_ s).
  set (msg := if bool_decide (is_Some (m !! k)) then line "DELETED" else line "NOT_FOUND").
  assert (Hmsg : zlen msg <= max_size) by (unfold msg; by destruct (bool_decide _)).
  pose proof (reply_started msg (bytes "delete") (m, g) s st x (outputBuf_ s) kInvalid None 0 H Hmsg) as Hr.
  destruct (reply write msg _) as [s'|f]; [|exact Hr]. destruct Hr as (c & -> & Hsent). cbn [mbind outcome_bind unless].
  apply sent_on_up in Hsent as (C1 & C2 & C3 & C4); [|apply H]. split; [done|]. split; [exact C4|].
  apply (MemRep_finish (m, g) (delete k m, g) s st st' (bytes "delete") c x (outputBuf_ s) kInvalid None 0); try done; try apply H.
  - rewrite R3. apply H.
  - intros k' e He. simpl in He. apply lookup_delete_Some in He as [_ He]. by apply (mr_bounds _ _ _ _ H k' e).
Qed.

(** The commands that only reply. *)
Lemma run_reply w msg cmd ts p s st : MemRep Idle p s st -> line_phase w = Idle -> line_effect w p = (msg, p) -> zlen msg <= max_size ->
  run_command malloc hash_range write ts (started cmd s) st = (s ← reply write msg (started cmd s); Ok (true, s, st)) ->
  unless too_long (run_command malloc hash_range write ts (started cmd s) st) (line_done w p s).
Proof.
  intros H Hph Heff Hl ->. pose proof (reply_started msg cmd p s st (needle_ s) (outputBuf_ s) kInvalid None 0 H Hl) as Hr.
  change (with_needle (needle_ s) (outputBuf_ s) (with_request cmd false kInvalid None 0 s)) with (started cmd s) in Hr.
  destruct (reply write msg _) as [s'|f]; [|exact Hr]. destruct Hr as (c & -> & Hsent). cbn [mbind outcome_bind unless].
  apply sent_on_up in Hsent as (C1 & C2 & C3 & C4); [|apply H]. unfold line_done. rewrite Hph, Heff. split; [done|].
  split; [exact C4|]. apply (MemRep_finish p p s st st cmd c (needle_ s) (outputBuf_ s) kInvalid None 0); try done; apply H.
Qed.

Lemma run_unknown cmd args ts p s st : MemRep Idle p s st -> cmd ∉ known_commands ->
  unless too_long (run_command malloc hash_range write ts (started cmd s) st) (line_done (WUnknown cmd args) p s).
Proof.
  intros H Hc. apply (run_reply _ (line "ERROR")); try done; [by destruct p|].
  assert (Hne : forall x, x ∈ known_commands -> cmd <> x) by (intros x Hx ->; done).
  unfold run_command, update_command. change (command_ (started cmd s)) with cmd.
  rewrite !bool_decide_false by (rewrite !elem_of_cons, elem_of_nil; intros Hin; decompose [or] Hin; try done; subst; apply Hc; by_compute).
  rewrite !decide_False by (apply Hne; by_compute). done.
Qed.

(** What [doUpdate] does with a line in good order. *)
Lemma doUpdate_line policy k v flags exptime cas ts s st :
  line_fits (WStore policy k v flags exptime cas) ->
  Forall2 is_token (wire_words (WStore policy k v flags exptime cas)).2 ts ->
  exists t cas', is_token k t /\ (policy = kCas -> cas' = cas) /\
  doUpdate malloc hash_range write ts (started (command_name policy) s) st =
    (let s := with_request (command_name policy) false (taken_policy policy) None 0 s in
     if max_value <? zlen v then
       s ← reply write (line "SERVER_ERROR object too large for cache") s;
       needle ← resetKey hash_range t (needle_ s);
       let '(_, st) := deleteItem needle st in
       let s := with_request (command_ s) (noreply_ s) (policy_ s) (currItem_ s) (u64 (i32 (zlen v + 2)))
                  (with_needle needle (outputBuf_ s) s) in
       Ok (false, with_state kDiscardValue s, st)
     else
       item ← new_Item malloc hash_range t flags exptime (zlen v + 2) cas';
       let s := with_request (command_ s) (noreply_ s) (policy_ s) (Some item) (bytesToDiscard_ s) s in
       Ok (false, with_state kReceiveValue s, st)).
Proof.
  intros (_ & Hk & Hp & Hfl & Hex & Hcas & Hv) Hts. cbn [wire_words snd app] in Hts. pose proof (zlen_nonneg v).
  apply Forall2_cons_inv_l in Hts as (t & ts1 & Ht & Hts & ->). apply Forall2_cons_inv_l in Hts as (t1 & ts2 & Ht1 & Hts & ->).
  apply Forall2_cons_inv_l in Hts as (t2 & ts3 & Ht2 & Hts & ->). apply Forall2_cons_inv_l in Hts as (t3 & ts4 & Ht3 & Hts & ->).
  exists t, (if decide (policy = kCas) then cas else 0). split; [done|]. split; [intros ->; done|]. unfold doUpdate.
  assert (Hpol : policy_of (command_ (started (command_name policy) s)) (policy_ (started (command_name policy) s)) = taken_policy policy)
    by (by destruct policy).
  rewrite Hpol. cbn [token_at mbind outcome_bind]. assert (Hsz : StringPiece.size t = zlen k) by apply Ht. destruct Hk as [_ Hk].
  rewrite Hsz. unfold kLongestKeySize. rewrite (proj2 (Z.leb_le (zlen k) 250)) by lia.
  rewrite (reader_read_token flags t1 _ Ht1) by lia. cbn [mbind outcome_bind from_option].
  rewrite (reader_read_token exptime t2 _ Ht2) by lia. cbn [mbind outcome_bind from_option].
  rewrite (reader_read_token (zlen v) t3 _ Ht3) by lia. cbn [mbind outcome_bind from_option].
  assert (E1 : u32 flags = flags) by (apply uwrap_small; unfold in_u; lia).
  assert (E2 : i64 exptime = exptime) by (apply swrap_small; [done|unfold in_s; simpl; lia]).
  assert (E3 : i32 (zlen v) = zlen v) by (apply i32_small; lia). assert (E4 : i32 exptime = exptime) by (apply i32_small; lia).
  rewrite E1, E2, E3, E4. rewrite (proj2 (Z.ltb_ge (60 * 60 * 24 * 30) exptime)) by lia. cbn [andb].
  assert (Hc : (if bool_decide (policy_ (with_request (command_ (started (command_name policy) s)) (noreply_ (started (command_name policy) s))
      (taken_policy policy) (currItem_ (started (command_name policy) s)) (bytesToDiscard_ (started (command_name policy) s))
      (started (command_name policy) s)) = kCas)
    then '(g, x, _) ← reader_read ts4; Ok (g, from_option u64 0 x) else Ok (true, 0)) =
    Ok (true, if decide (policy = kCas) then cas else 0)).
  { simpl. destruct (decide (policy = kCas)) as [->|Hne].
    - change (Forall2 is_token [fmt_d cas] ts4) in Hts. apply Forall2_cons_inv_l in Hts as (t4 & ts5 & Ht4 & _ & ->).
      rewrite bool_decide_true, (reader_read_token cas t4 _ Ht4) by done. simpl. by rewrite u64_small.
    - rewrite bool_decide_false; [done|]. by destruct policy. }
  rewrite Hc. cbn [mbind outcome_bind negb]. fold max_value. by rewrite (i32_small (zlen v + 2)) by lia.
Qed.

Lemma run_store policy k v flags exptime cas ts p s st : MemRep Idle p s st ->
  line_fits (WStore policy k v flags exptime cas) ->
  Forall2 is_token (wire_words (WStore policy k v flags exptime cas)).2 ts ->
  unless too_long (run_command malloc hash_range write ts (started (command_name policy) s) st)
    (line_done (WStore policy k v flags exptime cas) p s).
Proof.
  intros H Hfit Hts. destruct (doUpdate_line policy k v flags exptime cas ts s st Hfit Hts) as (t & cas' & Ht & Hcas & E).
  destruct Hfit as (_ & [_ Hk] & Hp & _ & _ & _ & Hv). pose proof (zlen_nonneg v). pose proof (zlen_nonneg k).
  assert (Hrun : run_command malloc hash_range write ts (started (command_name policy) s) st =
    doUpdate malloc hash_range write ts (started (command_name policy) s) st) by (by destruct policy).
  rewrite Hrun, E. clear E Hrun Hts. cbv zeta. destruct (is_token_wf k t Ht ltac:(lia)) as [Hw Hch].
  assert (Hsz : StringPiece.size t = zlen k) by apply Ht. unfold line_done, line_effect, line_phase, max_value.
  destruct p as [m g]. destruct (Z.ltb_spec (1024 * 1024) (zlen v)) as [Hbig|Hbig].
  - pose proof (reply_started (line "SERVER_ERROR object too large for cache") (command_name policy) (m, g) s st (needle_ s) (outputBuf_ s)
      (taken_policy policy) None 0 H ltac:(done)) as Hr. set (s1 := with_request _ _ _ _ _ s) in *.
    rewrite (with_needle_same s1 : with_needle (needle_ s) (outputBuf_ s) s1 = s1) in Hr.
    destruct (reply write _ s1) as [s'|f]; [|exact Hr]. destruct Hr as (c & -> & Hsent). cbn [mbind outcome_bind].
    destruct (resetKey_needle hash_range (needle_ s) t (mr_needle _ _ _ _ H) Hw ltac:(lia)) as (x & Ex & Hx & Hx'). rewrite Hch in Hx.
    change (needle_ (with_conn c s1)) with (needle_ s). rewrite Ex. cbn [mbind outcome_bind].
    destruct (deleteItem_refines malloc hash_range malloc_size x k st m (mr_store _ _ _ _ H) (mr_map _ _ _ _ H) Hx) as (st' & -> & R1 & R2 & R3 & _).
    apply sent_on_up in Hsent as (C1 & C2 & C3 & C4); [|apply H]. simpl. unfold max_value. zguard. split; [done|]. split; [exact C4|].
    constructor; try done; try apply H; simpl.
    + rewrite R3. apply H.
    + intros k' e He. simpl in He. apply lookup_delete_Some in He as [_ He]. by apply (mr_bounds _ _ _ _ H k' e).
    + rewrite zlen_app, i32_small, u64_small by lia. change (zlen kCRLF) with 2. split_and!; try done; [|lia].
      by destruct v.
  - destruct (new_Item_holds malloc hash_range malloc_size t flags exptime (zlen v + 2) cas' Hw) as (x & -> & Hx & F1 & F2 & F3); [lia..|].
    rewrite Hch in Hx. cbn [mbind outcome_bind unless]. simpl. rewrite app_nil_r. split; [done|]. split; [done|].
    constructor; try done; try apply H; simpl. split_and!; try done; [by destruct v|].
    exists x. split_and!; try done. intros Hc. rewrite F3. auto.
Qed.

Lemma asks_noreply_never p : asks_noreply p = Ok false.
Proof. unfold asks_noreply. by destruct (8 <=? StringPiece.size p). Qed.

Lemma wire_words_good w : line_fits w -> good_word (wire_words w).1 /\ Forall good_word (wire_words w).2.
Proof.
  intros [_ H]. destruct w as [policy k v flags exptime cas|cas ks|k| |cmd args]; cbn [wire_words fst snd].
  - destruct H as ([Hk _] & Hp & Hfl & Hex & Hcas & _). split; [destruct policy; by_compute || done|].
    cbn [app]. pose proof (zlen_nonneg v). repeat constructor; try apply Hk; try (apply fmt_d_word; lia).
    destruct (decide (policy = kCas)); [|constructor]. repeat constructor; apply fmt_d_word; lia.
  - split; [destruct cas; by_compute|]. eapply Forall_impl; [exact H|]. by intros k [Hk _].
  - split; [by_compute|]. repeat constructor; apply H.
  - split; [by_compute|constructor].
  - by destruct H as (? & _ & ?).
Qed.

(** A line of words is cut into its tokens. *)
Lemma process_words cmd args p s st rest : MemRep Idle p s st -> good_word cmd -> Forall good_word args -> zlen (cmd ++ words args) < 2 ^ 31 ->
  exists ts s1, Forall2 is_token args ts /\ MemRep Idle p s1 st /\ s_conn s1 = s_conn s /\
    processRequest malloc hash_range tokens write (StringPiece.of_range ((cmd ++ words args) ++ kCRLF ++ rest) (zlen (cmd ++ words args))) s st =
    run_command malloc hash_range write ts (started cmd s1) st.
Proof.
  intros H Hw1 Hw2 Hl. destruct (mr_phase _ _ _ _ H) as (K1 & K2 & K3 & K4 & K5).
  unfold processRequest. rewrite K2, K3, K4, K5, (mr_reply _ _ _ _ H), asks_noreply_never. cbn [negb]. rewrite !bool_decide_true by done.
  cbn [assert_ Z.eqb mbind outcome_bind].
  pose proof (tokens_line tokens _ _ (kCRLF ++ rest) Hw1 Hw2 Hl eq_refl) as Hts.
  rewrite app_assoc in Hts. cbn [StringPiece.data StringPiece.size StringPiece.of_range StringPiece.ptr_ StringPiece.length_].
  destruct (tokens _) as [|t ts]; [by inversion Hts|]. apply Forall2_cons in Hts as [Ht Hts].
  rewrite zlen_app in Hl. pose proof (zlen_nonneg (words args)). rewrite (CopyToString_token _ _ Ht ltac:(lia)). cbn [mbind outcome_bind].
  set (s1 := with_counts (protocol_ s) (bytesRead_ s) (u64 (requestsProcessed_ s + 1)) s).
  exists ts, s1. split; [done|]. split; [destruct H; by constructor|]. split; [done|].
  f_equal. unfold started, with_request. cbn. by rewrite K3, K4, K5.
Qed.

Lemma process_line w p s st rest : MemRep Idle p s st -> line_fits w ->
  zlen (stream (s_conn s) ++ (line_effect w p).1) < 2 ^ 31 ->
  unless too_long (processRequest malloc hash_range tokens write
    (StringPiece.of_range (wire_line w ++ kCRLF ++ rest) (zlen (wire_line w))) s st) (line_done w p s).
Proof.
  intros H Hfit Hl. destruct (wire_words_good w Hfit) as [Hw1 Hw2].
  destruct (process_words (wire_words w).1 (wire_words w).2 p s st rest H Hw1 Hw2) as (ts & s1 & Hts & H1 & Ec & E).
  { destruct Hfit. unfold wire_line in *. lia. }
  unfold wire_line. rewrite E. clear E. rewrite <- Ec in Hl.
  assert (Hd : forall r, line_done w p s1 r -> line_done w p s r) by (intros [[fin s'] st']; unfold line_done, s_input; by rewrite Ec).
  eapply unless_mono; [|intros r _; apply Hd]. clear Hd.
  destruct w as [policy k v flags exptime cas|cas ks|k| |cmd args].
  - by apply run_store.
  - apply run_get; try done. apply Hfit.
  - cbn [wire_words snd] in Hts. apply Forall2_cons_inv_l in Hts as (t1 & ts1 & Ht1 & Hts & ->). apply Forall2_nil_inv_l in Hts as ->.
    apply run_delete; try done. apply Hfit.
  - apply (run_reply _ (line "VERSION 0.01 memcached")); try done. by destruct p.
  - apply run_unknown; [done|apply Hfit].
Qed.

(** *** Values *)

(** The flags and tokens after an update. *)
Lemma spec_store_bounded policy k v flags exptime cas m g : entries_bounded (m, g) -> 0 <= flags < 2 ^ 32 -> 0 <= g ->
  let '(ok, m') := spec_store policy k (mkEntry flags exptime v cas) (g + 1) m in
  entries_bounded (m', if ok then g + 1 else g).
Proof.
  intros Hb Hf Hg. assert (Hput : forall e, 0 <= e_flags e < 2 ^ 32 -> e_cas e = g + 1 -> entries_bounded (<[k := e]> m, g + 1)).
  { intros e He Hc k' e' Hk. simpl in *. apply lookup_insert_Some in Hk as [[_ <-]|[_ Hk]]; [lia|]. apply Hb in Hk. simpl in Hk. lia. }
  unfold spec_store. destruct (m !! k) as [old|] eqn:E; [pose proof (Hb _ _ E) as [Ho _]|]; destruct policy; try done; try (by apply Hput).
  cbv zeta. destruct (e_cas old =? _); [by apply Hput|done].
Qed.

(** The token of the client only matters to [cas]. *)
Lemma spec_store_cas policy k v flags exptime c c' g m : (policy = kCas -> c = c') ->
  spec_store policy k (mkEntry flags exptime v c) g m = spec_store policy k (mkEntry flags exptime v c') g m.
Proof. intros H. by destruct policy; try done; rewrite H. Qed.

(** A value that is complete is stored and answered. *)
Lemma store_value policy k v flags exptime cas x p s st :
  CInv 0 (s_conn s) -> TcpConnection.state_ (s_conn s) = kConnected -> protocol_ s = kAscii -> noreply_ s = false -> is_needle (needle_ s) ->
  repr (outputBuf_ s) [] -> StoreInv hash_range st -> Rep hash_range st p.1 -> g_cas st = p.2 /\ 0 <= p.2 < 2 ^ 63 -> entries_bounded p ->
  policy_ s = taken_policy policy -> zlen v <= max_value ->
  complete hash_range x k v -> flags_ x = flags -> rel_exptime_ x = exptime -> (policy = kCas -> cas_ x = cas) ->
  wire_fits (WStore policy k v flags exptime cas) p ->
  unless too_long (finish_value malloc hash_range write x s st)
    (fun r => MemRep Idle (spec_wire (WStore policy k v flags exptime cas) p).2 r.1 r.2 /\ s_input r.1 = s_input s /\
      stream (s_conn r.1) = stream (s_conn s) ++ (spec_wire (WStore policy k v flags exptime cas) p).1).
Proof.
  intros Hc Hup Hpr Hno Hn Ho Hi Hm [Hg Hg0] Hbd Hpol Hv Hx F1 F2 F3 ((_ & _ & Hp2 & Hfl & _) & Hp1 & Hg1 & Hfit).
  unfold finish_value. rewrite (complete_ends hash_range x k v Hx). destruct p as [m g]. simpl in *. specialize (Hfit Hv). subst g.
  pose proof (storeItem_refines malloc hash_range malloc_size x (taken_policy policy) k v st m Hi Hm Hx ltac:(lia) Hfit) as Hst. simpl in Hst.
  rewrite F1, F2 in Hst. rewrite (spec_store_cas _ _ _ _ _ (cas_ x) cas) in Hst by (destruct policy; simpl; auto; done).
  pose proof (spec_store_bounded (taken_policy policy) k v flags exptime cas m (g_cas st) Hbd Hfl ltac:(lia)) as Hbd'.
  unfold max_value in *. rewrite (proj2 (Z.ltb_ge (1024 * 1024) (zlen v))) by lia.
  destruct (spec_store (taken_policy policy) k (mkEntry flags exptime v cas) (g_cas st + 1) m) as [ok m'].
  destruct Hst as (st' & E & R1 & R2 & R3 & _). rewrite Hpol, E. cbn [mbind outcome_bind].
  set (ex := bool_decide (is_Some (m !! k))).
  assert (Hmsg : (if ok then line "STORED" else if decide (taken_policy policy = kCas) then if ex then line "EXISTS" else line "NOT_FOUND"
    else line "NOT_STORED") = store_reply policy ok ex) by (by destruct policy).
  rewrite Hmsg. pose proof (reply_sends (store_reply policy ok ex) s Hc Hup Hno) as Hr.
  assert (Hl : zlen (store_reply policy ok ex) <= max_size) by (unfold store_reply; by repeat case_match).
  specialize (Hr Hl). destruct (reply write _ s) as [s'|f]; [|exact Hr]. destruct Hr as (c & -> & Hsent). cbn [mbind outcome_bind unless fst snd].
  apply sent_on_up in Hsent as (C1 & C2 & C3 & C4); [|done]. split; [|done].
  constructor; try done. simpl. rewrite R3. split; [done|]. destruct ok; lia.
Qed.

(** *** Rounds of the loop *)

Definition wires_text (ws : list wire) : text := concat (map wire_text ws).

Definition all_fit (ph : phase) (ws : list wire) (p : gmap text Entry * Z) : Prop :=
  match ph with Receiving policy k v flags exptime cas _ _ => wire_fits (WStore policy k v flags exptime cas) p | _ => True end /\
  wires_fit ws (phase_effect ph p).2.

(** The session stands before [txt ++ later]: the rest of the phase and the requests [ws]; what it has
    sent and what it is expected to send are [total], and it ends with [final]. *)
Record At (txt later total : text) (final : gmap text Entry * Z) (ph : phase) (ws : list wire) (p : gmap text Entry * Z)
    (s : Session) (st : MemcacheServer) : Prop := mkAt {
  at_rep : MemRep ph p s st;
  at_input : repr (s_input s) txt;
  at_text : phase_text ph ++ wires_text ws = txt ++ later;
  at_fit : all_fit ph ws p;
  at_total : stream (s_conn s) ++ (expected ph ws p).1 = total;
  at_final : (expected ph ws p).2 = final
}.

(** After a round: fewer bytes to read. *)
Definition advanced (txt later total : text) (final : gmap text Entry * Z) (r : Session * MemcacheServer) : Prop :=
  exists ph ws p txt', At txt' later total final ph ws p r.1 r.2 /\ (length txt' < length txt)%nat.

Lemma buffer_memory b s : repr b s -> exists junk, zdrop (peek b) (buffer_ b) = s ++ junk.
Proof. intros H. regions H. exists q. unfold peek. simpl. by apply zdrop_app_exact. Qed.

(** The next [n] bytes of the stream are those at hand. *)
Lemma stream_take (todo rest txt later : text) n : todo ++ rest = txt ++ later -> 0 <= n <= zlen txt -> n <= zlen todo ->
  ztake n todo = ztake n txt /\ zdrop n todo ++ rest = zdrop n txt ++ later.
Proof.
  intros E H1 H2. split.
  - rewrite <- (ztake_app_le n todo rest), <- (ztake_app_le n txt later) by lia. by rewrite E.
  - rewrite <- (zdrop_app_le n todo rest), <- (zdrop_app_le n txt later) by lia. by rewrite E.
Qed.

Lemma zlen_pos (l : text) : l <> [] -> 0 < zlen l.
Proof. destruct l; [done|]. intros _. rewrite zlen_cons. pose proof (zlen_nonneg l). lia. Qed.

Lemma length_zdrop_lt n (l : text) : 0 < n -> l <> [] -> (length (zdrop n l) < length l)%nat.
Proof. intros Hn Hl. rewrite length_zdrop. destruct l; [done|]. simpl. lia. Qed.

Lemma discard_round todo ws p txt later total final s st : At txt later total final (Discarding todo) ws p s st -> txt <> [] ->
  unless too_long (discardValue s) (fun s' => advanced txt later total final (s', st)).
Proof.
  intros [H Hin Htxt Hfit Htot Hfin] Hne. destruct (mr_phase _ _ _ _ H) as (K1 & K2 & K3 & K4 & K5).
  unfold discardValue. rewrite K2, K3, (readable_repr _ _ Hin), bool_decide_true by done. cbn [assert_ mbind outcome_bind].
  pose proof (zlen_pos _ K4). pose proof (zlen_pos _ Hne). cbn [phase_text] in Htxt.
  destruct (Z.ltb_spec (zlen txt) (zlen todo)) as [Hlt|Hge].
  - destruct (stream_take todo _ txt later (zlen txt) Htxt ltac:(lia) ltac:(lia)) as [_ E]. rewrite (zdrop_all (zlen txt) txt) in E by lia.
    pose proof (retrieveAll_repr _ _ Hin) as Hb. set (s' := with_input _ _).
    exists (Discarding (zdrop (zlen txt) todo)), ws, p, []. split; [|simpl; by destruct txt; [|simpl; lia]].
    constructor; try done. destruct H. constructor; try done; [by apply CInv_input; [|apply Hb]|].
    assert (Hz : zlen (zdrop (zlen txt) todo) = zlen todo - zlen txt) by (apply zlen_zdrop; lia).
    split_and!; try done; [|intros E0; rewrite E0, zlen_nil in Hz; lia|lia]. simpl. rewrite Hz. apply u64_small. lia.
  - destruct (stream_take todo _ txt later (zlen todo) Htxt ltac:(lia) ltac:(lia)) as [_ E]. rewrite (zdrop_all (zlen todo) todo) in E by lia.
    destruct (retrieve_repr _ _ (zlen todo) Hin) as (b & -> & Hb & _); [lia|]. cbn [mbind outcome_bind unless].
    exists Idle, ws, p, (zdrop (zlen todo) txt). split; [|by apply length_zdrop_lt; [lia|]].
    constructor; try done. destruct H. constructor; try done. by apply CInv_input; [|apply Hb].
Qed.

Lemma receive_round policy k v flags exptime cas got todo ws p txt later total final s st :
  At txt later total final (Receiving policy k v flags exptime cas got todo) ws p s st -> txt <> [] ->
  unless too_long (receiveValue malloc hash_range write s st) (advanced txt later total final).
Proof.
  intros [H Hin Htxt [Hw Hfit] Htot Hfin] Hne. destruct (mr_phase _ _ _ _ H) as (K1 & K2 & K3 & K4 & K5 & K6 & x & K7 & Hx & F1 & F2 & F3).
  unfold receiveValue. rewrite K7, (readable_repr _ _ Hin). destruct (holds_needed hash_range x k got _ Hx) as [-> Hn0].
  pose proof (f_equal zlen K3) as Hlen. rewrite !zlen_app in Hlen. change (zlen kCRLF) with 2 in Hlen.
  replace (zlen v + 2 - zlen got) with (zlen todo) by lia. pose proof (zlen_pos _ K4). pose proof (zlen_pos _ Hne). cbn [phase_text] in Htxt.
  set (n := Z.min (zlen txt) (zlen todo)). destruct (stream_take todo _ txt later n Htxt ltac:(lia) ltac:(lia)) as [Et Ed].
  destruct (buffer_memory _ _ Hin) as [junk Ej]. rewrite Ej.
  destruct (item_append_holds hash_range x k got _ (txt ++ junk) n Hx) as (y & -> & Hy & S1 & S2 & S3 & S4 & S5 & _).
  { rewrite zlen_app. pose proof (zlen_nonneg junk). lia. }
  { lia. }
  rewrite ztake_app_le, <- Et in Hy by lia. cbn [mbind outcome_bind].
  destruct (retrieve_repr _ _ n Hin) as (b & -> & Hb & _); [lia|]. cbn [mbind outcome_bind].
  assert (Hzn : zlen (ztake n todo) = n) by (apply zlen_ztake; lia).
  destruct (holds_needed hash_range y k _ _ Hy) as [-> _]. rewrite zlen_app, Hzn.
  assert (Hlt : (length (zdrop n txt) < length txt)%nat) by (apply length_zdrop_lt; [lia|done]).
  set (s1 := with_request _ _ _ _ _ _).
  destruct (Z.eqb_spec (zlen v + 2 - (zlen got + n)) 0) as [E0|E0].
  - assert (n = zlen todo) as En by lia. rewrite En in *. rewrite ztake_all in Hy by lia. rewrite K3 in Hy.
    rewrite (zdrop_all (zlen todo) todo) in Ed by lia.
    pose proof (store_value policy k v flags exptime cas y p s1 st) as Hst. destruct H.
    eapply unless_mono; [apply Hst; try done; try congruence; try (by apply CInv_input; [|apply Hb]); rewrite S5; done|].
    intros [s' st'] _ (R1 & R2 & R3). simpl in R1, R2, R3. change (stream (s_conn s1)) with (stream (s_conn s)) in R3.
    exists Idle, ws, (spec_wire (WStore policy k v flags exptime cas) p).2, (zdrop (zlen todo) txt). split; [|done].
    unfold expected in Htot, Hfin. cbn [phase_effect] in *. 
    destruct (spec_wire (WStore policy k v flags exptime cas) p) as [r p'] eqn:Er. cbn [fst snd] in *.
    constructor; cbn [fst snd]; try done; [by rewrite R2|..].
    + unfold expected. cbn [phase_effect]. destruct (spec_wires ws p') as [rs p'']. cbn [fst snd] in *. rewrite R3, <- Htot. by rewrite <- app_assoc.
    + unfold expected. cbn [phase_effect]. by destruct (spec_wires ws p') as [rs p''].
  - exists (Receiving policy k v flags exptime cas (got ++ ztake n todo) (zdrop n todo)), ws, p, (zdrop n txt). split; [|done].
    constructor; try done. destruct H. constructor; try done; [by apply CInv_input; [|apply Hb]|].
    split_and!; try done.
    + by rewrite <- app_assoc, ztake_zdrop.
    + intros E1. apply (f_equal zlen) in E1. rewrite zlen_zdrop, zlen_nil in E1 by lia. lia.
    + exists y. split_and!; try done; try congruence. rewrite S5. done.
Qed.

Lemma wire_line_CR w : line_fits w -> CR ∉ wire_line w.
Proof.
  intros H. destruct (wire_words_good w H) as [(_ & _ & H1) H2]. unfold wire_line. rewrite not_elem_of_app.
  split; [done|by apply words_CR].
Qed.

(** The next request, when there is text. *)
Lemma next_wire ws p txt later : wires_text ws = txt ++ later -> txt <> [] -> wires_fit ws p ->
  exists w ws', ws = w :: ws' /\ wire_fits w p /\ wires_fit ws' (spec_wire w p).2 /\ (CR ∉ wire_line w) /\
    wire_line w ++ kCRLF ++ phase_text (line_phase w) ++ wires_text ws' = txt ++ later.
Proof.
  destruct ws as [|w ws']; intros E Hne Hfit; [by destruct txt|]. destruct Hfit as [H1 H2]. exists w, ws'. split_and!; try done.
  - apply wire_line_CR, H1.
  - rewrite <- E. unfold wires_text. cbn [map concat]. by rewrite wire_text_phase, <- !app_assoc.
Qed.

Lemma all_fit_line w ws p : wire_fits w p -> wires_fit ws (spec_wire w p).2 -> all_fit (line_phase w) ws (line_effect w p).2.
Proof.
  intros H1 H2. unfold all_fit. destruct w as [policy k v flags exptime cas| | | |]; cbn [line_phase line_effect]; try done.
  by destruct (max_value <? zlen v).
Qed.

Lemma line_round ws p txt later total final l rest s st : At txt later total final Idle ws p s st -> zlen total < 2 ^ 31 ->
  break_crlf txt = Some (l, rest) ->
  unless too_long (take_line malloc hash_range tokens write (peek (s_input s) + zlen l) s st) (advanced txt later total final).
Proof.
  intros [H Hin Htxt [_ Hfit] Htot Hfin] Hsmall Hbr. cbn [phase_text phase_effect snd app] in Htxt, Hfit.
  assert (Hne : txt <> []) by (by intros ->).
  destruct (next_wire ws p txt later Htxt Hne Hfit) as (w & ws' & -> & Hw & Hws & Hcr & Et). clear Htxt Hfit.
  pose proof (break_crlf_app _ _ _ later Hbr) as Ha. rewrite <- Et, break_crlf_line in Ha by done. injection Ha as <- Er.
  pose proof (break_crlf_Some _ _ _ Hbr) as Es. pose proof (break_crlf_len _ _ _ Hbr) as El.
  destruct (buffer_memory _ _ Hin) as [junk Ej]. unfold take_line. rewrite Ej, Es, <- !app_assoc.
  replace (peek (s_input s) + zlen (wire_line w) - peek (s_input s)) with (zlen (wire_line w)) by lia.
  pose proof (zlen_nonneg (wire_line w)). pose proof (zlen_nonneg rest). rewrite i32_small by (destruct Hw as [[Hw _] _]; lia).
  rewrite expected_line in Htot, Hfin. pose proof (process_line w p s st (rest ++ junk) H (proj1 Hw)) as Hp.
  destruct (line_effect w p) as [r p1] eqn:Ee. destruct (expected (line_phase w) ws' p1) as [rs p2] eqn:Ex. cbn [fst snd] in *.
  rewrite <- Htot, app_assoc, zlen_app in Hsmall. pose proof (zlen_nonneg rs). specialize (Hp ltac:(lia)).
  eapply unless_bind; [exact Hp|]. intros [[fin s1] st1] _ (Hin1 & Hst1 & Hr1). rewrite Ee in Hst1, Hr1. cbn [fst snd] in Hst1, Hr1.
  set (s2 := if fin then resetRequest s1 else s1) in *. assert (Hin2 : s_input s2 = s_input s) by (by destruct fin).
  assert (Hst2 : stream (s_conn s2) = stream (s_conn s) ++ r) by (by destruct fin). rewrite Hin2.
  rewrite <- Z.add_assoc. destruct (retrieveUntil_repr _ _ (zlen (wire_line w) + 2) Hin) as (b & -> & Hb & _); [lia|].
  cbn [mbind outcome_bind unless]. assert (Ed : zdrop (zlen (wire_line w) + 2) txt = rest).
  { rewrite Es at 1. rewrite app_assoc. apply zdrop_app_exact. by rewrite zlen_app. }
  rewrite Ed in Hb. exists (line_phase w), ws', p1, rest. split; [|rewrite !length_app; simpl; lia].
  constructor; cbn [fst snd].
  - apply MemRep_input; [done|apply Hb].
  - exact Hb.
  - done.
  - pose proof (all_fit_line w ws' p Hw Hws) as Hf. by rewrite Ee in Hf.
  - rewrite Ex. cbn [fst]. change (stream (s_conn (with_input b s2))) with (stream (s_conn s2)). rewrite Hst2, <- Htot. by rewrite app_assoc.
  - by rewrite Ex.
Qed.

(** Without the end of its line the text is short. *)
Lemma short_line ws p txt later : wires_text ws = txt ++ later -> txt <> [] -> wires_fit ws p -> break_crlf txt = None -> zlen txt <= 1024.
Proof.
  intros E Hne Hfit Hbr. destruct (next_wire ws p txt later E Hne Hfit) as (w & ws' & _ & Hw & _ & Hcr & Et).
  destruct (Z.le_gt_cases (zlen txt) 1024) as [|Hlong]; [done|]. exfalso.
  assert (Hpre : ztake (zlen (wire_line w) + 2) txt = wire_line w ++ kCRLF).
  { destruct Hw as [[Hw _] _]. rewrite <- (ztake_app_le _ txt later), <- Et, app_assoc by lia. apply ztake_app_exact. by rewrite zlen_app. }
  rewrite <- (ztake_zdrop (zlen (wire_line w) + 2) txt), Hpre, <- app_assoc, break_crlf_line in Hbr by done. done.
Qed.

(** Where the loop stops: all is read, or the line is not complete. *)
Definition stopped (txt later total : text) (final : gmap text Entry * Z) (r : Session * MemcacheServer) : Prop :=
  exists ph ws p txt', At txt' later total final ph ws p r.1 r.2 /\ (txt' = [] \/ ph = Idle /\ break_crlf txt' = None).

Lemma session_loop_stops fuel : forall txt later total final ph ws p s st,
  At txt later total final ph ws p s st -> zlen total < 2 ^ 31 -> (length txt < fuel)%nat ->
  exists r, session_loop malloc hash_range tokens write fuel s st = Some r /\ unless too_long r (stopped txt later total final).
Proof.
  induction fuel as [|fuel IH]; intros txt later total final ph ws p s st H Hsmall Hfuel; [lia|]. cbn [session_loop].
  rewrite (readable_repr _ _ (at_input _ _ _ _ _ _ _ _ _ H)).
  destruct (decide (txt = [])) as [->|Hne]; [|pose proof (zlen_pos _ Hne); rewrite (proj2 (Z.ltb_lt 0 (zlen txt))) by lia].
  { eexists. split; [done|]. exists ph, ws, p, []. split; [done|by left]. }
  set (continue r := match r with Ok (s, st) => session_loop malloc hash_range tokens write fuel s st | Err f => Some (Err f) end).
  assert (Hgo : forall r, unless too_long r (advanced txt later total final) ->
    exists r', continue r = Some r' /\ unless too_long r' (stopped txt later total final)).
  { intros [[s' st']|f] Hr; [|by eexists]. destruct Hr as (ph' & ws' & p' & txt' & H' & Hlt).
    exact (IH txt' later total final ph' ws' p' s' st' H' Hsmall ltac:(lia)). }
  destruct ph as [|policy k v flags exptime cas got todo|todo]; pose proof (mr_phase _ _ _ _ (at_rep _ _ _ _ _ _ _ _ _ H)) as Hph; simpl in Hph.
  - destruct Hph as (-> & _). pose proof (mr_protocol _ _ _ _ (at_rep _ _ _ _ _ _ _ _ _ H)) as Hpr. unfold session_protocol. rewrite Hpr.
    assert (Es : with_counts kAscii (bytesRead_ s) (requestsProcessed_ s) s = s) by (destruct s; simpl in Hpr; by subst). rewrite Es.
    rewrite (findCRLF_repr _ _ (at_input _ _ _ _ _ _ _ _ _ H)). destruct (break_crlf txt) as [[l rest]|] eqn:Hbr.
    + apply Hgo. by eapply line_round.
    + pose proof (short_line ws p txt later (at_text _ _ _ _ _ _ _ _ _ H) Hne (proj2 (at_fit _ _ _ _ _ _ _ _ _ H)) Hbr).
      rewrite (proj2 (Z.ltb_ge 1024 (zlen txt))) by lia. eexists. split; [done|]. exists Idle, ws, p, txt. split; [done|by right].
  - destruct Hph as (-> & _). apply Hgo. by eapply receive_round.
  - destruct Hph as (-> & _). apply Hgo. pose proof (discard_round _ _ _ _ _ _ _ _ _ H Hne) as Hd.
    by destruct (discardValue s).
Qed.

(** *** Reading *)

Lemma session_onMessage_stops txt later total final ph ws p s st : At txt later total final ph ws p s st -> zlen total < 2 ^ 31 ->
  exists r, session_onMessage malloc hash_range tokens write s st = Some r /\ unless too_long r (stopped txt later total final).
Proof.
  intros H Hsmall. unfold session_onMessage. destruct (at_input _ _ _ _ _ _ _ _ _ H) as [_ ->].
  destruct (session_loop_stops (S (length txt)) txt later total final ph ws p s st H Hsmall ltac:(lia)) as (r & -> & Hr).
  destruct r as [[s' st']|f]; [|by eexists]. eexists. split; [done|]. destruct Hr as (ph' & ws' & p' & txt' & H' & Hs).
  exists ph', ws', p', txt'. split; [|done]. destruct H' as [[] ? ? ? ? ?]. constructor; try done.
Qed.

Lemma session_read_stops segs : forall txt total final ph ws p s st,
  At txt (concat (map snd segs)) total final ph ws p s st -> (txt = [] \/ ph = Idle /\ break_crlf txt = None) -> zlen total < 2 ^ 31 ->
  Forall (fun m => 0 < zlen m.2 <= sizeof_extrabuf) segs ->
  exists r, session_read_all malloc hash_range tokens write segs (s, st) = Some r /\ unless too_long r (stopped txt [] total final).
Proof.
  induction segs as [|[t seg] segs IH]; intros txt total final ph ws p s st H Hstop Hsmall Hsegs; unfold session_read_all; cbn [stream_read_all].
  { eexists. split; [done|]. by exists ph, ws, p, txt. }
  apply Forall_cons in Hsegs as [Hseg Hsegs]. cbn [snd] in Hseg. unfold stream_handleRead.
  change (session_input (s, st)) with (s_input s). pose proof (at_input _ _ _ _ _ _ _ _ _ H) as Hin. pose proof (iov_room _ _ Hin).
  destruct (readFd_cases (s_input s) txt (fun _ => ReadData seg) seg Hin eq_refl ltac:(lia)) as [[-> _]|(b & -> & Hb)];
    [by eexists|]. rewrite (proj2 (Z.ltb_lt 0 _)) by lia. unfold session_called, session_with_input. cbn [fst snd].
  destruct (session_onMessage_stops (txt ++ seg) (concat (map snd segs)) total final ph ws p
    (with_conn (record_call NMessage (s_conn (with_input b s))) (with_input b s)) st) as (r & -> & Hr); [|done|].
  { destruct H as [H1 H2 H3 H4 H5 H6]. constructor; try done; [|by rewrite H3, <- app_assoc].
    apply MemRep_conn; [by apply MemRep_input; [|apply Hb]| |apply H1]. apply CInv_record; [done|]. apply CInv_input; [apply H1|apply Hb]. }
  destruct r as [[s' st']|f]; [|by eexists]. destruct Hr as (ph' & ws' & p' & txt' & H' & Hs').
  destruct (IH txt' total final ph' ws' p' s' st' H' Hs' Hsmall Hsegs) as (r & E & Hr). exists r. split; [exact E|].
  eapply unless_mono; [exact Hr|]. intros x _ Hx. exact Hx.
Qed.

(** With all the text read, nothing is left to do. *)
Lemma stopped_end txt total final r : stopped txt [] total final r ->
  stream (s_conn r.1) = total /\ StoreInv hash_range r.2 /\ Rep hash_range r.2 final.1 /\ repr (s_input r.1) [] /\ g_cas r.2 = final.2.
Proof.
  intros (ph & ws & p & txt' & [H Hin Htxt [Hph Hfit] Htot Hfin] & Hs). rewrite app_nil_r in Htxt.
  assert (Hws : forall w ws', wires_text (w :: ws') <> []).
  { intros w ws' E. unfold wires_text in E. cbn [map concat] in E. unfold wire_text in E. by destruct (wire_line w). }
  assert (ph = Idle /\ ws = [] /\ txt' = []) as (-> & -> & ->).
  { destruct Hs as [->|[-> Hbr]].
    - apply app_nil in Htxt as [E1 E2]. pose proof (mr_phase _ _ _ _ H) as K. split; [|split; [|done]].
      + destruct ph; [done| |]; simpl in E1, K; subst; [by destruct K as (_ & _ & _ & K & _)|by destruct K as (_ & _ & _ & K & _)].
      + destruct ws as [|w ws']; [done|]. by apply Hws in E2.
    - cbn [phase_text app] in Htxt. destruct ws as [|w ws']; [done|]. destruct (decide (txt' = [])) as [->|Hne]; [by apply Hws in Htxt|].
      destruct (next_wire (w :: ws') p txt' []) as (w1 & ws1 & _ & _ & _ & Hcr & E); [by rewrite app_nil_r|done|done|].
      rewrite app_nil_r in E. by rewrite <- E, break_crlf_line in Hbr. }
  unfold expected in *. simpl in Htot, Hfin. rewrite app_nil_r in Htot. subst. destruct H. by split_and!; try done; apply mr_tokens0.
Qed.

Lemma new_Session_rep c p st : CInv 0 c -> TcpConnection.state_ c = kConnected -> StoreInv hash_range st -> Rep hash_range st p.1 ->
  g_cas st = p.2 /\ 0 <= p.2 < 2 ^ 63 -> entries_bounded p ->
  exists s, new_Session malloc hash_range c = Ok s /\ MemRep Idle p s st /\ s_conn s = c.
Proof.
  intros Hc Hup Hi Hm Hg Hb. unfold new_Session. destruct (of_string_plain kLongestKey) as (q & -> & Hq & Hch & Hsz); [by_compute|done|].
  cbn [mbind outcome_bind]. destruct (new_Item_holds malloc hash_range malloc_size q 0 0 2 0 Hq) as (x & -> & Hx & _); [lia|rewrite Hsz; by vm_compute|].
  cbn [mbind outcome_bind]. destruct new_Buffer_repr as (b & -> & Hb0 & _). cbn [mbind outcome_bind]. eexists. split; [done|]. split; [|done].
  constructor; try done. split; [apply (ho_len _ _ _ _ _ Hx)|]. destruct (ho_filled _ _ _ _ _ Hx) as (_ & Hl & _).
  rewrite (holds_total _ _ _ _ _ Hx), Hch in Hl. change (zlen kLongestKey) with 250 in Hl. simpl. lia.
Qed.
(** A connection gets a session when it comes up and loses it when it goes down. *)
Lemma mem_onConnection_once name c c' sessions : connected c = true -> connected c' = false -> sessions !! name = None ->
  exists s, mem_onConnection malloc hash_range name c sessions = Ok (<[name := s]> sessions) /\ s_conn s = c /\
    mem_onConnection malloc hash_range name c' (<[name := s]> sessions) = Ok sessions.
Proof.
  intros Hc Hc' Hn. assert (Hnew : exists s, new_Session malloc hash_range c = Ok s /\ s_conn s = c).
  { unfold new_Session. destruct (of_string_plain kLongestKey) as (q & -> & Hq & Hch & Hsz); [by_compute|done|].
    cbn [mbind outcome_bind]. destruct (new_Item_holds malloc hash_range malloc_size q 0 0 2 0 Hq) as (x & -> & _); [lia|rewrite Hsz; by vm_compute|].
    by eexists. }
  destruct Hnew as (s & E & Es). exists s. unfold mem_onConnection. rewrite Hc, Hc', E, Hn, lookup_insert_eq. cbn [mbind outcome_bind].
  rewrite bool_decide_false, bool_decide_true by (done || by intros [? ?]). split_and!; try done. cbn. f_equal. by apply delete_insert_id.
Qed.

(** *** Requests that abort the server *)

(** The first round on a line of words. *)
Lemma first_line fuel cmd args rest p s st : MemRep Idle p s st -> good_word cmd -> Forall good_word args ->
  zlen (cmd ++ words args) < 2 ^ 31 -> repr (s_input s) ((cmd ++ words args) ++ kCRLF ++ rest) ->
  exists ts s1, Forall2 is_token args ts /\ MemRep Idle p s1 st /\ s_conn s1 = s_conn s /\
    session_loop malloc hash_range tokens write (S fuel) s st =
    match ('(finished, s', st) ← run_command malloc hash_range write ts (started cmd s1) st;
           let s' := if finished : bool then resetRequest s' else s' in
           buf ← retrieveUntil (s_input s') (peek (s_input s) + zlen (cmd ++ words args) + 2);
           Ok (with_input buf s', st)) with
    | Ok (s, st) => session_loop malloc hash_range tokens write fuel s st
    | Err f => Some (Err f)
    end.
Proof.
  intros H Hw1 Hw2 Hl Hin. destruct (buffer_memory _ _ Hin) as [junk Ej]. rewrite <- !app_assoc in Ej.
  destruct (process_words cmd args p s st (rest ++ junk) H Hw1 Hw2 Hl) as (ts & s1 & Hts & H1 & Ec & E).
  exists ts, s1. split_and!; try done. cbn [session_loop]. rewrite (readable_repr _ _ Hin).
  assert (Hpos : 0 < zlen ((cmd ++ words args) ++ kCRLF ++ rest)) by (apply zlen_pos; by destruct cmd, (words args)).
  rewrite (proj2 (Z.ltb_lt 0 _)) by lia. destruct (mr_phase _ _ _ _ H) as (-> & _). pose proof (mr_protocol _ _ _ _ H) as Hpr. unfold session_protocol. rewrite Hpr.
  assert (Es : with_counts kAscii (bytesRead_ s) (requestsProcessed_ s) s = s) by (destruct s; simpl in Hpr; by subst). rewrite Es.
  rewrite (findCRLF_repr _ _ Hin), break_crlf_line; cycle 1.
  { destruct Hw1 as (_ & _ & Hc). rewrite not_elem_of_app. split; [done|by apply words_CR]. }
  unfold take_line. rewrite Ej. replace (peek (s_input s) + zlen (cmd ++ words args) - peek (s_input s)) with (zlen (cmd ++ words args)) by lia.
  rewrite i32_small by (pose proof (zlen_nonneg (cmd ++ words args)); lia). rewrite app_assoc. by rewrite E.
Qed.

(** A value that has arrived whole. *)
Lemma receive_whole x k v rest s st : currItem_ s = Some x -> holds hash_range x k [] (zlen v + 2) ->
  repr (s_input s) ((v ++ kCRLF) ++ rest) ->
  exists y b, complete hash_range y k v /\ receiveValue malloc hash_range write s st =
    finish_value malloc hash_range write y
      (with_request (command_ s) (noreply_ s) (policy_ s) (Some y) (bytesToDiscard_ s) (with_input b s)) st.
Proof.
  intros Ex Hx Hb. unfold receiveValue. rewrite Ex. pose proof (zlen_nonneg rest). pose proof (zlen_nonneg v).
  assert (Hz : zlen ((v ++ kCRLF) ++ rest) = zlen v + 2 + zlen rest) by (rewrite !zlen_app; change (zlen kCRLF) with 2; lia).
  rewrite (readable_repr _ _ Hb), Hz. destruct (holds_needed hash_range x k [] _ Hx) as [-> _].
  change (zlen []) with 0. rewrite Z.sub_0_r, Z.min_r by lia. destruct (buffer_memory _ _ Hb) as [junk ->].
  destruct (item_append_holds hash_range x k [] _ (((v ++ kCRLF) ++ rest) ++ junk) (zlen v + 2) Hx) as (y & -> & Hy & _).
  { rewrite zlen_app, Hz. pose proof (zlen_nonneg junk). lia. }
  { rewrite zlen_nil. lia. }
  rewrite <- (app_assoc (v ++ kCRLF)), ztake_app_exact in Hy by (by rewrite zlen_app). cbn [mbind outcome_bind].
  destruct (retrieve_repr _ _ (zlen v + 2) Hb) as (b & -> & _ & _); [lia|]. cbn [mbind outcome_bind].
  change (complete hash_range y k v) in Hy. exists y, b. split; [done|]. by rewrite (complete_needed hash_range y k v Hy).
Qed.

(** The look at an update without a policy: the value arrives, and the server stops. *)
Lemma prepend_aborts k v flags exptime cas rest p s st : MemRep Idle p s st -> line_fits (WStore kPrepend k v flags exptime cas) ->
  zlen v <= max_value -> repr (s_input s) (wire_text (WStore kPrepend k v flags exptime cas) ++ rest) ->
  session_onMessage malloc hash_range tokens write s st = Some (Err AssertFailed).
Proof.
  intros H Hfit Hv Hin. set (w := WStore kPrepend k v flags exptime cas) in *. destruct (wire_words_good w Hfit) as [Hw1 Hw2].
  assert (Et : wire_text w ++ rest = ((wire_words w).1 ++ words (wire_words w).2) ++ kCRLF ++ (v ++ kCRLF) ++ rest)
    by (unfold wire_text, wire_line; change (wire_data w) with (v ++ kCRLF); by rewrite <- !app_assoc).
  rewrite Et in Hin. clear Et.
  unfold session_onMessage. destruct Hin as [Hwf Hcon]. rewrite Hcon. assert (Hin : repr (s_input s) _) by (split; [exact Hwf|exact Hcon]). clear Hwf Hcon.
  set (len := length _). assert (Hlen : exists n, len = S n) by (unfold len; destruct ((wire_words w).1 ++ words (wire_words w).2); by eexists).
  destruct Hlen as [n ->]. destruct (first_line (S n) _ _ _ p s st H Hw1 Hw2 ltac:(destruct Hfit; unfold wire_line in *; lia) Hin)
    as (ts & s1 & Hts & H1 & Ec & ->).
  destruct (doUpdate_line kPrepend k v flags exptime cas ts s1 st Hfit Hts) as (t & cas' & Ht & _ & E).
  change (run_command malloc hash_range write ts (started (wire_words w).1 s1) st) with
    (doUpdate malloc hash_range write ts (started (command_name kPrepend) s1) st). rewrite E. clear E. cbv zeta.
  rewrite (proj2 (Z.ltb_ge max_value (zlen v))) by lia. destruct Hfit as (_ & [_ Hk] & _ & _ & _ & _ & Hv').
  unfold max_value in Hv. pose proof (zlen_nonneg v). pose proof (zlen_nonneg k). destruct (is_token_wf k t Ht ltac:(lia)) as [Hwt Hch].
  assert (Hsz : StringPiece.size t = zlen k) by apply Ht.
  destruct (new_Item_holds malloc hash_range malloc_size t flags exptime (zlen v + 2) cas' Hwt) as (x & -> & Hx & _); [lia..|].
  rewrite Hch in Hx. cbn [mbind outcome_bind]. set (s2 := with_state _ _). assert (Hin2 : s_input s2 = s_input s) by (unfold s_input; simpl; by rewrite Ec).
  rewrite Hin2, <- Z.add_assoc. set (l := (wire_words w).1 ++ words (wire_words w).2) in *.
  destruct (retrieveUntil_repr _ _ (zlen l + 2) Hin) as (b & -> & Hb & _).
  { rewrite !zlen_app. change (zlen kCRLF) with 2. pose proof (zlen_nonneg l). pose proof (zlen_nonneg rest). lia. }
  rewrite app_assoc, zdrop_app_exact in Hb by (by rewrite zlen_app). cbn [mbind outcome_bind session_loop].
  assert (Hpos : 0 < zlen ((v ++ kCRLF) ++ rest)) by (apply zlen_pos; by destruct v).
  change (s_input (with_input b s2)) with b. rewrite (readable_repr _ _ Hb), (proj2 (Z.ltb_lt 0 _)) by lia.
  change (s_state (with_input b s2)) with kReceiveValue. cbv iota.
  destruct (receive_whole x k v rest (with_input b s2) st eq_refl Hx Hb) as (y & b2 & Hy & ->). unfold finish_value.
  rewrite (complete_ends hash_range y k v Hy). unfold storeItem. rewrite (complete_needed hash_range y k v Hy).
  change (policy_ (with_request _ _ ?q _ _ _)) with q. by destruct (items_find _ _).
Qed.
(** A word that does not start like a number. *)
Definition no_number (x : text) : Prop :=
  match x with c :: _ => digit_value c = None /\ isspace c = false /\ c <> "-"%char /\ c <> "+"%char | [] => False end.

Lemma strtoul_no_number x after : no_number x -> strtoul (x ++ after) = Ok (0, 0).
Proof.
  destruct x as [|c x]; [done|]. intros (Hd & Hs & Hm & Hp). unfold strtoul. cbn [app skip_space]. rewrite Hs. cbn [mbind outcome_bind].
  assert (Hsign : match c :: x ++ after with
    | "-"%char :: mem' => (true, mem', 0 + 1) | "+"%char :: mem' => (false, mem', 0 + 1) | _ => (false, c :: x ++ after, 0) end =
    (false, c :: x ++ after, 0)) by (repeat case_match; done).
  rewrite Hsign. cbn [read_digits]. by rewrite Hd.
Qed.

(** The length of the value is no number: it is taken for -1. *)
Lemma bad_length_aborts policy k x flags exptime rest p s st : MemRep Idle p s st -> policy <> kInvalid -> policy <> kCas -> good_key k ->
  good_word x -> no_number x -> 0 <= flags < 2 ^ 32 -> 0 <= exptime <= 60 * 60 * 24 * 30 ->
  zlen (command_name policy ++ words [k; fmt_d flags; fmt_d exptime; x]) < 1024 ->
  repr (s_input s) ((command_name policy ++ words [k; fmt_d flags; fmt_d exptime; x]) ++ kCRLF ++ rest) ->
  session_onMessage malloc hash_range tokens write s st = Some (Err AssertFailed).
Proof.
  intros H Hp Hp' [Hkw Hk] Hx Hnx Hfl Hex Hl Hin.
  assert (Hw1 : good_word (command_name policy)) by (destruct policy; by_compute || done).
  assert (Hw2 : Forall good_word [k; fmt_d flags; fmt_d exptime; x])
    by (repeat (apply Forall_cons; split; [done || (apply fmt_d_word; lia)|]); by apply Forall_nil).
  unfold session_onMessage. destruct (first_line (length (content (s_input s))) _ _ rest p s st H Hw1 Hw2 ltac:(lia) Hin)
    as (ts & s1 & Hts & H1 & Ec & ->).
  assert (Hrun : run_command malloc hash_range write ts (started (command_name policy) s1) st =
    doUpdate malloc hash_range write ts (started (command_name policy) s1) st) by (by destruct policy).
  rewrite Hrun. clear Hrun.
  apply Forall2_cons_inv_l in Hts as (t & ts1 & Ht & Hts & ->). apply Forall2_cons_inv_l in Hts as (t1 & ts2 & Ht1 & Hts & ->).
  apply Forall2_cons_inv_l in Hts as (t2 & ts3 & Ht2 & Hts & ->). apply Forall2_cons_inv_l in Hts as (t3 & ts4 & Ht3 & _ & ->).
  unfold doUpdate. cbn [token_at mbind outcome_bind]. assert (Hsz : StringPiece.size t = zlen k) by apply Ht.
  rewrite Hsz. unfold kLongestKeySize. rewrite (proj2 (Z.leb_le (zlen k) 250)) by lia.
  rewrite (reader_read_token flags t1 _ Ht1) by lia. cbn [mbind outcome_bind from_option].
  rewrite (reader_read_token exptime t2 _ Ht2) by lia. cbn [mbind outcome_bind from_option].
  assert (Hr : reader_read (t3 :: ts4) = Ok (true, None, t3 :: ts4)).
  { destruct Ht3 as (Hs3 & after & Hd3 & _). unfold reader_read. rewrite Hd3, strtoul_no_number, Hs3 by done. cbn [mbind outcome_bind].
    rewrite (proj2 (Z.eqb_neq 0 _)); [done|]. pose proof (zlen_pos x (proj1 Hx)). lia. }
  rewrite Hr. cbn [mbind outcome_bind from_option].
  by destruct policy.
Qed.
End Session.

(** ** Properties *)


(** A tokenizer: as many steps as there are bytes. *)
Fixpoint tokens_upto (fuel : nat) (r : char_range) : list StringPiece.StringPiece :=
  match fuel with
  | O => []
  | S fuel => match SpaceSeparator r with Some (t, r') => t :: tokens_upto fuel r' | None => [] end
  end.
Definition sample_tokens (r : char_range) : list StringPiece.StringPiece := tokens_upto (S (Z.to_nat r.2)) r.

Lemma skip_blanks_spec mem : forall n, let '(start, n') := skip_blanks mem n in
  n' <= n /\ (0 <= n -> 0 <= n') /\ (n < 0 -> n' = n) /\ (0 < n' -> head start <> Some SP).
Proof.
  induction mem as [|c mem IH]; intros n; cbn [skip_blanks]; [split_and!; done || lia|].
  destruct (Z.ltb_spec 0 n) as [Hn|Hn]; cbn [andb]; [|split_and!; try done; lia].
  case_bool_decide as Hc; [|split_and!; try done; [lia..|]; intros _ [=]; done].
  specialize (IH (n - 1)). destruct (skip_blanks mem (n - 1)) as [start n']. destruct IH as (H1 & H2 & _ & H4). split_and!; done || lia.
Qed.

Lemma SpaceSeparator_shrinks r t r' : SpaceSeparator r = Some (t, r') -> 0 <= r'.2 /\ (r'.2 < r.2 \/ r'.2 = 0).
Proof.
  unfold SpaceSeparator. pose proof (skip_blanks_spec r.1 r.2) as H. destruct (skip_blanks r.1 r.2) as [start n].
  destruct H as (H1 & _ & H3 & H4). destruct (Z.eqb_spec n 0); [done|]. unfold memchr.
  destruct (list_find (eq SP) (ztake n start)) as [[i x]|] eqn:E; intros [= <- <-]; cbn [snd]; [|lia].
  apply list_find_Some in E as (Hi & <- & _). pose proof (lookup_lt_Some _ _ _ Hi) as Hlt. unfold ztake in *. rewrite length_take in Hlt.
  apply lookup_take_Some in Hi as [Hi _]. destruct i as [|i]; [|lia]. exfalso. apply H4; [lia|]. destruct start; [done|]. simpl in *. congruence.
Qed.

Lemma tokens_upto_zero f mem : tokens_upto f (mem, 0) = [].
Proof.
  destruct f as [|f]; [done|]. cbn [tokens_upto]. unfold SpaceSeparator. cbn [fst snd].
  assert (skip_blanks mem 0 = (mem, 0)) as -> by (by destruct mem). done.
Qed.

Lemma tokens_upto_fuel f : forall g r, (Z.to_nat r.2 < f)%nat -> (Z.to_nat r.2 < g)%nat -> tokens_upto f r = tokens_upto g r.
Proof.
  induction f as [|f IH]; intros g r Hf Hg; [lia|]. destruct g as [|g]; [lia|]. cbn [tokens_upto].
  destruct (SpaceSeparator r) as [[t [mem n]]|] eqn:E; [|done]. apply SpaceSeparator_shrinks in E as [H1 [H2|H2]]; cbn [snd] in *.
  - f_equal. apply IH; simpl; lia.
  - subst. by rewrite !tokens_upto_zero.
Qed.

#[export] Instance sample_tokenizer : Tokenizer sample_tokens.
Proof.
  constructor. intros r. unfold sample_tokens at 1. cbn [tokens_upto]. unfold sample_tokens. destruct (SpaceSeparator r) as [[t [mem n]]|] eqn:E; [|done].
  apply SpaceSeparator_shrinks in E as [H1 [H2|H2]]; cbn [snd] in *; f_equal.
  - apply tokens_upto_fuel; simpl; lia.
  - subst. by rewrite !tokens_upto_zero.
Qed.

(** C38. Requests that stop the whole server: the complete request "prepend", in all its forms, and an update
    whose length is no number, make an assertion of the session fail.  One client
    on an idle session is enough. *)
Theorem memcached_aborts (malloc : Z -> list ascii) (hash_range : text -> Z) (tokens : char_range -> list StringPiece.StringPiece)
    (write : nat -> list ascii -> write_result) (p : gmap text Entry * Z) (s : Session) (st : MemcacheServer)
    (k : text) (flags exptime : Z) (rest : text) :
  Tokenizer tokens -> (forall n, 0 <= n -> zlen (malloc n) = n) -> MemRep hash_range Idle p s st ->
  good_key k -> 0 <= flags < 2 ^ 32 -> 0 <= exptime <= 60 * 60 * 24 * 30 ->
  (forall v, zlen v <= max_value -> repr (s_input s) (wire_text (WStore kPrepend k v flags exptime 0) ++ rest) ->
     session_onMessage malloc hash_range tokens write s st = Some (Err AssertFailed)) /\
  (forall policy x, policy <> kInvalid -> policy <> kCas -> good_word x -> no_number x -> zlen x <= 250 ->
     repr (s_input s) ((command_name policy ++ words [k; fmt_d flags; fmt_d exptime; x]) ++ kCRLF ++ rest) ->
     session_onMessage malloc hash_range tokens write s st = Some (Err AssertFailed)).
Proof.
  intros Htok Hmal H Hk Hfl Hex. pose proof (zlen_fmt_d 10 flags ltac:(lia) ltac:(lia)). pose proof (zlen_fmt_d 10 exptime ltac:(lia) ltac:(lia)).
  assert (Hlen : forall policy x, zlen x <= 250 -> zlen (command_name policy ++ words [k; fmt_d flags; fmt_d exptime; x]) < 1024).
  { intros policy x Hx. assert (zlen (command_name policy) <= 7) by (by destruct policy). unfold words. cbn [map concat].
    rewrite !zlen_app, !zlen_cons, zlen_nil. destruct Hk as [_ Hk]. lia. }
  split.
  - intros v Hv Hin. eapply (prepend_aborts malloc hash_range tokens write Hmal k v flags exptime 0 rest p s st H); [|done|exact Hin].
    pose proof (zlen_nonneg v). unfold max_value in Hv. pose proof (zlen_fmt_d 10 (zlen v) ltac:(lia) ltac:(lia)).
    split; [apply (Hlen kPrepend (fmt_d (zlen v))); lia|]. split_and!; done || lia.
  - intros policy x Hp1 Hp2 Hx Hnx Hlx Hin. eapply (bad_length_aborts malloc hash_range tokens write policy k x flags exptime rest p s st H); try done. auto.
Qed.

Definition aborting_session (txt : text) : Session :=
  mkMemSession (set_input (buffer_of txt) open_connection) kNewCommand kAscii [] false kInvalid None 0 sample_needle empty_buffer 0 0.

Lemma aborting_session_rep txt : zlen txt <= 1000000 -> MemRep length_hash Idle (∅, 0) (aborting_session txt) (new_MemcacheServer 100).
Proof.
  intros Htxt. destruct (new_MemcacheServer_inv length_hash 100) as [Hi Hm]. constructor; try done.
  apply CInv_input; [apply open_connection_inv|by apply buffer_of_repr].
Qed.

Lemma memcached_aborts_witness :
  session_onMessage zero_malloc length_hash sample_tokens full_write (aborting_session (line "prepend k 0 0 1" ++ line "v")) (new_MemcacheServer 100) =
    Some (Err AssertFailed) /\
  session_onMessage zero_malloc length_hash sample_tokens full_write (aborting_session (line "set k 0 0 x")) (new_MemcacheServer 100) =
    Some (Err AssertFailed).
Proof.
  assert (Hk : good_key (bytes "k")) by by_compute. split.
  - pose proof (aborting_session_rep (line "prepend k 0 0 1" ++ line "v") ltac:(done)) as H.
    apply (memcached_aborts zero_malloc length_hash sample_tokens full_write (∅, 0) _ _ (bytes "k") 0 0 [] _ zero_malloc_size H Hk
      ltac:(lia) ltac:(lia)) with (v := bytes "v"); [by vm_compute|]. by apply (buffer_of_repr (line "prepend k 0 0 1" ++ line "v")).
  - pose proof (aborting_session_rep (line "set k 0 0 x") ltac:(done)) as H.
    apply (memcached_aborts zero_malloc length_hash sample_tokens full_write (∅, 0) _ _ (bytes "k") 0 0 [] _ zero_malloc_size H Hk
      ltac:(lia) ltac:(lia)) with (policy := kSet) (x := bytes "x"); [done|done|by_compute|by_compute|done|].
    by apply (buffer_of_repr (line "set k 0 0 x")).
Defined.

Definition sample_wires : list wire :=
  [WStore kSet (bytes "k") (bytes "ab") 7 0 0; WStore kAppend (bytes "k") (bytes "c") 0 0 0; WUnknown (bytes "bye") [];
   WGet true [bytes "k"; bytes "j"]; WDelete (bytes "k")].

Definition sample_input : list (Timestamp * text) :=
  [(mkTimestamp 0, bytes "set k 7 0 2"); (mkTimestamp 1, ["013"%char]); (mkTimestamp 2, "010"%char :: bytes "a"); (mkTimestamp 3, bytes "b" ++ kCRLF ++ bytes "append k 0 0 1" ++ kCRLF ++ bytes "c");
   (mkTimestamp 4, kCRLF ++ line "bye" ++ line "gets k j" ++ line "delete k")].

