(* ===== verification/FastCgi.v ===== *)
(** * The FastCGI codec (src/tests/fastcgi/fastcgi.h, fastcgi.cpp, fastcgi_test.cpp)

    A web server sends a request as records: its beginning, its parameters as a
    stream of names and values, and the body.  The codec collects them and calls its
    callback at the end of a message in which the body was closed; the callback of the
    test program answers.  The codec is compared with a function on byte
    strings, for all bytes and all segments; a request in good order is
    answered once, with the records of the protocol. *)

From S2P Require Import Prelude Endian StringPiece Buffer Lines Format Timestamp Channel Poller TcpConnection ConnStream.
From S2P Require Import Framing LengthCodec.
Local Open Scope Z_scope.

(** ** Records *)

Definition u8 (z : Z) : Z := uwrap 8 z.

Record RecordHeader : Type := mkHeader {
  h_version : Z; h_type : Z; h_id : Z; h_length : Z; h_padding : Z; h_unused : Z
}.

Definition kRecordHeader : Z := 8.

(** The object representation of a header, and a header read from memory. *)
Definition header_bytes (h : RecordHeader) : list ascii :=
  le_bytes 1 (h_version h) ++ le_bytes 1 (h_type h) ++ le_bytes 2 (h_id h) ++ le_bytes 2 (h_length h) ++
  le_bytes 1 (h_padding h) ++ le_bytes 1 (h_unused h).

Definition read_header (mem : list ascii) : RecordHeader :=
  let field i n := le_value (zslice i (i + n) mem) in
  mkHeader (field 0 1) (field 1 1) (networkToHost16 (field 2 2)) (networkToHost16 (field 4 2)) (field 6 1) (field 7 1).

Definition kFcgiBeginRequest : Z := 1.
Definition kFcgiEndRequest : Z := 3.
Definition kFcgiParams : Z := 4.
Definition kFcgiStdin : Z := 5.
Definition kFcgiStdout : Z := 6.
Definition kFcgiResponder : Z := 1.
Definition kFcgiKeepConn : Z := 1.

(** ** FastCgiCodec *)

Definition ParamMap : Type := gmap text text.

Record FastCgiCodec : Type := mkCodec {
  gotRequest_ : bool;
  keepConn_ : bool;
  stdin_ : Buffer;
  paramsStream_ : Buffer;
  params_ : ParamMap
}.

Definition new_FastCgiCodec : outcome FastCgiCodec :=
  a ← new_Buffer kInitialSize; b ← new_Buffer kInitialSize; Ok (mkCodec false false a b ∅).

Definition with_params (ps : Buffer) (m : ParamMap) (k : FastCgiCodec) : FastCgiCodec :=
  mkCodec (gotRequest_ k) (keepConn_ k) (stdin_ k) ps m.
Definition with_stdin (got : bool) (b : Buffer) (k : FastCgiCodec) : FastCgiCodec :=
  mkCodec got (keepConn_ k) b (paramsStream_ k) (params_ k).
Definition with_keep (keep : bool) (k : FastCgiCodec) : FastCgiCodec :=
  mkCodec (gotRequest_ k) keep (stdin_ k) (paramsStream_ k) (params_ k).

(** [static_cast<uint32_t>(-1)]. *)
Definition no_length : Z := 2 ^ 32 - 1.

(** [readLen]: a length of four bytes is neither read nor taken from the stream. *)
Definition readLen (ps : Buffer) : outcome (Z * Buffer) :=
  if 1 <=? readableBytes ps then
    x ← peekInt8 ps;
    if Z.land (u8 x) 128 =? 0 then '(x, ps) ← readInt8 ps; Ok (u32 x, ps)
    else if 4 <=? readableBytes ps then Ok (u32 (Z.land (readableBytes ps) (2 ^ 31 - 1)), ps)
    else Ok (no_length, ps)
  else Ok (no_length, ps).

Fixpoint parseAllParams (fuel : nat) (ps : Buffer) (m : ParamMap) : option (outcome (bool * Buffer * ParamMap)) :=
  match fuel with
  | O => None
  | S fuel =>
      if 0 <? readableBytes ps then
        match readLen ps with
        | Err f => Some (Err f)
        | Ok (nameLen, ps) =>
            if nameLen =? no_length then Some (Ok (false, ps, m))
            else
              match readLen ps with
              | Err f => Some (Err f)
              | Ok (valueLen, ps) =>
                  if valueLen =? no_length then Some (Ok (false, ps, m))
                  else if u32 (nameLen + valueLen) <=? readableBytes ps then
                    match ('(name, ps) ← retrieveAsString ps nameLen;
                           '(value, ps) ← retrieveAsString ps valueLen; Ok (name, value, ps)) with
                    | Err f => Some (Err f)
                    | Ok (name, value, ps) => parseAllParams fuel ps (<[name := value]> m)
                    end
                  else Some (Ok (false, ps, m))
              end
        end
      else Some (Ok (true, ps, m))
  end.

(** [content] is the memory from the pointer on. *)
Definition onParams (content_ : list ascii) (length_ : Z) (k : FastCgiCodec) : option (outcome (bool * FastCgiCodec)) :=
  if 0 <? length_ then
    Some (ps ← append (paramsStream_ k) content_ length_; Ok (true, with_params ps (params_ k) k))
  else
    match parseAllParams (S (length (content (paramsStream_ k)))) (paramsStream_ k) (params_ k) with
    | None => None
    | Some (Err f) => Some (Err f)
    | Some (Ok (ok, ps, m)) => Some (Ok (ok, with_params ps m k))
    end.

Definition onStdin (content_ : list ascii) (length_ : Z) (k : FastCgiCodec) : outcome FastCgiCodec :=
  if 0 <? length_ then b ← append (stdin_ k) content_ length_; Ok (with_stdin (gotRequest_ k) b k)
  else Ok (with_stdin true (stdin_ k) k).

Definition fcgi_readInt16 (p : list ascii) : Z := networkToHost16 (le_value (ztake 2 p)).

Definition onBeginRequest (header : RecordHeader) (buf : Buffer) (k : FastCgiCodec) : outcome (bool * FastCgiCodec) :=
  assert_ (h_length header <=? readableBytes buf);;
  assert_ (h_type header =? kFcgiBeginRequest);;
  if kRecordHeader <=? h_length header then
    let mem := zdrop (peek buf) (buffer_ buf) in
    let role := fcgi_readInt16 (zdrop kRecordHeader mem) in
    let flags := le_value (zslice (kRecordHeader + 2) (kRecordHeader + 3) mem) in
    if role =? kFcgiResponder then Ok (true, with_keep (flags =? kFcgiKeepConn) k) else Ok (false, k)
  else Ok (false, k).

(** The switch of [parseRequest]; the results of the handlers are not looked at. *)
Definition handle_record (header : RecordHeader) (buf : Buffer) (k : FastCgiCodec) : option (outcome FastCgiCodec) :=
  let body := zdrop (peek buf + kRecordHeader) (buffer_ buf) in
  if h_type header =? kFcgiBeginRequest then Some ('(_, k) ← onBeginRequest header buf k; Ok k)
  else if h_type header =? kFcgiParams then
    match onParams body (h_length header) k with
    | None => None | Some (Err f) => Some (Err f) | Some (Ok (_, k)) => Some (Ok k)
    end
  else if h_type header =? kFcgiStdin then Some (onStdin body (h_length header) k)
  else Some (Ok k).

Fixpoint parse_records (fuel : nat) (buf : Buffer) (k : FastCgiCodec) : option (outcome (Buffer * FastCgiCodec)) :=
  match fuel with
  | O => None
  | S fuel =>
      if kRecordHeader <=? readableBytes buf then
        let header := read_header (range buf (peek buf) (peek buf + kRecordHeader)) in
        let total := u64 (kRecordHeader + h_length header + h_padding header) in
        if total <=? readableBytes buf then
          match handle_record header buf k with
          | Some (Ok k) =>
              match retrieve buf total with
              | Ok buf => parse_records fuel buf k
              | Err f => Some (Err f)
              end
          | Some (Err f) => Some (Err f)
          | None => None
          end
        else Some (Ok (buf, k))
      else Some (Ok (buf, k))
  end.

Definition parseRequest (buf : Buffer) (k : FastCgiCodec) : option (outcome (Buffer * FastCgiCodec)) :=
  parse_records (S (length (content buf))) buf k.

(** *** Answers *)

Definition endStdout (buf : Buffer) : outcome Buffer :=
  append buf (header_bytes (mkHeader 1 kFcgiStdout (hostToNetwork16 1) 0 0 0)) kRecordHeader.

Definition endRequest (buf : Buffer) : outcome Buffer :=
  buf ← append buf (header_bytes (mkHeader 1 kFcgiEndRequest (hostToNetwork16 1) (hostToNetwork16 kRecordHeader) 0 0)) kRecordHeader;
  buf ← appendInt32 buf 0;
  appendInt32 buf 0.

Definition respond (response : Buffer) : outcome Buffer :=
  response ←
    (if (readableBytes response <? 65536) && (kRecordHeader <=? prependableBytes response) then
       let header := mkHeader 1 kFcgiStdout (hostToNetwork16 1) (hostToNetwork16 (u16 (readableBytes response)))
         (u8 (Z.land (u64 (- readableBytes response)) 7)) 0 in
       response ← prepend response (header_bytes header) kRecordHeader;
       append response (replicate 9 StringPiece.NUL) (h_padding header)
     else Ok response);
  response ← endStdout response;
  endRequest response.

(** ** The codec on its connection *)

Record FcgiConn : Type := mkFcgiConn { f_conn : TcpConnection; f_codec : FastCgiCodec }.

Section Server.
(** The callback: what it makes of the parameters, the body and the connection. *)
Context (cb_ : ParamMap -> Buffer -> TcpConnection -> outcome (ParamMap * Buffer * TcpConnection)).

Definition fcgi_onMessage (x : FcgiConn) : option (outcome FcgiConn) :=
  match parseRequest (inputBuffer_ (f_conn x)) (f_codec x) with
  | None => None
  | Some (Err f) => Some (Err f)
  | Some (Ok (buf, k)) =>
      let c := set_input buf (f_conn x) in
      Some (if gotRequest_ k then
              '(m, b, c) ← cb_ (params_ k) (stdin_ k) c;
              let k := mkCodec false (keepConn_ k) (retrieveAll b) (retrieveAll (paramsStream_ k)) ∅ in
              Ok (mkFcgiConn (if keepConn_ k then c else shutdown c) k)
            else Ok (mkFcgiConn c k))
  end.
End Server.

(** *** The test program *)

Definition kPath : text := bytes "/fastcgi/".

Section TestServer.
Context (write : nat -> list ascii -> write_result).

(** [onRequest]; what it prints is left out.  [params["REQUEST_URI"]] makes an entry. *)
Definition onRequest (params : ParamMap) (in_ : Buffer) (c : TcpConnection) : outcome (ParamMap * Buffer * TcpConnection) :=
  let uri := default [] (params !! bytes "REQUEST_URI") in
  let params := <[bytes "REQUEST_URI" := uri]> params in
  in_ ← (if 0 <? readableBytes in_ then '(_, b) ← retrieveAllAsString in_; Ok b else Ok in_);
  response ← new_Buffer kInitialSize;
  p ← StringPiece.of_cstr (StringPiece.c_str (bytes "Context->Type: text/plain" ++ kCRLF ++ kCRLF));
  response ← append_piece response p;
  p ← StringPiece.of_cstr (StringPiece.c_str (if decide (kPath `prefix_of` uri) then bytes "good request!" else bytes "bad request!"));
  response ← append_piece response p;
  response ← respond response;
  '(_, c) ← send_buffer write response c;
  Ok (params, in_, c).

Definition fcgi_closed (x : FcgiConn) : outcome FcgiConn :=
  c ← handleClose write silent_user (f_conn x); Ok (mkFcgiConn c (f_codec x)).

Definition fcgi_read_all : list (Timestamp * text) -> FcgiConn -> option (outcome FcgiConn) :=
  stream_read_all (fun x => inputBuffer_ (f_conn x)) (fun b x => mkFcgiConn (set_input b (f_conn x)) (f_codec x))
    (fun x => mkFcgiConn (record_call NMessage (f_conn x)) (f_codec x)) (fun _ => fcgi_onMessage onRequest) fcgi_closed Ok.
End TestServer.

(** ** Parameters *)

(** What [readLen] gives on a stream of less than 2 GB, and what it leaves. *)
Definition spec_len (s : text) : Z * text :=
  match s with
  | [] => (no_length, [])
  | c :: s' => if Z_of_byte c <? 128 then (Z_of_byte c, s') else if 4 <=? zlen s then (zlen s, s) else (no_length, s)
  end.

Fixpoint spec_params (fuel : nat) (s : text) (m : ParamMap) : bool * text * ParamMap :=
  match fuel with
  | O => (true, s, m)
  | S fuel =>
      if decide (s = []) then (true, s, m)
      else
        let '(nameLen, s) := spec_len s in
        if nameLen =? no_length then (false, s, m)
        else
          let '(valueLen, s) := spec_len s in
          if valueLen =? no_length then (false, s, m)
          else if nameLen + valueLen <=? zlen s then
            spec_params fuel (zdrop (nameLen + valueLen) s) (<[ztake nameLen s := ztake valueLen (zdrop nameLen s)]> m)
          else (false, s, m)
  end.

Lemma high_bit c : (Z.land (Z_of_byte c) 128 =? 0) = (Z_of_byte c <? 128).
Proof. destruct c as [[] [] [] [] [] [] [] []]; reflexivity. Qed.

Lemma peekInt8_repr b c s : repr b (c :: s) -> peekInt8 b = Ok (i8 (Z_of_byte c)).
Proof.
  intros H. unfold peekInt8. rewrite (readable_repr _ _ H), zlen_cons. pose proof (zlen_nonneg s). zguard.
  rewrite (range_peek b (c :: s) 1 H) by (rewrite zlen_cons; lia). change (ztake 1 (c :: s)) with [c]. cbn [le_value]. do 2 f_equal. lia.
Qed.

Lemma readLen_repr b s : repr b s -> zlen s < 2 ^ 31 ->
  exists b', readLen b = Ok ((spec_len s).1, b') /\ repr b' (spec_len s).2.
Proof.
  intros H Hs. unfold readLen. rewrite (readable_repr _ _ H). destruct s as [|c s].
  { exists b. split; [reflexivity|done]. }
  pose proof (zlen_nonneg s). pose proof (Z_of_byte_range c). rewrite zlen_cons. rewrite (proj2 (Z.leb_le 1 _)) by lia.
  rewrite (peekInt8_repr _ _ _ H). cbn [mbind outcome_bind].
  assert (Hu : u8 (i8 (Z_of_byte c)) = Z_of_byte c).
  { unfold u8, i8. rewrite uwrap_swrap by done. apply uwrap_small. unfold in_u. lia. }
  rewrite Hu, high_bit. unfold spec_len. destruct (Z.ltb_spec (Z_of_byte c) 128) as [Hc|Hc].
  - unfold readInt8. rewrite (peekInt8_repr _ _ _ H). cbn [mbind outcome_bind]. unfold retrieveInt8.
    destruct (retrieve_repr _ _ 1 H) as (b' & -> & Hb' & _); [rewrite zlen_cons; lia|]. cbn [mbind outcome_bind]. exists b'.
    assert (Hi : i8 (Z_of_byte c) = Z_of_byte c) by (apply swrap_small; [done|unfold in_s; simpl; lia]).
    rewrite Hi. split; [|done]. cbn [fst]. do 2 f_equal. apply uwrap_small. unfold in_u. lia.
  - rewrite <- (zlen_cons c s) in *. destruct (Z.leb_spec 4 (zlen (c :: s))) as [H4|H4]; [|by exists b].
    exists b. split; [|done]. cbn [fst]. do 2 f_equal. change (2 ^ 31 - 1) with (Z.ones 31). rewrite Z.land_ones by lia.
    rewrite Z.mod_small by (rewrite zlen_cons in *; lia). apply uwrap_small. unfold in_u. rewrite zlen_cons in *. lia.
Qed.

(** The lengths are small, or stand for the whole stream; then nothing was taken from it. *)
Lemma spec_len_cases s : zlen s < 2 ^ 31 -> let '(n, s') := spec_len s in
  n = no_length \/ (0 <= n < 128 /\ zlen s = 1 + zlen s') \/ (s' = s /\ n = zlen s /\ 4 <= n /\ exists c t, s = c :: t /\ 128 <= Z_of_byte c).
Proof.
  intros Hs. destruct s as [|c s]; [by left|]. cbn [spec_len]. pose proof (Z_of_byte_range c).
  destruct (Z.ltb_spec (Z_of_byte c) 128); [right; left; split; [lia|by rewrite zlen_cons]|].
  destruct (Z.leb_spec 4 (zlen (c :: s))); [|by left]. right; right. split_and!; try done. by exists c, s.
Qed.

(** A round that goes on takes at least one byte. *)
Lemma spec_len_progress s : zlen s < 2 ^ 31 -> let '(n, s1) := spec_len s in let '(v, s2) := spec_len s1 in
  n <> no_length -> v <> no_length -> n + v <= zlen s2 -> 0 <= n /\ 0 <= v /\ n + v < 2 ^ 32 /\ zlen s2 <= zlen s /\ (zlen s2 - (n + v) < zlen s).
Proof.
  intros Hs. pose proof (spec_len_cases s Hs) as H. destruct (spec_len s) as [n s1].
  destruct (decide (n = no_length)) as [->|Hn]; [by destruct (spec_len s1)|].
  destruct H as [H|[[H1 H2]|(-> & H2 & H3 & c & t & E & Hc)]]; [done| |].
  - pose proof (spec_len_cases s1 ltac:(lia)) as H. destruct (spec_len s1) as [v s2]. intros _ Hv Hle. pose proof (zlen_nonneg s1). pose proof (zlen_nonneg s2).
    destruct H as [H|[[K3 K4]|(-> & K4 & K5 & _)]]; [done|lia|lia].
  - subst s. cbn [spec_len]. rewrite (proj2 (Z.ltb_ge (Z_of_byte c) 128)), (proj2 (Z.leb_le 4 (zlen (c :: t)))) by lia. lia.
Qed.

Lemma spec_len_range s : zlen s < 2 ^ 31 -> (spec_len s).1 <> no_length -> 0 <= (spec_len s).1 < 2 ^ 31.
Proof. intros Hs. pose proof (spec_len_cases s Hs) as H. destruct (spec_len s) as [n s']. simpl. intros Hn. destruct H as [H|[H|H]]; [done|lia|lia]. Qed.

Lemma spec_len_shorter s : zlen (spec_len s).2 <= zlen s.
Proof.
  destruct s as [|c s]; [done|]. cbn [spec_len]. destruct (_ <? _); [rewrite zlen_cons; simpl; lia|]. by destruct (_ <=? _).
Qed.

Lemma parseAllParams_spec fuel : forall b s m, repr b s -> zlen s < 2 ^ 31 -> (length s < fuel)%nat ->
  let '(ok, s', m') := spec_params fuel s m in
  exists b', parseAllParams fuel b m = Some (Ok (ok, b', m')) /\ repr b' s' /\ zlen s' <= zlen s.
Proof.
  induction fuel as [|fuel IH]; intros b s m Hb Hs Hf; [lia|]. cbn [parseAllParams spec_params]. rewrite (readable_repr _ _ Hb).
  destruct (decide (s = [])) as [->|Hne]; [by exists b|].
  assert (Hpos : 0 < zlen s) by (destruct s; [done|rewrite zlen_cons; pose proof (zlen_nonneg s); lia]).
  rewrite (proj2 (Z.ltb_lt 0 (zlen s))) by lia.
  destruct (readLen_repr b s Hb Hs) as (b1 & -> & Hb1). pose proof (spec_len_progress s Hs) as Hpr. pose proof (spec_len_shorter s) as Hl1.
  pose proof (spec_len_range s Hs) as Hr1.
  destruct (spec_len s) as [n s1]. cbn [fst snd] in *. destruct (Z.eqb_spec n no_length) as [->|Hn]; [by exists b1|].
  destruct (readLen_repr b1 s1 Hb1 ltac:(lia)) as (b2 & -> & Hb2). pose proof (spec_len_shorter s1) as Hl2.
  pose proof (spec_len_range s1 ltac:(lia)) as Hr2.
  destruct (spec_len s1) as [v s2]. cbn [fst snd] in *.
  destruct (Z.eqb_spec v no_length) as [->|Hv]; [exists b2; split_and!; done || lia|]. rewrite (readable_repr _ _ Hb2).
  specialize (Hr1 Hn). specialize (Hr2 Hv). assert (Hu : u32 (n + v) = n + v) by (apply uwrap_small; unfold in_u; lia). rewrite Hu.
  destruct (Z.leb_spec (n + v) (zlen s2)) as [Hle|Hle]; [|exists b2; split_and!; done || lia].
  destruct (Hpr Hn Hv Hle) as (Hn0 & Hv0 & Hsum & _ & Hlt).
  destruct (retrieveAsString_repr b2 s2 n Hb2) as (b3 & -> & Hb3); [lia|]. cbn [mbind outcome_bind].
  assert (Hz : zlen (zdrop n s2) = zlen s2 - n) by (apply zlen_zdrop; lia).
  destruct (retrieveAsString_repr b3 _ v Hb3) as (b4 & -> & Hb4); [lia|]. cbn [mbind outcome_bind].
  rewrite zdrop_zdrop in Hb4 by lia. assert (Hz' : zlen (zdrop (n + v) s2) = zlen s2 - (n + v)) by (apply zlen_zdrop; lia).
  pose proof (IH b4 _ (<[ztake n s2 := ztake v (zdrop n s2)]> m) Hb4 ltac:(lia) ltac:(unfold zlen in *; lia)) as H.
  destruct (spec_params fuel _ _) as [[ok s'] m']. destruct H as (b' & E & Hr & Hl). exists b'. split_and!; done || lia.
Qed.

(** ** Records *)

Definition rec_header (s : text) : RecordHeader := read_header (ztake kRecordHeader s).
Definition rec_total (s : text) : Z := kRecordHeader + h_length (rec_header s) + h_padding (rec_header s).

(** The next record: its type and its content. *)
Definition next_record (s : text) : frame (Z * text) :=
  if (kRecordHeader <=? zlen s) && (rec_total s <=? zlen s)
  then Frame (h_type (rec_header s), ztake (h_length (rec_header s)) (zdrop kRecordHeader s)) (zdrop (rec_total s) s)
  else Wait.

Lemma header_range mem : 0 <= h_length (read_header mem) < 2 ^ 16 /\ 0 <= h_padding (read_header mem) < 2 ^ 8.
Proof.
  split; [apply (bswap_range 2)|]. change (h_padding (read_header mem)) with (le_value (zslice 6 7 mem)).
  assert (Hl : (length (zslice 6 7 mem) <= 1)%nat) by (unfold zslice, ztake; rewrite length_take; lia).
  destruct (zslice 6 7 mem) as [|a [|b l]]; cbn [le_value length] in *; [lia|pose proof (Z_of_byte_range a); lia|lia].
Qed.

Lemma rec_total_range s : kRecordHeader <= rec_total s < 2 ^ 17.
Proof. unfold rec_total, kRecordHeader. pose proof (header_range (ztake 8 s)). unfold rec_header, kRecordHeader. lia. Qed.

#[export] Instance next_record_framing : Framing next_record.
Proof.
  constructor; unfold next_record.
  - intros s a rest H. pose proof (rec_total_range s) as Ht. unfold kRecordHeader in *.
    destruct (_ && _) eqn:E; [|done]. injection H as _ <-. apply andb_true_iff in E as [E1%Z.leb_le E2%Z.leb_le].
    rewrite length_zdrop. unfold zlen in *. lia.
  - intros s a rest t H. pose proof (rec_total_range s) as Ht. pose proof (header_range (ztake kRecordHeader s)) as Hh. fold (rec_header s) in Hh.
    destruct (_ && _) eqn:E; [|done]. apply andb_true_iff in E as [E1%Z.leb_le E2%Z.leb_le].
    assert (Er : rec_header (s ++ t) = rec_header s) by (unfold rec_header; by rewrite ztake_app_le).
    assert (Et : rec_total (s ++ t) = rec_total s) by (unfold rec_total; by rewrite Er). rewrite Et, Er, zlen_app.
    pose proof (zlen_nonneg t). rewrite !(proj2 (Z.leb_le _ _)) by lia. cbn [andb]. unfold rec_total in *.
    unfold kRecordHeader in *. rewrite !(zdrop_app_le _ s t), ztake_app_le by (try rewrite zlen_zdrop; lia). by injection H as <- <-.
  - intros s t. by destruct (_ && _).
Qed.

Lemma decode_records_ok s : (decode next_record s).2 = true.
Proof.
  apply (decode_ind next_record (fun _ d => d.2 = true)); [done| |done].
  intros s0. unfold next_record. by destruct (_ && _).
Qed.

(** ** The codec on byte strings *)

Record Fcgi : Type := mkFcgi { fs_got : bool; fs_keep : bool; fs_stdin : text; fs_stream : text; fs_params : ParamMap }.

Definition spec_record (st : Fcgi) (r : Z * text) : Fcgi :=
  let '(ty, body) := r in
  if ty =? kFcgiBeginRequest then
    if (kRecordHeader <=? zlen body) && (fcgi_readInt16 body =? kFcgiResponder)
    then mkFcgi (fs_got st) (le_value (zslice 2 3 body) =? kFcgiKeepConn) (fs_stdin st) (fs_stream st) (fs_params st)
    else st
  else if ty =? kFcgiParams then
    if decide (body = []) then
      let '(_, s, m) := spec_params (S (length (fs_stream st))) (fs_stream st) (fs_params st) in
      mkFcgi (fs_got st) (fs_keep st) (fs_stdin st) s m
    else mkFcgi (fs_got st) (fs_keep st) (fs_stdin st) (fs_stream st ++ body) (fs_params st)
  else if ty =? kFcgiStdin then
    if decide (body = []) then mkFcgi true (fs_keep st) (fs_stdin st) (fs_stream st) (fs_params st)
    else mkFcgi (fs_got st) (fs_keep st) (fs_stdin st ++ body) (fs_stream st) (fs_params st)
  else st.

Record CodecRep (k : FastCgiCodec) (st : Fcgi) : Prop := mkCodecRep {
  cr_got : gotRequest_ k = fs_got st;
  cr_keep : keepConn_ k = fs_keep st;
  cr_stdin : repr (stdin_ k) (fs_stdin st);
  cr_stream : repr (paramsStream_ k) (fs_stream st);
  cr_params : params_ k = fs_params st
}.

Lemma zlen_zdrop_le n (s : text) : zlen (zdrop n s) <= zlen s.
Proof. unfold zlen. rewrite length_zdrop. lia. Qed.

Lemma spec_params_shorter fuel : forall s m, zlen (spec_params fuel s m).1.2 <= zlen s.
Proof.
  induction fuel as [|fuel IH]; intros s m; cbn [spec_params]; [done|]. destruct (decide (s = [])) as [->|_]; [done|].
  pose proof (spec_len_shorter s). destruct (spec_len s) as [n s1]. simpl in *. destruct (n =? no_length); [done|].
  pose proof (spec_len_shorter s1). destruct (spec_len s1) as [v s2]. simpl in *. destruct (v =? no_length); [simpl; lia|].
  destruct (n + v <=? zlen s2); [|simpl; lia]. etrans; [apply IH|]. pose proof (zlen_zdrop_le (n + v) s2). lia.
Qed.

Lemma spec_record_stream st r : zlen (fs_stream (spec_record st r)) <= zlen (fs_stream st) + zlen r.2.
Proof.
  destruct r as [ty body]. cbn [spec_record snd]. pose proof (zlen_nonneg body).
  pose proof (spec_params_shorter (S (length (fs_stream st))) (fs_stream st) (fs_params st)) as Hp.
  destruct (spec_params _ _ _) as [[ok s] m]. simpl in Hp.
  repeat (case_match; simpl; try lia); rewrite zlen_app; lia.
Qed.

(** *** One record *)

Lemma handle_record_spec buf txt k st ty body rest : repr buf txt -> CodecRep k st -> next_record txt = Frame (ty, body) rest ->
  zlen (fs_stream st) < 2 ^ 31 ->
  exists r, handle_record (rec_header txt) buf k = Some r /\ unless too_long r (fun k' => CodecRep k' (spec_record st (ty, body))).
Proof.
  intros Hb [H1 H2 H3 H4 H5] Hnext Hs. unfold next_record in Hnext. destruct (_ && _) eqn:E; [|done].
  assert (h_type (rec_header txt) = ty /\ ztake (h_length (rec_header txt)) (zdrop kRecordHeader txt) = body) as [<- Ebody]
    by (split; congruence). clear Hnext.
  apply andb_true_iff in E as [E1%Z.leb_le E2%Z.leb_le]. pose proof (header_range (ztake kRecordHeader txt)) as Hh. fold (rec_header txt) in Hh.
  unfold rec_total, kRecordHeader in *. remember (rec_header txt) as h eqn:Eh0.
  assert (Hz : zlen (zdrop 8 txt) = zlen txt - 8) by (apply zlen_zdrop; lia).
  assert (Hlen : zlen body = h_length h) by (rewrite <- Ebody; apply zlen_ztake; lia).
  destruct (repr_inv buf txt Hb) as (p & q & Ebuf & _).
  assert (Emem : exists more, zdrop (peek buf + 8) (buffer_ buf) = body ++ more).
  { subst buf. unfold peek. simpl. exists (zdrop (h_length h) (zdrop 8 txt) ++ q). rewrite <- zdrop_zdrop by (pose proof (zlen_nonneg p); lia).
    rewrite zdrop_app_exact, zdrop_app_le by (done || lia). rewrite app_assoc. f_equal. rewrite <- Ebody. by rewrite ztake_zdrop. }
  destruct Emem as [more Em]. unfold handle_record, kRecordHeader. cbn [spec_record]. rewrite Em. pose proof (zlen_nonneg body).
  assert (Happ : forall b s, repr b s -> unless too_long (append b (body ++ more) (h_length h)) (fun b' => repr b' (s ++ body))).
  { intros b s Hr. destruct (append_cases b s (body ++ more) (h_length h) Hr) as [[-> _]|(b' & -> & Hr' & _)];
      [rewrite zlen_app; pose proof (zlen_nonneg more); lia|unfold max_size; lia|done|]. by rewrite <- Hlen, ztake_app_exact in Hr'. }
  assert (Hempty : (0 <? h_length h) = negb (bool_decide (body = []))).
  { rewrite <- Hlen. case_bool_decide as Hd; [by rewrite Hd|]. apply Z.ltb_lt. clear Ebody. destruct body; [done|]. rewrite zlen_cons. pose proof (zlen_nonneg body). lia. }
  destruct (h_type h =? kFcgiBeginRequest) eqn:Et; [|destruct (h_type h =? kFcgiParams); [|destruct (h_type h =? kFcgiStdin)]].
  - eexists. split; [done|]. unfold onBeginRequest. rewrite (readable_repr _ _ Hb), Et, (proj2 (Z.leb_le (h_length h) (zlen txt))) by lia.
    cbn [assert_ mbind outcome_bind]. unfold kRecordHeader. rewrite <- Hlen. destruct (Z.leb_spec 8 (zlen body)) as [H8|H8]; [|simpl; by constructor].
    rewrite zdrop_zdrop by (subst buf; unfold peek; simpl; pose proof (zlen_nonneg p); lia). rewrite Em. cbn [andb].
    assert (Er : fcgi_readInt16 (body ++ more) = fcgi_readInt16 body) by (unfold fcgi_readInt16; by rewrite ztake_app_le by lia).
    assert (Ef : zslice (8 + 2) (8 + 3) (zdrop (peek buf) (buffer_ buf)) = zslice 2 3 body).
    { unfold zslice. rewrite !zdrop_zdrop by (subst buf; unfold peek; simpl; pose proof (zlen_nonneg p); lia).
      rewrite Z.add_assoc, <- zdrop_zdrop by (subst buf; unfold peek; simpl; pose proof (zlen_nonneg p); lia).
      rewrite Em, zdrop_app_le by lia. apply ztake_app_le. rewrite zlen_zdrop; lia. }
    rewrite Er, Ef. destruct (fcgi_readInt16 body =? kFcgiResponder); simpl; by constructor.
  - unfold onParams. rewrite Hempty. destruct (decide (body = [])) as [Hd|Hd].
    + rewrite bool_decide_true by done. cbn [negb]. destruct H4 as [Hw Hc]. rewrite Hc, H5.
      pose proof (parseAllParams_spec (S (length (fs_stream st))) (paramsStream_ k) _ (fs_params st) (conj Hw Hc) Hs ltac:(lia)) as Hp.
      destruct (spec_params _ _ _) as [[ok s] m]. destruct Hp as (b' & -> & Hb' & _). eexists. split; [done|]. by constructor.
    + rewrite bool_decide_false by done. cbn [negb]. specialize (Happ _ _ H4).
      destruct (append (paramsStream_ k) _ _) as [b'|f]; eexists; (split; [done|]); [by constructor|done].
  - eexists. split; [done|]. unfold onStdin. rewrite Hempty. destruct (decide (body = [])) as [Hd|Hd].
    + rewrite bool_decide_true by done. by constructor.
    + rewrite bool_decide_false by done. cbn [negb]. specialize (Happ _ _ H3). destruct (append (stdin_ k) _ _) as [b'|f]; [by constructor|done].
  - eexists. split; [done|]. by constructor.
Qed.

(** *** All records of a buffer *)

Lemma parse_records_spec fuel : forall buf txt k st, repr buf txt -> CodecRep k st -> (length txt < fuel)%nat ->
  zlen (fs_stream st) + zlen txt < 2 ^ 31 ->
  exists r, parse_records fuel buf k = Some r /\ unless too_long r (fun p =>
    let '(rs, rest, _) := decode next_record txt in
    repr p.1 rest /\ CodecRep p.2 (foldl spec_record st rs) /\ zlen (fs_stream (foldl spec_record st rs)) + zlen rest <= zlen (fs_stream st) + zlen txt).
Proof.
  induction fuel as [|fuel IH]; intros buf txt k st Hb Hk Hf Hs; [lia|]. cbn [parse_records]. rewrite (readable_repr _ _ Hb).
  rewrite (decode_unfold next_record). destruct (next_record txt) as [| |[ty body] rest] eqn:E.
  - unfold next_record in E. unfold rec_total in E. destruct (Z.leb_spec kRecordHeader (zlen txt)) as [H8|H8]; [|eexists; split; [done|]; by split_and!].
    rewrite (range_peek buf txt kRecordHeader Hb) by (unfold kRecordHeader in *; lia). fold (rec_header txt).
    pose proof (header_range (ztake kRecordHeader txt)) as Hh. fold (rec_header txt) in Hh. rewrite u64_id by (unfold kRecordHeader, max_size; lia).
    cbn [andb] in E. destruct (_ <=? zlen txt); [done|]. eexists. split; [done|]. by split_and!.
  - unfold next_record in E. by destruct (_ && _).
  - pose proof (handle_record_spec buf txt k st ty body rest Hb Hk E ltac:(pose proof (zlen_nonneg txt); lia)) as (r & Eh & Hr).
    unfold next_record in E. destruct (_ && _) eqn:Eg; [|done]. apply andb_true_iff in Eg as [E1%Z.leb_le E2%Z.leb_le].
    pose proof (rec_total_range txt) as Ht. pose proof (header_range (ztake kRecordHeader txt)) as Hh. fold (rec_header txt) in Hh.
    unfold kRecordHeader in *. rewrite (proj2 (Z.leb_le 8 _)), (range_peek buf txt 8 Hb) by lia. fold kRecordHeader. fold (rec_header txt).
    unfold rec_total, kRecordHeader in *. rewrite u64_id, (proj2 (Z.leb_le _ (zlen txt))), Eh by (unfold max_size; lia).
    destruct r as [k'|f]; [|by eexists]. set (n := 8 + h_length (rec_header txt) + h_padding (rec_header txt)) in *.
    destruct (retrieve_repr _ _ n Hb ltac:(lia)) as (b' & -> & Hb' & _). 
    assert (zdrop n txt = rest /\ ztake (h_length (rec_header txt)) (zdrop 8 txt) = body) as [<- Ebody] by (split; congruence).
    assert (Hz : zlen (zdrop n txt) = zlen txt - n) by (apply zlen_zdrop; lia).
    assert (Hlen : zlen body = h_length (rec_header txt)) by (rewrite <- Ebody; apply zlen_ztake; rewrite zlen_zdrop; lia).
    pose proof (spec_record_stream st (ty, body)) as Hst. cbn [snd] in Hst. pose proof (zlen_nonneg txt).
    destruct (IH b' (zdrop n txt) k' (spec_record st (ty, body)) Hb' Hr) as (r & -> & Hr'); [rewrite length_zdrop; unfold zlen in *; lia|lia|].
    eexists. split; [done|]. eapply unless_mono; [exact Hr'|]. intros [b2 k2] _.
    destruct (decode next_record (zdrop n txt)) as [[rs rest] ok]. intros (R1 & R2 & R3). split_and!; [done..|]. cbn [foldl]. lia.
Qed.

(** ** Answers *)

(** A record as it is written: version 1, request 1. *)
Definition record_text (ty : Z) (body : text) (padding : Z) : text :=
  header_bytes (mkHeader 1 ty (hostToNetwork16 1) (hostToNetwork16 (zlen body)) padding 0) ++ body ++
  replicate (Z.to_nat padding) StringPiece.NUL.

(** A record with its content, the empty record, and the end of the request. *)
Definition answer_text (body : text) : text :=
  record_text kFcgiStdout body ((- zlen body) mod 8) ++ record_text kFcgiStdout [] 0 ++
  record_text kFcgiEndRequest (replicate 8 StringPiece.NUL) 0.

Lemma zlen_header_bytes h : zlen (header_bytes h) = 8.
Proof. reflexivity. Qed.

Lemma append_text b s d : repr b s -> zlen d < 2 ^ 31 -> unless too_long (append b d (zlen d)) (fun b' => repr b' (s ++ d)).
Proof.
  intros Hb Hd. pose proof (zlen_nonneg d). destruct (append_cases b s d (zlen d) Hb) as [[-> _]|(b' & -> & Hr & _)];
    [lia|unfold max_size; lia|done|]. by rewrite ztake_all in Hr by lia.
Qed.

Lemma padding_spec n : 0 <= n -> u8 (Z.land (u64 (- n)) 7) = (- n) mod 8.
Proof.
  intros Hn. change 7 with (Z.ones 3). rewrite Z.land_ones by lia. change (2 ^ 3) with 8.
  assert (E : u64 (- n) mod 8 = (- n) mod 8).
  { unfold u64, uwrap. change (2 ^ 64) with (8 * 2 ^ 61). rewrite Z.rem_mul_r by lia. rewrite Z.mul_comm, Z.mod_add by lia. by rewrite Z.mod_mod. }
  rewrite E. apply uwrap_small. unfold in_u. pose proof (Z.mod_pos_bound (- n) 8). lia.
Qed.

Lemma respond_text b s : repr b s -> zlen s < 65536 -> kRecordHeader <= readerIndex_ b ->
  unless too_long (respond b) (fun b' => repr b' (answer_text s)).
Proof.
  intros Hb Hs Hr. unfold respond. rewrite (readable_repr _ _ Hb). pose proof (zlen_nonneg s).
  rewrite (proj2 (Z.ltb_lt (zlen s) 65536)) by lia. unfold prependableBytes. rewrite (proj2 (Z.leb_le kRecordHeader _)) by done. cbn [andb].
  cbv zeta. cbn [h_padding]. rewrite padding_spec by lia. assert (Hu : u16 (zlen s) = zlen s) by (apply uwrap_small; unfold in_u; lia). rewrite Hu.
  set (h := mkHeader _ _ _ _ _ _). pose proof (Z.mod_pos_bound (- zlen s) 8 ltac:(lia)) as Hp.
  destruct (prepend_repr b s (header_bytes h) kRecordHeader Hb) as (b1 & -> & Hb1 & _); [rewrite zlen_header_bytes; unfold kRecordHeader; lia|done|].
  cbn [mbind outcome_bind]. rewrite (ztake_all kRecordHeader (header_bytes h)) in Hb1 by (rewrite zlen_header_bytes; done).
  assert (Hpad : unless too_long (append b1 (replicate 9 StringPiece.NUL) ((- zlen s) mod 8))
    (fun b2 => repr b2 (record_text kFcgiStdout s ((- zlen s) mod 8)))).
  { destruct (append_cases b1 _ (replicate 9 StringPiece.NUL) ((- zlen s) mod 8) Hb1) as [[-> _]|(b2 & -> & Hr2 & _)];
      [change (zlen (replicate 9 StringPiece.NUL)) with 9; lia|unfold max_size; lia|done|].
    unfold record_text. fold h. rewrite <- app_assoc in Hr2. unfold ztake in Hr2. rewrite take_replicate in Hr2.
    by replace (Z.to_nat ((- zlen s) mod 8) `min` 9)%nat with (Z.to_nat ((- zlen s) mod 8)) in Hr2 by lia. }
  eapply unless_bind; [exact Hpad|]. intros b2 _ Hb2. unfold endStdout, endRequest.
  eapply unless_bind; [eapply (append_text b2); [exact Hb2|done]|]. intros b3 _ Hb3.
  eapply unless_bind; [eapply (append_text b3); [exact Hb3|done]|]. intros b4 _ Hb4. unfold appendInt32.
  eapply unless_bind; [eapply (append_text b4); [exact Hb4|done]|]. intros b5 _ Hb5.
  eapply unless_mono; [eapply (append_text b5); [exact Hb5|done]|]. intros b6 _ Hb6.
  unfold answer_text. rewrite <- !app_assoc in Hb6. exact Hb6.
Qed.

(** The text the test program answers with. *)
Definition response_body (m : ParamMap) : text :=
  (bytes "Context->Type: text/plain" ++ kCRLF ++ kCRLF) ++
  (if decide (kPath `prefix_of` default [] (m !! bytes "REQUEST_URI")) then bytes "good request!" else bytes "bad request!").

Section Answering.
Context (write : nat -> list ascii -> write_result).
Hypothesis write_bounded : forall k data n, write k data = Wrote n -> 0 <= n <= zlen data.
Hypothesis write_ok : no_fault write.

(** The response before it is wrapped into records. *)
Lemma fcgi_response m : exists response,
  (response ← new_Buffer kInitialSize;
   p ← StringPiece.of_cstr (StringPiece.c_str (bytes "Context->Type: text/plain" ++ kCRLF ++ kCRLF));
   response ← append_piece response p;
   p ← StringPiece.of_cstr (StringPiece.c_str (if decide (kPath `prefix_of` default [] (m !! bytes "REQUEST_URI")) then bytes "good request!" else bytes "bad request!"));
   append_piece response p) = Ok response /\
  repr response (response_body m) /\ kRecordHeader <= readerIndex_ response /\ zlen (response_body m) < 65536.
Proof.
  unfold response_body. destruct (decide _); (eexists; split; [vm_compute; reflexivity|]); (split; [split; [by_compute|by vm_compute]|]); by vm_compute.
Qed.

Lemma fcgi_request_answered m b s c : repr b s -> CInv 0 c -> TcpConnection.state_ c <> kConnecting ->
  unless too_long (onRequest write m b c) (fun p => wf p.1.2 /\ sent_on c p.2 (answer_text (response_body m))).
Proof.
  intros Hb Hc Hst. unfold onRequest. cbv zeta.
  assert (Hin : exists b', (if 0 <? readableBytes b then '(_, b) ← retrieveAllAsString b; Ok b else Ok b) = Ok b' /\ wf b').
  { destruct (0 <? readableBytes b); [|exists b; split; [done|apply Hb]]. destruct (retrieveAllAsString_repr b s Hb) as (b' & -> & Hb').
    exists b'. split; [done|apply Hb']. }
  destruct Hin as (b' & -> & Hb'). cbn [mbind outcome_bind]. destruct (fcgi_response m) as (response & E & Hr & Hi & Hl). revert E.
  destruct (new_Buffer kInitialSize) as [r0|f]; [|done]. cbn [mbind outcome_bind].
  destruct (StringPiece.of_cstr (StringPiece.c_str (bytes "Context->Type: text/plain" ++ kCRLF ++ kCRLF))) as [p|f]; [|done]. cbn [mbind outcome_bind].
  destruct (append_piece r0 p) as [r1|f]; [|done]. cbn [mbind outcome_bind].
  destruct (StringPiece.of_cstr (StringPiece.c_str (if decide (kPath `prefix_of` _) then _ else _))) as [q|f]; [|done]. cbn [mbind outcome_bind].
  intros ->. cbn [mbind outcome_bind]. eapply unless_bind; [by apply respond_text|]. intros rb _ Hrb.
  eapply unless_bind; [eapply (send_buffer_started write write_bounded rb); [exact Hrb|done|done]|]. intros [rb' c'] Eq (H1 & H2 & H3 & H4). simpl in *.
  split; [done|]. unfold sent_on, stream. split_and!; try done. destruct (connected c) eqn:Ec.
  - rewrite <- app_assoc. apply H4; [by apply connected_spec|done].
  - unfold send_buffer in Eq. rewrite Ec in Eq. injection Eq as _ <-. by rewrite app_nil_r.
Qed.

(** ** Messages *)

(** The codec, the bytes of an incomplete record, what was sent, and whether the
    connection is still up. *)
Definition fcgi_state : Type := Fcgi * text * text * bool.

Definition spec_message (x : fcgi_state) (seg : text) : fcgi_state :=
  let '(st, rest, out, up) := x in
  let '(rs, rest, _) := decode next_record (rest ++ seg) in
  let st := foldl spec_record st rs in
  if fs_got st then
    (mkFcgi false (fs_keep st) [] [] ∅, rest, out ++ (if up : bool then answer_text (response_body (fs_params st)) else []), up && fs_keep st)
  else (st, rest, out, up).

Definition fcgi_init : Fcgi := mkFcgi false false [] [] ∅.

Record FcgiRep (c0 : TcpConnection) (y : fcgi_state) (x : FcgiConn) : Prop := mkFcgiRep {
  fr_conn : CInv 0 (f_conn x);
  fr_state : TcpConnection.state_ (f_conn x) <> kConnecting;
  fr_input : repr (inputBuffer_ (f_conn x)) y.1.1.2;
  fr_codec : CodecRep (f_codec x) y.1.1.1;
  fr_sent : stream (f_conn x) = stream c0 ++ y.1.2;
  fr_up : connected (f_conn x) = y.2
}.

(** The bytes held back. *)
Definition held (y : fcgi_state) : Z := zlen (fs_stream y.1.1.1) + zlen y.1.1.2.

Lemma fcgi_onMessage_spec c0 st rest out up seg x b : FcgiRep c0 (st, rest, out, up) x -> repr b (rest ++ seg) ->
  held (st, rest, out, up) + zlen seg < 2 ^ 31 ->
  exists r, fcgi_onMessage (onRequest write) (mkFcgiConn (record_call NMessage (set_input b (f_conn x))) (f_codec x)) = Some r /\
    unless too_long r (fun x' => FcgiRep c0 (spec_message (st, rest, out, up) seg) x' /\
      held (spec_message (st, rest, out, up) seg) <= held (st, rest, out, up) + zlen seg).
Proof.
  intros [H1 H2 H3 H4 H5 H6] Hb Hheld. unfold held in *. cbn [fst snd] in *. unfold fcgi_onMessage, parseRequest. cbn [f_conn f_codec].
  change (inputBuffer_ (record_call NMessage (set_input b (f_conn x)))) with b.
  destruct Hb as [Hw Hc]. rewrite Hc. assert (Hb : repr b (rest ++ seg)) by done.
  destruct (parse_records_spec (S (length (rest ++ seg))) b _ (f_codec x) st Hb H4 ltac:(lia) ltac:(rewrite zlen_app; lia)) as (r & -> & Hr).
  cbn [spec_message]. destruct (decode next_record (rest ++ seg)) as [[rs rest'] ok]. destruct r as [[buf k]|f]; [|by eexists].
  destruct Hr as (R1 & R2 & R3). cbn [fst snd] in R1, R2. eexists. split; [done|]. set (st' := foldl spec_record st rs) in *.
  rewrite zlen_app in R3. set (c1 := set_input buf _).
  assert (Hc1 : CInv 0 c1) by (apply CInv_input; [|apply R1]; apply CInv_record; [done|]; apply CInv_input; [done|apply Hw]).
  rewrite (cr_got _ _ R2). destruct (fs_got st') eqn:Eg; cycle 1.
  { split; [|cbn [fst snd]; lia]. by constructor. }
  rewrite (cr_params _ _ R2). eapply unless_bind; [apply (fcgi_request_answered _ _ _ c1 (cr_stdin _ _ R2) Hc1 H2)|].
  intros [[m b'] c2] _ [Hwb (C1 & C2 & C3 & C4)]. cbn [fst snd] in *. rewrite (cr_keep _ _ R2).
  change (connected c1) with (connected (f_conn x)) in C4. change (stream c1) with (stream (f_conn x)) in C4. rewrite H5, H6, <- app_assoc in C4.
  assert (Hk : CodecRep (mkCodec false (fs_keep st') (retrieveAll b') (retrieveAll (paramsStream_ k)) ∅) (mkFcgi false (fs_keep st') [] [] ∅)).
  { constructor; try done; [by eapply (retrieveAll_repr b' (content b'))|by eapply retrieveAll_repr, (cr_stream _ _ R2)]. }
  assert (Hup : connected c2 = up) by (unfold connected; rewrite C2; exact H6).
  split; [|cbn [fst snd fs_stream]; rewrite zlen_nil; pose proof (zlen_nonneg (fs_stream st')); lia].
  cbn [keepConn_]. destruct (fs_keep st') eqn:Ek.
  - constructor; cbn [f_conn f_codec fst snd]; try done; [by rewrite C2|by rewrite C3|by rewrite andb_true_r].
  - destruct (shutdown_inv c2 C1) as (S1 & S2 & S3). destruct (shutdown_frame c2) as (F1 & F2 & F3 & _).
    constructor; cbn [f_conn f_codec fst snd]; try done.
    + apply S3. by rewrite C2.
    + by rewrite F1, C3.
    + unfold stream, pending_output in *. by rewrite F2, F3.
    + by rewrite S2, andb_false_r.
Qed.

Lemma fcgi_read_spec c0 segs : forall y x, FcgiRep c0 y x -> held y + zlen (concat (map snd segs)) < 2 ^ 31 ->
  Forall (fun s : Timestamp * text => 0 < zlen s.2 <= sizeof_extrabuf) segs ->
  exists r, fcgi_read_all write segs x = Some r /\ unless too_long r (FcgiRep c0 (foldl spec_message y (map snd segs))).
Proof.
  induction segs as [|[t seg] segs IH]; intros [[[st rest] out] up] x H Hheld Hsegs; unfold fcgi_read_all; cbn [stream_read_all map foldl]; [by eexists|].
  apply Forall_cons in Hsegs as [Hseg Hsegs]. cbn [snd map concat] in Hseg, Hheld. rewrite zlen_app in Hheld. unfold stream_handleRead.
  pose proof (fr_input _ _ _ H) as Hin. cbn [fst snd] in Hin. pose proof (iov_room _ _ Hin). pose proof (zlen_nonneg (concat (map snd segs))).
  destruct (readFd_cases (inputBuffer_ (f_conn x)) rest (fun _ => ReadData seg) seg Hin eq_refl ltac:(lia)) as [[-> _]|(b & -> & Hb)]; [by eexists|].
  rewrite (proj2 (Z.ltb_lt 0 _)) by lia. cbn [f_conn f_codec].
  destruct (fcgi_onMessage_spec c0 st rest out up seg x b H Hb ltac:(lia)) as (r & -> & Hr). destruct r as [x'|f]; [|by eexists].
  destruct Hr as [Hr Hh]. apply (IH _ x' Hr); [lia|done].
Qed.
End Answering.

(** ** Requests in good order *)

Lemma next_record_text ty body padding t : 0 <= ty < 256 -> 0 <= padding < 256 -> zlen body < 65536 ->
  next_record (record_text ty body padding ++ t) = Frame (ty, body) t.
Proof.
  intros Hty Hpad Hbody. unfold record_text. set (h := mkHeader _ _ _ _ _ _). rewrite <- !app_assoc.
  pose proof (zlen_nonneg body). pose proof (zlen_nonneg t).
  assert (Hh : forall s, rec_header (header_bytes h ++ s) = mkHeader 1 ty 1 (zlen body) padding 0).
  { intros s. unfold rec_header. rewrite (ztake_app_exact kRecordHeader (header_bytes h)) by done. unfold read_header.
    change (zslice 0 (0 + 1) (header_bytes h)) with (le_bytes 1 1). change (zslice 1 (1 + 1) (header_bytes h)) with (le_bytes 1 ty).
    change (zslice 2 (2 + 2) (header_bytes h)) with (le_bytes 2 (hostToNetwork16 1)).
    change (zslice 4 (4 + 2) (header_bytes h)) with (le_bytes 2 (hostToNetwork16 (zlen body))).
    change (zslice 6 (6 + 1) (header_bytes h)) with (le_bytes 1 padding). change (zslice 7 (7 + 1) (header_bytes h)) with (le_bytes 1 0).
    assert (H8 : forall z, 0 <= z < 256 -> le_value (le_bytes 1 z) = z) by (intros z Hz; rewrite le_value_bytes; apply uwrap_small; exact Hz).
    assert (H16 : forall z, 0 <= z < 65536 -> networkToHost16 (le_value (le_bytes 2 (hostToNetwork16 z))) = z).
    { intros z Hz. unfold networkToHost16, hostToNetwork16. rewrite le_value_bytes, (uwrap_small _ (bswap 2 z)) by apply bswap_range.
      rewrite bswap_involutive. apply uwrap_small. exact Hz. }
    rewrite !H8, !H16 by lia. done. }
  unfold next_record, rec_total. rewrite !Hh. cbn [h_length h_padding h_type]. rewrite !zlen_app, zlen_header_bytes, zlen_replicate by lia.
  unfold kRecordHeader. rewrite !(proj2 (Z.leb_le _ _)) by lia. cbn [andb].
  rewrite (zdrop_app_exact 8 (header_bytes h)), ztake_app_exact by done. do 2 f_equal.
  rewrite (app_assoc body), (app_assoc (header_bytes h)). apply zdrop_app_exact. rewrite !zlen_app, zlen_header_bytes, zlen_replicate; lia.
Qed.

(** A parameter with short lengths. *)
Definition param_text (p : text * text) : text := byte_of_Z (zlen p.1) :: byte_of_Z (zlen p.2) :: p.1 ++ p.2.
Definition short_param (p : text * text) : Prop := zlen p.1 < 128 /\ zlen p.2 < 128.
Definition params_map (ps : list (text * text)) (m : ParamMap) : ParamMap := foldl (fun m p => <[p.1 := p.2]> m) m ps.

Lemma spec_params_text ps : forall fuel m, Forall short_param ps -> (length (concat (map param_text ps)) < fuel)%nat ->
  spec_params fuel (concat (map param_text ps)) m = (true, [], params_map ps m).
Proof.
  induction ps as [|[n v] ps IH]; intros fuel m Hps Hf; (destruct fuel as [|fuel]; [simpl in Hf; lia|]); cbn [spec_params map concat]; [done|].
  apply Forall_cons in Hps as [[Hn Hv] Hps]. cbn [fst snd] in Hn, Hv. pose proof (zlen_nonneg n). pose proof (zlen_nonneg v).
  assert (Hlen : forall z t, 0 <= z < 128 -> spec_len (byte_of_Z z :: t) = (z, t)).
  { intros z t Hz. cbn [spec_len]. rewrite Z_of_byte_of_Z, uwrap_small by (unfold in_u; lia). by rewrite (proj2 (Z.ltb_lt z 128)) by lia. }
  set (more := concat (map param_text ps)) in *.
  change (param_text (n, v) ++ more) with (byte_of_Z (zlen n) :: byte_of_Z (zlen v) :: (n ++ v) ++ more) in *.
  rewrite decide_False by done. rewrite Hlen by lia. unfold no_length.
  rewrite (proj2 (Z.eqb_neq (zlen n) _)), Hlen, (proj2 (Z.eqb_neq (zlen v) _)) by lia.
  rewrite !zlen_app, (proj2 (Z.leb_le (zlen n + zlen v) _)) by (pose proof (zlen_nonneg more); lia).
  rewrite <- app_assoc, (ztake_app_exact (zlen n) n), (zdrop_app_exact (zlen n) n), (ztake_app_exact (zlen v) v) by done.
  rewrite (app_assoc n), zdrop_app_exact by (by rewrite zlen_app). unfold more. rewrite IH; [done|done|].
  cbn [map concat] in Hf. fold more in Hf |- *.
  change (param_text (n, v) ++ more) with (byte_of_Z (zlen n) :: byte_of_Z (zlen v) :: (n ++ v) ++ more) in Hf.
  cbn [length] in Hf. rewrite !length_app in Hf. lia.
Qed.

(** A chunk of a stream, and the padding of its record. *)
Definition chunk : Type := text * Z.
Definition good_chunk (x : chunk) : Prop := 0 < zlen x.1 < 65536 /\ 0 <= x.2 < 256.

Definition begin_body (keep : bool) : text :=
  [byte_of_Z 0; byte_of_Z kFcgiResponder; byte_of_Z (if keep then 1 else 0)] ++ replicate 5 StringPiece.NUL.

(** The records of a request: the beginning, the parameters and the body, both closed by an empty record. *)
Definition request_records (keep : bool) (params body : list chunk) : list (Z * text * Z) :=
  ((kFcgiBeginRequest, begin_body keep, 0) :: map (fun x => (kFcgiParams, x.1, x.2)) params ++ [(kFcgiParams, [], 0)] ++
   map (fun x => (kFcgiStdin, x.1, x.2)) body) ++ [(kFcgiStdin, [], 0)].

Definition request_text (keep : bool) (params body : list chunk) : text :=
  concat (map (fun r => record_text r.1.1 r.1.2 r.2) (request_records keep params body)).

Lemma decode_request keep params body : Forall good_chunk params -> Forall good_chunk body ->
  decode next_record (request_text keep params body) = (map fst (request_records keep params body), [], true).
Proof.
  intros Hp Hb. unfold request_text. 
  assert (Hall : Forall (fun r : Z * text * Z => 0 <= r.1.1 < 256 /\ 0 <= r.2 < 256 /\ zlen r.1.2 < 65536) (request_records keep params body)).
  { unfold request_records. rewrite Forall_app, Forall_cons, !Forall_app, !Forall_cons, !Forall_map.
    split_and!; try done; try apply Forall_nil_2; try (by destruct keep).
    - eapply Forall_impl; [exact Hp|]. intros [x n] [H1 H2]. simpl in *. unfold kFcgiParams. lia.
    - eapply Forall_impl; [exact Hb|]. intros [x n] [H1 H2]. simpl in *. unfold kFcgiStdin. lia. }
  induction Hall as [|[[ty x] n] rs (H1 & H2 & H3) _ IH]; cbn [map concat]; rewrite (decode_unfold next_record); [done|].
  rewrite next_record_text by done. by rewrite IH.
Qed.

Lemma good_chunk_nonempty x : good_chunk x -> x.1 <> [].
Proof. destruct x as [[|c t] n]; [|done]. intros [[H _] _]. by vm_compute in H. Qed.

Lemma foldl_params xs st : Forall good_chunk xs ->
  foldl spec_record st (map (fun x => (kFcgiParams, x.1)) xs) =
    mkFcgi (fs_got st) (fs_keep st) (fs_stdin st) (fs_stream st ++ concat (map fst xs)) (fs_params st).
Proof.
  intros H. revert st. induction H as [|x xs Hx%good_chunk_nonempty _ IH]; intros st; cbn [map foldl concat]; [destruct st; simpl; by rewrite app_nil_r|].
  rewrite IH. cbn [spec_record fst]. change (kFcgiParams =? kFcgiBeginRequest) with false. change (kFcgiParams =? kFcgiParams) with true. cbv iota.
  rewrite decide_False by done. simpl. by rewrite <- app_assoc.
Qed.

Lemma foldl_stdin xs st : Forall good_chunk xs ->
  foldl spec_record st (map (fun x => (kFcgiStdin, x.1)) xs) =
    mkFcgi (fs_got st) (fs_keep st) (fs_stdin st ++ concat (map fst xs)) (fs_stream st) (fs_params st).
Proof.
  intros H. revert st. induction H as [|x xs Hx%good_chunk_nonempty _ IH]; intros st; cbn [map foldl concat]; [destruct st; simpl; by rewrite app_nil_r|].
  rewrite IH. cbn [spec_record fst]. change (kFcgiStdin =? kFcgiBeginRequest) with false. change (kFcgiStdin =? kFcgiParams) with false.
  change (kFcgiStdin =? kFcgiStdin) with true. cbv iota. rewrite decide_False by done. simpl. by rewrite <- app_assoc.
Qed.

(** All records of the request but the last. *)
Definition open_records (keep : bool) (params body : list chunk) : list (Z * text) :=
  (kFcgiBeginRequest, begin_body keep) :: map (fun x => (kFcgiParams, x.1)) params ++ [(kFcgiParams, [])] ++ map (fun x => (kFcgiStdin, x.1)) body.

Lemma request_records_fst keep params body : map fst (request_records keep params body) = open_records keep params body ++ [(kFcgiStdin, [])].
Proof. unfold request_records, open_records. rewrite map_app, map_cons, !map_app, !map_map. done. Qed.

Lemma foldl_request keep ps params body : Forall good_chunk params -> Forall good_chunk body -> Forall short_param ps ->
  concat (map fst params) = concat (map param_text ps) ->
  foldl spec_record fcgi_init (open_records keep params body) = mkFcgi false keep (concat (map fst body)) [] (params_map ps ∅).
Proof.
  intros Hp Hb Hps E. unfold open_records. cbn [foldl]. rewrite !foldl_app, foldl_params, foldl_stdin by done.
  assert (E0 : spec_record fcgi_init (kFcgiBeginRequest, begin_body keep) = mkFcgi false keep [] [] ∅) by (by destruct keep).
  rewrite E0. cbn [foldl spec_record fs_got fs_keep fs_stdin fs_stream fs_params app]. change (kFcgiParams =? kFcgiBeginRequest) with false.
  change (kFcgiParams =? kFcgiParams) with true. cbv iota. rewrite decide_True, E, spec_params_text by (done || lia). done.
Qed.

Lemma decode_nil s r ok : decode next_record s = ([], r, ok) -> r = s.
Proof.
  rewrite (decode_unfold next_record). destruct (next_record s) as [| |a rest]; [by intros [= <- _]..|].
  by destruct (decode next_record rest) as [[ms rest'] ok'].
Qed.

(** A request is complete with its last record only. *)
Lemma spec_record_got st r : r <> (kFcgiStdin, []) -> fs_got (spec_record st r) = fs_got st.
Proof.
  destruct r as [ty body]. intros Hr. cbn [spec_record]. destruct (spec_params _ _ _) as [[ok s] m].
  destruct (ty =? kFcgiBeginRequest); [by destruct (_ && _)|]. destruct (ty =? kFcgiParams); [by destruct (decide _)|].
  destruct (Z.eqb_spec ty kFcgiStdin) as [->|]; [|done]. destruct (decide (body = [])) as [->|]; [done|done].
Qed.

Lemma open_records_got keep params body st rs : Forall good_chunk body -> rs `prefix_of` open_records keep params body ->
  fs_got (foldl spec_record st rs) = fs_got st.
Proof.
  intros Hb Hpre. assert (Hne : Forall (fun r => r <> (kFcgiStdin, [])) rs).
  { destruct Hpre as [more E]. assert (Hall : Forall (fun r => r <> (kFcgiStdin, [])) (open_records keep params body)).
    { unfold open_records. rewrite Forall_cons, !Forall_app, Forall_cons, !Forall_map. split_and!; try done.
      - by apply Forall_true.
      - eapply Forall_impl; [exact Hb|]. intros x Hx%good_chunk_nonempty [= E']. done. }
    rewrite E in Hall. by apply Forall_app in Hall as [? _]. }
  clear Hpre. revert st. induction Hne as [|r rs Hr _ IH]; intros st; cbn [foldl]; [done|]. rewrite IH. by apply spec_record_got.
Qed.

Lemma request_segments keep ps params body segs : Forall good_chunk params -> Forall good_chunk body -> Forall short_param ps ->
  concat (map fst params) = concat (map param_text ps) -> Forall (fun s : text => s <> []) segs -> segs <> [] ->
  forall before rs rest, decode next_record before = (rs, rest, true) -> before ++ concat segs = request_text keep params body ->
  foldl spec_message (foldl spec_record fcgi_init rs, rest, [], true) segs =
    (mkFcgi false keep [] [] ∅, [], answer_text (response_body (params_map ps ∅)), keep).
Proof.
  intros Hp Hb Hps E Hsegs. pose proof (decode_request keep params body Hp Hb) as Hall. rewrite request_records_fst in Hall.
  pose proof (foldl_request keep ps params body Hp Hb Hps E) as Hopen.
  induction Hsegs as [|seg segs Hseg Hsegs IH]; intros Hne before rs rest Hdec Htxt; [done|]. cbn [foldl spec_message concat] in *.
  pose proof (decode_app next_record before seg) as Hd. rewrite Hdec in Hd. pose proof (decode_records_ok (rest ++ seg)) as Hok.
  destruct (decode next_record (rest ++ seg)) as [[ms rest'] ok]. simpl in Hok. subst ok. rewrite <- foldl_app.
  destruct (decide (segs = [])) as [->|Hmore].
  - simpl in Htxt. rewrite app_nil_r in Htxt. rewrite Htxt, Hall in Hd. 
    assert (rs ++ ms = open_records keep params body ++ [(kFcgiStdin, [])] /\ rest' = []) as [-> ->] by (split; congruence).
    by rewrite foldl_app, Hopen.
  - pose proof (decode_app next_record (before ++ seg) (concat segs)) as Hd2. rewrite Hd, <- app_assoc, Htxt, Hall in Hd2.
    destruct (decode next_record (rest' ++ concat segs)) as [[ms2 rest2] ok2] eqn:Ed2. 
    assert (open_records keep params body ++ [(kFcgiStdin, [])] = (rs ++ ms) ++ ms2 /\ [] = rest2) as [E2 E3] by (split; congruence).
    assert (Hms2 : ms2 <> []).
    { intros ->. assert (Hr : rest2 = rest' ++ concat segs) by (by eapply decode_nil). rewrite Hr in E3. symmetry in E3. apply app_nil in E3 as [_ E3].
      destruct Hsegs as [|seg' segs' Hs' _]; [done|]. simpl in E3. by apply app_nil in E3 as [E3 _]. }
    destruct (exists_last Hms2) as (ms3 & lst & ->). rewrite app_assoc in E2. apply app_inj_tail in E2 as [E2 _].
    rewrite (open_records_got keep params body fcgi_init (rs ++ ms) Hb) by (exists ms3; by rewrite E2). cbn [fs_got fcgi_init].
    apply (IH Hmore (before ++ seg) (rs ++ ms) rest' Hd). by rewrite <- app_assoc.
Qed.

(** A name of 128 bytes or more ends the parameters: it and all that follow are lost. *)
Lemma long_name_lost fuel c s m : 128 <= Z_of_byte c -> 4 <= zlen (c :: s) < 2 ^ 31 -> spec_params (S fuel) (c :: s) m = (false, c :: s, m).
Proof.
  intros Hc Hs. cbn [spec_params]. rewrite decide_False by done. assert (E : spec_len (c :: s) = (zlen (c :: s), c :: s)).
  { cbn [spec_len]. by rewrite (proj2 (Z.ltb_ge (Z_of_byte c) 128)), (proj2 (Z.leb_le 4 _)) by lia. }
  rewrite !E. unfold no_length. rewrite !(proj2 (Z.eqb_neq (zlen (c :: s)) _)) by lia. by rewrite (proj2 (Z.leb_gt _ _)) by lia.
Qed.

(** Two requests in one segment are answered once, as one. *)
Lemma pipelined_requests_merge :
  let req n v := request_text true [(param_text (bytes n, bytes v), 0)] [] in
  (spec_message (fcgi_init, [], [], true) (req "REQUEST_URI" "/fastcgi/" ++ req "a" "b")).1.2 =
    answer_text (response_body (params_map [(bytes "REQUEST_URI", bytes "/fastcgi/"); (bytes "a", bytes "b")] ∅)).
Proof. vm_compute. reflexivity. Qed.

(** ** Properties *)


Definition sample_fcgi : text :=
  request_text false [(param_text (bytes "REQUEST_URI", bytes "/fastcgi/x") ++ ztake 3 (param_text (bytes "a", bytes "b")), 2);
                      (zdrop 3 (param_text (bytes "a", bytes "b")), 7)] [(bytes "body", 4)].

