(* ===== verification/LoopLife.v ===== *)
(** * Construction and destruction of event loops (src/src/EventLoop.h, EventLoop.cpp, TimerQueue.cpp)

    The constructor of a loop registers the channels of its timer queue and of
    its wakeup descriptor with the poller; the destructor takes them back.
    Both are proved over the interface of Poller.v, for either poller.  The
    second part is the thread-local pointer that ties a loop to its thread. *)

From S2P Require Import Prelude Endian StringPiece Buffer Format Timestamp OrdSet TimerQueue Channel Poller.
From S2P Require Import EPollPoller PollPoller EventLoop.
Local Open Scope Z_scope.

(** ** The channels of a loop *)

Section Channels.
Context `{PollerSpec P}.
Abbreviation loop_t := (EventLoop P).

(** A new channel object at address [a]. *)
Definition new_chan (a fd : Z) (s : loop_t) : loop_t := put_chans (<[a := new_Channel fd]> (chans s)) s.

(** The destructor of a channel object. *)
Definition delete_chan (a : Z) (s : loop_t) : outcome loop_t :=
  cs ← delete_Channel (poller_ s) (chans s) a; Ok (put_chans cs s).

(** The constructor of the timer queue, on [timerfd]. *)
Definition construct_TimerQueue (timerfd a : Z) (s : loop_t) : outcome loop_t :=
  loop_updateChannel enableReading a (new_chan a timerfd s).

(** [createEventfd] aborts on failure. *)
Definition createEventfd (evtfd : Z) : outcome Z := assert_ (0 <=? evtfd);; Ok evtfd.

(** The constructor, with the poller [p0]; [garbage] is the member it does not
    initialise. *)
Definition new_EventLoop (garbage : bool) (p0 : P) (cs : channels) (timerfd evtfd timerChannel wakeupChannel : Z)
  : outcome loop_t :=
  let s := mkEventLoop false garbage 0 invalid p0 [] None [] cs in
  s ← construct_TimerQueue timerfd timerChannel s;
  wakeupFd ← createEventfd evtfd;
  loop_updateChannel enableReading wakeupChannel (new_chan wakeupChannel wakeupFd s).

(** [disableAll] and [remove]. *)
Definition retire (a : Z) (s : loop_t) : outcome loop_t :=
  s ← loop_updateChannel disableAll a s; loop_removeChannel a s.

(** The destructor of the timer queue, its channel included. *)
Definition delete_TimerQueue (timerChannel : Z) (s : loop_t) : outcome loop_t :=
  s ← retire timerChannel s; delete_chan timerChannel s.

(** The destructor of the loop, and those of its members in their order. *)
Definition delete_EventLoop (timerChannel wakeupChannel : Z) (s : loop_t) : outcome loop_t :=
  s ← retire wakeupChannel s;
  s ← delete_chan wakeupChannel s;
  delete_TimerQueue timerChannel s.

(** *** Lemmas *)

Abbreviation reg s := (registered (poller_ s) (chans s)).

Definition idle (s : loop_t) : Prop := EventLoop.eventHandling_ s = false /\ LInv s.

Lemma new_chan_ok a fd s : idle s -> chans s !! a = None ->
  idle (new_chan a fd s) /\ reg (new_chan a fd s) = reg s /\ chans (new_chan a fd s) !! a = Some (new_Channel fd).
Proof.
  intros [He [Hw Ha]] Hn.
  destruct (pwf_agree (poller_ s) (chans s) (<[a := new_Channel fd]> (chans s))) as [W R]; [|done|].
  - intros f b Hb. rewrite (channels_registered _ _ Hw), lookup_fmap in Hb.
    destruct (reg s !! f) as [g|] eqn:E; [|done]. injection Hb as <-.
    destruct (registered_alive _ _ _ _ Hw E) as (c & Hc & _). rewrite lookup_insert_ne; [done|]. intros ->. congruence.
  - split; [split; [done|constructor; simpl; [done|congruence]]|]. split; [exact R|]. simpl. by rewrite lookup_insert_eq.
Qed.

(** Registering a channel that was not. *)
Lemma enable_new a c s : idle s -> chans s !! a = Some c -> reg s !! fd_ c = None -> 0 <= fd_ c -> index_ c = -1 ->
  events_ c = 0 ->
  exists s' c', loop_updateChannel enableReading a s = Ok s' /\ idle s' /\
    reg s' = <[fd_ c := mkReg a (Some kReadEvent)]> (reg s) /\ chans s' !! a = Some c' /\
    fd_ c' = fd_ c /\ Channel.eventHandling_ c' = Channel.eventHandling_ c /\
    (forall b, b <> a -> option_relation same_channel (fun _ => False) (fun _ => False) (chans s !! b) (chans s' !! b)).
Proof.
  intros [He Hi] Hc Hr Hfd Hix Hev.
  destruct (Channel_update_spec enableReading _ _ a c (linv_poller _ Hi) Hc) as (p' & cs' & E & W & R & S).
  { split; [done|]. by rewrite Hr. }
  unfold loop_updateChannel. rewrite E. cbn [mbind outcome_bind]. pose proof (S a) as Sa. rewrite lookup_insert_eq in Sa.
  destruct (cs' !! a) as [c'|] eqn:Hc'; [|done]. destruct Sa as (F & _ & _ & _ & H1 & _).
  eexists _, c'. split; [done|]. split; [split; [done|constructor; simpl; [done|congruence]]|].
  simpl. rewrite R. unfold spec_update. rewrite Hr. simpl. rewrite Hev. split_and!; try done.
  intros b Hb. specialize (S b). by rewrite lookup_insert_ne in S by done.
Qed.

(** Taking a watched channel back, and destroying it. *)
Lemma retire_delete a c m s : idle s -> chans s !! a = Some c -> reg s !! fd_ c = Some (mkReg a (Some m)) -> 0 <= fd_ c ->
  Channel.eventHandling_ c = false ->
  exists s', (s ← retire a s; delete_chan a s) = Ok s' /\ idle s' /\ reg s' = delete (fd_ c) (reg s) /\
    chans s' !! a = None /\
    (forall b, b <> a -> option_relation same_channel (fun _ => False) (fun _ => False) (chans s !! b) (chans s' !! b)).
Proof.
  intros [He Hi] Hc Hr Hfd Heh.
  destruct (Channel_update_spec disableAll _ _ a c (linv_poller _ Hi) Hc) as (p2 & cs2 & E2 & W2 & R2 & S2).
  { split; [done|]. by rewrite Hr. }
  pose proof (S2 a) as Sa2. rewrite lookup_insert_eq in Sa2.
  destruct (cs2 !! a) as [c2|] eqn:Hc2; [|done]. destruct Sa2 as (F2 & _ & _ & _ & H2 & _).
  unfold spec_update in R2. rewrite Hr in R2. simpl in R2.
  destruct (Channel_remove_spec p2 cs2 a c2 W2 Hc2) as (p3 & cs3 & E3 & W3 & R3 & S3).
  { unfold can_remove. by rewrite R2, F2, lookup_insert_eq. }
  pose proof (S3 a) as Sa3. rewrite lookup_insert_eq in Sa3.
  destruct (cs3 !! a) as [c3|] eqn:Hc3; [|done]. destruct Sa3 as (F3 & _ & _ & _ & H3 & A3). simpl in *.
  unfold spec_remove in R3. rewrite F2, R2, delete_insert_eq in R3.
  assert (Hnone : registered p3 cs3 !! fd_ c = None) by (by rewrite R3, lookup_delete_eq).
  destruct (pwf_agree p3 cs3 (delete a cs3)) as [W4 R4]; [|done|].
  { intros f b Hb. rewrite (channels_registered _ _ W3), lookup_fmap in Hb.
    destruct (registered p3 cs3 !! f) as [g|] eqn:E; [|done]. injection Hb as <-.
    rewrite lookup_delete_ne; [done|]. intros ->. destruct (registered_alive _ _ _ _ W3 E) as (c' & Hc' & Hf).
    assert (c' = c3) as -> by congruence. rewrite F3, F2 in Hf. subst f. congruence. }
  unfold retire, loop_updateChannel, loop_removeChannel, delete_chan, delete_Channel, hasChannel.
  rewrite E2. cbn [mbind outcome_bind put_poller]. simpl. rewrite He. cbn [negb orb assert_ mbind outcome_bind].
  rewrite E3. cbn [mbind outcome_bind]. simpl. rewrite Hc3, H3, H2, Heh, A3. cbn [negb assert_ mbind outcome_bind].
  rewrite (channels_registered p3 cs3 W3), F3, F2, lookup_fmap, Hnone. cbn [assert_ mbind outcome_bind].
  eexists. split; [done|]. split; [split; [done|constructor; simpl; [done|congruence]]|]. simpl.
  split; [by rewrite R4|]. split; [by rewrite lookup_delete_eq|]. intros b Hb. rewrite lookup_delete_ne by done.
  specialize (S2 b). specialize (S3 b). rewrite lookup_insert_ne in S2, S3 by done.
  destruct (chans s !! b), (cs2 !! b), (cs3 !! b); simpl in *; try done. by etrans.
Qed.

(** *** A loop from its construction to its destruction *)

Lemma construct_ok garbage p0 cs timerfd evtfd ta wa :
  pwf p0 cs -> registered p0 cs = ∅ -> cs !! ta = None -> cs !! wa = None -> ta <> wa ->
  0 <= timerfd -> 0 <= evtfd -> timerfd <> evtfd ->
  exists s, new_EventLoop garbage p0 cs timerfd evtfd ta wa = Ok s /\ idle s /\
    reg s = {[ timerfd := mkReg ta (Some kReadEvent); evtfd := mkReg wa (Some kReadEvent) ]} /\
    (forall a fd, (a = ta /\ fd = timerfd) \/ (a = wa /\ fd = evtfd) ->
       exists c, chans s !! a = Some c /\ fd_ c = fd /\ Channel.eventHandling_ c = false).
Proof.
  intros Hw Hr Hta Hwa Hne Ht He Hfd. unfold new_EventLoop, construct_TimerQueue.
  set (s0 := mkEventLoop false garbage 0 invalid p0 [] None [] cs).
  assert (I0 : idle s0) by (split; [done|constructor; [done|done]]).
  destruct (new_chan_ok ta timerfd s0 I0 Hta) as (I1 & R1 & C1). set (s1 := new_chan ta timerfd s0) in *.
  assert (R1' : reg s1 = ∅) by (rewrite R1; exact Hr).
  destruct (enable_new ta _ s1 I1 C1) as (s2 & c2 & -> & I2 & R2 & C2 & F2 & H2 & D2); try done; [by rewrite R1', lookup_empty|].
  cbn [mbind outcome_bind]. unfold createEventfd. zguard. change (fd_ (new_Channel timerfd)) with timerfd in *. rewrite R1' in R2.
  assert (N2 : chans s2 !! wa = None).
  { assert (N1 : chans s1 !! wa = None) by (unfold s1, new_chan; simpl; by rewrite lookup_insert_ne).
    specialize (D2 wa ltac:(done)). rewrite N1 in D2. by destruct (chans s2 !! wa). }
  destruct (new_chan_ok wa evtfd s2 I2 N2) as (I3 & R3 & C3). set (s3 := new_chan wa evtfd s2) in *.
  destruct (enable_new wa _ s3 I3 C3) as (s4 & c4 & -> & I4 & R4 & C4 & F4 & H4 & D4); try done.
  { rewrite R3, R2. change (fd_ (new_Channel evtfd)) with evtfd. rewrite lookup_insert_ne by done. by rewrite lookup_empty. }
  exists s4. split; [done|]. split; [done|]. split.
  - rewrite R4, R3, R2. change (fd_ (new_Channel evtfd)) with evtfd. by rewrite insert_insert_ne.
  - intros a fd [[-> ->]|[-> ->]]; [|by exists c4].
    assert (C3' : chans s3 !! ta = Some c2) by (unfold s3, new_chan; simpl; by rewrite lookup_insert_ne).
    specialize (D4 ta Hne). rewrite C3' in D4. destruct (chans s4 !! ta) as [c5|]; [|done].
    destruct D4 as (F5 & _ & _ & _ & H5 & _). exists c5. split_and!; [done|congruence|]. rewrite H5, H2. done.
Qed.

Lemma destroy_ok s ct cw mt mw ta wa : idle s -> ta <> wa -> chans s !! ta = Some ct -> chans s !! wa = Some cw ->
  reg s !! fd_ ct = Some (mkReg ta (Some mt)) -> reg s !! fd_ cw = Some (mkReg wa (Some mw)) ->
  0 <= fd_ ct -> 0 <= fd_ cw -> Channel.eventHandling_ ct = false -> Channel.eventHandling_ cw = false ->
  exists s', delete_EventLoop ta wa s = Ok s' /\ idle s' /\ reg s' = delete (fd_ ct) (delete (fd_ cw) (reg s)) /\
    chans s' !! ta = None /\ chans s' !! wa = None.
Proof.
  intros Hi Hne Ct Cw Rt Rw Ft Fw Ht Hw. unfold delete_EventLoop, delete_TimerQueue.
  destruct (retire_delete wa cw mw s Hi Cw Rw Fw Hw) as (s1 & E1 & I1 & R1 & N1 & D1).
  destruct (retire wa s) as [s0|]; [|done]. cbn [mbind outcome_bind] in *. rewrite E1. cbn [mbind outcome_bind].
  assert (Hfd : fd_ ct <> fd_ cw) by (intros E; rewrite E in Rt; congruence).
  pose proof (D1 ta Hne) as Dt. rewrite Ct in Dt. destruct (chans s1 !! ta) as [c1|] eqn:C1; [|done].
  destruct Dt as (F1 & _ & _ & _ & H1 & _).
  destruct (retire_delete ta c1 mt s1 I1 C1) as (s2 & E2 & I2 & R2 & N2 & D2); try congruence.
  { rewrite R1, F1. by rewrite lookup_delete_ne. }
  exists s2. split; [done|]. split; [done|]. split; [by rewrite R2, F1, R1|]. split; [done|].
  specialize (D2 wa ltac:(done)). rewrite N1 in D2. by destruct (chans s2 !! wa).
Qed.
End Channels.

(** ** The timers of a queue that is destroyed *)

Definition free_timers (q : TimerQueue) : outcome TimerQueue :=
  for_each (fun q it => match heap q !! it.2 with
                        | None => Err UseAfterFree
                        | Some _ => Ok (with_heap q (delete it.2 (heap q)))
                        end) q (timers_ q).

Lemma timers_addr_nodup q : Inv [] q -> NoDup (map snd (timers_ q)).
Proof.
  intros Hi. pose proof (ordered_nodup _ (inv_timers _ _ Hi)) as Hn.
  apply (NoDup_fmap_2_strong snd); [|done]. intros [t1 a1] [t2 a2] H1 H2 E. simpl in E. subst a2.
  destruct (inv_t2a _ _ Hi _ _ H1) as (tm & Hm & -> & _). destruct (inv_t2a _ _ Hi _ _ H2) as (tm' & Hm' & -> & _).
  assert (tm' = tm) as -> by congruence. done.
Qed.

Lemma free_list (l : list key) : forall q, NoDup (map snd l) -> (forall a, a ∈ map snd l -> is_Some (heap q !! a)) ->
  exists q', for_each (fun q it => match heap q !! it.2 with
                        | None => Err UseAfterFree
                        | Some _ => Ok (with_heap q (delete it.2 (heap q)))
                        end) q l = Ok q' /\
    forall a, heap q' !! a = if decide (a ∈ map snd l) then None else heap q !! a.
Proof.
  induction l as [|[t a] l IH]; intros q Hn Hs; cbn [for_each map snd].
  - exists q. split; [done|]. intros a. rewrite decide_False; [done|]. by intros ?%elem_of_nil.
  - simpl in Hn. apply NoDup_cons in Hn as [Ha Hn]. destruct (Hs a) as [tm Hm]; [by left|]. rewrite Hm.
    cbn [mbind outcome_bind]. destruct (IH (with_heap q (delete a (heap q))) Hn) as (q' & E & Hq').
    { intros b Hb. simpl. rewrite lookup_delete_ne by (intros ->; done). apply Hs. by right. }
    exists q'. split; [done|]. intros b. rewrite Hq'. change (heap (with_heap q (delete a (heap q)))) with (delete a (heap q)). destruct (decide (b = a)) as [->|Hne].
    + rewrite (decide_True (P := a ∈ a :: _)) by (by left). rewrite decide_False by done. by rewrite lookup_delete_eq.
    + rewrite lookup_delete_ne by done. destruct (decide (b ∈ map snd l)).
      * by rewrite decide_True by (by right).
      * by rewrite decide_False by (by intros [|]%elem_of_cons).
Qed.

(** ** One loop per thread *)

Module Registry.

(** The thread-local pointer of every thread, and the loops that are alive
    with the thread that made them. *)
Record process : Type := mkProcess { t_loopInThisThread : gmap Z nat; loops : gmap nat Z; made : nat }.

Definition getEventLoopOfCurrentThread (tid : Z) (p : process) : option nat := t_loopInThisThread p !! tid.

Definition isInLoopThread (tid : Z) (l : nat) (p : process) : bool := bool_decide (loops p !! l = Some tid).

(** The end of the constructor: a second loop of the thread is only reported. *)
Definition construct (tid : Z) (p : process) : process :=
  let l := made p in
  mkProcess (match t_loopInThisThread p !! tid with Some _ => t_loopInThisThread p | None => <[tid := l]> (t_loopInThisThread p) end)
    (<[l := tid]> (loops p)) (S l).

(** The end of the destructor, on thread [tid]. *)
Definition destroy (tid : Z) (l : nat) (p : process) : outcome process :=
  match loops p !! l with
  | None => Err UseAfterFree
  | Some _ => Ok (mkProcess (delete tid (t_loopInThisThread p)) (delete l (loops p)) (made p))
  end.

Inductive reg_label : Type := RConstruct (tid : Z) | RDestroy (tid : Z) (l : nat).

Definition reg_step (p : process) (l : reg_label) : outcome process :=
  match l with RConstruct tid => Ok (construct tid p) | RDestroy tid l => destroy tid l p end.

(** At most one loop per thread, destroyed where it was made. *)
Definition reg_permitted (p : process) (l : reg_label) : Prop :=
  match l with
  | RConstruct tid => forall l, loops p !! l <> Some tid
  | RDestroy tid l => loops p !! l = Some tid
  end.

Record RInv (p : process) : Prop := mkRInv {
  r_exact : forall tid l, t_loopInThisThread p !! tid = Some l <-> loops p !! l = Some tid;
  r_fresh : forall l, is_Some (loops p !! l) -> (l < made p)%nat
}.

Lemma reg_step_inv p l : RInv p -> reg_permitted p l -> unless (fun _ => False) (reg_step p l) RInv.
Proof.
  intros [Hx Hf] Hp. destruct l as [tid|tid l]; simpl in *.
  - assert (Hnone : t_loopInThisThread p !! tid = None).
    { destruct (t_loopInThisThread p !! tid) as [l|] eqn:E; [|done]. apply Hx in E. by apply Hp in E. }
    assert (Hm : loops p !! made p = None).
    { destruct (loops p !! made p) eqn:E; [|done]. assert (is_Some (loops p !! made p)) as H1%Hf by eauto. lia. }
    unfold construct. rewrite Hnone. constructor; simpl.
    + intros t l. rewrite !lookup_insert_Some, Hx. split.
      * intros [[<- <-]|[Hne Hl]]; [by left|]. right. split; [|done]. intros <-. congruence.
      * intros [[<- <-]|[Hne Hl]]; [by left|]. right. split; [|done]. intros <-. by apply Hp in Hl.
    + intros l [<-|[_ Hl]]%lookup_insert_is_Some; [lia|]. apply Hf in Hl. lia.
  - unfold destroy. rewrite Hp. simpl. constructor; simpl.
    + intros t l'. rewrite !lookup_delete_Some, Hx. split.
      * intros [Hne Hl]. split; [|done]. intros <-. congruence.
      * intros [Hne Hl]. split; [|done]. intros <-. apply Hne. apply Hx in Hp, Hl. congruence.
    + intros l' Hl. apply Hf. destruct Hl as [t Ht]. apply lookup_delete_Some in Ht as [_ ?]. eauto.
Qed.

(** One loop per thread: as long as each thread makes at most one loop at a
    time and destroys it itself, [getEventLoopOfCurrentThread] is exact: it
    gives the live loop the thread made, and nothing if there is none. *)
Theorem one_loop_per_thread (ls : list reg_label) :
  guarded reg_step reg_permitted (mkProcess ∅ ∅ 0) ls ->
  exists p, for_each reg_step (mkProcess ∅ ∅ 0) ls = Ok p /\
    forall tid l, getEventLoopOfCurrentThread tid p = Some l <-> isInLoopThread tid l p = true.
Proof.
  intros Hg. assert (H0 : RInv (mkProcess ∅ ∅ 0)).
  { constructor; simpl; [|intros l [? H]; by rewrite lookup_empty in H]. intros t l. by rewrite !lookup_empty. }
  pose proof (unless_guarded (fun _ => False) reg_step reg_permitted RInv ls reg_step_inv _ H0 Hg) as Hr.
  destruct (for_each reg_step _ ls) as [p|]; [|done]. exists p. split; [done|]. intros tid l.
  unfold isInLoopThread. rewrite bool_decide_eq_true. apply Hr.
Qed.

Lemma one_loop_per_thread_witness :
  exists p, for_each reg_step (mkProcess ∅ ∅ 0) [RConstruct 5; RConstruct 6; RDestroy 5 0] = Ok p /\
    (getEventLoopOfCurrentThread 6 p = Some 1%nat <-> isInLoopThread 6 1 p = true) /\
    getEventLoopOfCurrentThread 6 p = Some 1%nat.
Proof.
  destruct (one_loop_per_thread [RConstruct 5; RConstruct 6; RDestroy 5 0]) as (p & E & Hp).
  - split; [intros l; simpl; by rewrite lookup_empty|]. intros p1 [= <-].
    split; [intros l; simpl; intros [[_ ?]|[_ H]]%lookup_insert_Some; [done|by rewrite lookup_empty in H]|]. intros p2 [= <-]. split; [reflexivity|]. done.
  - exists p. split; [exact E|]. split; [apply Hp|]. vm_compute in E. injection E as <-. reflexivity.
Defined.

(** Nothing stops a thread from making a second loop; destroying that one
    clears the pointer to the first, which is still alive.  And destroying a
    loop on another thread leaves its own thread with a pointer to a dead
    loop. *)
Theorem second_loop_clears_pointer (a b : Z) : a <> b ->
  (exists p, for_each reg_step (mkProcess ∅ ∅ 0) [RConstruct a; RConstruct a; RDestroy a 1] = Ok p /\
     loops p !! 0%nat = Some a /\ getEventLoopOfCurrentThread a p = None) /\
  (exists p, for_each reg_step (mkProcess ∅ ∅ 0) [RConstruct a; RDestroy b 0] = Ok p /\
     loops p !! 0%nat = None /\ getEventLoopOfCurrentThread a p = Some 0%nat).
Proof.
  intros Hab. split.
  - assert (E2 : construct a (construct a (mkProcess ∅ ∅ 0)) = mkProcess {[ a := 0%nat ]} (<[1%nat := a]> {[ 0%nat := a ]}) 2)
      by (unfold construct; cbn [t_loopInThisThread loops made]; by rewrite lookup_empty, lookup_insert_eq).
    simpl. rewrite E2. eexists. split; [reflexivity|]. unfold getEventLoopOfCurrentThread. simpl.
    split; [done|]. by rewrite lookup_delete_eq.
  - eexists. split; [reflexivity|]. unfold getEventLoopOfCurrentThread. simpl.
    split; [done|]. rewrite lookup_delete_ne by done. apply lookup_singleton_eq.
Qed.

Lemma second_loop_clears_pointer_witness :
  (exists p, for_each reg_step (mkProcess ∅ ∅ 0) [RConstruct 5; RConstruct 5; RDestroy 5 1] = Ok p /\
     loops p !! 0%nat = Some 5 /\ getEventLoopOfCurrentThread 5 p = None) /\
  (exists p, for_each reg_step (mkProcess ∅ ∅ 0) [RConstruct 5; RDestroy 6 0] = Ok p /\
     loops p !! 0%nat = None /\ getEventLoopOfCurrentThread 5 p = Some 0%nat).
Proof. apply (second_loop_clears_pointer 5 6). lia. Defined.
End Registry.

(** ** Properties *)

(** The destructor of the timer queue frees every timer in its sets, once
    each; those left are the timers not yet handed to the loop. *)
Theorem timers_freed (q : TimerQueue) : Inv [] q ->
  exists q', free_timers q = Ok q' /\ forall a, is_Some (heap q' !! a) <-> TimerQueue.idle [] q a.
Proof.
  intros Hi. destruct (free_list (timers_ q) q (timers_addr_nodup q Hi)) as (q' & E & Hq').
  { intros a Ha. apply list_elem_of_fmap in Ha as ([t b] & -> & Hin).
    destruct (inv_t2a _ _ Hi _ _ Hin) as (tm & Hm & _). simpl. eauto. }
  exists q'. split; [exact E|]. intros a. rewrite Hq'. unfold TimerQueue.idle. split.
  - case_decide as Hd; [by intros []|]. intros Hs. split; [done|]. split; [|by intros ?%elem_of_nil].
    intros s Hin. destruct (inv_a2t _ _ Hi _ _ Hin) as (tm & _ & _ & Ht). apply Hd, list_elem_of_fmap. by exists (micros (expiration_ tm), a).
  - intros (Hs & Ha & _). rewrite decide_False; [done|]. intros Hin.
    apply list_elem_of_fmap in Hin as ([t b] & -> & Hin). by apply (idle_not_timer [] q b Hi Ha t).
Qed.

Lemma timers_freed_witness :
  exists q', free_timers new_TimerQueue = Ok q' /\ forall a, is_Some (heap q' !! a) <-> TimerQueue.idle [] new_TimerQueue a.
Proof. apply (timers_freed new_TimerQueue new_TimerQueue_inv). Defined.

(** C27. A loop over any poller: the constructor succeeds and registers exactly the
    timer and the wakeup descriptors for reading; and from every later state
    between two turns in which both are still watched, the destructor
    succeeds, takes exactly these two back and destroys their channels. *)
Theorem loop_life `{PollerSpec P} (garbage : bool) (p0 : P) (cs : channels) (timerfd evtfd ta wa : Z) :
  pwf p0 cs -> registered p0 cs = ∅ -> cs !! ta = None -> cs !! wa = None -> ta <> wa ->
  0 <= timerfd -> 0 <= evtfd -> timerfd <> evtfd ->
  exists s, new_EventLoop garbage p0 cs timerfd evtfd ta wa = Ok s /\ LInv s /\
    registered (poller_ s) (chans s) = {[ timerfd := mkReg ta (Some kReadEvent); evtfd := mkReg wa (Some kReadEvent) ]} /\
    forall s1 ct cw mt mw,
      LInv s1 -> EventLoop.eventHandling_ s1 = false ->
      chans s1 !! ta = Some ct -> fd_ ct = timerfd -> Channel.eventHandling_ ct = false ->
      chans s1 !! wa = Some cw -> fd_ cw = evtfd -> Channel.eventHandling_ cw = false ->
      registered (poller_ s1) (chans s1) !! timerfd = Some (mkReg ta (Some mt)) ->
      registered (poller_ s1) (chans s1) !! evtfd = Some (mkReg wa (Some mw)) ->
      exists s2, delete_EventLoop ta wa s1 = Ok s2 /\
        registered (poller_ s2) (chans s2) = delete timerfd (delete evtfd (registered (poller_ s1) (chans s1))) /\
        chans s2 !! ta = None /\ chans s2 !! wa = None.
Proof.
  intros Hw Hr Hta Hwa Hne Ht He Hfd.
  destruct (construct_ok garbage p0 cs timerfd evtfd ta wa Hw Hr Hta Hwa Hne Ht He Hfd) as (s & E & [_ Hi] & R & _).
  exists s. split_and!; try done. intros s1 ct cw mt mw Hi1 Hh Ct Ft Et Cw Fw Ew Rt Rw. subst timerfd evtfd.
  destruct (destroy_ok s1 ct cw mt mw ta wa) as (s2 & E2 & _ & R2 & N1 & N2); try done.
  eauto.
Qed.

Lemma loop_life_witness :
  exists s, new_EventLoop false new_PollPoller ∅ 4 5 16 32 = Ok s /\
    registered (poller_ s) (chans s) = {[ 4 := mkReg 16 (Some kReadEvent); 5 := mkReg 32 (Some kReadEvent) ]}.
Proof.
  destruct (loop_life (P := PollPoller) (H0 := poll_spec) false new_PollPoller ∅ 4 5 16 32) as (s & E & _ & R & _).
  - apply new_PollPoller_wf.
  - reflexivity.
  - reflexivity.
  - reflexivity.
  - lia.
  - lia.
  - lia.
  - lia.
  - exists s. split; [exact E|exact R].
Defined.
