(* ===== verification/ServerLife.v ===== *)
(** * The end of a server (src/src/TcpServer.cpp, TcpConnection.cpp)

    The destructor of [TcpServer] destroys every connection of its map, at once
    for those on its own loop and by a functor for the others.  Shown here: a
    server deleted after any history ends with all of them out of the poller
    and ready to be freed, provided none of them is half closed; a half-closed
    one stops the program. *)

From S2P Require Import Prelude Endian StringPiece Buffer Format Timestamp Channel Poller TcpConnection ConnFrame.
From S2P Require Import InetAddress Acceptor EventLoopThreadPool TcpServer.
Local Open Scope Z_scope.

(** [~TcpConnection]. *)
Definition delete_TcpConnection (c : TcpConnection) : outcome unit :=
  assert_ (bool_decide (state_ c = kDisconnected)).

(** ** A connection that ends *)

(** Out of the poller, its protocol kept, the user told of both ends. *)
Definition destroyed (c : TcpConnection) : Prop :=
  state_ c = kDisconnected /\ reg c = None /\ protocol c = true /\ addedToLoop_ (channel_ c) = false /\
  ups c = 2%nat.

(** The connection while the user is told of its end: no permitted call can
    change its state or its channel. *)
Definition ending (c : TcpConnection) : Prop :=
  state_ c = kDisconnected /\ reg c = Some None /\ protocol c = true /\ isNoneEvent (channel_ c) = true /\
  ups c = 2%nat /\ wf (inputBuffer_ c).

Definition never (f : failure) : Prop := False.

Lemma unless_never {A} (m : outcome A) P : unless never m P -> exists a, m = Ok a /\ P a.
Proof. destruct m as [a|f]; [|done]. intros H. by exists a. Qed.

Section Ending.
Context (write : nat -> list ascii -> write_result).
Context (user : notification -> TcpConnection -> list user_op).

Lemma run_user_ending c o : ending c -> permitted c o -> unless never (run_user write c o) ending.
Proof.
  intros (Hs & Hr & Hp & He & Hu & Hw) Ho.
  assert (Hc : connected c = false) by (unfold connected; by rewrite Hs).
  assert (Hd : disconnected c = true) by (unfold disconnected; by rewrite Hs).
  destruct o as [m| |b| | | | |n| |mark|]; simpl in *;
    unfold send, send_buffer, shutdown, forceCloseWithDelay in *; rewrite ?Hc; simpl; try by split_and!.
  - rewrite Hs. simpl. by split_and!.
  - destruct Ho as [Ho|Ho]; congruence.
  - rewrite (readable_repr _ _ (repr_wf _ Hw)) in Ho.
    destruct (retrieve_repr _ _ n (repr_wf _ Hw) Ho) as (b' & -> & [Hb _] & _). simpl. by split_and!.
  - split_and!; try done. apply (retrieveAll_repr _ _ (repr_wf _ Hw)).
Qed.

Hypothesis user_ok : well_behaved write user.

Lemma remove_ending c : ending c -> exists c', chan_remove c = Ok c' /\ destroyed c'.
Proof.
  intros (Hs & Hr & Hp & He & Hu & Hw). unfold chan_remove. rewrite He. simpl. eexists. split; [done|].
  rewrite Hr, Hp. by split_and!.
Qed.

(** [connectDestroyed] on a connection that is up, or already closed by its
    own events, succeeds. *)
Lemma connectDestroyed_ok c :
  CInv 0 c -> state_ c = kConnected \/ (state_ c = kDisconnected /\ reg c = Some None) ->
  exists c', connectDestroyed write user c = Ok c' /\ destroyed c'.
Proof.
  intros Hi Hst. unfold connectDestroyed. destruct Hst as [Hst|[Hst Hr]].
  - rewrite (proj2 (connected_spec c) Hst).
    destruct (live_open 0 c Hi (or_introl Hst)) as ((Hr & He) & _ & _ & Hu & _).
    set (c0 := chan_op disableAll (setState kDisconnected c)).
    assert (H0 : ending (record_call NConnection c0)).
    { unfold ending. rewrite ups_record. unfold c0, chan_op. simpl. rewrite Hr. simpl.
      split_and!; try done; [by rewrite (ci_protocol _ _ Hi)|unfold ups in *; simpl; by rewrite Hu|apply Hi]. }
    assert (Hn : unless never (notify write user NConnection c0) ending).
    { eapply unless_guarded; [|exact H0|apply user_ok]. intros. by apply run_user_ending. }
    destruct (unless_never _ _ Hn) as (c1 & -> & H1). by apply remove_ending.
  - unfold connected. rewrite Hst. simpl. apply remove_ending. pose proof (ci_phase _ _ Hi) as Hp.
    unfold phase in Hp. rewrite Hst in Hp. destruct Hp as (He & _ & Hu & _).
    split_and!; try done; [apply Hi|unfold isNoneEvent; by rewrite He|apply Hi].
Qed.

(** On a half-closed connection it fails the assertion of [Channel::remove]. *)
Lemma connectDestroyed_half_closed c :
  CInv 0 c -> state_ c = kDisconnecting -> connectDestroyed write user c = Err AssertFailed.
Proof.
  intros Hi Hst. unfold connectDestroyed, connected, chan_remove. rewrite Hst. simpl.
  destruct (live_open 0 c Hi (or_intror Hst)) as ((_ & He) & _).
  unfold isNoneEvent. by destruct He as [-> | ->].
Qed.
End Ending.

(** ** The map of a server *)

Section Destructor.
Context (write : nat -> nat -> list ascii -> write_result).
Context (user : nat -> notification -> TcpConnection -> list user_op).
Hypothesis user_ok : forall i, well_behaved (write i) (user i).

(** What the destructor makes of a connection of the map. *)
Definition ended (loop : Z) (o o' : ServerConn) : Prop :=
  sc_name o' = sc_name o /\ sc_loop o' = sc_loop o /\
  (sc_loop o = loop -> destroyed (sc_tcp o') /\ delete_TcpConnection (sc_tcp o') = Ok tt) /\
  (sc_loop o <> loop -> sc_tcp o' = queueInLoop FConnectDestroyed (sc_tcp o)).

Definition endable (loop : Z) (o : ServerConn) : Prop :=
  CInv 0 (sc_tcp o) /\
  (sc_loop o = loop -> state_ (sc_tcp o) = kConnected \/
                       (state_ (sc_tcp o) = kDisconnected /\ reg (sc_tcp o) = Some None)).

Lemma destroyed_freed c : destroyed c -> delete_TcpConnection c = Ok tt.
Proof. intros [Hs _]. unfold delete_TcpConnection. by rewrite bool_decide_true. Qed.

Lemma destroy_one_ok s key i o : objects s !! i = Some o -> endable (srv_loop s) o ->
  exists o', destroy_one write user s (key, i) = Ok (set_conns (threadPool_ s) (nextConnId_ s) (connections_ s)
                                                       (<[i := o']> (objects s)) s) /\ ended (srv_loop s) o o'.
Proof.
  intros Ho [Hc Hst]. unfold destroy_one. simpl. rewrite Ho.
  destruct (Z.eqb_spec (sc_loop o) (srv_loop s)) as [El|El].
  - destruct (connectDestroyed_ok (write i) (user i) (user_ok i) (sc_tcp o) Hc (Hst El)) as (c' & -> & Hd).
    simpl. eexists. split; [done|]. split_and!; try done. intros _. split; [done|]. by apply destroyed_freed.
  - simpl. eexists. split; [done|]. by split_and!.
Qed.

Lemma destroy_all l : forall s, NoDup (map snd l) ->
  (forall key i, (key, i) ∈ l -> exists o, objects s !! i = Some o /\ endable (srv_loop s) o) ->
  exists s', for_each (destroy_one write user) s l = Ok s' /\ srv_loop s' = srv_loop s /\
    length (objects s') = length (objects s) /\
    forall i o, objects s !! i = Some o -> exists o', objects s' !! i = Some o' /\
      (i ∈ map snd l -> ended (srv_loop s) o o') /\ (i ∉ map snd l -> o' = o).
Proof.
  induction l as [|[key i] l IH]; intros s Hnd Hl.
  { exists s. split_and!; try done. intros i o Ho. exists o. simpl. split_and!; try done. set_solver. }
  simpl in Hnd. apply NoDup_cons in Hnd as [Hni Hnd].
  destruct (Hl key i ltac:(left)) as (oi & Hoi & Hei).
  destruct (destroy_one_ok s key i oi Hoi Hei) as (o' & E & Hend). cbn [for_each]. rewrite E. simpl.
  assert (Hlt : (i < length (objects s))%nat) by (by eapply lookup_lt_Some).
  set (s1 := set_conns _ _ _ _ _). destruct (IH s1 Hnd) as (s' & E' & Hloop & Hlen & Hobj).
  { intros k j Hj. destruct (Hl k j ltac:(by right)) as (oj & Hoj & Hej). exists oj. split; [|done].
    simpl. rewrite list_lookup_insert_ne; [done|]. intros ->. apply Hni. apply (list_elem_of_fmap_2 snd l (k, j) Hj). }
  exists s'. split; [done|]. split; [done|]. split; [rewrite Hlen; simpl; by rewrite length_insert|].
  intros j o Ho. destruct (decide (j = i)) as [->|Hne].
  - rewrite Hoi in Ho. injection Ho as <-. destruct (Hobj i o') as (o'' & H1 & _ & H3).
    { simpl. by rewrite list_lookup_insert_eq. }
    rewrite (H3 Hni) in H1. exists o'. split; [done|]. split; [done|]. simpl. set_solver.
  - destruct (Hobj j o) as (o'' & H1 & H2 & H3). { simpl. by rewrite list_lookup_insert_ne. }
    exists o''. split; [done|]. simpl. split; [|intros; apply H3; set_solver].
    intros Hj. apply H2. set_solver.
Qed.

(** The positions the map holds are distinct. *)
Lemma map_positions ls s : SrvInv ls s -> NoDup (map snd (map_to_list (connections_ s))).
Proof.
  intros Hs. apply NoDup_fmap_2_strong; [|apply NoDup_map_to_list].
  intros [k1 i1] [k2 i2] H1 H2 E. simpl in E. subst i2.
  apply elem_of_map_to_list, (sv_map _ _ Hs) in H1 as (o1 & Ho1 & <- & _).
  apply elem_of_map_to_list, (sv_map _ _ Hs) in H2 as (o2 & Ho2 & <- & _). congruence.
Qed.

Lemma closed_entry_registered ls s i o : SrvInv ls s -> objects s !! i = Some o -> live_entry o ->
  state_ (sc_tcp o) = kDisconnected -> reg (sc_tcp o) = Some None.
Proof.
  intros Hs Ho Hl Hst. destruct (sv_objects _ _ Hs i o Ho) as (Hc & _). pose proof (ci_phase _ _ Hc) as Hp.
  unfold phase in Hp. rewrite Hst in Hp. unfold live_entry, removals in Hl.
  destruct Hp as (_ & Hcl & _ & [[? _]|[_ Hz]]); [done|lia].
Qed.

(** No connection of the server's own loop is being handed over or half closed. *)
Definition none_half_closed (s : TcpServer) : Prop := forall i o, objects s !! i = Some o ->
  live_entry o -> sc_loop o = srv_loop s -> state_ (sc_tcp o) = kConnected \/ state_ (sc_tcp o) = kDisconnected.

Lemma server_delete_ok ls s : SrvInv ls s -> none_half_closed s ->
  exists s', delete_TcpServer write user s = Ok s' /\ connections_ s' = ∅ /\
    length (objects s') = length (objects s) /\
    forall i o, objects s !! i = Some o -> exists o', objects s' !! i = Some o' /\
      (live_entry o -> ended (srv_loop s) o o') /\ (~ live_entry o -> o' = o).
Proof.
  intros Hs Hst. unfold delete_TcpServer.
  destruct (destroy_all (map_to_list (connections_ s)) s (map_positions ls s Hs)) as (s' & -> & Hloop & Hlen & Hobj).
  { intros key i Hk. apply elem_of_map_to_list, (sv_map _ _ Hs) in Hk as (o & Ho & _ & Hl). exists o. split; [done|].
    split; [by apply (sv_objects _ _ Hs i)|]. intros El. destruct (Hst i o Ho Hl El) as [?|?]; [by left|right].
    split; [done|]. by eapply closed_entry_registered. }
  eexists. split; [done|]. split; [done|]. split; [done|]. intros i o Ho.
  destruct (Hobj i o Ho) as (o' & H1 & H2 & H3). exists o'. split; [done|].
  assert (Hmem : live_entry o <-> i ∈ map snd (map_to_list (connections_ s))).
  { split.
    - intros Hl. apply (list_elem_of_fmap_2 snd _ (sc_name o, i)). apply elem_of_map_to_list, (sv_map _ _ Hs). by exists o.
    - intros Hi. apply list_elem_of_fmap in Hi as ([k j] & -> & Hk). simpl in *.
      apply elem_of_map_to_list, (sv_map _ _ Hs) in Hk as (o2 & Ho2 & _ & Hl). congruence. }
  rewrite Hmem. by split.
Qed.

(** A step of the destructor either goes through or fails an assertion. *)
Lemma destroy_one_cases s key i o : objects s !! i = Some o -> CInv 0 (sc_tcp o) ->
  destroy_one write user s (key, i) = Err AssertFailed \/
  exists o', destroy_one write user s (key, i) = Ok (set_conns (threadPool_ s) (nextConnId_ s) (connections_ s)
                                                       (<[i := o']> (objects s)) s).
Proof.
  intros Ho Hc. destruct (decide (sc_loop o = srv_loop s)) as [El|El];
    [|destruct (destroy_one_ok s key i o Ho) as (o' & E & _); [by split|right; by exists o']].
  assert (Hi : forall m, connectDestroyed (write i) (user i) (sc_tcp o) = m ->
    destroy_one write user s (key, i) = (t ← m; Ok (set_conns (threadPool_ s) (nextConnId_ s) (connections_ s)
                                                       (<[i := with_tcp o t]> (objects s)) s))).
  { intros m <-. unfold destroy_one. simpl. by rewrite Ho, El, Z.eqb_refl. }
  destruct (state_ (sc_tcp o)) eqn:Hst.
  - assert (Hn : connectDestroyed (write i) (user i) (sc_tcp o) = chan_remove (sc_tcp o)).
    { unfold connectDestroyed, connected. by rewrite Hst. }
    rewrite (Hi _ Hn). unfold chan_remove. destruct (isNoneEvent _); [right|left]; [by eexists|done].
  - assert (Hn : connectDestroyed (write i) (user i) (sc_tcp o) = chan_remove (sc_tcp o)).
    { unfold connectDestroyed, connected. by rewrite Hst. }
    rewrite (Hi _ Hn). unfold chan_remove. destruct (isNoneEvent _); [right|left]; [by eexists|done].
  - right. destruct (destroy_one_ok s key i o Ho) as (o' & E & _); [split; auto|by exists o'].
  - left. by rewrite (Hi _ (connectDestroyed_half_closed (write i) (user i) _ Hc Hst)).
Qed.

Definition half_closed (loop : Z) (o : ServerConn) : Prop :=
  sc_loop o = loop /\ state_ (sc_tcp o) = kDisconnecting.

Lemma destroy_all_stops l key i o : forall s, NoDup (map snd l) -> (key, i) ∈ l ->
  objects s !! i = Some o -> half_closed (srv_loop s) o ->
  (forall k j, (k, j) ∈ l -> exists oj, objects s !! j = Some oj /\ CInv 0 (sc_tcp oj)) ->
  for_each (destroy_one write user) s l = Err AssertFailed.
Proof.
  induction l as [|[k j] l IH]; intros s Hnd Hin Ho Hh Hl; [set_solver|].
  simpl in Hnd. apply NoDup_cons in Hnd as [Hnj Hnd]. cbn [for_each].
  destruct (Hl k j ltac:(left)) as (oj & Hoj & Hcj).
  apply elem_of_cons in Hin as [[= -> ->]|Hin].
  - rewrite Ho in Hoj. injection Hoj as <-. destruct Hh as [El Hst]. unfold destroy_one. simpl.
    rewrite Ho, El, Z.eqb_refl. simpl. by rewrite (connectDestroyed_half_closed (write j) (user j) _ Hcj Hst).
  - destruct (destroy_one_cases s k j oj Hoj Hcj) as [-> |[o' ->]]; [done|].
    assert (Hne : forall k' j', (k', j') ∈ l -> j <> j').
    { intros k' j' Hj' ->. apply Hnj. apply (list_elem_of_fmap_2 snd l (k', j') Hj'). }
    cbn [mbind outcome_bind]. apply IH; try done; simpl.
    + rewrite list_lookup_insert_ne; [done|]. by eapply Hne.
    + intros k' j' Hj'. rewrite list_lookup_insert_ne by (by eapply Hne). apply (Hl k' j'). by right.
Qed.

Lemma delete_stops ls s i o : SrvInv ls s -> objects s !! i = Some o -> live_entry o ->
  half_closed (srv_loop s) o -> delete_TcpServer write user s = Err AssertFailed.
Proof.
  intros Hs Ho Hl Hh. unfold delete_TcpServer.
  rewrite (destroy_all_stops (map_to_list (connections_ s)) (sc_name o) i o); try done.
  - by eapply map_positions.
  - apply elem_of_map_to_list, (sv_map _ _ Hs). by exists o.
  - intros k j Hk. apply elem_of_map_to_list, (sv_map _ _ Hs) in Hk as (oj & Hoj & _). exists oj. split; [done|].
    by apply (sv_objects _ _ Hs j).
Qed.
End Destructor.

(** ** Properties *)

(** C10. A server deleted on the thread of its loop after any history: if no
    live connection of its own loop is half closed or still being handed over,
    no assertion fails, the map is empty, every live connection of its loop has
    left the poller with its user told and passes the assertion of its
    destructor, every live connection of another loop has [connectDestroyed]
    queued there, and the others are untouched.  If one live connection of its
    loop is half closed ([shutdown] was called), the destructor fails an
    assertion. *)
Theorem server_destruction {K : Type} `{Sockets K} `{InetTextSpec}
    (write : nat -> nat -> list ascii -> write_result) (user : nat -> notification -> TcpConnection -> list user_op)
    (getsockname_ok : Z -> bool) (loop n : Z) (addr : InetAddress) (name : list ascii) (opt : Option_)
    (in_loop cb : bool) (startLoop : Z -> Z) (o o0 o1 : Os K) (s0 s1 s s' : TcpServer) (labels : list server_label) :
  (forall i k data n, write i k data = Wrote n -> 0 <= n <= zlen data) ->
  (forall i, well_behaved (write i) (user i)) ->
  family addr = AF_INET \/ family addr = AF_INET6 -> zlen (mem addr) = sizeof_in6 -> n < 2 ^ 31 ->
  new_TcpServer loop addr name opt o = Ok (s0, o0) -> setThreadNum n s0 = Ok s1 ->
  start in_loop startLoop cb s1 o0 = Ok (s, o1) ->
  guarded (server_step write user getsockname_ok) (server_permitted getsockname_ok) s labels ->
  for_each (server_step write user getsockname_ok) s labels = Ok s' ->
  (none_half_closed s' ->
     exists s2, delete_TcpServer write user s' = Ok s2 /\ connections_ s2 = ∅ /\
         forall i c, objects s' !! i = Some c -> exists c', objects s2 !! i = Some c' /\
         (removals (sc_tcp c) = 0 -> ended (srv_loop s') c c') /\ (removals (sc_tcp c) <> 0 -> c' = c)) /\
  (forall i c, objects s' !! i = Some c -> removals (sc_tcp c) = 0 -> half_closed (srv_loop s') c ->
     delete_TcpServer write user s' = Err AssertFailed).
Proof.
  intros Hw Hu Haf Hm Hn E0 E1 E2 Hg E.
  destruct (started_server_inv loop n addr name opt in_loop cb startLoop o o0 o1 s0 s1 s Haf Hm Hn E0 E1 E2) as [Hs _].
  pose proof (server_run_inv write user getsockname_ok Hw Hu _ s labels Hs Hg) as Hs'. rewrite E in Hs'. simpl in Hs'.
  split.
  - intros Hnone. destruct (server_delete_ok write user Hu _ s' Hs' Hnone) as (s2 & ? & ? & _ & ?). by exists s2.
  - intros i c Hi Hl Hh. by eapply delete_stops.
Qed.

Definition single_sized : TcpServer := match setThreadNum 0 sample_new.1 with Ok s => s | Err _ => sample_new.1 end.
Definition single_started : TcpServer * Os table :=
  match start true (fun i => 100 + i) false single_sized sample_new.2 with Ok p => p | Err _ => sample_new end.
Definition single_accepted : TcpServer :=
  match newConnection (fun _ => true) 9 single_started.1 with Ok s => s | Err _ => single_started.1 end.
Definition single_established : TcpServer :=
  match conn_event (fun _ => full_write) (fun _ => echo_user) 0 LEstablish single_accepted with
  | Ok s => s | Err _ => single_accepted end.

Lemma server_destruction_witness :
  (exists s2, delete_TcpServer (fun _ => full_write) (fun _ => echo_user) single_established = Ok s2 /\
     connections_ s2 = ∅ /\
     forall i c, objects single_established !! i = Some c -> exists c', objects s2 !! i = Some c' /\
       (removals (sc_tcp c) = 0 -> ended 7 c c') /\ (removals (sc_tcp c) <> 0 -> c' = c)) /\
  zlen (objects single_established) = 1.
Proof.
  split; [|vm_compute; reflexivity].
  apply (server_destruction (fun _ => full_write) (fun _ => echo_user) (fun _ => true) 7 0 sample_addr (bytes "srv")
    kNoReusePort true false (fun i => 100 + i) sample_os sample_new.2 single_started.2 sample_new.1 single_sized
    single_started.1 single_established [SAccept 9; SConn 0 LEstablish]).
  - intros i. apply full_write_bounded.
  - intros i. apply echo_well_behaved.
  - left. vm_compute. reflexivity.
  - vm_compute. reflexivity.
  - lia.
  - vm_compute. reflexivity.
  - vm_compute. reflexivity.
  - vm_compute. reflexivity.
  - split; [vm_compute; split; reflexivity|]. intros s1 H1.
    assert (E : s1 = single_accepted)
      by (unfold single_accepted; change (newConnection (fun _ => true) 9 single_started.1 = Ok s1) in H1; by rewrite H1).
    subst s1. split; [|done]. split; [discriminate|]. eexists. split; vm_compute; reflexivity.
  - vm_compute. reflexivity.
  - intros i c Hi _ _. destruct i as [|i]; [|vm_compute in Hi; by destruct i].
    injection Hi as <-. left. vm_compute. reflexivity.
Defined.
