(* ===== verification/ServerPoller.v ===== *)
(** * A server on its pollers (src/src/TcpServer.cpp, TcpConnection.cpp, Poller.h)

    The connections of a server, in any history, on the pollers of its loops:
    the composition of TcpServer.v, TcpConnection.v and Poller.v. *)

From S2P Require Import Prelude Endian StringPiece Buffer Format Timestamp Channel Poller.
From S2P Require Import EPollPoller PollPoller TcpConnection ConnFrame ConnPoller.
From S2P Require Import InetAddress Acceptor EventLoopThreadPool TcpServer ServerLife.
Local Open Scope Z_scope.

Section Traced.
Context (write : nat -> nat -> list ascii -> write_result).
Context (user : nat -> notification -> TcpConnection -> list user_op).
Context (getsockname_ok : Z -> bool).

Definition all_traced (s : TcpServer) : Prop := forall i o, objects s !! i = Some o -> traced (sc_tcp o).

Lemma traced_conn_step i c l c' : traced c -> conn_step (write i) (user i) c l = Ok c' -> traced c'.
Proof.
  intros Hc Hs. destruct l; try (refine (framed_conn_step keeps_trace (write i) (user i) c _ c' _ Hs Hc); done).
  simpl in Hs. destruct (closing c); injection Hs as <-; exact Hc.
Qed.

Lemma traced_conn_event i l s s' : all_traced s -> conn_event write user i l s = Ok s' -> all_traced s'.
Proof.
  intros Hs H. unfold conn_event in H. destruct (objects s !! i) as [o|] eqn:Ho; [|done]. obind.
  intros j oj Hj. simpl in Hj. destruct (decide (j = i)) as [->|Hne].
  - rewrite list_lookup_insert_eq in Hj by (by eapply lookup_lt_Some). injection Hj as <-. simpl.
    eapply traced_conn_step; [by apply (Hs i o)|done].
  - rewrite list_lookup_insert_ne in Hj by done. by apply (Hs j).
Qed.

Lemma traced_server_step s l s' : all_traced s -> server_step write user getsockname_ok s l = Ok s' -> all_traced s'.
Proof.
  intros Hs H. destruct l as [sockfd|i l|i]; simpl in H.
  - unfold newConnection in H. obind. destruct r as [loop pool]. obind. intros j oj Hj. simpl in Hj.
    apply lookup_app_Some in Hj as [Hj|[_ Hj]]; [by apply (Hs j)|].
    destruct (j - length (objects s))%nat; [|done]. injection Hj as <-. simpl. by intros _.
  - by eapply traced_conn_event.
  - unfold removeConnectionInLoop in H. destruct (objects s !! i) as [o|]; [|done]. obind.
    refine (traced_conn_event i LRemove _ s' _ H). exact Hs.
Qed.

Lemma traced_run labels : forall s s', all_traced s ->
  for_each (server_step write user getsockname_ok) s labels = Ok s' -> all_traced s'.
Proof.
  induction labels as [|l labels IH]; simpl; intros s s' Hs H; [by simplify_eq|]. obind.
  eapply IH; [|done]. by eapply traced_server_step.
Qed.
End Traced.

(** A server starts without connections. *)
Lemma started_objects {K} `{Sockets K} `{InetText} (loop n : Z) (addr : InetAddress) (name : list ascii)
    (opt : Option_) (in_loop cb : bool) (startLoop : Z -> Z) (o o0 o1 : Os K) (s0 s1 s : TcpServer) :
  new_TcpServer loop addr name opt o = Ok (s0, o0) -> setThreadNum n s0 = Ok s1 ->
  start in_loop startLoop cb s1 o0 = Ok (s, o1) -> objects s = [].
Proof.
  unfold new_TcpServer, setThreadNum, start. intros E0. obind. destruct r0 as [acc o2].
  injection E0 as <- <-. intros E1. obind. unfold pool_start. simpl. intros E2.
  destruct (negb (listenning_ acc)); [|done]. cbn [assert_ mbind outcome_bind] in E2.
  destruct in_loop; [destruct (listen _ o2) as [[ac o3]|]; [|done]|]; cbn [mbind outcome_bind] in E2;
    injection E2 as <- <-; done.
Qed.

(** ** Properties *)

(** The descriptor of a connection, and which connections a loop runs. *)
Definition fd_of (s : TcpServer) (i : nat) : Z :=
  match objects s !! i with Some o => fd_ (channel_ (sc_tcp o)) | None => -1 end.

Definition runs (s : TcpServer) (loop : Z) (i : nat) : Prop := exists o, objects s !! i = Some o /\ sc_loop o = loop.

(** [h] is an interleaving of the calls that the connections of [loop] made. *)
Definition interleaving (s : TcpServer) (loop : Z) (h : list (nat * chan_call)) : Prop :=
  Forall (fun x => runs s loop x.1) h /\
  forall i o, objects s !! i = Some o -> sc_loop o = loop -> calls_of i h = chan_calls (sc_tcp o).

(** C8. The connections of a server on the pollers of its loops: after any
    history of the server, take one of its loops, any poller that meets the
    interface with a new channel for each connection of that loop, and any
    interleaving of the calls those connections made.  If a descriptor is
    reused only once its last connection has left the poller, every call
    succeeds, and in the end the poller watches exactly what the connections
    believe it watches, and what it knew of other descriptors is unchanged. *)
Theorem server_on_pollers {K : Type} `{Sockets K} `{InetTextSpec} `{PollerSpec P}
    (write : nat -> nat -> list ascii -> write_result) (user : nat -> notification -> TcpConnection -> list user_op)
    (getsockname_ok : Z -> bool) (loop n : Z) (a : InetAddress) (name : list ascii) (opt : Option_)
    (in_loop cb : bool) (startLoop : Z -> Z) (o o0 o1 : Os K) (s0 s1 s s' : TcpServer) (labels : list server_label)
    (l : Z) (addr : nat -> Z) (p : P) (cs : channels) (h : list (nat * chan_call)) :
  (forall i k data n, write i k data = Wrote n -> 0 <= n <= zlen data) ->
  (forall i, well_behaved (write i) (user i)) ->
  family a = AF_INET \/ family a = AF_INET6 -> zlen (mem a) = sizeof_in6 -> n < 2 ^ 31 ->
  new_TcpServer loop a name opt o = Ok (s0, o0) -> setThreadNum n s0 = Ok s1 ->
  start in_loop startLoop cb s1 o0 = Ok (s, o1) ->
  guarded (server_step write user getsockname_ok) (server_permitted getsockname_ok) s labels ->
  for_each (server_step write user getsockname_ok) s labels = Ok s' ->
  (forall i j, runs s' l i -> runs s' l j -> addr i = addr j -> i = j) ->
  (forall i, runs s' l i -> 0 <= fd_of s' i /\ cs !! addr i = Some (new_Channel (fd_of s' i)) /\
     registered p cs !! fd_of s' i = None) ->
  pwf p cs -> interleaving s' l h -> exclusive (runs s' l) (fd_of s') h ->
  exists p' cs', for_each run_channel_op (p, cs) (map (to_op addr) h) = Ok (p', cs') /\ pwf p' cs' /\
    (forall i c, objects s' !! i = Some c -> sc_loop c = l -> forall m,
       registered p' cs' !! fd_of s' i = Some (mkReg (addr i) m) <-> reg (sc_tcp c) = Some m) /\
    (forall f, (forall i, runs s' l i -> fd_of s' i <> f) -> registered p' cs' !! f = registered p cs !! f).
Proof.
  intros Hw Hu Haf Hm Hn E0 E1 E2 Hg Hrun Hinj Hfresh Hwf [Hall Hcalls] Hex.
  destruct (started_server_inv loop n a name opt in_loop cb startLoop o o0 o1 s0 s1 s Haf Hm Hn E0 E1 E2) as [Hs _].
  pose proof (server_run_inv write user getsockname_ok Hw Hu _ s labels Hs Hg) as Hs'. rewrite Hrun in Hs'. simpl in Hs'.
  pose proof (started_objects loop n a name opt in_loop cb startLoop o o0 o1 s0 s1 s E0 E1 E2) as Hempty.
  assert (Htr : all_traced s').
  { eapply traced_run; [|done]. intros i c Hc. by rewrite Hempty in Hc. }
  assert (Huse : forall i c, objects s' !! i = Some c -> sc_loop c = l -> use i h = Some (usage_of (sc_tcp c))).
  { intros i c Hc Hl. unfold use. rewrite (Hcalls i c Hc Hl). apply (Htr i c Hc).
    by destruct (sv_objects _ _ Hs' i c Hc) as (Hi & _); apply Hi. }
  destruct (run_on_poller (runs s' l) (fd_of s') addr (registered p cs) Hinj) with (h := h) (s := (p, cs))
    as ([p' cs'] & Erun & Hon); try done.
  - intros i Hi. by apply Hfresh.
  - intros i (c & Hc & Hl). rewrite (Huse i c Hc Hl). eauto.
  - constructor; simpl; try done.
    + intros i u Hi [= <-]. destruct (Hfresh i Hi) as (_ & Hc & _). eexists. split; [exact Hc|]. done.
    + by intros i u m Hi [= <-].
    + intros i g Hi Hg'. destruct (Hfresh i Hi) as (_ & _ & Hr). simpl in Hg'. congruence.
  - exists p', cs'. split; [exact Erun|]. split; [apply Hon|]. split; [|apply (on_frame _ _ _ _ _ _ Hon)].
    intros i c Hc Hl m. pose proof (Huse i c Hc Hl) as Hui. assert (Hi : runs s' l i) by by exists c. split.
    + intros Hr. destruct (on_only _ _ _ _ _ _ Hon i _ Hi Hr) as (j & uj & Hj & _ & Huj & Hrj & Ha). simpl in *.
      assert (j = i) as -> by (apply Hinj; auto). rewrite Hui in Huj. by injection Huj as <-.
    + intros Hr. by apply (on_reg _ _ _ _ _ _ Hon i _ m Hi Hui).
Qed.

Definition one_channel : channels := {[ 100 := new_Channel 9 ]}.

Lemma server_on_pollers_witness :
  exists p' cs', for_each run_channel_op (new_PollPoller, one_channel) [Update 100 enableReading] = Ok (p', cs') /\
    pwf p' cs' /\ registered p' cs' !! 9 = Some (mkReg 100 (Some kReadEvent)).
Proof.
  assert (Hone : forall i, runs single_established 7 i -> i = 0%nat).
  { intros [|i] (o & Ho & _); [done|]. vm_compute in Ho. by destruct i. }
  destruct (server_on_pollers (fun _ => full_write) (fun _ => echo_user) (fun _ => true) 7 0 sample_addr (bytes "srv")
    kNoReusePort true false (fun i => 100 + i) sample_os sample_new.2 single_started.2 sample_new.1 single_sized
    single_started.1 single_established [SAccept 9; SConn 0 LEstablish] 7 (fun i => 100 + Z.of_nat i)
    new_PollPoller one_channel [(0%nat, CallUpdate enableReading)]) as (p' & cs' & E & W & R & _).
  - intros i. apply full_write_bounded.
  - intros i. apply echo_well_behaved.
  - left. vm_compute. reflexivity.
  - vm_compute. reflexivity.
  - lia.
  - vm_compute. reflexivity.
  - vm_compute. reflexivity.
  - vm_compute. reflexivity.
  - split; [vm_compute; split; reflexivity|]. intros s1 H1.
    assert (E : s1 = single_accepted)
      by (unfold single_accepted; change (newConnection (fun _ => true) 9 single_started.1 = Ok s1) in H1; by rewrite H1).
    subst s1. split; [|done]. split; [discriminate|]. eexists. split; vm_compute; reflexivity.
  - vm_compute. reflexivity.
  - intros i j Hi Hj _. by rewrite (Hone i Hi), (Hone j Hj).
  - intros i Hi. rewrite (Hone i Hi). split; [vm_compute; discriminate|]. split; reflexivity.
  - apply new_PollPoller_wf.
  - split.
    + apply Forall_cons. split; [|by apply Forall_nil]. eexists. split; vm_compute; reflexivity.
    + intros [|i] o Ho _; [injection Ho as <-; vm_compute; reflexivity|]. vm_compute in Ho. by destruct i.
  - intros pre i k post Hh _ j uj Hj Hne _ _. exfalso. rewrite (Hone j Hj) in Hne.
    destruct pre as [|x pre]; [injection Hh as <- _ _; done|]. injection Hh as _ Hh. by destruct pre.
  - exists p', cs'. split; [exact E|]. split; [exact W|].
    destruct (objects single_established !! 0%nat) as [c|] eqn:Ec; [|discriminate Ec].
    refine (proj2 (R 0%nat c Ec _ (Some kReadEvent)) _); injection Ec as <-; vm_compute; reflexivity.
Defined.
