(* ===== verification/HttpExchange.v ===== *)
(** * The HTTP server on its transport (src/src/HttpServer.h, HttpServer.cpp)

    The class [HttpServer]: a [TcpServer] whose callbacks are the HTTP handlers;
    and a whole exchange: the handler of readable events of a connection, with
    the HTTP callbacks installed, is run on whatever segments the kernel
    delivers, from the first byte of a request to the last byte of its answer. *)

From S2P Require Import Prelude Endian StringPiece Buffer Lines Format Timestamp Channel Poller TcpConnection ConnFrame ConnStream Http HttpServer.
From S2P Require Import InetAddress Acceptor EventLoopThreadPool TcpServer.
Local Open Scope Z_scope.

(** ** The class *)

Record HttpServer : Type := mkHttpServer {
  server_ : TcpServer;
  http_callback : HttpRequest -> HttpResponse -> HttpResponse
}.

Section Class.
Context {K : Type} `{Sockets K} `{InetText}.

Definition new_HttpServer (loop : Z) (listenAddr : InetAddress) (name : list ascii) (option : Option_) (o : Os K)
  : outcome (HttpServer * Os K) :=
  '(server, o) ← new_TcpServer loop listenAddr name option o;
  Ok (mkHttpServer server defaultHttpCallback, o).

Definition http_getLoop (h : HttpServer) : Z := srv_loop (server_ h).

Definition setHttpCallback (cb : HttpRequest -> HttpResponse -> HttpResponse) (h : HttpServer) : HttpServer :=
  mkHttpServer (server_ h) cb.

Definition http_setThreadNum (numThreads : Z) (h : HttpServer) : outcome HttpServer :=
  s ← setThreadNum numThreads (server_ h);
  Ok (mkHttpServer s (http_callback h)).

(** [HttpServer::start] never passes a thread callback. *)
Definition http_start (in_loop : bool) (startLoop : Z -> Z) (h : HttpServer) (o : Os K) : outcome (HttpServer * Os K) :=
  '(s, o) ← TcpServer.start in_loop startLoop false (server_ h) o;
  Ok (mkHttpServer s (http_callback h), o).
End Class.

(** ** Reading *)

Section Exchange.
Context (write : nat -> list ascii -> write_result).
Context (cb : HttpRequest -> HttpResponse -> HttpResponse).

(** [TcpConnection::handleRead] with [onMessage] as message callback; when the
    peer has closed, [handleClose] with [onConnection], which does nothing on a
    connection that is down. *)
Definition http_handleRead (readv : list Z -> readv_result) (receiveTime : Timestamp) (s : Session)
  : option (outcome Session) :=
  match readFd readv (inputBuffer_ (conn s)) with
  | Err f => Some (Err f)
  | Ok (n, _, b) =>
      let c := set_input b (conn s) in
      if 0 <? n then onMessage write cb receiveTime (mkSession (record_call NMessage c) (context s))
      else if n =? 0 then
        Some (c ← handleClose write (fun _ _ => []) c; Ok (onConnection (mkSession c (context s))))
      else Some (c ← handleError c; Ok (mkSession c (context s)))
  end.

(** The kernel delivers the segments one at a time, each at its own time. *)
Fixpoint read_all (ms : list (Timestamp * text)) (s : Session) : option (outcome Session) :=
  match ms with
  | [] => Some (Ok s)
  | (t, seg) :: ms =>
      match http_handleRead (fun _ => ReadData seg) t s with
      | Some (Ok s) => read_all ms s
      | r => r
      end
  end.

(** ** Parsing over time *)

(** Once the request line is read, the time of the following bytes is ignored. *)
Lemma spec_parse_headers_now fuel : forall now now' c s, Http.state_ c = kExpectHeaders ->
  spec_parse fuel now c s = spec_parse fuel now' c s.
Proof.
  induction fuel as [|fuel IH]; intros now now' c s Hc; [done|]. simpl. unfold spec_pass. rewrite Hc.
  destruct (break_crlf s) as [[line rest]|]; [|done].
  destruct (find_char COLON line) as [[field after]|]; [|done]. by apply IH.
Qed.

(** While the request line is incomplete nothing is consumed. *)
Lemma parse_line_incomplete now c s c' rest :
  active c = true -> parse now c s = Some (Ok (true, c', rest)) -> Http.state_ c' = kExpectRequestLine ->
  c' = c /\ rest = s.
Proof.
  intros Ha Hp Hc'. destruct (spec_pass now c s) as [[c1 s1|ok c1 s1]|f] eqn:E.
  - exfalso. rewrite (parse_step now c s c1 s1 Ha E) in Hp.
    assert (H1 : Http.state_ c1 = kExpectHeaders).
    { unfold spec_pass in E. unfold active in Ha. destruct (Http.state_ c) eqn:Ec; try done;
        destruct (break_crlf s) as [[line r]|]; try done.
      - destruct (processRequestLine line (request_ c)) as [[[] q]|g]; try done. by injection E as <- _.
      - destruct (find_char COLON line) as [[f a]|]; try done. by injection E as <- _. }
    assert (Hinv : forall fuel c s, Http.state_ c = kExpectHeaders ->
      match spec_parse fuel now c s with Some (Ok (_, c', _)) => Http.state_ c' <> kExpectRequestLine | _ => True end).
    { clear. induction fuel as [|fuel IH]; intros c s Hc; simpl; [done|]. unfold spec_pass. rewrite Hc.
      destruct (break_crlf s) as [[line r]|]; [|by rewrite Hc].
      destruct (find_char COLON line) as [[f a]|]; [by apply IH|done]. }
    specialize (Hinv (S (length s1)) c1 s1 H1). unfold parse in Hp. by rewrite Hp in Hinv.
  - assert (Hp' : parse now c s = Some (Ok (ok, c1, s1))) by (unfold parse; simpl; by rewrite E).
    rewrite Hp' in Hp. injection Hp as -> -> ->. unfold spec_pass in E. unfold active in Ha.
    destruct (Http.state_ c) eqn:Ec; try done; destruct (break_crlf s) as [[line r]|]; try (by injection E as <- <-).
    + destruct (processRequestLine line (request_ c)) as [[[] q]|g]; done.
    + destruct (find_char COLON line) as [[f a]|]; [done|]. injection E as <- _. done.
  - assert (Hp' : parse now c s = Some (Err f)) by (unfold parse; simpl; by rewrite E). congruence.
Qed.

(** With [s] unread in context [c], the bytes [todo] complete a request, whose
    value may depend on the time at which its first line is completed. *)
Definition awaits (c : HttpContext) (s todo : text) (good : HttpRequest -> Prop) (times : list Timestamp) : Prop :=
  active c = true /\ forall now, now ∈ times -> exists req,
    parse now c (s ++ todo) = Some (Ok (true, mkContext kGotAll req, [])) /\ good req.

(** A segment either leaves the session waiting for the rest, or is the last. *)
Lemma awaits_segment c s seg todo good t ts :
  awaits c s (seg ++ todo) good (t :: ts) ->
  exists c' rest, parse t c (s ++ seg) = Some (Ok (true, c', rest)) /\
    ((active c' = true /\ todo <> [] /\ awaits c' rest todo good (t :: ts)) \/
     (todo = [] /\ rest = [] /\ exists req, c' = mkContext kGotAll req /\ good req)).
Proof.
  intros [Ha Hall]. destruct (Hall t ltac:(left)) as (req & Hp & Hg). rewrite app_assoc in Hp.
  rewrite (parse_app t (S (length (s ++ seg))) c (s ++ seg) todo ltac:(lia) Ha) in Hp.
  destruct (parse t c (s ++ seg)) as [[[[ok c'] rest]|f]|] eqn:E; try done. simpl in Hp.
  destruct (ok && active c') eqn:Eact.
  - apply andb_true_iff in Eact as [-> Ha']. exists c', rest. split; [done|]. left. split; [done|]. split.
    { intros ->. destruct (Hall t ltac:(left)) as (req' & Hp' & _). rewrite app_nil_r, E in Hp'.
      injection Hp' as -> _. done. }
    split; [done|]. intros now Hnow. destruct (Http.state_ c') eqn:Ec'; try (unfold active in Ha'; by rewrite Ec' in Ha').
    + destruct (parse_line_incomplete t c _ c' rest Ha E Ec') as [-> ->].
      destruct (Hall now Hnow) as (req' & Hp' & Hg'). exists req'. by rewrite <- app_assoc.
    + exists req. split; [|done]. rewrite <- Hp. unfold parse. by apply spec_parse_headers_now.
  - injection Hp as -> -> Happ. exists (mkContext kGotAll req), rest. split; [done|]. right.
    apply app_eq_nil in Happ as [-> ->]. eauto.
Qed.

(** ** An exchange *)

Hypothesis write_bounded : forall k data n, write k data = Wrote n -> 0 <= n <= zlen data.
Hypothesis callback_fits : forall req close, response_fits (cb req (new_HttpResponse close)).
Hypothesis write_no_fault : no_fault write.

(** An open session that has sent [out] and holds [s] unread in context [ctx]. *)
Definition open_session (out : text) (ctx : HttpContext) (s : text) (x : Session) : Prop :=
  CInv 0 (conn x) /\ TcpConnection.state_ (conn x) = kConnected /\ context x = Some ctx /\
  repr (inputBuffer_ (conn x)) s /\ sent (conn x) ++ pending_output (conn x) = out.

(** The session after the answer to [req]. *)
Definition answered (out : text) (good : HttpRequest -> Prop) (x : Session) : Prop := exists req,
  good req /\ sent (conn x) ++ pending_output (conn x) = out ++ response_text (answer cb req) /\
  repr (inputBuffer_ (conn x)) [] /\ context x = Some new_HttpContext /\
  TcpConnection.state_ (conn x) = if closeConnection_ (answer cb req) then kDisconnecting else kConnected.

Lemma read_segment t ts seg todo good out ctx s x :
  open_session out ctx s x -> awaits ctx s (seg ++ todo) good (t :: ts) -> 0 < zlen seg <= sizeof_extrabuf ->
  exists r, http_handleRead (fun _ => ReadData seg) t x = Some r /\
    unless too_long r (fun x' =>
      (todo <> [] /\ exists ctx' s', open_session out ctx' s' x' /\ awaits ctx' s' todo good (t :: ts)) \/
      (todo = [] /\ answered out good x')).
Proof.
  intros (Hi & Hst & Hctx & Hin & Hout) Hw Hseg. unfold http_handleRead.
  pose proof (iov_room _ _ Hin) as Hroom.
  destruct (readFd_cases (inputBuffer_ (conn x)) s (fun _ => ReadData seg) seg Hin eq_refl ltac:(lia))
    as [[-> _]|(b & -> & Hb)]; [by eexists|].
  rewrite (proj2 (Z.ltb_lt 0 _)) by lia. unfold onMessage. cbn [context conn]. rewrite Hctx.
  destruct (awaits_segment ctx s seg todo good t ts Hw) as (c' & rest & Hp & Hcase).
  destruct (run_parse_spec t ctx b (s ++ seg) Hb (proj1 Hw)) as (r & Hp' & Hr).
  rewrite Hp in Hp'. injection Hp' as <-. destruct Hr as (b' & Hr & Hb').
  change (inputBuffer_ (record_call NMessage (set_input b (conn x)))) with b. rewrite Hr. eexists. split; [done|].
  cbn [mbind outcome_bind]. set (c1 := set_input b' (record_call NMessage (set_input b (conn x)))).
  assert (Hi1 : CInv 0 c1).
  { apply CInv_input; [|apply Hb']. apply CInv_record; [done|]. apply CInv_input; [done|apply Hb]. }
  assert (Hst1 : TcpConnection.state_ c1 = kConnected) by exact Hst.
  destruct Hcase as [(Ha' & Htodo & Hw')|(-> & -> & req & -> & Hg)].
  - assert (gotAll c' = false) as ->.
    { unfold gotAll, active in *. apply bool_decide_false. intros E. by rewrite E in Ha'. }
    left. split; [done|]. exists c', rest. split; [|done]. by split_and!.
  - change (gotAll _) with true. cbn iota.
    eapply unless_bind; [apply (onRequest_answers write cb write_bounded callback_fits c1 req Hi1); by rewrite Hst1|].
    intros c2 _ (_ & _ & Hin2 & Hsent). destruct (Hsent Hst1 write_no_fault) as [E1 E2]. right. split; [done|].
    exists req. split; [done|]. cbn [conn context]. split; [|split; [by rewrite Hin2|by split]].
    by rewrite E1, app_assoc, <- Hout.
Qed.

Lemma read_all_answers ts good out : forall ms ctx s x, ms <> [] ->
  Forall (fun m => m.1 ∈ ts /\ 0 < zlen m.2 <= sizeof_extrabuf) ms ->
  open_session out ctx s x -> awaits ctx s (concat (map snd ms)) good ts ->
  exists r, read_all ms x = Some r /\ unless too_long r (answered out good).
Proof.
  induction ms as [|[t seg] ms IH]; intros ctx s x Hne Hms Hx Hw; [done|].
  apply Forall_cons in Hms as [[Ht Hseg] Hms]. simpl in Ht, Hseg, Hw. cbn [read_all].
  assert (Hw' : awaits ctx s (seg ++ concat (map snd ms)) good (t :: ts)).
  { destruct Hw as [Ha Hall]. split; [done|]. intros now Hn. apply Hall. set_solver. }
  destruct (read_segment t ts seg (concat (map snd ms)) good out ctx s x Hx Hw' Hseg) as (r & -> & Hr).
  destruct r as [x'|f]; [|by eexists]. destruct Hr as [(Htodo & ctx' & s' & Hx' & Hw1)|[Hnil Hans]].
  - apply (IH ctx' s' x'); try done; [by intros ->|]. destruct Hw1 as [Ha1 Hall]. split; [done|].
    intros now Hn. apply Hall. set_solver.
  - destruct ms as [|[t' seg'] ms]; [by eexists|]. exfalso. apply Forall_cons in Hms as [[_ Hs'] _].
    cbn [map snd concat] in *. apply app_eq_nil in Hnil as [-> _]. unfold zlen in Hs'. simpl in Hs'. lia.
Qed.
End Exchange.

(** ** Properties *)

(** The request that was printed, received at one of the times. *)
Definition request_of (l : request_line) (hs : list (text * text)) (times : list Timestamp) (req : HttpRequest) : Prop :=
  (method_ req, version_ req, path_ req, query_ req) = (l_method l, l_version l, l_path l, l_query l) /\
  receiveTime_ req ∈ times /\ forall f, smap_find f (headers_ req) = last_value f hs.

(** C25. A whole exchange: on a connection that has come up, a well-formed
    request arrives in any number of segments, at any times, through the
    connection's handler of readable events.  Every call ends, no assertion
    fails, nothing is sent before the last segment, and then the bytes sent (or
    left to send) grow by exactly the response of the callback to that request,
    with its last value of each header; the input is consumed, the context is
    ready for the next request, and the connection is shut down exactly when
    the response says so. *)
Theorem http_exchange (write : nat -> list ascii -> write_result) (cb : HttpRequest -> HttpResponse -> HttpResponse)
    (c : TcpConnection) (ctx : option HttpContext) (l : request_line) (hs : list (text * text))
    (ms : list (Timestamp * text)) :
  (forall k data n, write k data = Wrote n -> 0 <= n <= zlen data) -> no_fault write ->
  (forall req close, response_fits (cb req (new_HttpResponse close))) ->
  line_ok l -> Forall header_ok hs ->
  CInv 0 c -> TcpConnection.state_ c = kConnected -> repr (inputBuffer_ c) [] ->
  Forall (fun m => 0 < zlen m.2 <= sizeof_extrabuf) ms -> concat (map snd ms) = print_request l hs ->
  exists r, read_all write cb ms (onConnection (mkSession c ctx)) = Some r /\
    unless too_long r (answered cb (sent c ++ pending_output c) (request_of l hs (map fst ms))).
Proof.
  intros Hw Hnf Hcb Hl Hhs Hi Hst Hin Hms Hcat.
  assert (Hup : onConnection (mkSession c ctx) = mkSession c (Some new_HttpContext)).
  { unfold onConnection. simpl. by rewrite (proj2 (connected_spec c) Hst). }
  rewrite Hup. apply (read_all_answers write cb Hw Hcb Hnf (map fst ms) _ _ ms new_HttpContext []).
  - intros ->. unfold print_request in Hcat. simpl in Hcat. symmetry in Hcat.
    apply app_eq_nil in Hcat as [_ Hc]. discriminate Hc.
  - apply Forall_forall. intros m Hm. split; [by apply list_elem_of_fmap_2|]. by apply (proj1 (Forall_forall _ _) Hms).
  - by split_and!.
  - split; [done|]. intros now Hnow. rewrite Hcat. simpl. rewrite <- (app_nil_r (print_request l hs)).
    rewrite parse_print by done. eexists. split; [done|]. split; [done|]. split; [done|]. intros f. apply smap_find_fold.
Qed.

Definition sample_messages : list (Timestamp * text) :=
  let s := print_request sample_line sample_headers in
  [(mkTimestamp 5, ztake 9 s); (mkTimestamp 6, ztake 20 (zdrop 9 s)); (mkTimestamp 7, zdrop 29 s)].

Lemma http_exchange_witness :
  (exists x, read_all full_write defaultHttpCallback sample_messages (onConnection (mkSession open_connection None)) = Some (Ok x)) /\
  exists r, read_all full_write defaultHttpCallback sample_messages (onConnection (mkSession open_connection None)) = Some r /\
    unless too_long r (answered defaultHttpCallback []
      (request_of sample_line sample_headers [mkTimestamp 5; mkTimestamp 6; mkTimestamp 7])).
Proof.
  split; [eexists; vm_compute; reflexivity|].
  apply (http_exchange full_write defaultHttpCallback open_connection None sample_line sample_headers sample_messages).
  - apply full_write_bounded.
  - intros k data. done.
  - apply default_fits.
  - apply sample_line_ok.
  - apply sample_headers_ok.
  - apply open_connection_inv.
  - reflexivity.
  - apply empty_buffer_repr.
  - apply Forall_forall. intros m Hm. unfold sample_messages in Hm. rewrite !elem_of_cons, elem_of_nil in Hm.
    destruct Hm as [-> |[-> |[-> |[]]]]; vm_compute; split; done.
  - vm_compute. reflexivity.
Defined.
