(* ===== verification/HttpSystem.v ===== *)
(** * An HTTP server with all its connections (src/src/HttpServer.cpp, TcpServer.cpp)

    The composition of TcpServer.v with the HTTP handlers: every connection of
    the server has a context of its own, its callbacks are those of HttpServer,
    and the connections take steps in any interleaving. *)

From S2P Require Import Prelude Endian StringPiece Buffer Format Timestamp Channel Poller TcpConnection ConnFrame ConnStream.
From S2P Require Import Http HttpServer InetAddress Acceptor EventLoopThreadPool TcpServer ConnPoller ServerPoller HttpExchange.
Local Open Scope Z_scope.

(** ** A connection with the HTTP callbacks *)

Section Session.
Context (write : nat -> list ascii -> write_result).
Context (cb : HttpRequest -> HttpResponse -> HttpResponse).

(** The handlers of the channel.  [onConnection] is called by [connectEstablished]
    and by [handleClose]; on a connection that is down it does nothing. *)
Definition session_callback (readv : list Z -> readv_result) (now : Timestamp) (s : Session) (k : callback)
  : outcome Session :=
  match k with
  | closeCallback =>
      c ← handleClose write silent_user (conn s);
      Ok (onConnection (mkSession c (context s)))
  | errorCallback => c ← handleError (conn s); Ok (mkSession c (context s))
  | readCallback => ended (http_handleRead write cb readv now s)
  | writeCallback => c ← handleWrite write (conn s); Ok (mkSession c (context s))
  end.

(** What happens to a session: no one but [HttpServer] holds the connection, so
    nothing else is called on it. *)
Inductive session_label : Type :=
| HEstablish                                             (** the server hands the connection over *)
| HEvent (mask : Z) (readv : list Z -> readv_result)     (** the poller reports events *)
| HFunctor.                                              (** the loop runs the next functor *)

Definition session_step (now : Timestamp) (s : Session) (l : session_label) : outcome Session :=
  match l with
  | HEstablish =>
      c ← connectEstablished write silent_user (conn s);
      Ok (onConnection (mkSession c (context s)))
  | HEvent mask readv => for_each (session_callback readv now) s (selected mask)
  | HFunctor => c ← conn_step write silent_user (conn s) LFunctor; Ok (mkSession c (context s))
  end.

(** ** What the steps can change *)

Lemma framed_onMessage R `{!Framed R} now s s' :
  onMessage write cb now s = Some (Ok s') -> R (conn s) (conn s').
Proof.
  unfold onMessage. destruct (context s) as [ctx|]; [|done].
  destruct (run_parse now ctx _) as [[[[ok ctx'] b]|f]|]; [|done..]. intros [= H]. obind.
  assert (HR : R (conn s) r).
  { etrans; [apply (framed_quiet (R := R) _ (set_input b (conn s))); done|]. destruct ok; [by simplify_eq|]. obind.
    etrans; [by eapply (framed_run_user R write _ (USend bad_request))|].
    by apply (framed_run_user R write _ UShutdown). }
  etrans; [exact HR|]. clear HR Hr. destruct (gotAll ctx'); [|by simplify_eq]. obind. simpl.
  unfold onRequest in Hr. obind. destruct r3 as [b2 c2]. obind. apply (framed_send_buffer R write) in Hr2.
  etrans; [exact Hr2|]. case_match; [|done]. by apply (framed_run_user R write _ UShutdown).
Qed.

Lemma conn_onConnection s : conn (onConnection s) = conn s.
Proof. unfold onConnection. by destruct (connected (conn s)). Qed.

Lemma framed_session_callback R `{!Framed R} readv now s k s' :
  session_callback readv now s k = Ok s' -> R (conn s) (conn s').
Proof.
  destruct k; simpl; intros H; obind.
  - rewrite conn_onConnection. by eapply (framed_handleClose R).
  - done.
  - unfold http_handleRead in H. destruct (readFd _ _) as [[[n e] b]|]; [|done].
    etrans; [apply (framed_quiet (R := R) _ (set_input b (conn s))); done|].
    destruct (0 <? n).
    + destruct (onMessage _ _ _ _) as [r|] eqn:E; [|done]. simpl in H. subst r. apply (framed_onMessage R) in E.
      etrans; [|exact E]. by apply framed_quiet.
    + destruct (n =? 0); simpl in H; obind; [rewrite conn_onConnection; by eapply (framed_handleClose R)|].
      done.
  - by eapply (framed_handleWrite R).
Qed.

Lemma framed_session_step R `{!Framed R} now s l s' : session_step now s l = Ok s' -> R (conn s) (conn s').
Proof.
  destruct l as [|mask readv|]; cbn [session_step]; intros H.
  - obind. rewrite conn_onConnection. by eapply (framed_conn_step R write silent_user _ LEstablish).
  - revert s H. induction (selected mask) as [|k ks IH]; simpl; intros s H; [by simplify_eq|]. obind.
    etrans; [by eapply framed_session_callback|by apply IH].
  - obind. by eapply (framed_conn_step R write silent_user _ LFunctor).
Qed.

(** ** The invariant of a session *)

Hypothesis write_bounded : forall k data n, write k data = Wrote n -> 0 <= n <= zlen data.
Hypothesis callback_fits : forall req close, response_fits (cb req (new_HttpResponse close)).

Definition has_context (s : Session) : Prop := exists ctx, context s = Some ctx /\ active ctx = true.

Definition UpInv (s : Session) : Prop := CInv 0 (conn s) /\ has_context s.

(** A connection that has come up has a context, whose request is not complete. *)
Definition SessInv (s : Session) : Prop :=
  CInv 0 (conn s) /\ (TcpConnection.state_ (conn s) = kConnecting \/ has_context s).

Lemma UpInv_SessInv s : UpInv s -> SessInv s.
Proof. intros [H1 H2]. split; [done|by right]. Qed.

(** The parser has not been left in the middle of a request it refused. *)
Definition accepting (s : Session) : Prop := forall ctx, context s = Some ctx -> healthy ctx.

(** What the environment may do next: what it may do to a connection; and a peer
    whose request was refused while it was read sends nothing more. *)
Definition session_permitted (s : Session) (l : session_label) : Prop :=
  match l with
  | HEstablish => TcpConnection.state_ (conn s) = kConnecting
  | HEvent mask readv =>
      permitted_label (conn s) (LEvent mask readv) /\
      (readCallback ∈ selected mask -> forall bs,
         readv (readFd_iov (inputBuffer_ (conn s))) = ReadData bs -> bs <> [] -> accepting s)
  | HFunctor => True
  end.

Lemma UpInv_conn s m : has_context s -> unless too_long m (CInv 0) ->
  unless too_long (c ← m; Ok (mkSession c (context s))) UpInv.
Proof. intros Hs Hm. eapply unless_bind; [exact Hm|]. intros c _ Hc. by split. Qed.

Lemma UpInv_onConnection s m : has_context s -> unless too_long m (CInv 0) ->
  unless too_long (c ← m; Ok (onConnection (mkSession c (context s)))) UpInv.
Proof.
  intros Hs Hm. eapply unless_bind; [exact Hm|]. intros c _ Hc. unfold onConnection. simpl.
  destruct (connected c); [|by split]. split; [done|]. by exists new_HttpContext.
Qed.

Lemma readCallback_inv readv now s :
  UpInv s -> live (conn s) -> (forall iov bs, readv iov = ReadData bs -> zlen bs <= iov_total iov) ->
  (forall bs, readv (readFd_iov (inputBuffer_ (conn s))) = ReadData bs -> bs <> [] -> accepting s) ->
  unless too_long (session_callback readv now s readCallback) UpInv.
Proof.
  intros [Hi Hc] Hl Hread Hacc. simpl. unfold http_handleRead. pose proof (repr_wf _ (ci_in _ _ Hi)) as Hr.
  destruct (readv (readFd_iov (inputBuffer_ (conn s)))) as [e|bs] eqn:Erd.
  - unfold readFd. rewrite Erd. simpl. split; [|done]. apply CInv_input; [done|apply Hi].
  - destruct (readFd_cases _ _ readv bs Hr Erd (Hread _ _ Erd)) as [[-> _]|(b & -> & [Hb _])]; [done|].
    assert (Hib : CInv 0 (set_input b (conn s))) by by apply CInv_input.
    destruct (Z.ltb_spec 0 (zlen bs)) as [Hpos|Hpos].
    + destruct Hc as (ctx & Hctx & Ha).
      destruct (onMessage_inv write cb write_bounded callback_fits now
        (mkSession (record_call NMessage (set_input b (conn s))) (context s))) as (r & -> & Hr').
      * split; [by apply CInv_record|by destruct Hl as [E|E]; simpl; rewrite E|]. exists ctx. split; [done|].
        apply (Hacc bs); [done|by intros ->|done].
      * eapply unless_mono; [exact Hr'|]. intros s' _ [[H1 _ (c' & H2 & H3)]|(H1 & _ & H2)]; (split; [done|]); [|done].
        exists c'. split; [done|apply H3].
    + rewrite (proj2 (Z.eqb_eq (zlen bs) 0)) by (pose proof (zlen_nonneg bs); lia).
      apply UpInv_onConnection; [done|]. apply (handleClose_inv write silent_user write_bounded); try done.
Qed.

(** [connectEstablished] leaves the connection up. *)
Lemma establish_up c c' : connectEstablished write silent_user c = Ok c' -> connected c' = true.
Proof.
  unfold connectEstablished. intros H. obind. unfold notify in H. simpl in H. injection H as <-. reflexivity.
Qed.

Lemma session_step_inv now s l : SessInv s -> session_permitted s l -> unless too_long (session_step now s l) SessInv.
Proof.
  intros [Hi Hc] Hp. destruct l as [|mask readv|]; simpl in Hp; cbn [session_step].
  - eapply unless_bind; [by apply (connectEstablished_inv write silent_user write_bounded)|].
    intros c Ec Hc'. apply establish_up in Ec. unfold onConnection. simpl. rewrite Ec. split; [done|]. right.
    by exists new_HttpContext.
  - destruct Hp as [((m & Hreg) & Hex & Hread) Hacc]. pose proof (watched_live _ m Hi Hreg) as Hl.
    assert (Hup : UpInv s).
    { split; [done|]. destruct Hc as [Hc|Hc]; [|done]. destruct Hl; congruence. }
    eapply unless_mono; [|intros s' _; apply UpInv_SessInv]. apply selected_inv; try done.
    + apply UpInv_onConnection; [apply Hup|]. by apply (handleClose_inv write silent_user write_bounded).
    + by intros [].
    + intros Hk. by apply readCallback_inv; [..|apply Hacc].
    + intros s1 [Hi1 Hc1]. apply UpInv_conn; [done|]. by apply (handleWrite_inv write write_bounded).
  - destruct Hc as [Hc|Hc].
    + pose proof (ci_phase _ _ Hi) as Hph. unfold phase in Hph. rewrite Hc in Hph.
      destruct Hph as (_ & _ & _ & Hq & _). simpl. rewrite Hq. simpl. split; [done|by left].
    + eapply unless_mono; [|intros s' _; apply UpInv_SessInv]. apply UpInv_conn; [done|].
      by apply (conn_step_inv write silent_user write_bounded (silent_well_behaved write)).
Qed.
End Session.

(** ** The server and all its sessions *)

(** The [i]-th context is that of the [i]-th connection. *)
Record HttpSys : Type := mkHttpSys { sys_server : TcpServer; contexts : list (option HttpContext) }.

Inductive http_label : Type :=
| HAccept (sockfd : Z)                                       (** the acceptor's callback *)
| HSession (i : nat) (now : Timestamp) (l : session_label)   (** a connection takes a step *)
| HRemove (i : nat).                                         (** the loop runs the functor of a close callback *)

Section System.
Context (write : nat -> nat -> list ascii -> write_result).
Context (cb : HttpRequest -> HttpResponse -> HttpResponse).
Context (getsockname_ok : Z -> bool).

Definition http_step (h : HttpSys) (l : http_label) : outcome HttpSys :=
  match l with
  | HAccept sockfd =>
      s ← newConnection getsockname_ok sockfd (sys_server h);
      Ok (mkHttpSys s (contexts h ++ [None]))
  | HSession i now l =>
      match objects (sys_server h) !! i, contexts h !! i with
      | Some c, Some ctx =>
          let s := sys_server h in
          x ← session_step (write i) cb now (mkSession (sc_tcp c) ctx) l;
          Ok (mkHttpSys
            (set_conns (threadPool_ s) (nextConnId_ s) (connections_ s) (<[i := with_tcp c (conn x)]> (objects s)) s)
            (<[i := context x]> (contexts h)))
      | _, _ => Err UseAfterFree
      end
  | HRemove i =>
      s ← removeConnectionInLoop write (fun _ => silent_user) i (sys_server h);
      Ok (mkHttpSys s (contexts h))
  end.

Definition http_permitted (h : HttpSys) (l : http_label) : Prop :=
  match l with
  | HAccept sockfd => server_permitted getsockname_ok (sys_server h) (SAccept sockfd)
  | HSession i now l => exists c ctx, objects (sys_server h) !! i = Some c /\ contexts h !! i = Some ctx /\
      session_permitted (mkSession (sc_tcp c) ctx) l
  | HRemove i => server_permitted getsockname_ok (sys_server h) (SRemove i)
  end.

Record HttpInv (ls : list Z) (h : HttpSys) : Prop := mkHttpInv {
  hi_server : SrvInv ls (sys_server h);
  hi_length : length (contexts h) = length (objects (sys_server h));
  hi_sessions : forall i c ctx, objects (sys_server h) !! i = Some c -> contexts h !! i = Some ctx ->
    SessInv (mkSession (sc_tcp c) ctx)
}.

Hypothesis write_bounded : forall i k data n, write i k data = Wrote n -> 0 <= n <= zlen data.
Hypothesis callback_fits : forall req close, response_fits (cb req (new_HttpResponse close)).

Lemma http_accept_inv ls h sockfd : HttpInv ls h -> http_permitted h (HAccept sockfd) ->
  unless too_long (http_step h (HAccept sockfd)) (HttpInv ls).
Proof.
  intros [Hs Hl Hx] Hp. cbn [http_step].
  eapply unless_bind; [by apply (newConnection_inv getsockname_ok ls)|]. intros s' E Hs'.
  assert (Ho : exists o, objects s' = objects (sys_server h) ++ [o] /\ TcpConnection.state_ (sc_tcp o) = kConnecting).
  { unfold newConnection in E. obind. destruct r as [l p]. obind. by eexists. }
  destruct Ho as (o & Ho & Hst). constructor; simpl; [done|rewrite Ho, !length_app; simpl; lia|].
  intros i c ctx Hi Hctx. rewrite Ho in Hi. apply lookup_snoc_Some in Hi as [[Hlt Hi]|[-> <-]].
  - rewrite lookup_app_l in Hctx by lia. by eapply Hx.
  - split; [|by left]. apply (sv_objects _ _ Hs' (length (objects (sys_server h)))). rewrite Ho.
    by rewrite lookup_app_r, Nat.sub_diag.
Qed.

(** An object and its context are replaced by those of a session in order. *)
Lemma sessions_insert h i c x :
  length (contexts h) = length (objects (sys_server h)) -> (i < length (contexts h))%nat ->
  (forall j c ctx, objects (sys_server h) !! j = Some c -> contexts h !! j = Some ctx -> SessInv (mkSession (sc_tcp c) ctx)) ->
  SessInv x -> forall j c' ctx, <[i := with_tcp c (conn x)]> (objects (sys_server h)) !! j = Some c' ->
  <[i := context x]> (contexts h) !! j = Some ctx -> SessInv (mkSession (sc_tcp c') ctx).
Proof.
  intros Hl Hi Hx Hsx j c' ctx. destruct (decide (j = i)) as [->|Hne].
  - rewrite !list_lookup_insert_eq by lia. intros [= <-] [= <-]. by destruct x.
  - rewrite !list_lookup_insert_ne by done. by apply Hx.
Qed.

Lemma http_session_inv ls h i now l : HttpInv ls h -> http_permitted h (HSession i now l) ->
  unless too_long (http_step h (HSession i now l)) (HttpInv ls).
Proof.
  intros [Hs Hl Hx] (c & ctx & Hc & Hctx & Hp). cbn [http_step]. rewrite Hc, Hctx.
  pose proof (lookup_lt_Some _ _ _ Hctx) as Hlt.
  eapply unless_bind; [apply session_step_inv; [apply write_bounded|exact callback_fits|by eapply Hx|done]|].
  intros x Ex Hsx. apply (framed_session_step (write i) cb same_removals) in Ex. constructor; simpl.
  - apply update_object_inv; [done..|apply Hsx|exact Ex].
  - by rewrite !length_insert.
  - by apply sessions_insert.
Qed.

Lemma http_remove_inv ls h i : HttpInv ls h -> http_permitted h (HRemove i) ->
  unless too_long (http_step h (HRemove i)) (HttpInv ls).
Proof.
  intros [Hs Hl Hx] Hp. cbn [http_step].
  eapply unless_bind; [apply (removeConnection_inv write (fun _ => silent_user) getsockname_ok write_bounded); try done|].
  intros s' E Hs'. unfold removeConnectionInLoop, conn_event in E. simpl in E.
  destruct (objects (sys_server h) !! i) as [c|] eqn:Hc; [|done]. obind.
  pose proof (lookup_lt_Some _ _ _ Hc) as Hlt. constructor; simpl; [done|by rewrite length_insert|].
  intros j c' ctx Hj Hctx. split; [by apply (sv_objects _ _ Hs' j c')|]. simpl.
  destruct (decide (j = i)) as [->|Hne]; [|rewrite list_lookup_insert_ne in Hj by done; by apply (Hx j c' ctx)].
  rewrite list_lookup_insert_eq in Hj by done. injection Hj as <-. simpl.
  destruct (Hx i c ctx Hc Hctx) as [_ H]. destruct (closing (sc_tcp c)); by injection Hr0 as <-.
Qed.

Lemma http_step_inv ls h l : HttpInv ls h -> http_permitted h l -> unless too_long (http_step h l) (HttpInv ls).
Proof. destruct l; [apply http_accept_inv|apply http_session_inv|apply http_remove_inv]. Qed.

Lemma http_run_inv ls h labels : HttpInv ls h -> guarded http_step http_permitted h labels ->
  unless too_long (for_each http_step h labels) (HttpInv ls).
Proof. intros Hh Hg. eapply unless_guarded; [|exact Hh|exact Hg]. intros. by apply http_step_inv. Qed.
End System.

(** The server as [start] leaves it. *)
Lemma started_http {K} `{Sockets K} `{InetTextSpec} (loop n : Z) (addr : InetAddress) (name : list ascii) (opt : Option_)
    (in_loop : bool) (startLoop : Z -> Z) (cb : HttpRequest -> HttpResponse -> HttpResponse) (o o0 o1 : Os K)
    (h0 h1 h : HttpServer) :
  family addr = AF_INET \/ family addr = AF_INET6 -> zlen (mem addr) = sizeof_in6 -> n < 2 ^ 31 ->
  new_HttpServer loop addr name opt o = Ok (h0, o0) -> http_setThreadNum n (setHttpCallback cb h0) = Ok h1 ->
  http_start in_loop startLoop h1 o0 = Ok (h, o1) ->
  http_callback h = cb /\ HttpInv (workers (threadPool_ (server_ h))) (mkHttpSys (server_ h) []).
Proof.
  intros Haf Hm Hn E0 E1 E2. unfold new_HttpServer in E0. obind. destruct r as [s0 oo]. injection E0 as <- <-.
  unfold http_setThreadNum in E1. simpl in E1. obind. unfold http_start in E2. simpl in E2. obind.
  destruct r0 as [s o2]. injection E2 as <- <-. simpl. split; [done|].
  destruct (started_server_inv loop n addr name opt in_loop false startLoop o oo o2 s0 r s Haf Hm Hn Hr Hr0 Hr1) as [Hs _].
  pose proof (started_objects loop n addr name opt in_loop false startLoop o oo o2 s0 r s) as Ho.
  assert (objects s = []) as Hnil by (by apply Ho). constructor; simpl; [done|by rewrite Hnil|done].
Qed.

(** ** Properties *)


(** A client connects, sends a request and hangs up; the server forgets it. *)
Definition read_request (iov : list Z) : readv_result :=
  if 1000 <=? iov_total iov then ReadData (print_request sample_line sample_headers) else ReadError 11.

Definition read_end (iov : list Z) : readv_result := if 0 <=? iov_total iov then ReadData [] else ReadError 11.

Definition sample_history : list http_label :=
  [HAccept 9; HSession 0 invalid HEstablish; HSession 0 (mkTimestamp 5) (HEvent POLLIN read_request);
   HSession 0 (mkTimestamp 6) (HEvent POLLIN read_end); HRemove 0; HSession 0 (mkTimestamp 7) HFunctor].

Definition sample_http : HttpServer * Os table :=
  match new_HttpServer 7 sample_addr (bytes "srv") kNoReusePort sample_os with
  | Ok p => p | Err _ => (mkHttpServer sample_sized defaultHttpCallback, sample_os) end.
Definition sized_http : HttpServer :=
  match http_setThreadNum 2 (setHttpCallback defaultHttpCallback sample_http.1) with Ok h => h | Err _ => sample_http.1 end.
Definition started_http_server : HttpServer * Os table :=
  match http_start true (fun i => 100 + i) sized_http sample_http.2 with Ok p => p | Err _ => sample_http end.

Definition http_after (k : nat) : HttpSys :=
  let h := mkHttpSys (server_ started_http_server.1) [] in
  match for_each (http_step (fun _ => full_write) defaultHttpCallback (fun _ => true)) h (firstn k sample_history) with
  | Ok h' => h' | Err _ => h end.

Lemma read_request_bounded iov bs : read_request iov = ReadData bs -> zlen bs <= iov_total iov.
Proof.
  unfold read_request. destruct (Z.leb_spec 1000 (iov_total iov)); [|done]. intros [= <-].
  assert (zlen (print_request sample_line sample_headers) <= 1000) by (vm_compute; discriminate). lia.
Qed.

Lemma read_end_bounded iov bs : read_end iov = ReadData bs -> zlen bs <= iov_total iov.
Proof. unfold read_end. destruct (Z.leb_spec 0 (iov_total iov)); [|done]. by intros [= <-]. Qed.

Lemma only_reads mask : selected mask = [readCallback] ->
  ~ (closeCallback ∈ selected mask /\ readCallback ∈ selected mask).
Proof. intros ->. intros [H%list_elem_of_singleton _]. discriminate H. Qed.

(** Every step of the history is one the environment may take. *)
Lemma sample_history_guarded :
  guarded (http_step (fun _ => full_write) defaultHttpCallback (fun _ => true)) (http_permitted (fun _ => true))
    (http_after 0) sample_history.
Proof.
  apply (guarded_step _ _ _ (http_after 1)); [vm_compute; split; reflexivity|vm_compute; reflexivity|].
  apply (guarded_step _ _ _ (http_after 2)); [do 2 eexists; split_and!; vm_compute; reflexivity|vm_compute; reflexivity|].
  apply (guarded_step _ _ _ (http_after 3)); [|vm_compute; reflexivity|].
  { do 2 eexists. split; [vm_compute; reflexivity|]. split; [vm_compute; reflexivity|]. split.
    - split; [by eexists|]. split; [by apply only_reads|apply read_request_bounded].
    - intros _ bs _ _ ctx [= <-]. done. }
  apply (guarded_step _ _ _ (http_after 4)); [|vm_compute; reflexivity|].
  { do 2 eexists. split; [vm_compute; reflexivity|]. split; [vm_compute; reflexivity|]. split.
    - split; [by eexists|]. split; [by apply only_reads|apply read_end_bounded].
    - intros _ bs E Hbs. unfold read_end in E. destruct (0 <=? _); [|done]. by injection E as <-. }
  apply (guarded_step _ _ _ (http_after 5)); [|vm_compute; reflexivity|].
  { eexists. split; [vm_compute; reflexivity|]. discriminate. }
  apply (guarded_step _ _ _ (http_after 6)); [|vm_compute; reflexivity|exact I].
  do 2 eexists. split; [vm_compute; reflexivity|]. split; [vm_compute; reflexivity|exact I].
Qed.

